(* ===== verification/_CoqProject ===== *)
-Q . S2P
Prelude.v
Crypto.v
Hkdf.v
Files.v
Edhoc4.v
Edhoc4Facts.v
Edhoc4Safety.v
Edhoc4Auth.v
Edhoc03.v
Edhoc03Facts.v
Edhoc03Auth.v
Frag.v
Responder.v
RlmEapEdhoc.v
RlmFacts.v
EapPeer.v
PeerFacts.v
Conversation.v
Fragments.v
Rfc1321.v
Md5.v
RadiusAttr.v
EapRelay.v
RelayFacts.v
RelayAuth.v
RelayClient.v
RelayService.v
Nas5gs.v
SmfSecAuth.v
SmfFacts.v
SmfSession.v
NamfTransfer.v
NamfFacts.v
BenchRadius.v
BenchFacts.v
BenchRun.v
Bootstrap.v
BootstrapFacts.v
PolyRing.v
Transform.v
Keccak.v
KeccakFacts.v
BlockCodec.v
SpongeFacts.v
KemNtt.v
KemNttFacts.v
KemPoly.v
KemPolyFacts.v
KemCodecFacts.v
Kem.v
KemSymmetric.v
KemScheme.v
KemFacts.v
DsaNtt.v
DsaNttFacts.v
DsaRoundFacts.v
DsaPoly.v
Dsa.v
DsaCodecFacts.v
DsaPolyFacts.v
DsaSampling.v
DsaFacts.v
DsaCanonical.v
KemCrypto.v
DsaCrypto.v
