(* ===== verification/Prelude.v ===== *)
(** * EAP-EDHOC secondary authentication: verification library

    The repository adds a secondary authentication to a 5G core: after a PDU
    session is set up, the SMF runs an EAP conversation between the UE and a RADIUS
    server, and the EAP method is EDHOC, either classical (methods 0 to 3) or with
    post-quantum primitives (method 4).  The path of a message is

<<
      UE  -- NAS --  AMF -- N1N2 --  SMF  -- UDP --  relay at the UPF -- RADIUS -- FreeRADIUS
      EapPeer        NamfTransfer    SmfSecAuth      EapRelay, Md5                 RlmEapEdhoc
      Edhoc4/03                      Nas5gs                                        Edhoc4/03
>>

    and after it both ends may bootstrap OSCORE keys from the EMSK (Bootstrap).  The
    key encapsulation and the signatures of method 4 are ML-KEM-768 and ML-DSA-44 of the
    vendored PQClean, both modelled down to the permutation of Keccak (Keccak, KemNtt,
    KemPoly, Kem; DsaNtt, DsaPoly, Dsa).
    This library models the C code of these parts and proves it correct.

    ** Conventions

    A [uint8_t] array is a list of integers; lengths are [zlen]; fixed width
    arithmetic is written out with [u8], [u16], [u32] and [u64].  Stateful C
    functions are computations of the monad [M S A] below: they return [Ok], an
    error code [Err rc], or [Fault], which stands for a write outside an array or a
    failed assertion, and keep the state on every outcome as the C code does.  Three
    program logics go with it: [wp] (the run succeeds), [wlp] (if it succeeds) and
    [ht] (a postcondition for each of the three outcomes).  NULL pointers are [None].
    Loops are structural recursions whose fuel is the length of the data that they
    consume; the lemmas on each loop show that this is enough.

    ** Files

    - Prelude: byte strings, the monad and its logics, the tactics [zl] (lengths)
      and [slices] (concatenations), and the rewrite base [zlen].
    - Crypto: the class [Crypto] of the primitives the C code calls (libsodium,
      ML-KEM-768, ML-DSA-44), their laws [CryptoLaws], and [toy_crypto], a computable
      instance of both used by the witnesses.  KemCrypto and DsaCrypto
      discharge the laws of the key encapsulation and of the signatures for the C code.
    - Hkdf: HKDF as edhoc4.c computes it, against RFC 5869.
    - Files: [fopen], [fread] and [fwrite] for the credential files.
    - Edhoc4: edhoc4/edhoc4.c, selftest.c and keygen.c.  Edhoc4Facts: two provisioned
      peers complete the handshake and agree.  Edhoc4Safety: every handler on any
      input from any well formed context keeps the sizes, returns documented errors,
      and faults exactly where a buffer is too small; wrong roles; credential files.
      Edhoc4Auth: what has been verified when a party accepts.
    - Edhoc03, Edhoc03Facts, Edhoc03Auth: the same for edhoc4/edhoc03.c,
      selftest03.c and keygen03.c.
    - Frag: the fragment format, and the abstract sender and reassembly that both
      sides are shown to implement.
    - Responder: the two cores as the responder of a session, their invariant.
    - RlmEapEdhoc: rlm_eap_edhoc.c, the FreeRADIUS module: configuration, session
      record, fragmentation, and [mod_process].  RlmFacts: reachable sessions never
      overrun a buffer, and EAP-Success follows only a verified message 3.
    - EapPeer: the EAP engine of benchmark/e2e_radius_bench.c ([eng_t],
      [eng_react]).  PeerFacts: its invariant and bounds.
    - Conversation: peer and module joined; a whole conversation succeeds with equal
      keys for every method.  Fragments: any message survives fragmentation by the
      peer and reassembly by the module.
    - Rfc1321: MD5 and HMAC as RFC 1321 and RFC 2104 define them, apart from the code.
      Md5: MD5 and HMAC of open5gs/src/upf/eap-relay.c, which compute them.
    - RadiusAttr: RADIUS packets and attribute lists as data, encoding and scanning.
    - EapRelay: the rest of eap-relay.c; the class [Env] is its environment.
      RelayFacts: its loops as folds over scanned attributes.  RelayAuth: a response
      is accepted exactly when it is authentic by RFC 2865 and RFC 3579.  RelayClient:
      the Access-Request and its reader.  RelayService: the exchange, the datagram
      protocol, bounds, start and stop.
    - Nas5gs: the NAS messages that carry EAP (lib/nas/5gs), with their round trip.
    - SmfSecAuth: smf/radius-client.c, gsm-build.c and the secondary-authentication
      parts of gsm-sm.c, context.h and timer.c.  SmfFacts: SMF and relay joined.
      SmfSession: the abstract conversation and the refinement of it by the SMF.
    - NamfTransfer: smf/namf-build.c and the AMF's handling of a message without N2
      container (amf/namf-handler.c, nas-path.c, gmm-build.c).  NamfFacts: every
      message of the conversation reaches the UE.
    - BenchRadius: the RADIUS client of e2e_radius_bench.c.  BenchFacts: its packets.
      BenchRun: a handshake over any network, its counters, bounds and termination.
    - Bootstrap: bootstrap/bootstrap.c and selftest.c.  BootstrapFacts: RFC 5295 and
      RFC 8613, mirrored contexts after a handshake.
    - Keccak: PQClean/common/fips202.c.  KeccakFacts: the unrolled permutation against
      the steps of FIPS 202.  SpongeFacts: the one-shot and the incremental functions
      against the sponge of FIPS 202.
    - PolyRing: congruence modulo a constant, polynomials modulo X^n - s.  Transform:
      loops of butterflies over any modulus, their inverse, and that they preserve
      products.  BlockCodec: loops that write blocks of bytes or coefficients, bit fields.
    - KemNtt: reduce.c and ntt.c of PQClean/crypto_kem/ml-kem-768/clean.  KemNttFacts:
      the reductions, and the transforms as changes of representation, without overflow.
    - KemPoly: cbd.c, verify.c, poly.c and polyvec.c.  KemPolyFacts: products of
      polynomials and vectors.  KemCodecFacts: serialization, compression, messages,
      the binomial distribution, constant-time comparison and move.
    - Kem: symmetric.h, symmetric-shake.c, indcpa.c and kem.c.  KemSymmetric: the class
      [Symmetric] with its laws, which the Keccak functions satisfy, and the sampling of
      the matrix.  KemScheme: decryption gives the message when the noise is small.
      KemFacts: the mechanism.
    - DsaNtt: params.h, reduce.c, rounding.c and ntt.c of
      PQClean/crypto_sign/ml-dsa-44/clean.  DsaNttFacts: the reductions, and the
      transforms without overflow.  DsaRoundFacts: rounding, high bits and hints.
    - DsaPoly: poly.c and polyvec.c without sampling and serialization.  DsaPolyFacts:
      sized polynomials, products, the verifier recovers the signer's high bits.
    - Dsa: symmetric-shake.c, the sampling of poly.c, packing.c and sign.c over the class
      [Shake], which [fips202_shake] instantiates.  DsaCodecFacts: serialization of keys,
      responses and hints.  DsaSampling: the laws [ShakeLaws] of the Keccak functions,
      and the ranges of what is sampled.  DsaFacts: signing and verifying.
      DsaCanonical: a signature has one encoding.
    - KemCrypto: kem.c as the key encapsulation of [Crypto], and the handshake over it.
      DsaCrypto: kem.c and sign.c together, and the handshake over both.

    ** Groups of theorems

    Agreement and liveness: [edhoc4_handshake_agrees], [edhoc03_handshake_agrees],
    [method4_conversation_succeeds], [classical_conversation_succeeds],
    [smf_chain_delivers], [bootstrap_after_handshake], [kem_agreement],
    [edhoc4_over_mlkem], [mldsa_signature_verifies], [edhoc4_over_pqclean].
    What a verifier accepts: [mldsa_verify_iff].
    Authentication: [responder_done_verified], [initiator_accepts_verified] and their
    classical versions, [eap_success_verified], [radius_verify_response_iff],
    [smf_result_authentic].
    Memory safety and bounds: [exec4_safe], [exec3_safe], [handle_msg1_fault_iff],
    [mod_process_bounds], [eng_react_bounds], [relay_step_answers],
    [parse_reply_spec], [run_handshake_spec].
    Refinement of an abstract specification: [secauth_refines], [secauth_delivered].
    Equivalence with a standard: [hkdf_expand_rfc5869], [md5_rfc1321],
    [hmac_md5_rfc2104], [bk_root_keys_rfc5295], [oscore_context_rfc8613],
    [keccak_permute_fips202], [fips202_one_shot], [fips202_incremental],
    [symmetric_fips203], [gen_matrix_sample_ntt], [ntt_inner_product],
    [compression_correct], [cbd_sample_poly], [dsa_poly_product],
    [hint_recovers_high_bits], [dsa_reductions_correct].
    Round trips: [creds_files_roundtrip], [fragments_roundtrip], [gsm_roundtrip],
    [poly_bytes_roundtrip], [mldsa_signature_encoding].
    Error paths: [kem_implicit_rejection], [kem_ignores_rng_status].
    Termination: [run_handshake_ends], [kem_total]; the conversation theorems give the number of
    rounds that suffices.

    ** Fuel and bounds

    [expand_loop] and [prf_loop] get one unit per output byte and write at least one
    per round; attribute loops get the packet's length and advance by at least two;
    [decode_epco_loop] and [decode_result_loop] get the length of what is left.  The
    conversation of peer and module is run with a number of exchanges that the
    theorems state.  [handshake_loop] of the benchmark has no bound in the code: it
    returns [None] without fuel, and [run_handshake_ends] gives fuel that is enough
    over a network with finitely many datagrams.  [gen_refill] of ML-KEM squeezes one
    more block per unit until it has 256 coefficients; [enough] says that the stream of
    every entry of the matrix has them by then, which is what the code relies on to
    return.  The noise of ML-KEM is a hypothesis of the agreement theorems: FIPS 203
    bounds the probability that it is too large, which is not modelled.  The loops of
    ML-DSA that reject ([uniform_refill], [eta_refill], [challenge_index], [sign_loop])
    return [None] without fuel.  That they accept at some point is only probable, so it
    is a hypothesis on the random bytes where a theorem says that signing succeeds
    ([key_sampling], [signing_returns]), and what a witness evaluates for a concrete
    sponge; [mldsa_verify_iff] is about the runs of the verifier that return.  Messages are at most [E4_MAX_MSG]
    (8192) bytes, fragments 1000, RADIUS packets 4096, NAS messages 32752.

    ** Not modelled

    libsodium and OpenSSL, which are not part of the repository; the other
    schemes of PQClean, which nothing here calls; the security of the primitives (a
    law of [CryptoLaws] says that honest results are accepted, never that others are not); what the sponge functions do when [malloc] fails (they
    exit); the system calls behind [randombytes]; timing, so that the comparison and the
    move without branches are only shown to compute the right values; the
    parts of Open5GS and FreeRADIUS around the files above (SBI and JSON, NGAP, NAS
    security, the RADIUS server itself, its EAP framework beyond the calls of the
    module); UERANSIM's UE, which is C++; the Python programs, ProVerif models and
    scripts; clocks and time, so that a receive timeout is an absent datagram; [main]
    of the end-to-end benchmark (options, statistics, CSV) and the primitive
    benchmarks, which only time library calls.  Logging has no effect. *)
From stdpp Require Import base numbers list option strings.
From Stdlib Require Import ZArith Lia.

#[export] Set Default Goal Selector "!".

Declare Scope c_scope.
Delimit Scope c_scope with c.
#[global] Open Scope Z_scope.

(** ** Byte strings *)

(** A [uint8_t] buffer is a list of integers; [is_byte] bounds its elements. *)
Abbreviation bytes := (list Z).

Definition is_byte (b : Z) : Prop := 0 <= b < 256.
#[export] Instance is_byte_dec b : Decision (is_byte b).
Proof. unfold is_byte. apply _. Defined.

Abbreviation bytes_ok := (Forall is_byte).

(** Conversions to [uint8_t], [uint16_t], [uint32_t], [uint64_t]. *)
Definition u8 (x : Z) : Z := x mod 256.
Definition u16 (x : Z) : Z := x mod 65536.
Definition u32 (x : Z) : Z := x mod 4294967296.
Definition u64 (x : Z) : Z := x mod 18446744073709551616.

(** Conversions to [int16_t], [int32_t], [int64_t]. *)
Definition i16 (x : Z) : Z := (x + 32768) mod 65536 - 32768.
Definition i32 (x : Z) : Z := (x + 2147483648) mod 4294967296 - 2147483648.
Definition i64 (x : Z) : Z := (x + 9223372036854775808) mod 18446744073709551616 - 9223372036854775808.

(** Lengths and offsets of buffers are [size_t] values, kept in [Z]. *)
Definition zlen {A} (l : list A) : Z := Z.of_nat (length l).
Definition ztake {A} (n : Z) (l : list A) : list A := take (Z.to_nat n) l.
Definition zdrop {A} (n : Z) (l : list A) : list A := drop (Z.to_nat n) l.
Definition zreplicate {A} (n : Z) (x : A) : list A := replicate (Z.to_nat n) x.
(** The [n] bytes at offset [off]. *)
Definition sub {A} (l : list A) (off n : Z) : list A := ztake n (zdrop off l).
(** [l\[i\]] with [0] outside the buffer; uses are guarded by a length test. *)
Definition byte_at (l : bytes) (i : Z) : Z := nth (Z.to_nat i) l 0.
(** [memcpy(buf + off, src, zlen src)] for a range inside [buf]. *)
Definition splice {A} (buf : list A) (off : Z) (src : list A) : list A :=
  ztake off buf ++ src ++ zdrop (off + zlen src) buf.

(** Big- and little-endian encodings of fixed-width integers. *)
Definition be16 (x : Z) : bytes := [u8 (x / 256); u8 x].
Definition rd16 (b0 b1 : Z) : Z := b0 * 256 + b1.
Definition be32 (x : Z) : bytes :=
  [u8 (x / 16777216); u8 (x / 65536); u8 (x / 256); u8 x].
Definition rd32 (b0 b1 b2 b3 : Z) : Z :=
  ((b0 * 256 + b1) * 256 + b2) * 256 + b3.
Definition le32 (x : Z) : bytes :=
  [u8 x; u8 (x / 256); u8 (x / 65536); u8 (x / 16777216)].
Definition rdle32 (b0 b1 b2 b3 : Z) : Z := rd32 b3 b2 b1 b0.

(** The bytes of a C string literal, without its terminating NUL. *)
Definition ascii_Z (a : Ascii.ascii) : Z := Z.of_N (Ascii.N_of_ascii a).
Fixpoint str (s : string) : bytes :=
  match s with
  | EmptyString => []
  | String a s' => ascii_Z a :: str s'
  end.

(** ** Lemmas on lengths and slices *)
Create Rewrite HintDb zlen.

Section zlen_lemmas.
Context {A : Type}.
Implicit Types l k : list A.

Lemma zlen_nonneg l : 0 <= zlen l.
Proof. unfold zlen. lia. Qed.
Lemma zlen_nil : zlen (@nil A) = 0.
Proof. reflexivity. Qed.
Lemma zlen_cons x l : zlen (x :: l) = 1 + zlen l.
Proof. unfold zlen. cbn [length]. lia. Qed.
Lemma zlen_app l k : zlen (l ++ k) = zlen l + zlen k.
Proof. unfold zlen. rewrite length_app. lia. Qed.
Lemma zlen_ztake n l : zlen (ztake n l) = Z.min (Z.max 0 n) (zlen l).
Proof. unfold zlen, ztake. rewrite length_take. lia. Qed.
Lemma zlen_zdrop n l : zlen (zdrop n l) = Z.max 0 (zlen l - Z.max 0 n).
Proof. unfold zlen, zdrop. rewrite length_drop. lia. Qed.
Lemma zlen_sub l off n :
  zlen (sub l off n) = Z.min (Z.max 0 n) (Z.max 0 (zlen l - Z.max 0 off)).
Proof. unfold sub. by rewrite zlen_ztake, zlen_zdrop. Qed.
Lemma zlen_zreplicate n (x : A) : zlen (zreplicate n x) = Z.max 0 n.
Proof. unfold zlen, zreplicate. rewrite length_replicate. lia. Qed.
Lemma zlen_splice l off k :
  0 <= off -> off + zlen k <= zlen l -> zlen (splice l off k) = zlen l.
Proof.
  intros. pose proof (zlen_nonneg k). unfold splice.
  rewrite !zlen_app, zlen_ztake, zlen_zdrop. lia.
Qed.
Lemma zlen_0_nil l : zlen l = 0 -> l = [].
Proof. destruct l; [done|]. rewrite zlen_cons. pose proof (zlen_nonneg l). lia. Qed.

Lemma ztake_all n l : zlen l <= n -> ztake n l = l.
Proof. unfold zlen, ztake. intros. apply take_ge. lia. Qed.
Lemma ztake_nonpos n l : n <= 0 -> ztake n l = [].
Proof. unfold ztake. intros. replace (Z.to_nat n) with 0%nat by lia. by rewrite take_0. Qed.
Lemma zdrop_nonpos n l : n <= 0 -> zdrop n l = l.
Proof. unfold zdrop. intros. replace (Z.to_nat n) with 0%nat by lia. by rewrite drop_0. Qed.
Lemma zdrop_all n l : zlen l <= n -> zdrop n l = [].
Proof. unfold zlen, zdrop. intros. apply drop_ge. lia. Qed.
Lemma ztake_app_exact n l k : zlen l = n -> ztake n (l ++ k) = l.
Proof. unfold zlen, ztake. intros <-. rewrite Nat2Z.id. apply take_app_length. Qed.
Lemma zdrop_app_exact n l k : zlen l = n -> zdrop n (l ++ k) = k.
Proof. unfold zlen, zdrop. intros <-. rewrite Nat2Z.id. apply drop_app_length. Qed.
Lemma ztake_app_ge n l k :
  zlen l <= n -> ztake n (l ++ k) = l ++ ztake (n - zlen l) k.
Proof.
  unfold zlen, ztake. intros. rewrite take_app_ge by lia.
  do 2 f_equal. lia.
Qed.
Lemma ztake_app_le n l k : n <= zlen l -> ztake n (l ++ k) = ztake n l.
Proof. unfold zlen, ztake. intros. apply take_app_le. lia. Qed.
Lemma zdrop_app_ge n l k :
  zlen l <= n -> zdrop n (l ++ k) = zdrop (n - zlen l) k.
Proof. unfold zlen, zdrop. intros. rewrite drop_app_ge by lia. f_equal. lia. Qed.
Lemma zdrop_app_le n l k :
  n <= zlen l -> zdrop n (l ++ k) = zdrop n l ++ k.
Proof. unfold zlen, zdrop. intros. apply drop_app_le. lia. Qed.
Lemma splice_all (buf l : list A) : zlen buf = zlen l -> splice buf 0 l = l.
Proof.
  intros H. unfold splice. rewrite ztake_nonpos by lia. rewrite zdrop_all by lia.
  apply app_nil_r.
Qed.
Lemma ztake_splice (buf l : list A) pos :
  0 <= pos -> pos + zlen l <= zlen buf ->
  ztake (pos + zlen l) (splice buf pos l) = ztake pos buf ++ l.
Proof.
  intros. pose proof (zlen_nonneg l). unfold splice. rewrite app_assoc. apply ztake_app_exact.
  rewrite zlen_app, zlen_ztake. lia.
Qed.
Lemma splice_mid (a b b' c : list A) n :
  n = zlen a -> zlen b = zlen b' -> splice (a ++ b ++ c) n b' = a ++ b' ++ c.
Proof.
  intros -> H. unfold splice. rewrite ztake_app_exact by done. do 2 f_equal.
  rewrite zdrop_app_ge by (pose proof (zlen_nonneg b'); lia).
  apply zdrop_app_exact. lia.
Qed.
Lemma zdrop_zdrop n m l : 0 <= n -> 0 <= m -> zdrop n (zdrop m l) = zdrop (m + n) l.
Proof. unfold zdrop. intros. rewrite drop_drop. f_equal. lia. Qed.
Lemma ztake_ztake n m l : ztake n (ztake m l) = ztake (Z.min n m) l.
Proof. unfold ztake. rewrite take_take. f_equal. lia. Qed.
Lemma ztake_zdrop n l : ztake n l ++ zdrop n l = l.
Proof. apply take_drop. Qed.
Lemma zdrop_ztake n m l :
  0 <= n -> 0 <= m -> zdrop n (ztake (n + m) l) = ztake m (zdrop n l).
Proof.
  unfold zdrop, ztake. intros. rewrite skipn_firstn_comm.
  f_equal. lia.
Qed.
Lemma ztake_add n m l :
  0 <= n -> 0 <= m -> ztake (n + m) l = ztake n l ++ ztake m (zdrop n l).
Proof.
  intros. rewrite <-(zdrop_ztake n m) by lia.
  rewrite <-(ztake_zdrop n (ztake (n + m) l)) at 1.
  rewrite ztake_ztake. do 2 f_equal. lia.
Qed.
Lemma sub_app_l l k off n :
  0 <= off -> off + n <= zlen l -> sub (l ++ k) off n = sub l off n.
Proof.
  intros. destruct (decide (0 <= n)).
  - unfold sub. rewrite zdrop_app_le by lia.
    apply ztake_app_le. rewrite zlen_zdrop. lia.
  - unfold sub. by rewrite !ztake_nonpos by lia.
Qed.
Lemma sub_app_r l k off n :
  zlen l <= off -> sub (l ++ k) off n = sub k (off - zlen l) n.
Proof. intros. unfold sub. by rewrite zdrop_app_ge by lia. Qed.
Lemma sub_app_exact l k off n : off = 0 -> zlen l = n -> sub (l ++ k) off n = l.
Proof.
  intros -> ?. unfold sub. rewrite zdrop_nonpos by lia. by apply ztake_app_exact.
Qed.
Lemma sub_all l off n : off = 0 -> zlen l = n -> sub l off n = l.
Proof. intros -> ?. unfold sub. rewrite zdrop_nonpos by lia. apply ztake_all. lia. Qed.
Lemma sub_mid (a b c : list A) off n :
  off = zlen a -> n = zlen b -> sub (a ++ b ++ c) off n = b.
Proof. intros -> ->. rewrite sub_app_r by done. apply sub_app_exact; [lia|done]. Qed.
Lemma sub_end (a b : list A) off n : off = zlen a -> n = zlen b -> sub (a ++ b) off n = b.
Proof. intros -> ->. rewrite sub_app_r by done. apply sub_all; [lia|done]. Qed.
End zlen_lemmas.

#[export] Hint Rewrite @zlen_nil @zlen_cons @zlen_app @zlen_ztake @zlen_zdrop
  @zlen_sub @zlen_zreplicate : zlen.

(** [zl] proves linear goals about lengths of concatenations and slices. *)
Ltac zlen_pos :=
  repeat match goal with
  | |- context [zlen ?l] =>
      lazymatch goal with
      | _ : 0 <= zlen l |- _ => fail
      | _ => pose proof (zlen_nonneg l)
      end
  | _ : context [zlen ?l] |- _ =>
      lazymatch goal with
      | _ : 0 <= zlen l |- _ => fail
      | _ => pose proof (zlen_nonneg l)
      end
  end.
Ltac zl := autorewrite with zlen in *; zlen_pos; lia.

(** [slices] evaluates slices of concatenations whose parts have known lengths. *)
Ltac slices :=
  repeat first
    [ rewrite sub_app_exact by zl
    | rewrite sub_all by zl
    | rewrite sub_app_r by zl
    | rewrite sub_app_l by zl
    | rewrite ztake_app_exact by zl
    | rewrite zdrop_app_exact by zl
    | rewrite ztake_all by zl
    | rewrite zdrop_nonpos by zl ].

(** ** Indexing *)
Lemma byte_at_app_l (l k : bytes) i : 0 <= i < zlen l -> byte_at (l ++ k) i = byte_at l i.
Proof. unfold byte_at, zlen. intros. apply app_nth1. lia. Qed.
Lemma byte_at_app_r (l k : bytes) i : zlen l <= i -> byte_at (l ++ k) i = byte_at k (i - zlen l).
Proof. unfold byte_at, zlen. intros. rewrite app_nth2 by lia. f_equal. lia. Qed.
Lemma byte_at_ztake (l : bytes) n i : 0 <= i < n -> byte_at (ztake n l) i = byte_at l i.
Proof.
  intros. destruct (Z.ltb_spec i (zlen (ztake n l))) as [Hi|Hi].
  - rewrite <-(ztake_zdrop n l) at 2. by rewrite byte_at_app_l by lia.
  - rewrite zlen_ztake in Hi. unfold byte_at, zlen in *. rewrite !nth_overflow; [done|lia|].
    unfold ztake. rewrite length_take. lia.
Qed.
Lemma byte_at_ok (l : bytes) i : bytes_ok l -> is_byte (byte_at l i).
Proof.
  intros H. unfold byte_at. destruct (nth_in_or_default (Z.to_nat i) l 0) as [Hin| ->]; [|done].
  rewrite Forall_forall in H. by apply H, list_elem_of_In.
Qed.
(** The first [n] bytes, one by one. *)
Lemma zdrop_step (l : bytes) i : 0 <= i < zlen l -> zdrop i l = byte_at l i :: zdrop (i + 1) l.
Proof.
  unfold zlen, zdrop, byte_at. intros H. replace (Z.to_nat (i + 1)) with (S (Z.to_nat i)) by lia.
  assert (Hl : (Z.to_nat i < length l)%nat) by lia. revert Hl. generalize (Z.to_nat i). clear.
  intros n. revert l. induction n as [|n IH]; intros [|x l] H; cbn in *; try lia; [by rewrite drop_0|].
  by rewrite IH by lia.
Qed.

(** ** Bytes and fixed-width encodings *)
Lemma u8_byte x : is_byte (u8 x).
Proof. unfold is_byte, u8. apply Z.mod_pos_bound. lia. Qed.
Lemma u8_small x : is_byte x -> u8 x = x.
Proof. unfold is_byte, u8. intros. by apply Z.mod_small. Qed.
Lemma u16_small x : 0 <= x < 65536 -> u16 x = x.
Proof. unfold u16. intros. by apply Z.mod_small. Qed.
Lemma u32_range x : 0 <= u32 x < 2 ^ 32.
Proof. unfold u32. apply Z.mod_pos_bound. lia. Qed.

Lemma rd16_be16 x : 0 <= x < 65536 -> rd16 (u8 (x / 256)) (u8 x) = x.
Proof. unfold rd16, u8. intros. Z.div_mod_to_equations. lia. Qed.
Lemma rd32_be32 x :
  0 <= x < 4294967296 ->
  rd32 (u8 (x / 16777216)) (u8 (x / 65536)) (u8 (x / 256)) (u8 x) = x.
Proof. unfold rd32, u8. intros. Z.div_mod_to_equations. lia. Qed.
Lemma be16_rd16 b0 b1 : is_byte b0 -> is_byte b1 -> be16 (rd16 b0 b1) = [b0; b1].
Proof.
  unfold is_byte, rd16, be16, u8. intros. do 2 f_equal; [|f_equal]; Z.div_mod_to_equations; lia.
Qed.
Lemma rd16_range b0 b1 : is_byte b0 -> is_byte b1 -> 0 <= rd16 b0 b1 < 65536.
Proof. unfold is_byte, rd16. lia. Qed.
Lemma zlen_be16 x : zlen (be16 x) = 2.
Proof. reflexivity. Qed.
Lemma zlen_be32 x : zlen (be32 x) = 4.
Proof. reflexivity. Qed.
Lemma zlen_le32 x : zlen (le32 x) = 4.
Proof. reflexivity. Qed.
#[export] Hint Rewrite zlen_be16 zlen_be32 zlen_le32 : zlen.

Lemma bytes_ok_be16 x : bytes_ok (be16 x).
Proof. repeat constructor; apply u8_byte. Qed.
Lemma bytes_ok_ztake n l : bytes_ok l -> bytes_ok (ztake n l).
Proof. apply Forall_take. Qed.
Lemma bytes_ok_zdrop n l : bytes_ok l -> bytes_ok (zdrop n l).
Proof. apply Forall_drop. Qed.
Lemma bytes_ok_sub off n l : bytes_ok l -> bytes_ok (sub l off n).
Proof. intros. by apply bytes_ok_ztake, bytes_ok_zdrop. Qed.
Lemma bytes_ok_zreplicate n b : is_byte b -> bytes_ok (zreplicate n b).
Proof. intros. by apply Forall_replicate. Qed.

(** ** Outcomes, and the state monad of the C functions

    A C function that returns an error code and mutates a context is a function
    from the state to an outcome and the state it leaves behind: [Ok a] is
    [return 0] with the values written through the out parameters, [Err rc] is
    [return rc], and [Fault] is a memory access outside an object, for which the
    C standard gives no behaviour.  The state is kept on every outcome, since
    the C code does not roll its context back. *)
Inductive res (A : Type) : Type :=
  | Ok (a : A)
  | Err (rc : Z)
  | Fault.
Arguments Ok {A} a.
Arguments Err {A} rc.
Arguments Fault {A}.

#[export] Instance res_eq_dec `{EqDecision A} : EqDecision (res A).
Proof. solve_decision. Defined.

Definition M (S A : Type) : Type := S -> res A * S.

Section monad.
Context {S : Type}.

Definition ret {A} (a : A) : M S A := fun s => (Ok a, s).
Definition fail {A} (rc : Z) : M S A := fun s => (Err rc, s).
Definition crash {A} : M S A := fun s => (Fault, s).
Definition bind {A B} (m : M S A) (k : A -> M S B) : M S B :=
  fun s => match m s with
           | (Ok a, s') => k a s'
           | (Err rc, s') => (Err rc, s')
           | (Fault, s') => (Fault, s')
           end.
(** [if (m != OK) return rc;] *)
Definition or_return {A} (rc : Z) (m : M S A) : M S A :=
  fun s => match m s with
           | (Err _, s') => (Err rc, s')
           | r => r
           end.
Definition gets {A} (f : S -> A) : M S A := fun s => (Ok (f s), s).
Definition modify (f : S -> S) : M S unit := fun s => (Ok tt, f s).
(** [if (b) return rc;] *)
Definition return_if (b : bool) (rc : Z) : M S unit :=
  if b then fail rc else ret tt.
Definition crash_if (b : bool) : M S unit := if b then crash else ret tt.
Definition of_option {A} (rc : Z) (o : option A) : M S A :=
  match o with Some a => ret a | None => fail rc end.
End monad.

(** Run a computation on a part of the state. *)
Definition zoom {S T A} (get : S -> T) (put : T -> S -> S) (m : M T A) : M S A :=
  fun s => let '(r, t) := m (get s) in (r, put t s).

Notation "'let!' x := m 'in' k" := (bind m (fun x => k))
  (at level 10, x pattern, m at level 200, k at level 200,
   format "'[v' 'let!'  x  :=  m  'in' '/' k ']'") : c_scope.
Notation "m ;;; k" := (bind m (fun _ : unit => k))
  (at level 199, k at level 200, right associativity,
   format "'[v' m  ;;; '/' k ']'") : c_scope.

(** The outcome of a run split in three. *)
Lemma surjective_pairing3 {A B D} (p : A * (B * D)) : p = (fst p, (fst (snd p), snd (snd p))).
Proof. by destruct p as [? []]. Qed.

(** ** Specifications of computations

    [post m Q s] says that the outcome and final state of [m] from [s] satisfy
    [Q]; [wp m Q s] that [m] returns [Ok a] with [Q a]. *)
Definition post {S A} (m : M S A) (Q : res A -> S -> Prop) (s : S) : Prop :=
  let '(r, s') := m s in Q r s'.
Definition wp {S A} (m : M S A) (Q : A -> S -> Prop) : S -> Prop :=
  post m (fun r s' => match r with Ok a => Q a s' | _ => False end).
(** What holds if [m] returns [Ok]. *)
Definition wlp {S A} (m : M S A) (Q : A -> S -> Prop) : S -> Prop :=
  post m (fun r s' => match r with Ok a => Q a s' | _ => True end).

Section wp_lemmas.
Context {S : Type}.

Lemma wp_bind {A B} (m : M S A) (k : A -> M S B) Q s :
  wp m (fun a => wp (k a) Q) s -> wp (bind m k) Q s.
Proof. unfold wp, post, bind. by destruct (m s) as [[]]. Qed.
Lemma wlp_bind {A B} (m : M S A) (k : A -> M S B) Q s :
  wlp m (fun a => wlp (k a) Q) s -> wlp (bind m k) Q s.
Proof. unfold wlp, post, bind. by destruct (m s) as [[]]. Qed.
Lemma wp_mono {A} (m : M S A) (Q Q' : A -> S -> Prop) s :
  (forall a s', Q a s' -> Q' a s') -> wp m Q s -> wp m Q' s.
Proof. unfold wp, post. destruct (m s) as [[]]; auto. Qed.
Lemma wp_ret {A} (a : A) (Q : A -> S -> Prop) s : Q a s -> wp (ret a) Q s.
Proof. done. Qed.
Lemma wp_gets {A} (f : S -> A) (Q : A -> S -> Prop) s : Q (f s) s -> wp (gets f) Q s.
Proof. done. Qed.
Lemma wp_modify (f : S -> S) (Q : unit -> S -> Prop) s : Q tt (f s) -> wp (modify f) Q s.
Proof. done. Qed.
Lemma wp_return_if (b : bool) rc (Q : unit -> S -> Prop) s :
  b = false -> Q tt s -> wp (return_if b rc) Q s.
Proof. by intros ->. Qed.
Lemma wp_crash_if (b : bool) (Q : unit -> S -> Prop) s :
  b = false -> Q tt s -> wp (crash_if b) Q s.
Proof. by intros ->. Qed.
Lemma wp_or_return {A} rc (m : M S A) (Q : A -> S -> Prop) s :
  wp m Q s -> wp (or_return rc m) Q s.
Proof. unfold wp, post, or_return. by destruct (m s) as [[]]. Qed.
Lemma wlp_ret {A} (a : A) (Q : A -> S -> Prop) s : Q a s -> wlp (ret a) Q s.
Proof. done. Qed.
Lemma wlp_gets {A} (f : S -> A) (Q : A -> S -> Prop) s : Q (f s) s -> wlp (gets f) Q s.
Proof. done. Qed.
Lemma wlp_modify (f : S -> S) (Q : unit -> S -> Prop) s : Q tt (f s) -> wlp (modify f) Q s.
Proof. done. Qed.
Lemma wlp_return_if (b : bool) rc (Q : unit -> S -> Prop) s :
  (b = false -> Q tt s) -> wlp (return_if b rc) Q s.
Proof. destruct b; [done|]. intros H. by apply H. Qed.
Lemma wlp_crash_if (b : bool) (Q : unit -> S -> Prop) s :
  (b = false -> Q tt s) -> wlp (crash_if b) Q s.
Proof. destruct b; [done|]. intros H. by apply H. Qed.
Lemma wlp_or_return {A} rc (m : M S A) (Q : A -> S -> Prop) s :
  wlp m Q s -> wlp (or_return rc m) Q s.
Proof. unfold wlp, post, or_return. by destruct (m s) as [[]]. Qed.
Lemma wlp_mono {A} (m : M S A) (Q Q' : A -> S -> Prop) s :
  (forall a s', Q a s' -> Q' a s') -> wlp m Q s -> wlp m Q' s.
Proof. unfold wlp, post. destruct (m s) as [[]]; auto. Qed.

Lemma wp_zoom {T A} (get : S -> T) put (m : M T A) (Q : A -> S -> Prop) s :
  wp m (fun a t => Q a (put t s)) (get s) -> wp (zoom get put m) Q s.
Proof. unfold wp, post, zoom. by destruct (m (get s)) as [[]]. Qed.

Lemma wlp_run {A} (m : M S A) Q s a s' : wlp m Q s -> m s = (Ok a, s') -> Q a s'.
Proof. unfold wlp, post. intros H E. by rewrite E in H. Qed.
Lemma wp_run {A} (m : M S A) Q s :
  wp m Q s -> exists a s', m s = (Ok a, s') /\ Q a s'.
Proof. unfold wp, post. destruct (m s) as [[a| |] s']; [eauto|done..]. Qed.
Lemma run_wp {A} (m : M S A) (Q : A -> S -> Prop) s a s' :
  m s = (Ok a, s') -> Q a s' -> wp m Q s.
Proof. unfold wp, post. by intros ->. Qed.
End wp_lemmas.

(** [ht m Q E F]: [Q], [E] and [F] hold of the state after [m] returns a value,
    returns an error code, and faults; [F := fun _ => False] is memory safety. *)
Definition ht {S A} (m : M S A) (Q : A -> S -> Prop) (E : Z -> S -> Prop)
    (F : S -> Prop) : S -> Prop :=
  post m (fun r s' => match r with Ok a => Q a s' | Err rc => E rc s' | Fault => F s' end).

Section ht_lemmas.
Context {S : Type} (E : Z -> S -> Prop) (F : S -> Prop).

Lemma ht_bind {A B} (m : M S A) (k : A -> M S B) Q s :
  ht m (fun a => ht (k a) Q E F) E F s -> ht (bind m k) Q E F s.
Proof. unfold ht, post, bind. by destruct (m s) as [[]]. Qed.
Lemma ht_ret {A} (a : A) (Q : A -> S -> Prop) s : Q a s -> ht (ret a) Q E F s.
Proof. done. Qed.
Lemma ht_gets {A} (f : S -> A) (Q : A -> S -> Prop) s : Q (f s) s -> ht (gets f) Q E F s.
Proof. done. Qed.
Lemma ht_modify (f : S -> S) (Q : unit -> S -> Prop) s : Q tt (f s) -> ht (modify f) Q E F s.
Proof. done. Qed.
Lemma ht_return_if (b : bool) rc (Q : unit -> S -> Prop) s :
  (b = true -> E rc s) -> (b = false -> Q tt s) -> ht (return_if b rc) Q E F s.
Proof. intros HE HQ. destruct b; [by apply HE|by apply HQ]. Qed.
Lemma ht_crash_if (b : bool) (Q : unit -> S -> Prop) s :
  (b = true -> F s) -> (b = false -> Q tt s) -> ht (crash_if b) Q E F s.
Proof. intros HF HQ. destruct b; [by apply HF|by apply HQ]. Qed.
Lemma ht_of_option {A} rc (o : option A) (Q : A -> S -> Prop) s :
  (o = None -> E rc s) -> (forall a, o = Some a -> Q a s) -> ht (of_option rc o) Q E F s.
Proof. destruct o; [intros _ H; by apply H|intros H _; by apply H]. Qed.
Lemma ht_or_return {A} rc (m : M S A) (Q : A -> S -> Prop) s :
  ht m Q (fun _ => E rc) F s -> ht (or_return rc m) Q E F s.
Proof. unfold ht, post, or_return. by destruct (m s) as [[]]. Qed.
Lemma ht_run {A} (m : M S A) Q s : ht m Q E F s ->
  forall r s', m s = (r, s') ->
  match r with Ok a => Q a s' | Err rc => E rc s' | Fault => F s' end.
Proof. unfold ht, post. intros H r s' Em. by rewrite Em in H. Qed.
Lemma ht_post {A} (m : M S A) Q (P : S -> Prop) s :
  (forall rc s', E rc s' -> P s') -> (forall s', F s' -> P s') ->
  (forall a s', Q a s' -> P s') -> ht m Q E F s -> P (snd (m s)).
Proof. unfold ht, post. intros HE HF HQ. destruct (m s) as [[]]; cbn; eauto. Qed.
End ht_lemmas.

Lemma ht_mono {S A} (m : M S A) (Q Q' : A -> S -> Prop) (E E' : Z -> S -> Prop)
    (F F' : S -> Prop) s :
  (forall a s', Q a s' -> Q' a s') -> (forall rc s', E rc s' -> E' rc s') ->
  (forall s', F s' -> F' s') -> ht m Q E F s -> ht m Q' E' F' s.
Proof. unfold ht, post. destruct (m s) as [[]]; auto. Qed.

Lemma ht_ok {S A} (m : M S A) (Q Q' : A -> S -> Prop) E F s :
  ht m Q E F s -> (forall a s', Q a s' -> Q' a s') -> ht m Q' E F s.
Proof. intros H HQ. by eapply ht_mono; [..|exact H]. Qed.

Lemma ht_zoom {S T A} (get : S -> T) put (m : M T A) (Q : A -> S -> Prop)
    (E : Z -> S -> Prop) (F : S -> Prop) s :
  ht m (fun a t => Q a (put t s)) (fun rc t => E rc (put t s)) (fun t => F (put t s)) (get s) ->
  ht (zoom get put m) Q E F s.
Proof. unfold ht, post, zoom. by destruct (m (get s)) as [[]]. Qed.

(** ** Field updates

    [derive_set eta f v c] builds the record [c] with field [f] replaced by [v]:
    [eta] is the eta-expansion of the record type. *)
Ltac derive_set eta f v c :=
  let t := eval cbv beta delta [eta] in (eta c) in
  let t := eval pattern (f c) in t in
  match t with
  | ?F _ => let r := eval cbv beta in (F v) in exact r
  end.
