(* ===== verification/Crypto.v ===== *)
(** * Crypto: the cryptographic primitives the EDHOC cores call

    libsodium (SHA-256, HMAC-SHA256, ChaCha20-Poly1305, X25519, Ed25519 and its
    random generator) is not part of the repository, and ML-KEM-768 and
    ML-DSA-44 are linked from PQClean's archives through their C prototypes; the
    two EDHOC cores use all of them as black boxes, and so does this file.  The
    two archives are modelled in Kem and Dsa, and KemCrypto and DsaCrypto show that
    they satisfy the laws below.  [Crypto] is the list of calls with their C shapes, [CryptoLaws] the documented behaviour the protocol
    relies on: output sizes, and that opening, decapsulating and verifying undo
    sealing, encapsulating and signing.  [toy_crypto] is a concrete instance for
    which the laws are proved, used to evaluate the model. *)
From stdpp Require Import base numbers list option.
From Stdlib Require Import ZArith Lia.
From S2P Require Import Prelude.

(** The calls.  A call that may return a non-zero code gives an [option]; a
    call that draws random bytes threads the generator state [rng]. *)
Class Crypto := {
  rng : Type;
  randombytes_buf : rng -> Z -> bytes * rng;
  crypto_hash_sha256 : bytes -> bytes;
  crypto_auth_hmacsha256 : bytes -> bytes -> bytes;          (* key, message *)
  aead_encrypt : bytes -> bytes -> bytes -> bytes -> bytes;  (* key, nonce, ad, m *)
  aead_decrypt : bytes -> bytes -> bytes -> bytes -> option bytes;
  crypto_scalarmult_base : bytes -> bytes;
  crypto_scalarmult : bytes -> bytes -> option bytes;        (* scalar, point *)
  mlkem_keypair : rng -> option (bytes * bytes) * rng;       (* pk, sk *)
  mlkem_enc : bytes -> rng -> option (bytes * bytes) * rng;  (* ct, ss *)
  mlkem_dec : bytes -> bytes -> option bytes;                (* ct, sk *)
  mldsa_keypair : rng -> option (bytes * bytes) * rng;       (* vk, sk *)
  mldsa_sign : bytes -> bytes -> rng -> option bytes * rng;  (* message, sk *)
  mldsa_verify : bytes -> bytes -> bytes -> bool;            (* sig, message, vk *)
  ed25519_keypair : rng -> (bytes * bytes) * rng;            (* vk, sk *)
  ed25519_sign : bytes -> bytes -> option bytes;             (* message, sk *)
  ed25519_verify : bytes -> bytes -> bytes -> bool           (* sig, message, vk *)
}.

(** Sizes of the keys, ciphertexts and signatures the prototypes state. *)
Class CryptoLaws (C : Crypto) : Prop := {
  randombytes_len r n : 0 <= n -> zlen (fst (randombytes_buf r n)) = n;
  sha256_len m : zlen (crypto_hash_sha256 m) = 32;
  hmac_len k m : zlen (crypto_auth_hmacsha256 k m) = 32;
  aead_encrypt_len k n ad m : zlen (aead_encrypt k n ad m) = zlen m + 16;
  aead_decrypt_len k n ad c m : aead_decrypt k n ad c = Some m -> zlen c = zlen m + 16;
  aead_decrypt_encrypt k n ad m : aead_decrypt k n ad (aead_encrypt k n ad m) = Some m;
  scalarmult_base_len a : zlen (crypto_scalarmult_base a) = 32;
  scalarmult_len a p s : crypto_scalarmult a p = Some s -> zlen s = 32;
  scalarmult_comm a b :
    zlen a = 32 -> zlen b = 32 ->
    exists s, crypto_scalarmult a (crypto_scalarmult_base b) = Some s /\
              crypto_scalarmult b (crypto_scalarmult_base a) = Some s;
  mlkem_keypair_ok r :
    exists pk sk r', mlkem_keypair r = (Some (pk, sk), r') /\
                     zlen pk = 1184 /\ zlen sk = 2400;
  mlkem_enc_ok pk r :
    exists ct ss r', mlkem_enc pk r = (Some (ct, ss), r') /\
                     zlen ct = 1088 /\ zlen ss = 32;
  mlkem_dec_enc r pk sk r' r1 ct ss r2 :
    mlkem_keypair r = (Some (pk, sk), r') ->
    mlkem_enc pk r1 = (Some (ct, ss), r2) ->
    mlkem_dec ct sk = Some ss;
  mldsa_keypair_ok r :
    exists vk sk r', mldsa_keypair r = (Some (vk, sk), r') /\
                     zlen vk = 1312 /\ zlen sk = 2560;
  mldsa_sign_len m sk r sig r' : mldsa_sign m sk r = (Some sig, r') -> zlen sig = 2420;
  mldsa_sign_ok r vk sk r' m r1 :
    mldsa_keypair r = (Some (vk, sk), r') -> exists sig r2, mldsa_sign m sk r1 = (Some sig, r2);
  mldsa_verify_sign r vk sk r' m r1 sig r2 :
    mldsa_keypair r = (Some (vk, sk), r') ->
    mldsa_sign m sk r1 = (Some sig, r2) ->
    mldsa_verify sig m vk = true;
  ed25519_keypair_len r :
    zlen (fst (fst (ed25519_keypair r))) = 32 /\ zlen (snd (fst (ed25519_keypair r))) = 64;
  ed25519_sign_ok m sk : exists sig, ed25519_sign m sk = Some sig /\ zlen sig = 64;
  ed25519_verify_sign r vk sk r' m sig :
    ed25519_keypair r = ((vk, sk), r') ->
    ed25519_sign m sk = Some sig ->
    ed25519_verify sig m vk = true
}.

Section hash_lens.
Context `{CL : CryptoLaws}.
Lemma zlen_sha256 m : zlen (crypto_hash_sha256 m) = 32.
Proof. apply sha256_len. Qed.
Lemma zlen_hmac k m : zlen (crypto_auth_hmacsha256 k m) = 32.
Proof. apply hmac_len. Qed.
Lemma zlen_scalarmult_base a : zlen (crypto_scalarmult_base a) = 32.
Proof. apply scalarmult_base_len. Qed.
Lemma zlen_aead_encrypt k n ad m : zlen (aead_encrypt k n ad m) = zlen m + 16.
Proof. apply aead_encrypt_len. Qed.
Lemma randombytes_zlen r n b r' :
  randombytes_buf r n = (b, r') -> 0 <= n -> zlen b = n.
Proof. intros E Hn. rewrite <-(randombytes_len r n Hn). by rewrite E. Qed.
End hash_lens.
#[export] Hint Rewrite @zlen_sha256 @zlen_hmac @zlen_scalarmult_base
  @zlen_aead_encrypt using typeclasses eauto : zlen.

(** ** A concrete instance

    Not cryptography: short deterministic functions of the right sizes. *)
Module Toy.
Definition pad (n : Z) (l : bytes) : bytes := ztake n (l ++ zreplicate n 0).
Definition digest (m : bytes) : bytes :=
  pad 32 [u8 (fold_left (fun a b => u16 (a * 31 + b + 7)) m 5); u8 (zlen m)].
Definition enc k n ad m : bytes := m ++ pad 16 (digest (k ++ n ++ ad ++ m)).
Definition dec (k n ad c : bytes) : option bytes :=
  let m := ztake (zlen c - 16) c in
  if decide (c = enc k n ad m) then Some m else None.
Definition mul (a p : bytes) : bytes := zip_with (fun x y => u8 (x + y)) (pad 32 a) (pad 32 p).
Definition seed (r : Z) : bytes := pad 32 [u8 (r * 73 + 11); u8 (r / 3)].
Definition kem_ss (e k : bytes) : bytes := digest (e ++ k).
Definition sign (m sk : bytes) : bytes := pad 2420 (digest (ztake 32 sk ++ m)).
Definition ed_sign (m sk : bytes) : bytes := pad 64 (digest (ztake 32 sk ++ m)).

Lemma zlen_pad n l : 0 <= n -> zlen (pad n l) = n.
Proof. intros. unfold pad. zl. Qed.
Lemma pad_pad n l : 0 <= n -> pad n (pad n l) = pad n l.
Proof.
  intros. unfold pad at 1. apply ztake_app_exact. by apply zlen_pad.
Qed.
Lemma ztake_pad n m l : 0 <= n <= m -> ztake n (pad m (pad n l)) = pad n l.
Proof.
  intros. unfold pad at 1. rewrite ztake_ztake, Z.min_l by lia.
  apply ztake_app_exact. apply zlen_pad. lia.
Qed.
Lemma mul_comm a b : mul a b = mul b a.
Proof.
  unfold mul. generalize (pad 32 a), (pad 32 b). intros x.
  induction x as [|p x IH]; intros [|q y]; [done..|].
  cbn. rewrite IH. do 2 f_equal. lia.
Qed.
Lemma mul_pad_r a b : mul a (pad 32 b) = mul a b.
Proof. unfold mul. by rewrite pad_pad. Qed.
Lemma zlen_mul a b : zlen (mul a b) = 32.
Proof.
  unfold mul, zlen. rewrite length_zip_with.
  pose proof (zlen_pad 32 a ltac:(lia)). pose proof (zlen_pad 32 b ltac:(lia)).
  unfold zlen in *. lia.
Qed.
Lemma dec_enc k n ad m : dec k n ad (enc k n ad m) = Some m.
Proof.
  unfold dec.
  assert (ztake (zlen (enc k n ad m) - 16) (enc k n ad m) = m) as ->.
  { unfold enc. apply ztake_app_exact.
    rewrite zlen_app, zlen_pad by lia. lia. }
  by rewrite decide_True.
Qed.
Lemma dec_len k n ad c m : dec k n ad c = Some m -> zlen c = zlen m + 16.
Proof.
  unfold dec. case_decide as H; [|done]. intros [= <-].
  rewrite H at 1. unfold enc. rewrite zlen_app, zlen_pad by lia. done.
Qed.
End Toy.

#[export] Instance toy_crypto : Crypto := {|
  rng := Z;
  randombytes_buf := fun r n => (Toy.pad n (Toy.seed r), r + 1);
  crypto_hash_sha256 := Toy.digest;
  crypto_auth_hmacsha256 := fun k m => Toy.digest (k ++ m);
  aead_encrypt := Toy.enc;
  aead_decrypt := Toy.dec;
  crypto_scalarmult_base := Toy.pad 32;
  crypto_scalarmult := fun a p => Some (Toy.mul a p);
  mlkem_keypair := fun r =>
    (Some (Toy.pad 1184 (Toy.pad 32 (Toy.seed r)), Toy.pad 2400 (Toy.pad 32 (Toy.seed r))), r + 1);
  mlkem_enc := fun pk r =>
    (Some (Toy.pad 1088 (Toy.pad 32 (Toy.seed r)),
           Toy.kem_ss (Toy.pad 32 (Toy.seed r)) (ztake 32 pk)), r + 1);
  mlkem_dec := fun ct sk => Some (Toy.kem_ss (ztake 32 ct) (ztake 32 sk));
  mldsa_keypair := fun r =>
    (Some (Toy.pad 1312 (Toy.pad 32 (Toy.seed r)), Toy.pad 2560 (Toy.pad 32 (Toy.seed r))), r + 1);
  mldsa_sign := fun m sk r => (Some (Toy.sign m sk), r + 1);
  mldsa_verify := fun sig m vk => bool_decide (sig = Toy.sign m vk);
  ed25519_keypair := fun r =>
    ((Toy.pad 32 (Toy.seed r), Toy.pad 64 (Toy.pad 32 (Toy.seed r))), r + 1);
  ed25519_sign := fun m sk => Some (Toy.ed_sign m sk);
  ed25519_verify := fun sig m vk => bool_decide (sig = Toy.ed_sign m vk)
|}.

#[export] Instance toy_laws : CryptoLaws toy_crypto.
Proof.
  split; cbn; intros.
  - by apply Toy.zlen_pad.
  - by apply Toy.zlen_pad.
  - by apply Toy.zlen_pad.
  - unfold Toy.enc. rewrite zlen_app, Toy.zlen_pad; lia.
  - by eapply Toy.dec_len.
  - apply Toy.dec_enc.
  - by apply Toy.zlen_pad.
  - simplify_eq. apply Toy.zlen_mul.
  - eexists. split; [done|]. rewrite !Toy.mul_pad_r. by rewrite Toy.mul_comm.
  - do 3 eexists. split_and!; [done|by apply Toy.zlen_pad..].
  - do 3 eexists. split_and!; [done|by apply Toy.zlen_pad..].
  - simplify_eq. by rewrite !Toy.ztake_pad by lia.
  - do 3 eexists. split_and!; [done|by apply Toy.zlen_pad..].
  - simplify_eq. by apply Toy.zlen_pad.
  - by do 2 eexists.
  - simplify_eq. apply bool_decide_eq_true. unfold Toy.sign.
    by rewrite !Toy.ztake_pad by lia.
  - split; by apply Toy.zlen_pad.
  - eexists. split; [done|by apply Toy.zlen_pad].
  - simplify_eq. apply bool_decide_eq_true. unfold Toy.ed_sign.
    by rewrite Toy.ztake_pad, ztake_all by (rewrite ?Toy.zlen_pad; lia).
Qed.

(** ** Computations with a context and the random generator *)
Section context_state.
Context `{C : Crypto} {X : Type}.

Definition st : Type := X * rng.

Definition ctx_get {A} (f : X -> A) : M st A := gets (fun s => f (fst s)).
Definition ctx_set (f : X -> X) : M st unit := modify (fun s => (f (fst s), snd s)).
(** A call that draws random bytes. *)
Definition draw {A} (f : rng -> A * rng) : M st A :=
  fun s => let '(a, r) := f (snd s) in (Ok a, (fst s, r)).

Lemma wp_draw {A} (f : rng -> A * rng) a r' (Q : A -> st -> Prop) x r :
  f r = (a, r') -> Q a (x, r') -> wp (draw f) Q (x, r).
Proof. unfold wp, post, draw. cbn. by intros ->. Qed.
Lemma wlp_draw {A} (f : rng -> A * rng) (Q : A -> st -> Prop) x r :
  (forall a r', f r = (a, r') -> Q a (x, r')) -> wlp (draw f) Q (x, r).
Proof. unfold wlp, post, draw. cbn. destruct (f r) eqn:E. auto. Qed.
Lemma wlp_of_option {A} rc (o : option A) (Q : A -> st -> Prop) s :
  (forall a, o = Some a -> Q a s) -> wlp (of_option rc o) Q s.
Proof. destruct o; [|done]. intros H. by apply H. Qed.
Lemma wp_of_option {A} rc (o : option A) a (Q : A -> st -> Prop) s :
  o = Some a -> Q a s -> wp (of_option rc o) Q s.
Proof. by intros ->. Qed.

Lemma ht_draw {A} (f : rng -> A * rng) (Q : A -> st -> Prop) E F x r :
  (forall a r', f r = (a, r') -> Q a (x, r')) -> ht (draw f) Q E F (x, r).
Proof. unfold ht, post, draw. cbn. destruct (f r) eqn:Ef. auto. Qed.
Lemma ht_ctx_get {A} (f : X -> A) (Q : A -> st -> Prop) E F x r :
  Q (f x) (x, r) -> ht (ctx_get f) Q E F (x, r).
Proof. done. Qed.
Lemma ht_ctx_set (f : X -> X) (Q : unit -> st -> Prop) E F x r :
  Q tt (f x, r) -> ht (ctx_set f) Q E F (x, r).
Proof. done. Qed.
Lemma wp_ctx_get {A} (f : X -> A) (Q : A -> st -> Prop) x r :
  Q (f x) (x, r) -> wp (ctx_get f) Q (x, r).
Proof. done. Qed.
Lemma wp_ctx_set (f : X -> X) (Q : unit -> st -> Prop) x r :
  Q tt (f x, r) -> wp (ctx_set f) Q (x, r).
Proof. done. Qed.
Lemma wlp_ctx_get {A} (f : X -> A) (Q : A -> st -> Prop) x r :
  Q (f x) (x, r) -> wlp (ctx_get f) Q (x, r).
Proof. done. Qed.
Lemma wlp_ctx_set (f : X -> X) (Q : unit -> st -> Prop) x r :
  Q tt (f x, r) -> wlp (ctx_set f) Q (x, r).
Proof. done. Qed.
End context_state.
Arguments st {C} X.

(** Run a computation on a context of its own, a local variable of the caller. *)
Definition with_ctx `{C : Crypto} {X Y A} (y : Y) (m : M (st Y) A) : M (st X) (A * Y) :=
  fun s => match m (y, snd s) with
           | (Ok a, (y', g)) => (Ok (a, y'), (fst s, g))
           | (Err rc, (_, g)) => (Err rc, (fst s, g))
           | (Fault, (_, g)) => (Fault, (fst s, g))
           end.

Lemma wp_with_ctx `{C : Crypto} {X Y A} (y : Y) (m : M (st Y) A)
    (Q : A * Y -> st X -> Prop) x g :
  wp m (fun a s => Q (a, fst s) (x, snd s)) (y, g) -> wp (with_ctx y m) Q (x, g).
Proof. unfold wp, post, with_ctx. cbn. by destruct (m (y, g)) as [[] []]. Qed.
