(* ===== verification/Hkdf.v ===== *)
(** * Hkdf: HKDF-SHA256 as the EDHOC cores and the bootstrap module compute it

    [hkdf_extract] and [hkdf_expand] model the functions of edhoc4/edhoc4.c;
    edhoc03.c and bootstrap.c have their own copies, modelled in their files and
    proved equal to these.  [hkdf_okm] is RFC 5869's definition of the output,
    and the expansion loop is proved to compute it for every length the one-byte
    block counter can reach. *)
From stdpp Require Import base numbers list option.
From Stdlib Require Import ZArith Lia.
From S2P Require Import Prelude Crypto.

(** The loop: [mac] is HMAC under the PRK.  [fuel] bounds the iterations; each
    one writes at least one byte, so [okm_len] of them are enough. *)
Fixpoint expand_loop (mac : bytes -> bytes) (info : bytes) (okm_len : Z)
    (fuel : nat) (done tlen ctr : Z) (t okm : bytes) : bytes :=
  match fuel with
  | O => okm
  | S fuel =>
      if done <? okm_len then
        let t := mac ((if tlen =? 0 then [] else ztake tlen t) ++ info ++ [ctr]) in
        let tlen := 32 in
        let n := if okm_len - done <? tlen then okm_len - done else tlen in
        expand_loop mac info okm_len fuel (done + n) tlen (u8 (ctr + 1)) t
          (okm ++ ztake n t)
      else okm
  end.

Section hkdf.
Context `{C : Crypto}.

Definition hkdf_extract (salt ikm : bytes) : bytes := crypto_auth_hmacsha256 salt ikm.

Definition hkdf_expand (prk info : bytes) (okm_len : Z) : bytes :=
  expand_loop (crypto_auth_hmacsha256 prk) info okm_len (Z.to_nat okm_len) 0 0 1 [] [].
End hkdf.

(** ** RFC 5869, section 2.3 *)
Section spec.
Variable mac : bytes -> bytes.
Variable info : bytes.

(** [T(0)] is empty and [T(n) = HMAC(PRK, T(n-1) | info | n)]. *)
Fixpoint hkdf_T (n : nat) : bytes :=
  match n with
  | O => []
  | S m => mac (hkdf_T m ++ info ++ [Z.of_nat n])
  end.

Definition hkdf_stream (n : nat) : bytes := concat (map hkdf_T (seq 1 n)).

(** The first [L] bytes of [T(1) | ... | T(N)], [N = ceil(L / 32)]. *)
Definition hkdf_okm (L : Z) : bytes := ztake L (hkdf_stream (Z.to_nat ((L + 31) / 32))).

Hypothesis mac_len : forall m, zlen (mac m) = 32.

Lemma hkdf_stream_S n : hkdf_stream (S n) = hkdf_stream n ++ hkdf_T (S n).
Proof.
  unfold hkdf_stream. rewrite seq_S, map_app, concat_app. cbn [map concat].
  rewrite app_nil_r. done.
Qed.

Lemma hkdf_stream_len n : zlen (hkdf_stream n) = 32 * Z.of_nat n.
Proof.
  induction n as [|n IH]; [done|].
  rewrite hkdf_stream_S, zlen_app, IH. cbn [hkdf_T]. rewrite mac_len. lia.
Qed.

Lemma hkdf_stream_prefix n k : exists tl, hkdf_stream (n + k) = hkdf_stream n ++ tl.
Proof.
  induction k as [|k [tl IH]].
  - exists []. by rewrite Nat.add_0_r, app_nil_r.
  - exists (tl ++ hkdf_T (S (n + k))).
    rewrite Nat.add_succ_r, hkdf_stream_S, IH. by rewrite app_assoc.
Qed.

(** The state of the loop after [i] full blocks. *)
Lemma expand_loop_spec L fuel i k ctr :
  L <= 255 * 32 -> 32 * Z.of_nat i < L + 32 ->
  (32 * Z.of_nat i < L -> ctr = Z.of_nat i + 1) ->
  L <= 32 * Z.of_nat (i + k) ->
  L - Z.min (32 * Z.of_nat i) L <= Z.of_nat fuel ->
  expand_loop mac info L fuel (Z.min (32 * Z.of_nat i) L)
    (if decide (i = 0%nat) then 0 else 32) ctr (hkdf_T i)
    (ztake (Z.min (32 * Z.of_nat i) L) (hkdf_stream i))
  = ztake L (hkdf_stream (i + k)).
Proof.
  revert i k ctr.
  induction fuel as [|fuel IH]; intros i k ctr HL Hi Hc Hk Hf; cbn [expand_loop].
  all: destruct (decide (L <= 32 * Z.of_nat i)) as [Hdone|Hmore].
  2: lia.
  1, 2: destruct (hkdf_stream_prefix i k) as [tl ->];
    rewrite Z.min_r by lia; rewrite ?Z.ltb_irrefl;
    symmetry; apply ztake_app_le; rewrite hkdf_stream_len; lia.
  destruct k as [|k]; [lia|].
  rewrite Hc by lia. rewrite Z.min_l by lia. destruct (Z.ltb_spec (32 * Z.of_nat i) L); [|lia].
  assert (mac ((if (if decide (i = 0%nat) then 0 else 32) =? 0 then [] else
      ztake (if decide (i = 0%nat) then 0 else 32) (hkdf_T i)) ++ info ++ [Z.of_nat i + 1])
    = hkdf_T (S i)) as ->.
  { destruct i as [|i]; [done|]. rewrite decide_False by done.
    rewrite ztake_all by (cbn [hkdf_T]; rewrite mac_len; lia).
    cbn [Z.eqb]. cbn [hkdf_T]. do 4 f_equal. lia. }
  rewrite <-Nat.add_succ_comm.
  rewrite <-(IH (S i) k (u8 (Z.of_nat i + 1 + 1)) HL); try lia.
  2: { intros. rewrite u8_small by (unfold is_byte; lia). lia. }
  f_equal.
  - destruct (Z.ltb_spec (L - 32 * Z.of_nat i) 32); lia.
  - rewrite hkdf_stream_S.
    rewrite (ztake_all _ (hkdf_stream i)) by (rewrite hkdf_stream_len; lia).
    rewrite ztake_app_ge by (rewrite hkdf_stream_len; lia).
    rewrite hkdf_stream_len. f_equal.
    destruct (Z.ltb_spec (L - 32 * Z.of_nat i) 32); do 2 f_equal; lia.
Qed.

Lemma expand_loop_okm L :
  0 <= L <= 255 * 32 ->
  expand_loop mac info L (Z.to_nat L) 0 0 1 [] [] = hkdf_okm L.
Proof.
  intros HL. unfold hkdf_okm.
  pose proof (expand_loop_spec L (Z.to_nat L) 0 (Z.to_nat ((L + 31) / 32)) 1) as E.
  cbn [Nat.add Z.of_nat] in E. rewrite Z.mul_0_r, Z.min_l in E by lia.
  rewrite decide_True in E by done. apply E; try lia.
  Z.div_mod_to_equations. lia.
Qed.

Lemma hkdf_okm_len L : 0 <= L -> zlen (hkdf_okm L) = L.
Proof.
  intros. unfold hkdf_okm. rewrite zlen_ztake, hkdf_stream_len.
  assert (L <= 32 * Z.of_nat (Z.to_nat ((L + 31) / 32))).
  { Z.div_mod_to_equations. lia. }
  lia.
Qed.
End spec.

Section facts.
Context `{CL : CryptoLaws}.

Lemma zlen_hkdf_extract salt ikm : zlen (hkdf_extract salt ikm) = 32.
Proof. apply hmac_len. Qed.

Lemma hkdf_expand_okm prk info L :
  0 <= L <= 255 * 32 ->
  hkdf_expand prk info L = hkdf_okm (crypto_auth_hmacsha256 prk) info L.
Proof. intros. apply expand_loop_okm; [intros; apply hmac_len|lia]. Qed.

Lemma zlen_hkdf_expand prk info L :
  0 <= L <= 255 * 32 -> zlen (hkdf_expand prk info L) = L.
Proof.
  intros. rewrite hkdf_expand_okm by lia. apply hkdf_okm_len; [|lia].
  intros. apply hmac_len.
Qed.

(** [hkdf_expand] computes the output keying material RFC 5869 defines,
    for every requested length up to the 255 blocks its one-byte counter can
    number, and that output has exactly the requested length. *)
Theorem hkdf_expand_rfc5869 prk info L :
  0 <= L <= 255 * 32 ->
  hkdf_expand prk info L = hkdf_okm (crypto_auth_hmacsha256 prk) info L /\
  zlen (hkdf_expand prk info L) = L.
Proof. intros. split; [by apply hkdf_expand_okm|by apply zlen_hkdf_expand]. Qed.
End facts.

#[export] Hint Rewrite @zlen_hkdf_extract using typeclasses eauto : zlen.
#[export] Hint Rewrite @zlen_hkdf_expand using first [typeclasses eauto | lia] : zlen.

Lemma hkdf_expand_rfc5869_witness :
  hkdf_expand (C := toy_crypto) [1; 2; 3] [9] 70
  = hkdf_okm (crypto_auth_hmacsha256 [1; 2; 3]) [9] 70 /\
  zlen (hkdf_expand (C := toy_crypto) [1; 2; 3] [9] 70) = 70.
Proof. apply (hkdf_expand_rfc5869 (CL := toy_laws) [1; 2; 3] [9] 70). lia. Defined.

(** The expansions are used through the lemmas above; conversion unfolds them last. *)
#[global] Strategy opaque [hkdf_extract hkdf_expand expand_loop].
