(* ===== verification/Files.v ===== *)
(** * Files: the standard I/O calls of the credential functions

    [fopen], [fread] and [fwrite] as the credential code uses them: a whole file
    read or written at once.  A file system maps paths to contents; which paths
    can be opened for writing and how many bytes a write can store are
    parameters, so that every error branch of the callers can be taken. *)
From stdpp Require Import base gmap strings list option.
From Stdlib Require Import ZArith Lia.
From S2P Require Import Prelude.

Record filesystem := {
  fs_files : gmap string bytes;
  fs_writable : string -> bool;
  fs_room : Z
}.

(** [fopen(path, "rb")] and the first [n] bytes [fread] finds. *)
Definition fread_file (fs : filesystem) (path : string) (n : Z) : option bytes :=
  ztake n <$> fs_files fs !! path.

(** [fopen(path, "wb")], which truncates the file, and [fwrite]: the number of
    bytes stored and the file system after [fclose]. *)
Definition fwrite_file (fs : filesystem) (path : string) (data : bytes)
    : option (Z * filesystem) :=
  if fs_writable fs path then
    let stored := ztake (fs_room fs) data in
    Some (zlen stored,
          {| fs_files := <[path := stored]> (fs_files fs);
             fs_writable := fs_writable fs; fs_room := fs_room fs |})
  else None.

Lemma fread_fwrite fs path data n fs' :
  fwrite_file fs path data = Some (zlen data, fs') ->
  fread_file fs' path n = Some (ztake n data).
Proof.
  unfold fwrite_file, fread_file. destruct (fs_writable fs path); [|done].
  intros [= Hlen <-]. cbn. rewrite lookup_insert_eq. cbn.
  assert (ztake (fs_room fs) data = data) as ->; [|done].
  unfold ztake, zlen in *. rewrite length_take in Hlen.
  apply take_ge. lia.
Qed.
