(* ===== verification/Edhoc4.v ===== *)
(** * Edhoc4: the EAP-EDHOC method 4 core (SIGMA XWING), edhoc4/edhoc4.c

    The context [edhoc4_ctx], the key schedule and the five message handlers.
    A handler is a computation of the monad [M] over the context and the random
    generator: [Ok out] is [return E4_OK] with [out] in the output buffer,
    [Err rc] an error return, and [Fault] a write past a local buffer.  Length
    arguments of pointers are the lengths of the lists. *)
From stdpp Require Import base numbers list option strings.
From Stdlib Require Import ZArith Lia.
From S2P Require Import Prelude Crypto Hkdf Files.
Local Open Scope c_scope.

(** ** Sizes (edhoc4.h) *)
Definition E4_MLKEM_PK : Z := 1184.
Definition E4_MLKEM_SK : Z := 2400.
Definition E4_MLKEM_CT : Z := 1088.
Definition E4_MLDSA_PK : Z := 1312.
Definition E4_MLDSA_SK : Z := 2560.
Definition E4_MLDSA_SIG : Z := 2420.
Definition E4_X25519_PK : Z := 32.
Definition E4_X25519_SK : Z := 32.
Definition E4_XWING_PK : Z := E4_MLKEM_PK + E4_X25519_PK.
Definition E4_XWING_SK : Z := E4_MLKEM_SK + E4_X25519_SK.
Definition E4_XWING_CT : Z := E4_MLKEM_CT + E4_X25519_PK.
Definition E4_XWING_SS : Z := 32.
Definition E4_HASH_LEN : Z := 32.
Definition E4_PRK_LEN : Z := 32.
Definition E4_MAC_LEN : Z := 8.
Definition E4_AEAD_KEY : Z := 32.
Definition E4_AEAD_NONCE : Z := 12.
Definition E4_AEAD_TAG : Z := 16.
Definition E4_CONN_ID : Z := 1.
Definition E4_ID_CRED : Z := 3.
Definition E4_MSK_LEN : Z := 64.
Definition E4_EMSK_LEN : Z := 64.
Definition E4_MAX_MSG : Z := 8192.

Definition E4_OK : Z := 0.
Definition E4_ERR_ARG : Z := -1.
Definition E4_ERR_BUF : Z := -2.
Definition E4_ERR_PARSE : Z := -3.
Definition E4_ERR_KEM : Z := -4.
Definition E4_ERR_AEAD : Z := -5.
Definition E4_ERR_MAC : Z := -6.
Definition E4_ERR_SIG : Z := -7.
Definition E4_ERR_STATE : Z := -8.

(** The sizes of the plaintexts PT2 and PT3. *)
Definition E4_PT2 : Z :=
  E4_XWING_CT + E4_CONN_ID + E4_ID_CRED + E4_MLDSA_PK + E4_MAC_LEN + E4_MLDSA_SIG.
Definition E4_PT3 : Z :=
  E4_ID_CRED + E4_XWING_PK + E4_MAC_LEN + E4_MLDSA_PK + E4_MLDSA_SIG.

Create HintDb e4.
#[export] Hint Unfold E4_MLKEM_PK E4_MLKEM_SK E4_MLKEM_CT E4_MLDSA_PK E4_MLDSA_SK
  E4_MLDSA_SIG E4_X25519_PK E4_X25519_SK E4_XWING_PK E4_XWING_SK E4_XWING_CT
  E4_XWING_SS E4_HASH_LEN E4_PRK_LEN E4_MAC_LEN E4_AEAD_KEY E4_AEAD_NONCE
  E4_AEAD_TAG E4_CONN_ID E4_ID_CRED E4_MSK_LEN E4_EMSK_LEN E4_MAX_MSG E4_PT2 E4_PT3 : e4.

(** ** Credentials and handshake context *)
Record edhoc4_creds := {
  kem_sk : bytes;
  kem_pk : bytes;
  sig_sk : bytes;
  sig_vk : bytes;
  id_cred : bytes
}.

Record edhoc4_ctx := {
  role : Z;
  self : edhoc4_creds;
  peer_kem_pk : bytes;
  peer_sig_vk : bytes;
  peer_id_cred : bytes;
  c_i : bytes;
  c_r : bytes;
  eph_sk : bytes;
  eph_pk : bytes;
  ss_b : bytes;
  ss_e : bytes;
  ss_a : bytes;
  th1 : bytes;
  th2 : bytes;
  th3 : bytes;
  th4 : bytes;
  h_msg1 : bytes;
  prk1e : bytes;
  prk2e : bytes;
  prk3e2m : bytes;
  prk4e3m : bytes;
  prk_out : bytes;
  new_sk : bytes;
  new_pk : bytes;
  peer_new_pk : bytes;
  ct_a : bytes;
  msk : bytes;
  emsk : bytes;
  done : Z
}.

Definition eta4 (c : edhoc4_ctx) : edhoc4_ctx := {|
  role := role c; self := self c; peer_kem_pk := peer_kem_pk c;
  peer_sig_vk := peer_sig_vk c; peer_id_cred := peer_id_cred c;
  c_i := c_i c; c_r := c_r c; eph_sk := eph_sk c; eph_pk := eph_pk c;
  ss_b := ss_b c; ss_e := ss_e c; ss_a := ss_a c;
  th1 := th1 c; th2 := th2 c; th3 := th3 c; th4 := th4 c; h_msg1 := h_msg1 c;
  prk1e := prk1e c; prk2e := prk2e c; prk3e2m := prk3e2m c; prk4e3m := prk4e3m c;
  prk_out := prk_out c; new_sk := new_sk c; new_pk := new_pk c;
  peer_new_pk := peer_new_pk c; ct_a := ct_a c; msk := msk c; emsk := emsk c;
  done := done c |}.

Section setters.
Implicit Types (v : bytes) (c : edhoc4_ctx).
Definition set_peer_sig_vk v c : edhoc4_ctx := ltac:(derive_set eta4 peer_sig_vk v c).
Definition set_peer_id_cred v c : edhoc4_ctx := ltac:(derive_set eta4 peer_id_cred v c).
Definition set_c_i v c : edhoc4_ctx := ltac:(derive_set eta4 c_i v c).
Definition set_c_r v c : edhoc4_ctx := ltac:(derive_set eta4 c_r v c).
Definition set_eph_sk v c : edhoc4_ctx := ltac:(derive_set eta4 eph_sk v c).
Definition set_eph_pk v c : edhoc4_ctx := ltac:(derive_set eta4 eph_pk v c).
Definition set_ss_b v c : edhoc4_ctx := ltac:(derive_set eta4 ss_b v c).
Definition set_ss_e v c : edhoc4_ctx := ltac:(derive_set eta4 ss_e v c).
Definition set_ss_a v c : edhoc4_ctx := ltac:(derive_set eta4 ss_a v c).
Definition set_th1 v c : edhoc4_ctx := ltac:(derive_set eta4 th1 v c).
Definition set_th2 v c : edhoc4_ctx := ltac:(derive_set eta4 th2 v c).
Definition set_th3 v c : edhoc4_ctx := ltac:(derive_set eta4 th3 v c).
Definition set_th4 v c : edhoc4_ctx := ltac:(derive_set eta4 th4 v c).
Definition set_h_msg1 v c : edhoc4_ctx := ltac:(derive_set eta4 h_msg1 v c).
Definition set_prk1e v c : edhoc4_ctx := ltac:(derive_set eta4 prk1e v c).
Definition set_prk2e v c : edhoc4_ctx := ltac:(derive_set eta4 prk2e v c).
Definition set_prk3e2m v c : edhoc4_ctx := ltac:(derive_set eta4 prk3e2m v c).
Definition set_prk4e3m v c : edhoc4_ctx := ltac:(derive_set eta4 prk4e3m v c).
Definition set_prk_out v c : edhoc4_ctx := ltac:(derive_set eta4 prk_out v c).
Definition set_new_sk v c : edhoc4_ctx := ltac:(derive_set eta4 new_sk v c).
Definition set_new_pk v c : edhoc4_ctx := ltac:(derive_set eta4 new_pk v c).
Definition set_peer_new_pk v c : edhoc4_ctx := ltac:(derive_set eta4 peer_new_pk v c).
Definition set_ct_a v c : edhoc4_ctx := ltac:(derive_set eta4 ct_a v c).
Definition set_msk v c : edhoc4_ctx := ltac:(derive_set eta4 msk v c).
Definition set_emsk v c : edhoc4_ctx := ltac:(derive_set eta4 emsk v c).
Definition set_done (v : Z) c : edhoc4_ctx := ltac:(derive_set eta4 done v c).
End setters.

(** Evaluate projections of updated contexts, leaving everything else alone. *)
Ltac fields4 :=
  cbn [
    role self peer_kem_pk peer_sig_vk peer_id_cred c_i c_r eph_sk eph_pk ss_b
    ss_e ss_a th1 th2 th3 th4 h_msg1 prk1e prk2e prk3e2m prk4e3m prk_out
    new_sk new_pk peer_new_pk ct_a msk emsk done set_peer_sig_vk
    set_peer_id_cred set_c_i set_c_r set_eph_sk set_eph_pk set_ss_b set_ss_e
    set_ss_a set_th1 set_th2 set_th3 set_th4 set_h_msg1 set_prk1e set_prk2e
    set_prk3e2m set_prk4e3m set_prk_out set_new_sk set_new_pk set_peer_new_pk
    set_ct_a set_msk set_emsk set_done fst snd id].

(** ** Crypto helpers *)
Section core.
Context `{C : Crypto}.

Definition sha256 (m : bytes) : bytes := crypto_hash_sha256 m.

(** SHA-256 over a list of segments: successive updates hash their concatenation. *)
Definition sha256_cat (segs : list bytes) : bytes := crypto_hash_sha256 (concat segs).

Definition derive_k (prk th : bytes) : bytes * bytes :=
  let info := th ++ str "E4KEY" in
  let okm := hkdf_expand prk info (E4_AEAD_KEY + E4_AEAD_NONCE) in
  (ztake E4_AEAD_KEY okm, sub okm E4_AEAD_KEY E4_AEAD_NONCE).

(** [cap] is the size of the output buffer: libsodium writes [pt_len + 16]
    bytes there, and up to [ct_len - 16] when it opens. *)
Definition aead_seal {X} (prk th pt : bytes) (cap : Z) : M (st X) bytes :=
  let '(key, nonce) := derive_k prk th in
  crash_if (cap <? zlen pt + E4_AEAD_TAG) ;;;
  ret (aead_encrypt key nonce th pt).

Definition aead_open {X} (prk th ct : bytes) (cap : Z) : M (st X) bytes :=
  let '(key, nonce) := derive_k prk th in
  crash_if ((E4_AEAD_TAG <=? zlen ct) && (cap <? zlen ct - E4_AEAD_TAG)) ;;;
  of_option E4_ERR_AEAD (aead_decrypt key nonce th ct).

Definition compute_mac (prk th id ead : bytes) : bytes :=
  hkdf_expand prk (th ++ id ++ ead) E4_MAC_LEN.

Definition sig_message (th id mac : bytes) : bytes := th ++ id ++ mac.

(** ** XWING: X25519 and ML-KEM-768 side by side *)
Definition XWING_LABEL : bytes := str "XWING-combiner-v1".

Definition xwing_keypair {X} : M (st X) (bytes * bytes) :=
  let! kp := draw mlkem_keypair in
  let! (pk, sk) := of_option E4_ERR_KEM kp in
  let! sk_x := draw (fun r => randombytes_buf r E4_X25519_SK) in
  ret (pk ++ crypto_scalarmult_base sk_x, sk ++ sk_x).

Definition xwing_combine (ss_m ss_x ct_x pk_x : bytes) : bytes :=
  sha256_cat [ss_m; ss_x; ct_x; pk_x; XWING_LABEL].

(** The ciphertext is in the caller's buffer before X25519 can fail: the shared secret
    is [None] then, and each caller returns [E4_ERR_KEM] with [ct] written. *)
Definition xwing_encaps {X} (pk : bytes) : M (st X) (bytes * option bytes) :=
  let! e := draw (mlkem_enc (ztake E4_MLKEM_PK pk)) in
  let! (ct, ss_m) := of_option E4_ERR_KEM e in
  let pk_x := sub pk E4_MLKEM_PK E4_X25519_PK in
  let! e_sk := draw (fun r => randombytes_buf r E4_X25519_SK) in
  let ct_x := crypto_scalarmult_base e_sk in
  ret (ct ++ ct_x,
       ss_x ← crypto_scalarmult e_sk pk_x; Some (xwing_combine ss_m ss_x ct_x pk_x)).

Definition xwing_decaps {X} (ct sk : bytes) : M (st X) bytes :=
  let! ss_m := of_option E4_ERR_KEM
                 (mlkem_dec (ztake E4_MLKEM_CT ct) (ztake E4_MLKEM_SK sk)) in
  let sk_x := sub sk E4_MLKEM_SK E4_X25519_SK in
  let ct_x := sub ct E4_MLKEM_CT E4_X25519_PK in
  let pk_x := crypto_scalarmult_base sk_x in
  let! ss_x := of_option E4_ERR_KEM (crypto_scalarmult sk_x ct_x) in
  ret (xwing_combine ss_m ss_x ct_x pk_x).

(** ** Key schedule and exporter *)
Definition derive_prk_out_and_msk (c : edhoc4_ctx) : edhoc4_ctx :=
  let c := set_prk_out (hkdf_expand (prk4e3m c) (th4 c) E4_PRK_LEN) c in
  let c := set_msk (hkdf_expand (prk_out c) (str "EDHOC-EAP-MSK") E4_MSK_LEN) c in
  let c := set_emsk (hkdf_expand (prk_out c) (str "EDHOC-EAP-EMSK") E4_EMSK_LEN) c in
  set_done 1 c.

(** ** Credentials and context initialisation *)
Definition zero_creds : edhoc4_creds := {|
  kem_sk := zreplicate E4_XWING_SK 0; kem_pk := zreplicate E4_XWING_PK 0;
  sig_sk := zreplicate E4_MLDSA_SK 0; sig_vk := zreplicate E4_MLDSA_PK 0;
  id_cred := zreplicate E4_ID_CRED 0 |}.

(** The state is what [c] points to, [None] for a NULL pointer. *)
Definition edhoc4_gen_creds_at (sodium_init : Z) (id : option bytes) : M (st (option edhoc4_creds)) unit :=
  let! null := ctx_get (fun c => match c with None => true | Some _ => false end) in
  return_if null E4_ERR_ARG ;;;
  return_if (sodium_init <? 0) E4_ERR_ARG ;;;
  ctx_set (fun _ => Some zero_creds) ;;;
  let! (pk, sk) := or_return E4_ERR_KEM xwing_keypair in
  ctx_set (fmap (fun c => {| kem_sk := sk; kem_pk := pk; sig_sk := sig_sk c; sig_vk := sig_vk c;
                             id_cred := id_cred c |})) ;;;
  let! kp := draw mldsa_keypair in
  let! (vk, ssk) := of_option E4_ERR_SIG kp in
  ctx_set (fmap (fun c => {| kem_sk := kem_sk c; kem_pk := kem_pk c; sig_sk := ssk; sig_vk := vk;
                             id_cred := default (id_cred c) id |})).

(** A call with the address of a local structure, as all callers make it; its contents
    before the call are overwritten. *)
Definition edhoc4_gen_creds {X} (sodium_init : Z) (id : option bytes) : M (st X) edhoc4_creds :=
  let! (_, c) := with_ctx (Some zero_creds) (edhoc4_gen_creds_at sodium_init id) in
  of_option E4_ERR_ARG c.

Definition zero_ctx : edhoc4_ctx := {|
  role := 0;
  self := zero_creds;
  peer_kem_pk := zreplicate E4_XWING_PK 0; peer_sig_vk := zreplicate E4_MLDSA_PK 0;
  peer_id_cred := zreplicate E4_ID_CRED 0;
  c_i := zreplicate E4_CONN_ID 0; c_r := zreplicate E4_CONN_ID 0;
  eph_sk := zreplicate E4_XWING_SK 0; eph_pk := zreplicate E4_XWING_PK 0;
  ss_b := zreplicate E4_XWING_SS 0; ss_e := zreplicate E4_XWING_SS 0;
  ss_a := zreplicate E4_XWING_SS 0;
  th1 := zreplicate E4_HASH_LEN 0; th2 := zreplicate E4_HASH_LEN 0;
  th3 := zreplicate E4_HASH_LEN 0; th4 := zreplicate E4_HASH_LEN 0;
  h_msg1 := zreplicate E4_HASH_LEN 0;
  prk1e := zreplicate E4_PRK_LEN 0; prk2e := zreplicate E4_PRK_LEN 0;
  prk3e2m := zreplicate E4_PRK_LEN 0; prk4e3m := zreplicate E4_PRK_LEN 0;
  prk_out := zreplicate E4_PRK_LEN 0;
  new_sk := zreplicate E4_XWING_SK 0; new_pk := zreplicate E4_XWING_PK 0;
  peer_new_pk := zreplicate E4_XWING_PK 0; ct_a := zreplicate E4_XWING_CT 0;
  msk := zreplicate E4_MSK_LEN 0; emsk := zreplicate E4_EMSK_LEN 0;
  done := 0 |}.

Definition init_ctx (r : Z) (me : edhoc4_creds) (peer : bytes) : edhoc4_ctx :=
  let z := zero_ctx in {|
  role := r; self := me; peer_kem_pk := peer;
  peer_sig_vk := peer_sig_vk z; peer_id_cred := peer_id_cred z;
  c_i := c_i z; c_r := c_r z; eph_sk := eph_sk z; eph_pk := eph_pk z;
  ss_b := ss_b z; ss_e := ss_e z; ss_a := ss_a z;
  th1 := th1 z; th2 := th2 z; th3 := th3 z; th4 := th4 z; h_msg1 := h_msg1 z;
  prk1e := prk1e z; prk2e := prk2e z; prk3e2m := prk3e2m z; prk4e3m := prk4e3m z;
  prk_out := prk_out z; new_sk := new_sk z; new_pk := new_pk z;
  peer_new_pk := peer_new_pk z; ct_a := ct_a z; msk := msk z; emsk := emsk z;
  done := done z |}.

Definition edhoc4_init_initiator (me : edhoc4_creds) (peer : bytes) : edhoc4_ctx :=
  set_c_i [0x10] (init_ctx 1 me peer).

Definition edhoc4_init_responder (me : edhoc4_creds) (peer : bytes) : edhoc4_ctx :=
  set_c_r [0x20] (init_ctx 0 me peer).

(** ** Message 1: ctB || pkX || AEAD(K1, method || C_I) *)
Definition edhoc4_i_make_msg1 (out_cap : Z) : M (st edhoc4_ctx) bytes :=
  let! my_role := ctx_get role in
  return_if (negb (my_role =? 1)) E4_ERR_STATE ;;;
  let! (pk, sk) := or_return E4_ERR_KEM xwing_keypair in
  ctx_set (set_eph_pk pk) ;;; ctx_set (set_eph_sk sk) ;;;
  let! peer := ctx_get peer_kem_pk in
  let! (ct_b, ss) := or_return E4_ERR_KEM (xwing_encaps peer) in
  let! ss := of_option E4_ERR_KEM ss in
  ctx_set (set_ss_b ss) ;;;
  (* TH1 = H(pkX || ctB); PRK1e = HKDF-Extract(TH1, ss_b) *)
  ctx_set (fun c => set_th1 (sha256_cat [eph_pk c; ct_b]) c) ;;;
  ctx_set (fun c => set_prk1e (hkdf_extract (th1 c) (ss_b c)) c) ;;;
  let! c := ctx_get id in
  let pt1 := [0x04; byte_at (c_i c) 0] in
  let! ct1 := or_return E4_ERR_AEAD
                (aead_seal (prk1e c) (th1 c) pt1 (zlen pt1 + E4_AEAD_TAG)) in
  return_if (out_cap <? E4_XWING_CT + E4_XWING_PK + zlen ct1) E4_ERR_BUF ;;;
  let out := ct_b ++ eph_pk c ++ ct1 in
  ctx_set (set_h_msg1 (sha256 out)) ;;;
  ret out.

(** ** Message 1 handling, message 2: cte || AEAD(K2, PT2) *)
Definition edhoc4_r_handle_msg1 (inp : bytes) (out_cap : Z) : M (st edhoc4_ctx) bytes :=
  let! my_role := ctx_get role in
  return_if (negb (my_role =? 0)) E4_ERR_STATE ;;;
  return_if (zlen inp <? E4_XWING_CT + E4_XWING_PK + 2 + E4_AEAD_TAG) E4_ERR_PARSE ;;;
  let ct_b := ztake E4_XWING_CT inp in
  let pk_x := sub inp E4_XWING_CT E4_XWING_PK in
  let ct1 := zdrop (E4_XWING_CT + E4_XWING_PK) inp in
  ctx_set (set_eph_pk pk_x) ;;;
  let! me := ctx_get self in
  let! ss := or_return E4_ERR_KEM (xwing_decaps ct_b (kem_sk me)) in
  ctx_set (set_ss_b ss) ;;;
  ctx_set (set_th1 (sha256_cat [pk_x; ct_b])) ;;;
  ctx_set (fun c => set_prk1e (hkdf_extract (th1 c) (ss_b c)) c) ;;;
  let! c := ctx_get id in
  let! pt1 := or_return E4_ERR_AEAD (aead_open (prk1e c) (th1 c) ct1 64) in
  return_if ((zlen pt1 <? 2) || negb (byte_at pt1 0 =? 0x04)) E4_ERR_PARSE ;;;
  ctx_set (set_c_i [byte_at pt1 1]) ;;;
  let h := sha256 inp in
  (* (sse, cte) = Encaps(pkX) *)
  let! (cte, sse) := or_return E4_ERR_KEM (xwing_encaps (eph_pk c)) in
  let! sse := of_option E4_ERR_KEM sse in
  ctx_set (set_ss_e sse) ;;;
  (* TH2 = H(H(msg1) || cte || C_R); PRK2e = Extract(TH2, sse) *)
  ctx_set (fun c => set_th2 (sha256_cat [h; cte; c_r c]) c) ;;;
  ctx_set (fun c => set_prk2e (hkdf_extract (th2 c) (ss_e c)) c) ;;;
  (* (ssA, ctA) = Encaps(pkA) *)
  let! (cta, ssa) := or_return E4_ERR_KEM (xwing_encaps (peer_kem_pk c)) in
  ctx_set (set_ct_a cta) ;;;
  let! ssa := of_option E4_ERR_KEM ssa in
  ctx_set (set_ss_a ssa) ;;;
  (* PRK3e2m = Extract(PRK2e, ss_b) *)
  ctx_set (fun c => set_prk3e2m (hkdf_extract (prk2e c) (ss_b c)) c) ;;;
  let! c := ctx_get id in
  let mac2 := compute_mac (prk3e2m c) (th2 c) (id_cred me) [] in
  let sigmsg := sig_message (th2 c) (id_cred me) mac2 in
  let! s := draw (mldsa_sign sigmsg (sig_sk me)) in
  let! sig_r := of_option E4_ERR_SIG s in
  return_if (negb (zlen sig_r =? E4_MLDSA_SIG)) E4_ERR_SIG ;;;
  (* PT2 = ctA || C_R || ID_CRED_R || VK_R || MAC2 || sigma_R *)
  let pt2 := ct_a c ++ c_r c ++ id_cred me ++ sig_vk me ++ mac2 ++ sig_r in
  ctx_set (fun c => set_th3 (sha256_cat [th2 c; pt2]) c) ;;;
  let! ct2 := or_return E4_ERR_AEAD
                (aead_seal (prk2e c) (th2 c) pt2 (E4_PT2 + E4_AEAD_TAG)) in
  return_if (out_cap <? E4_XWING_CT + zlen ct2) E4_ERR_BUF ;;;
  ret (cte ++ ct2).

(** ** Message 2 handling, message 3: AEAD(K3, PT3) *)
Definition edhoc4_i_handle_msg2 (inp : bytes) (out_cap : Z) : M (st edhoc4_ctx) bytes :=
  let! my_role := ctx_get role in
  return_if (negb (my_role =? 1)) E4_ERR_STATE ;;;
  return_if (zlen inp <? E4_XWING_CT + E4_AEAD_TAG) E4_ERR_PARSE ;;;
  let cte := ztake E4_XWING_CT inp in
  let ct2 := zdrop E4_XWING_CT inp in
  let! esk := ctx_get eph_sk in
  let! sse := or_return E4_ERR_KEM (xwing_decaps cte esk) in
  ctx_set (set_ss_e sse) ;;;
  ctx_set (set_c_r [0x20]) ;;;
  ctx_set (fun c => set_th2 (sha256_cat [h_msg1 c; cte; c_r c]) c) ;;;
  ctx_set (fun c => set_prk2e (hkdf_extract (th2 c) (ss_e c)) c) ;;;
  let! c := ctx_get id in
  let! pt2 := or_return E4_ERR_AEAD (aead_open (prk2e c) (th2 c) ct2 (E4_PT2 + 16)) in
  return_if (negb (zlen pt2 =? E4_PT2)) E4_ERR_PARSE ;;;
  ctx_set (set_ct_a (ztake E4_XWING_CT pt2)) ;;;
  ctx_set (set_c_r (sub pt2 E4_XWING_CT E4_CONN_ID)) ;;;
  ctx_set (set_peer_id_cred (sub pt2 (E4_XWING_CT + E4_CONN_ID) E4_ID_CRED)) ;;;
  ctx_set (set_peer_sig_vk (sub pt2 (E4_XWING_CT + E4_CONN_ID + E4_ID_CRED) E4_MLDSA_PK)) ;;;
  let mac2 := sub pt2 (E4_XWING_CT + E4_CONN_ID + E4_ID_CRED + E4_MLDSA_PK) E4_MAC_LEN in
  let sig_r := sub pt2 (E4_XWING_CT + E4_CONN_ID + E4_ID_CRED + E4_MLDSA_PK + E4_MAC_LEN)
                 E4_MLDSA_SIG in
  (* PRK3e2m = Extract(PRK2e, ss_b); verify MAC2, then sigma_R *)
  ctx_set (fun c => set_prk3e2m (hkdf_extract (prk2e c) (ss_b c)) c) ;;;
  let! c := ctx_get id in
  let mac2_c := compute_mac (prk3e2m c) (th2 c) (peer_id_cred c) [] in
  return_if (negb (bool_decide (mac2_c = mac2))) E4_ERR_MAC ;;;
  let sigmsg := sig_message (th2 c) (peer_id_cred c) mac2_c in
  return_if (negb (mldsa_verify sig_r sigmsg (peer_sig_vk c))) E4_ERR_SIG ;;;
  ctx_set (fun c => set_th3 (sha256_cat [th2 c; pt2]) c) ;;;
  (* ssA = Decaps(ctA); PRK4e3m = Extract(PRK3e2m, ssA) *)
  let! ssa := or_return E4_ERR_KEM (xwing_decaps (ct_a c) (kem_sk (self c))) in
  ctx_set (set_ss_a ssa) ;;;
  ctx_set (fun c => set_prk4e3m (hkdf_extract (prk3e2m c) (ss_a c)) c) ;;;
  (* EAD3 = NpkA, bound in MAC3 *)
  let! (npk, nsk) := or_return E4_ERR_KEM xwing_keypair in
  ctx_set (set_new_pk npk) ;;; ctx_set (set_new_sk nsk) ;;;
  let! c := ctx_get id in
  let me := self c in
  let mac3 := compute_mac (prk4e3m c) (th3 c) (id_cred me) (new_pk c) in
  let sigmsg3 := sig_message (th3 c) (id_cred me) mac3 in
  let! s := draw (mldsa_sign sigmsg3 (sig_sk me)) in
  let! sig_i := of_option E4_ERR_SIG s in
  (* PT3 = ID_CRED_I || EAD3 || MAC3 || VK_I || sigma_I *)
  let pt3 := id_cred me ++ new_pk c ++ mac3 ++ sig_vk me ++ ztake E4_MLDSA_SIG sig_i in
  ctx_set (fun c => set_th4 (sha256_cat [th3 c; pt3]) c) ;;;
  let! ct3 := or_return E4_ERR_AEAD
                (aead_seal (prk3e2m c) (th3 c) pt3 (E4_PT3 + E4_AEAD_TAG)) in
  return_if (out_cap <? zlen ct3) E4_ERR_BUF ;;;
  ctx_set derive_prk_out_and_msk ;;;
  ctx_set (set_done 0) ;;;
  ret ct3.

(** ** Message 3 handling, message 4: AEAD(K4, NpkB) *)
Definition edhoc4_r_handle_msg3 (inp : bytes) (out_cap : Z) : M (st edhoc4_ctx) bytes :=
  let! my_role := ctx_get role in
  return_if (negb (my_role =? 0)) E4_ERR_STATE ;;;
  ctx_set (fun c => set_prk4e3m (hkdf_extract (prk3e2m c) (ss_a c)) c) ;;;
  let! c := ctx_get id in
  let! pt3 := or_return E4_ERR_AEAD (aead_open (prk3e2m c) (th3 c) inp (E4_PT3 + 16)) in
  return_if (negb (zlen pt3 =? E4_PT3)) E4_ERR_PARSE ;;;
  ctx_set (set_peer_id_cred (ztake E4_ID_CRED pt3)) ;;;
  ctx_set (set_peer_new_pk (sub pt3 E4_ID_CRED E4_XWING_PK)) ;;;
  let mac3 := sub pt3 (E4_ID_CRED + E4_XWING_PK) E4_MAC_LEN in
  ctx_set (set_peer_sig_vk (sub pt3 (E4_ID_CRED + E4_XWING_PK + E4_MAC_LEN) E4_MLDSA_PK)) ;;;
  let sig_i := sub pt3 (E4_ID_CRED + E4_XWING_PK + E4_MAC_LEN + E4_MLDSA_PK) E4_MLDSA_SIG in
  let! c := ctx_get id in
  (* verify MAC3, which binds EAD3, then sigma_I *)
  let mac3_c := compute_mac (prk4e3m c) (th3 c) (peer_id_cred c) (peer_new_pk c) in
  return_if (negb (bool_decide (mac3_c = mac3))) E4_ERR_MAC ;;;
  let sigmsg3 := sig_message (th3 c) (peer_id_cred c) mac3_c in
  return_if (negb (mldsa_verify sig_i sigmsg3 (peer_sig_vk c))) E4_ERR_SIG ;;;
  ctx_set (fun c => set_th4 (sha256_cat [th3 c; pt3]) c) ;;;
  ctx_set derive_prk_out_and_msk ;;;
  let! (npk, nsk) := or_return E4_ERR_KEM xwing_keypair in
  ctx_set (set_new_pk npk) ;;; ctx_set (set_new_sk nsk) ;;;
  let! c := ctx_get id in
  let! ct4 := or_return E4_ERR_AEAD
                (aead_seal (prk4e3m c) (th4 c) (new_pk c) (E4_XWING_PK + E4_AEAD_TAG)) in
  return_if (out_cap <? zlen ct4) E4_ERR_BUF ;;;
  ret ct4.

(** ** Message 4 handling *)
Definition edhoc4_i_handle_msg4 (inp : bytes) : M (st edhoc4_ctx) unit :=
  let! my_role := ctx_get role in
  return_if (negb (my_role =? 1)) E4_ERR_STATE ;;;
  let! c := ctx_get id in
  let! pt4 := or_return E4_ERR_AEAD (aead_open (prk4e3m c) (th4 c) inp (E4_XWING_PK + 16)) in
  return_if (negb (zlen pt4 =? E4_XWING_PK)) E4_ERR_PARSE ;;;
  ctx_set (set_peer_new_pk pt4) ;;;
  ctx_set (set_done 1) ;;;
  ret tt.

(** ** Two peers and the messages between them (selftest.c)

    The initiator's and the responder's contexts side by side; the random
    generator is shared. *)
Definition on_initiator {A} (m : M (st edhoc4_ctx) A) : M (st (edhoc4_ctx * edhoc4_ctx)) A :=
  zoom (fun s => (fst (fst s), snd s)) (fun t s => ((fst t, snd (fst s)), snd t)) m.
Definition on_responder {A} (m : M (st edhoc4_ctx) A) : M (st (edhoc4_ctx * edhoc4_ctx)) A :=
  zoom (fun s => (snd (fst s), snd s)) (fun t s => ((fst (fst s), fst t), snd t)) m.

Definition edhoc4_handshake : M (st (edhoc4_ctx * edhoc4_ctx)) (list bytes) :=
  let! m1 := on_initiator (edhoc4_i_make_msg1 E4_MAX_MSG) in
  let! m2 := on_responder (edhoc4_r_handle_msg1 m1 E4_MAX_MSG) in
  let! m3 := on_initiator (edhoc4_i_handle_msg2 m2 E4_MAX_MSG) in
  let! m4 := on_responder (edhoc4_r_handle_msg3 m3 E4_MAX_MSG) in
  on_initiator (edhoc4_i_handle_msg4 m4) ;;;
  ret [m1; m2; m3; m4].

(** The test's verdict: the conditions [main] checks before it prints PASS. *)
Definition selftest_ok (i r : edhoc4_ctx) : bool :=
  bool_decide (msk i = msk r) && bool_decide (emsk i = emsk r) &&
  bool_decide (th4 i = th4 r) && bool_decide (new_pk i = peer_new_pk r) &&
  bool_decide (new_pk r = peer_new_pk i) &&
  negb (done i =? 0) && negb (done r =? 0).

(** [main] of selftest.c: the sizes it prints, or its exit status 1. *)
Definition selftest_main {X} (sodium_init : Z) : M (st X) (list Z) :=
  return_if (sodium_init <? 0) 1 ;;;
  let! ue := or_return 1 (edhoc4_gen_creds sodium_init (Some [0x00; 0x00; 0x01])) in
  let! aaa := or_return 1 (edhoc4_gen_creds sodium_init (Some [0x00; 0x00; 0x02])) in
  let! (ms, (i, r)) := or_return 1 (with_ctx
      (edhoc4_init_initiator ue (kem_pk aaa), edhoc4_init_responder aaa (kem_pk ue))
      edhoc4_handshake) in
  return_if (negb (selftest_ok i r)) 1 ;;;
  ret (map zlen ms).
End core.

(** ** Credential files

    A [struct edhoc4_creds] has byte arrays only, so its object representation
    is their concatenation.  NULL pointers are [None]. *)
Definition creds_size : Z :=
  E4_XWING_SK + E4_XWING_PK + E4_MLDSA_SK + E4_MLDSA_PK + E4_ID_CRED.

Definition creds_bytes (c : edhoc4_creds) : bytes :=
  kem_sk c ++ kem_pk c ++ sig_sk c ++ sig_vk c ++ id_cred c.

Definition creds_of_bytes (b : bytes) : edhoc4_creds := {|
  kem_sk := ztake E4_XWING_SK b;
  kem_pk := sub b E4_XWING_SK E4_XWING_PK;
  sig_sk := sub b (E4_XWING_SK + E4_XWING_PK) E4_MLDSA_SK;
  sig_vk := sub b (E4_XWING_SK + E4_XWING_PK + E4_MLDSA_SK) E4_MLDSA_PK;
  id_cred := sub b (E4_XWING_SK + E4_XWING_PK + E4_MLDSA_SK + E4_MLDSA_PK) E4_ID_CRED |}.

Definition edhoc4_creds_save (path : option string) (c : option edhoc4_creds)
    (fs : filesystem) : Z * filesystem :=
  match path, c with
  | Some path, Some c =>
      match fwrite_file fs path (creds_bytes c) with
      | None => (E4_ERR_ARG, fs)
      | Some (n, fs') => (if n =? creds_size then E4_OK else E4_ERR_ARG, fs')
      end
  | _, _ => (E4_ERR_ARG, fs)
  end.

(** [c] is the structure before the call; a short file overwrites a prefix of it. *)
Definition edhoc4_creds_load (path : option string) (c : option edhoc4_creds)
    (fs : filesystem) : Z * option edhoc4_creds :=
  match path, c with
  | Some path, Some c =>
      match fread_file fs path creds_size with
      | None => (E4_ERR_ARG, Some c)
      | Some data => (if zlen data =? creds_size then E4_OK else E4_ERR_PARSE,
                      Some (creds_of_bytes (splice (creds_bytes c) 0 data)))
      end
  | _, _ => (E4_ERR_ARG, c)
  end.

Definition edhoc4_pub_save (path : option string) (c : option edhoc4_creds)
    (fs : filesystem) : Z * filesystem :=
  match path, c with
  | Some path, Some c =>
      match fwrite_file fs path (kem_pk c) with
      | None => (E4_ERR_ARG, fs)
      | Some (n, fs') => (if n =? E4_XWING_PK then E4_OK else E4_ERR_ARG, fs')
      end
  | _, _ => (E4_ERR_ARG, fs)
  end.

Definition edhoc4_pub_load (path : option string) (peer_kem_pk : option bytes)
    (fs : filesystem) : Z * option bytes :=
  match path, peer_kem_pk with
  | Some path, Some pk =>
      match fread_file fs path E4_XWING_PK with
      | None => (E4_ERR_ARG, Some pk)
      | Some data => (if zlen data =? E4_XWING_PK then E4_OK else E4_ERR_PARSE,
                      Some (splice pk 0 data))
      end
  | _, _ => (E4_ERR_ARG, peer_kem_pk)
  end.

(** [snprintf] into a buffer of 512 bytes keeps the first 511 characters. *)
Definition snprintf_512 (s : string) : string := String.substring 0 511 s.

(** keygen.c: [save_pair] writes both files of a peer, [main] both peers. *)
Definition save_pair (dir name : string) (c : edhoc4_creds) (fs : filesystem)
    : Z * filesystem :=
  let p := snprintf_512 (dir +:+ "/" +:+ name +:+ ".creds") in
  let '(rc, fs) := edhoc4_creds_save (Some p) (Some c) fs in
  if negb (rc =? E4_OK) then (1, fs)
  else
    let p := snprintf_512 (dir +:+ "/" +:+ name +:+ ".pub") in
    let '(rc, fs) := edhoc4_pub_save (Some p) (Some c) fs in
    if negb (rc =? E4_OK) then (1, fs) else (0, fs).

Definition keygen_main `{C : Crypto} (sodium_init : Z) (dir : string)
    : M (st filesystem) unit :=
  return_if (sodium_init <? 0) 1 ;;;
  let! server := or_return 1 (edhoc4_gen_creds sodium_init (Some [0x00; 0x00; 0x02])) in
  let! ue := or_return 1 (edhoc4_gen_creds sodium_init (Some [0x00; 0x00; 0x01])) in
  let! fs := ctx_get id in
  let '(rc, fs) := save_pair dir "server" server fs in
  ctx_set (fun _ => fs) ;;;
  return_if (negb (rc =? 0)) 1 ;;;
  let '(rc, fs) := save_pair dir "ue" ue fs in
  ctx_set (fun _ => fs) ;;;
  return_if (negb (rc =? 0)) 1 ;;;
  ret tt.

Definition edhoc4_strerror (rc : Z) : string :=
  if rc =? E4_OK then "ok"
  else if rc =? E4_ERR_ARG then "invalid argument"
  else if rc =? E4_ERR_BUF then "buffer too small"
  else if rc =? E4_ERR_PARSE then "malformed message"
  else if rc =? E4_ERR_KEM then "KEM failure"
  else if rc =? E4_ERR_AEAD then "AEAD auth failure"
  else if rc =? E4_ERR_MAC then "MAC mismatch"
  else if rc =? E4_ERR_SIG then "signature verify failed"
  else if rc =? E4_ERR_STATE then "wrong role/state"
  else "unknown error".
