(* ===== verification/Edhoc4Facts.v ===== *)
(** * Edhoc4Facts: correctness of the method 4 core *)
From stdpp Require Import base numbers list option strings.
From Stdlib Require Import ZArith Lia.
From S2P Require Import Prelude Crypto Hkdf Edhoc4.
Local Open Scope c_scope.

Ltac zl4 := autorewrite with zlen in *; repeat autounfold with e4 in *; zl.
Ltac slices4 :=
  repeat first
    [ rewrite sub_app_exact by zl4
    | rewrite sub_all by zl4
    | rewrite sub_app_r by zl4
    | rewrite ztake_app_exact by zl4 ].

(** Splitting PT2 and PT3 at the offsets the handlers use gives back the fields. *)
Lemma pt2_fields (cta cr idr vkr mac sg : bytes) :
  zlen cta = E4_XWING_CT -> zlen cr = E4_CONN_ID -> zlen idr = E4_ID_CRED ->
  zlen vkr = E4_MLDSA_PK -> zlen mac = E4_MAC_LEN -> zlen sg = E4_MLDSA_SIG ->
  let pt2 := cta ++ cr ++ idr ++ vkr ++ mac ++ sg in
  zlen pt2 = E4_PT2 /\
  ztake E4_XWING_CT pt2 = cta /\ sub pt2 E4_XWING_CT E4_CONN_ID = cr /\
  sub pt2 (E4_XWING_CT + E4_CONN_ID) E4_ID_CRED = idr /\
  sub pt2 (E4_XWING_CT + E4_CONN_ID + E4_ID_CRED) E4_MLDSA_PK = vkr /\
  sub pt2 (E4_XWING_CT + E4_CONN_ID + E4_ID_CRED + E4_MLDSA_PK) E4_MAC_LEN = mac /\
  sub pt2 (E4_XWING_CT + E4_CONN_ID + E4_ID_CRED + E4_MLDSA_PK + E4_MAC_LEN)
    E4_MLDSA_SIG = sg.
Proof. intros. subst pt2. split_and!; [zl4|by slices4..]. Qed.

Lemma pt3_fields (idi npk mac vki sg : bytes) :
  zlen idi = E4_ID_CRED -> zlen npk = E4_XWING_PK -> zlen mac = E4_MAC_LEN ->
  zlen vki = E4_MLDSA_PK -> zlen sg = E4_MLDSA_SIG ->
  let pt3 := idi ++ npk ++ mac ++ vki ++ sg in
  zlen pt3 = E4_PT3 /\
  ztake E4_ID_CRED pt3 = idi /\ sub pt3 E4_ID_CRED E4_XWING_PK = npk /\
  sub pt3 (E4_ID_CRED + E4_XWING_PK) E4_MAC_LEN = mac /\
  sub pt3 (E4_ID_CRED + E4_XWING_PK + E4_MAC_LEN) E4_MLDSA_PK = vki /\
  sub pt3 (E4_ID_CRED + E4_XWING_PK + E4_MAC_LEN + E4_MLDSA_PK) E4_MLDSA_SIG = sg.
Proof. intros. subst pt3. split_and!; [zl4|by slices4..]. Qed.

Section facts.
Context `{CL : CryptoLaws}.

(** ** The building blocks *)

(** [pk] and [sk] come from one run of [xwing_keypair]. *)
Definition xwing_pair (pk sk : bytes) : Prop :=
  exists r pkm skm r' skx,
    mlkem_keypair r = (Some (pkm, skm), r') /\ zlen pkm = E4_MLKEM_PK /\
    zlen skm = E4_MLKEM_SK /\ zlen skx = E4_X25519_SK /\
    pk = pkm ++ crypto_scalarmult_base skx /\ sk = skm ++ skx.

(** Decapsulating [ct] with [sk] gives [ss]. *)
Definition xwing_opens (ct sk ss : bytes) : Prop :=
  forall X (s : st X), xwing_decaps ct sk s = (Ok ss, s).

(** [ct] decrypts to [pt] under the key derived from [prk] and [th]. *)
Definition aead_opens (prk th ct pt : bytes) : Prop :=
  aead_decrypt (fst (derive_k prk th)) (snd (derive_k prk th)) th ct = Some pt.

Lemma xwing_pair_len pk sk :
  xwing_pair pk sk -> zlen pk = E4_XWING_PK /\ zlen sk = E4_XWING_SK.
Proof.
  intros (r & pkm & skm & r' & skx & _ & Hp & Hs & Hx & -> & ->).
  autorewrite with zlen. zl4.
Qed.

Lemma zlen_sha256_cat segs : zlen (sha256_cat segs) = 32.
Proof. apply sha256_len. Qed.
Lemma zlen_compute_mac prk th i ead : zlen (compute_mac prk th i ead) = E4_MAC_LEN.
Proof. unfold compute_mac. apply zlen_hkdf_expand. unfold E4_MAC_LEN. lia. Qed.
#[local] Hint Rewrite zlen_sha256_cat zlen_compute_mac : zlen.

Lemma wp_xwing_keypair {X} (Q : bytes * bytes -> st X -> Prop) x r :
  (forall pk sk r', xwing_pair pk sk -> Q (pk, sk) (x, r')) ->
  wp xwing_keypair Q (x, r).
Proof.
  intros HQ. destruct (mlkem_keypair_ok r) as (pkm & skm & r' & E & Hp & Hs).
  apply wp_bind. eapply wp_draw; [exact E|]. apply wp_bind.
  eapply wp_of_option; [done|]. cbn beta iota. apply wp_bind.
  destruct (randombytes_buf r' E4_X25519_SK) as [skx r''] eqn:Ex.
  eapply wp_draw; [exact Ex|]. apply wp_ret, HQ.
  exists r, pkm, skm, r', skx. split_and!; try done.
  by apply (randombytes_zlen _ _ _ _ Ex).
Qed.

Lemma wp_xwing_encaps {X} pk sk (Q : bytes * option bytes -> st X -> Prop) x r :
  xwing_pair pk sk ->
  (forall ct ss r', zlen ct = E4_XWING_CT -> zlen ss = E4_XWING_SS ->
     xwing_opens ct sk ss -> Q (ct, Some ss) (x, r')) ->
  wp (xwing_encaps pk) Q (x, r).
Proof.
  intros (r0 & pkm & skm & r0' & skx & Ek & Hp & Hs & Hx & -> & ->) HQ.
  destruct (mlkem_enc_ok pkm r) as (ct & ssm & r1 & Ee & Hct & Hss).
  unfold xwing_encaps. cbv zeta. rewrite ztake_app_exact by done.
  rewrite sub_app_r, sub_all by zl4.
  apply wp_bind. eapply wp_draw; [exact Ee|].
  apply wp_bind. eapply wp_of_option; [done|]. cbn beta iota.
  apply wp_bind. destruct (randombytes_buf r1 E4_X25519_SK) as [esk r2] eqn:Er.
  assert (zlen esk = 32) as Hesk by (by apply (randombytes_zlen _ _ _ _ Er)).
  eapply wp_draw; [exact Er|].
  destruct (scalarmult_comm esk skx) as (ssx & E1 & E2); [done..|].
  rewrite E1. apply wp_ret, HQ.
  - zl4.
  - apply zlen_sha256_cat.
  - intros Y s. unfold xwing_decaps. cbv zeta.
    rewrite ztake_app_exact by zl4. rewrite ztake_app_exact by done.
    rewrite (sub_app_r skm), sub_all by zl4.
    rewrite (sub_app_r ct), sub_all by zl4.
    unfold bind, of_option. rewrite (mlkem_dec_enc _ _ _ _ _ _ _ _ Ek Ee). cbn.
    by rewrite E2.
Qed.

Lemma wp_xwing_decaps {X} ct sk ss (Q : bytes -> st X -> Prop) s :
  xwing_opens ct sk ss -> Q ss s -> wp (xwing_decaps ct sk) Q s.
Proof. intros H HQ. eapply run_wp; [apply H|done]. Qed.

Lemma wp_aead_seal {X} prk th pt cap (Q : bytes -> st X -> Prop) s :
  zlen pt + E4_AEAD_TAG <= cap ->
  (forall ct, aead_opens prk th ct pt -> zlen ct = zlen pt + E4_AEAD_TAG -> Q ct s) ->
  wp (aead_seal prk th pt cap) Q s.
Proof.
  intros Hcap HQ. unfold aead_seal.
  assert (Hk : aead_opens prk th
    (aead_encrypt (fst (derive_k prk th)) (snd (derive_k prk th)) th pt) pt)
    by apply aead_decrypt_encrypt.
  destruct (derive_k prk th) as [key nonce] eqn:E. cbn in Hk.
  apply wp_bind, wp_crash_if; [lia|]. apply wp_ret, HQ.
  - exact Hk.
  - apply aead_encrypt_len.
Qed.

Lemma wp_aead_open {X} prk th ct pt cap (Q : bytes -> st X -> Prop) s :
  aead_opens prk th ct pt -> zlen pt <= cap -> Q pt s ->
  wp (aead_open prk th ct cap) Q s.
Proof.
  unfold aead_opens, aead_open. intros H Hcap HQ.
  destruct (derive_k prk th) as [key nonce]. cbn in H.
  apply wp_bind, wp_crash_if.
  - apply aead_decrypt_len in H. unfold E4_AEAD_TAG in *.
    apply andb_false_iff. right. lia.
  - by eapply wp_of_option.
Qed.

(** Symbolic execution: run the next statement, leaving the calls to the
    building blocks to their lemmas. *)
Ltac wp_step :=
  match goal with
  | |- wp (bind _ _) _ _ => apply wp_bind
  | |- wp (ctx_get _) _ _ => apply wp_ctx_get
  | |- wp (ctx_set derive_prk_out_and_msk) _ _ => fail 1
  | |- wp (ctx_set _) _ _ => apply wp_ctx_set
  | |- wp (or_return _ _) _ _ => apply wp_or_return
  | |- wp (ret _) _ _ => apply wp_ret
  end; fields4; cbn beta iota.
Ltac wp_steps := repeat wp_step.

(** ** The transcript: what each message is, seen by its sender *)

(** [key_schedule1 c ct_b]: TH1 and PRK1e of [c] are those of the transcript. *)
Definition schedule1 (c : edhoc4_ctx) (ct_b : bytes) : Prop :=
  th1 c = sha256_cat [eph_pk c; ct_b] /\ prk1e c = hkdf_extract (th1 c) (ss_b c).

(** TH2, PRK2e and PRK3e2m, for ciphertext [cte] and connection identifier [cr]. *)
Definition schedule2 (c : edhoc4_ctx) (h cte cr : bytes) : Prop :=
  th2 c = sha256_cat [h; cte; cr] /\ prk2e c = hkdf_extract (th2 c) (ss_e c) /\
  prk3e2m c = hkdf_extract (prk2e c) (ss_b c).

Definition msg1_sent (c0 c : edhoc4_ctx) (psk m1 : bytes) : Prop :=
  exists ct_b ct1,
    m1 = ct_b ++ eph_pk c ++ ct1 /\
    zlen ct_b = E4_XWING_CT /\ zlen ct1 = 2 + E4_AEAD_TAG /\
    xwing_pair (eph_pk c) (eph_sk c) /\ xwing_opens ct_b psk (ss_b c) /\
    schedule1 c ct_b /\
    aead_opens (prk1e c) (th1 c) ct1 [0x04; byte_at (c_i c0) 0] /\
    h_msg1 c = sha256 m1 /\
    role c = 1 /\ self c = self c0 /\ peer_kem_pk c = peer_kem_pk c0 /\ c_i c = c_i c0.

Lemma make_msg1_wp c r psk cap :
  role c = 1 -> xwing_pair (peer_kem_pk c) psk -> 2354 <= cap ->
  wp (edhoc4_i_make_msg1 cap) (fun m1 s => msg1_sent c (fst s) psk m1) (c, r).
Proof.
  intros Hrole Hpair Hcap. unfold edhoc4_i_make_msg1. wp_steps.
  apply wp_return_if; [by rewrite Hrole|]. wp_steps.
  apply wp_xwing_keypair. intros pk sk r1 He. wp_steps.
  eapply wp_xwing_encaps; [exact Hpair|]. intros ct_b ss r2 Hct Hss Hopen. wp_steps.
  eapply wp_of_option; [done|]. wp_steps.
  apply wp_aead_seal; [lia|]. intros ct1 Hct1 Hlen. wp_steps.
  apply wp_return_if; [zl4|]. wp_steps.
  exists ct_b, ct1. by split_and!.
Qed.

(** [vk] and [sk] come from one run of [mldsa_keypair]. *)
Definition mldsa_pair (vk sk : bytes) : Prop :=
  exists r r', mldsa_keypair r = (Some (vk, sk), r').

(** Credentials as [edhoc4_gen_creds] makes them. *)
Definition creds_ok (k : edhoc4_creds) : Prop :=
  xwing_pair (kem_pk k) (kem_sk k) /\ mldsa_pair (sig_vk k) (sig_sk k) /\
  zlen (id_cred k) = E4_ID_CRED.

Lemma mldsa_pair_len vk sk : mldsa_pair vk sk -> zlen vk = E4_MLDSA_PK.
Proof.
  intros (r & r' & E). destruct (mldsa_keypair_ok r) as (vk' & sk' & r2 & E' & Hv & _).
  rewrite E in E'. by simplify_eq.
Qed.

Lemma wp_mldsa_sign {X} vk sk m (Q : option bytes -> st X -> Prop) x r :
  mldsa_pair vk sk ->
  (forall sig r', mldsa_verify sig m vk = true -> zlen sig = E4_MLDSA_SIG ->
     Q (Some sig) (x, r')) ->
  wp (draw (mldsa_sign m sk)) Q (x, r).
Proof.
  intros (r0 & r0' & Ek) HQ. destruct (mldsa_sign_ok r0 vk sk r0' m r Ek) as (sig & r1 & Es).
  eapply wp_draw; [exact Es|]. apply HQ; [by eapply mldsa_verify_sign | by eapply mldsa_sign_len].
Qed.

Definition pt2_of (c : edhoc4_ctx) (mac2 sig_r : bytes) : bytes :=
  ct_a c ++ c_r c ++ id_cred (self c) ++ sig_vk (self c) ++ mac2 ++ sig_r.

Definition msg2_sent (c0 c : edhoc4_ctx) (esk isk m1 m2 : bytes) : Prop :=
  exists cte ct2 sig_r,
    let me := self c in
    let mac2 := compute_mac (prk3e2m c) (th2 c) (id_cred me) [] in
    m2 = cte ++ ct2 /\ zlen cte = E4_XWING_CT /\ zlen ct2 = E4_PT2 + E4_AEAD_TAG /\
    zlen (ct_a c) = E4_XWING_CT /\ zlen sig_r = E4_MLDSA_SIG /\
    xwing_opens cte esk (ss_e c) /\ xwing_opens (ct_a c) isk (ss_a c) /\
    schedule2 c (sha256 m1) cte (c_r c) /\
    mldsa_verify sig_r (sig_message (th2 c) (id_cred me) mac2) (sig_vk me) = true /\
    aead_opens (prk2e c) (th2 c) ct2 (pt2_of c mac2 sig_r) /\
    th3 c = sha256_cat [th2 c; pt2_of c mac2 sig_r] /\
    role c = 0 /\ self c = self c0 /\ peer_kem_pk c = peer_kem_pk c0 /\ c_r c = c_r c0.

Lemma handle_msg1_wp c r ct_b pkx ct1 ssb ci esk isk cap :
  role c = 0 -> creds_ok (self c) -> zlen (c_r c) = E4_CONN_ID ->
  zlen ct_b = E4_XWING_CT -> zlen ct1 = 2 + E4_AEAD_TAG ->
  xwing_opens ct_b (kem_sk (self c)) ssb ->
  xwing_pair pkx esk -> xwing_pair (peer_kem_pk c) isk ->
  let th := sha256_cat [pkx; ct_b] in
  aead_opens (hkdf_extract th ssb) th ct1 [0x04; ci] ->
  6000 <= cap ->
  wp (edhoc4_r_handle_msg1 (ct_b ++ pkx ++ ct1) cap)
     (fun m2 s => msg2_sent c (fst s) esk isk (ct_b ++ pkx ++ ct1) m2 /\
        ss_b (fst s) = ssb /\ th1 (fst s) = th /\ c_i (fst s) = [ci]) (c, r).
Proof.
  intros Hrole (Hkem & Hsig & Hid) Hcr Hctb Hct1 Hopen Hpkx Hpeer th Hpt1 Hcap.
  pose proof (xwing_pair_len _ _ Hpkx) as [Hlpk _].
  pose proof (mldsa_pair_len _ _ Hsig) as Hvk.
  unfold edhoc4_r_handle_msg1. cbv zeta.
  rewrite (ztake_app_exact E4_XWING_CT), (sub_app_r ct_b), sub_app_exact by zl4.
  rewrite (zdrop_app_ge (E4_XWING_CT + E4_XWING_PK)), zdrop_app_exact by zl4.
  wp_steps. apply wp_return_if; [by rewrite Hrole|]. wp_steps.
  apply wp_return_if; [zl4|]. wp_steps.
  eapply wp_xwing_decaps; [exact Hopen|]. wp_steps.
  eapply wp_aead_open; [exact Hpt1|zl|]. wp_steps.
  apply wp_return_if; [done|]. wp_steps.
  eapply wp_xwing_encaps; [exact Hpkx|]. intros cte sse r1 Hcte Hsse Hopene. wp_steps.
  eapply wp_of_option; [done|]. wp_steps.
  eapply wp_xwing_encaps; [exact Hpeer|]. intros cta ssa r2 Hcta Hssa Hopena. wp_steps.
  eapply wp_of_option; [done|]. wp_steps.
  eapply wp_mldsa_sign; [exact Hsig|]. intros sig r3 Hver Hlsig. wp_steps.
  eapply wp_of_option; [done|]. wp_steps.
  apply wp_return_if; [by rewrite Hlsig|]. wp_steps.
  apply wp_aead_seal; [cbn; zl4|]. intros ct2 Hct2 Hlen2. wp_steps.
  assert (zlen ct2 = E4_PT2 + E4_AEAD_TAG) as Hl2 by (rewrite Hlen2; cbn; zl4).
  apply wp_return_if; [zl4|]. wp_steps.
  split_and!; try done. exists cte, ct2, sig. by split_and!.
Qed.

(** The exporter's outputs for PRK4e3m and TH4. *)
Definition exported (c : edhoc4_ctx) (prk th : bytes) : Prop :=
  let out := hkdf_expand prk th E4_PRK_LEN in
  msk c = hkdf_expand out (str "EDHOC-EAP-MSK") E4_MSK_LEN /\
  emsk c = hkdf_expand out (str "EDHOC-EAP-EMSK") E4_EMSK_LEN.

Definition pt3_of (c : edhoc4_ctx) (mac3 sig_i : bytes) : bytes :=
  id_cred (self c) ++ new_pk c ++ mac3 ++ sig_vk (self c) ++ sig_i.

Definition msg3_sent (c0 c : edhoc4_ctx) (m3 : bytes) : Prop :=
  exists sig_i,
    let me := self c in
    let mac3 := compute_mac (prk4e3m c) (th3 c) (id_cred me) (new_pk c) in
    zlen m3 = E4_PT3 + E4_AEAD_TAG /\ zlen sig_i = E4_MLDSA_SIG /\
    xwing_pair (new_pk c) (new_sk c) /\
    mldsa_verify sig_i (sig_message (th3 c) (id_cred me) mac3) (sig_vk me) = true /\
    aead_opens (prk3e2m c) (th3 c) m3 (pt3_of c mac3 sig_i) /\
    th4 c = sha256_cat [th3 c; pt3_of c mac3 sig_i] /\
    exported c (prk4e3m c) (th4 c) /\
    done c = 0 /\ role c = 1 /\ self c = self c0.

Lemma wp_derive_msk (Q : unit -> st edhoc4_ctx -> Prop) c r :
  (forall po m e,
     (forall c', msk c' = m -> emsk c' = e -> exported c' (prk4e3m c) (th4 c)) ->
     Q tt (set_done 1 (set_emsk e (set_msk m (set_prk_out po c))), r)) ->
  wp (ctx_set derive_prk_out_and_msk) Q (c, r).
Proof.
  intros HQ. apply wp_ctx_set.
  change (derive_prk_out_and_msk c) with
    (let po := hkdf_expand (prk4e3m c) (th4 c) E4_PRK_LEN in
     set_done 1 (set_emsk (hkdf_expand po (str "EDHOC-EAP-EMSK") E4_EMSK_LEN)
       (set_msk (hkdf_expand po (str "EDHOC-EAP-MSK") E4_MSK_LEN) (set_prk_out po c)))).
  apply HQ. intros c' E1 E2. split; [exact E1|exact E2].
Qed.

Lemma handle_msg2_wp c r cte ct2 cta idr vkr sigr sse ssa cap :
  role c = 1 -> creds_ok (self c) ->
  let t2 := sha256_cat [h_msg1 c; cte; [0x20]] in
  let p2 := hkdf_extract t2 sse in
  let p3 := hkdf_extract p2 (ss_b c) in
  let mac2 := compute_mac p3 t2 idr [] in
  let pt2 := cta ++ [0x20] ++ idr ++ vkr ++ mac2 ++ sigr in
  zlen cte = E4_XWING_CT -> zlen ct2 = E4_PT2 + E4_AEAD_TAG ->
  zlen cta = E4_XWING_CT -> zlen idr = E4_ID_CRED -> zlen vkr = E4_MLDSA_PK ->
  zlen sigr = E4_MLDSA_SIG ->
  xwing_opens cte (eph_sk c) sse -> aead_opens p2 t2 ct2 pt2 ->
  mldsa_verify sigr (sig_message t2 idr mac2) vkr = true ->
  xwing_opens cta (kem_sk (self c)) ssa ->
  4975 <= cap ->
  wp (edhoc4_i_handle_msg2 (cte ++ ct2) cap)
     (fun m3 s => let c' := fst s in msg3_sent c c' m3 /\
        th3 c' = sha256_cat [t2; pt2] /\ prk3e2m c' = p3 /\
        prk4e3m c' = hkdf_extract p3 ssa /\
        peer_id_cred c' = idr /\ peer_sig_vk c' = vkr /\ ss_a c' = ssa) (c, r).
Proof.
  intros Hrole (Hkem & Hsig & Hid) t2 p2 p3 mac2 pt2 Hcte Hct2 Hcta Hidr Hvkr Hsigr
    Hope Hpt2 Hver Hopa Hcap.
  pose proof (mldsa_pair_len _ _ Hsig) as Hvk.
  assert (zlen mac2 = 8) as Hmac by apply zlen_compute_mac.
  destruct (pt2_fields cta [0x20] idr vkr mac2 sigr)
    as (Hlpt2 & Ecta & Ecr & Eid & Evk & Emac & Esig); [done..|].
  unfold edhoc4_i_handle_msg2. cbv zeta.
  rewrite (ztake_app_exact E4_XWING_CT cte), (zdrop_app_exact E4_XWING_CT cte) by done.
  wp_steps. apply wp_return_if; [by rewrite Hrole|]. wp_steps.
  apply wp_return_if; [zl4|]. wp_steps.
  eapply wp_xwing_decaps; [exact Hope|]. wp_steps.
  eapply wp_aead_open; [exact Hpt2|subst pt2; zl4|].
  unfold pt2. rewrite Hlpt2, Ecta, Ecr, Eid, Evk, Emac, Esig.
  wp_steps. apply wp_return_if; [done|]. wp_steps.
  apply wp_return_if; [by rewrite bool_decide_true|]. wp_steps.
  apply wp_return_if; [apply negb_false_iff; exact Hver|]. wp_steps.
  eapply wp_xwing_decaps; [exact Hopa|]. wp_steps.
  apply wp_xwing_keypair. intros npk nsk r1 Hnew. wp_steps.
  pose proof (xwing_pair_len _ _ Hnew) as [Hnpk _].
  eapply wp_mldsa_sign; [exact Hsig|]. intros sig r2 Hver3 Hlsig. wp_steps.
  eapply wp_of_option; [done|]. wp_steps.
  rewrite (ztake_all E4_MLDSA_SIG sig) by lia.
  apply wp_aead_seal; [zl4|]. intros ct3 Hct3 Hlen3. wp_steps.
  assert (zlen ct3 = E4_PT3 + E4_AEAD_TAG) as Hl3 by (rewrite Hlen3; zl4).
  apply wp_return_if; [zl4|]. wp_steps.
  apply wp_derive_msk. intros po m e Hexp. wp_steps.
  split_and!; try reflexivity. exists sig. fields4. split_and!; try done. by apply Hexp.
Qed.

Definition msg4_sent (c : edhoc4_ctx) (m4 : bytes) : Prop :=
  zlen m4 = E4_XWING_PK + E4_AEAD_TAG /\
  xwing_pair (new_pk c) (new_sk c) /\
  aead_opens (prk4e3m c) (th4 c) m4 (new_pk c) /\
  exported c (prk4e3m c) (th4 c) /\ done c = 1.

Lemma handle_msg3_wp c r m3 idi npk vki sigi cap :
  role c = 0 ->
  let p4 := hkdf_extract (prk3e2m c) (ss_a c) in
  let mac3 := compute_mac p4 (th3 c) idi npk in
  let pt3 := idi ++ npk ++ mac3 ++ vki ++ sigi in
  zlen idi = E4_ID_CRED -> zlen npk = E4_XWING_PK -> zlen vki = E4_MLDSA_PK ->
  zlen sigi = E4_MLDSA_SIG ->
  aead_opens (prk3e2m c) (th3 c) m3 pt3 ->
  mldsa_verify sigi (sig_message (th3 c) idi mac3) vki = true ->
  1232 <= cap ->
  wp (edhoc4_r_handle_msg3 m3 cap)
     (fun m4 s => let c' := fst s in msg4_sent c' m4 /\
        prk4e3m c' = p4 /\ th4 c' = sha256_cat [th3 c; pt3] /\
        peer_new_pk c' = npk /\ peer_id_cred c' = idi /\ peer_sig_vk c' = vki) (c, r).
Proof.
  intros Hrole p4 mac3 pt3 Hidi Hnpk Hvki Hsigi Hpt3 Hver Hcap.
  assert (zlen mac3 = 8) as Hmac by apply zlen_compute_mac.
  destruct (pt3_fields idi npk mac3 vki sigi)
    as (Hlpt3 & Eid & Enpk & Emac & Evk & Esig); [done..|].
  unfold edhoc4_r_handle_msg3. cbv zeta.
  wp_steps. apply wp_return_if; [by rewrite Hrole|]. wp_steps.
  eapply wp_aead_open; [exact Hpt3|subst pt3; zl4|].
  unfold pt3. rewrite Hlpt3, Eid, Enpk, Emac, Evk, Esig.
  wp_steps. apply wp_return_if; [done|]. wp_steps.
  apply wp_return_if; [by rewrite bool_decide_true|]. wp_steps.
  apply wp_return_if; [apply negb_false_iff; exact Hver|]. wp_steps.
  apply wp_derive_msk. intros po m e Hexp. wp_steps.
  apply wp_xwing_keypair. intros npkB nskB r1 Hnew. wp_steps.
  pose proof (xwing_pair_len _ _ Hnew) as [HnpkB _].
  apply wp_aead_seal; [lia|]. intros ct4 Hct4 Hlen4. wp_steps.
  apply wp_return_if; [zl4|]. wp_steps.
  split_and!; try reflexivity. unfold msg4_sent. fields4.
  split_and!; [lia|done|exact Hct4|by apply Hexp|done].
Qed.

Lemma handle_msg4_wp c r m4 npk :
  role c = 1 -> aead_opens (prk4e3m c) (th4 c) m4 npk -> zlen npk = E4_XWING_PK ->
  wp (edhoc4_i_handle_msg4 m4)
     (fun _ s => fst s = set_done 1 (set_peer_new_pk npk c)) (c, r).
Proof.
  intros Hrole Hpt4 Hnpk. unfold edhoc4_i_handle_msg4.
  wp_steps. apply wp_return_if; [by rewrite Hrole|]. wp_steps.
  eapply wp_aead_open; [exact Hpt4|zl4|]. wp_steps.
  apply wp_return_if; [by rewrite Hnpk|]. by wp_steps.
Qed.

Lemma gen_creds_wp {X} (x : X) r i :
  zlen i = E4_ID_CRED ->
  wp (edhoc4_gen_creds 0 (Some i))
     (fun k s => creds_ok k /\ id_cred k = i /\ fst s = x) (x, r).
Proof.
  intros Hi. unfold edhoc4_gen_creds, edhoc4_gen_creds_at. wp_steps. apply wp_with_ctx. wp_steps.
  apply wp_return_if; [done|]. wp_steps. apply wp_return_if; [done|]. wp_steps.
  apply wp_xwing_keypair. intros pk sk r1 Hp. wp_steps.
  destruct (mldsa_keypair_ok r1) as (vk & ssk & r2 & E & _ & _).
  eapply wp_draw; [exact E|]. wp_steps. eapply wp_of_option; [done|]. wp_steps.
  eapply wp_of_option; [done|]. wp_steps.
  split_and!; [|done..]. split_and!; [done|by exists r1, r2|done].
Qed.

Lemma wp_on_initiator {A} (m : M (st edhoc4_ctx) A) Q i r g :
  wp m (fun a s => Q a ((fst s, r), snd s)) (i, g) -> wp (on_initiator m) Q ((i, r), g).
Proof. intros H. by apply wp_zoom. Qed.
Lemma wp_on_responder {A} (m : M (st edhoc4_ctx) A) Q i r g :
  wp m (fun a s => Q a ((i, fst s), snd s)) (r, g) -> wp (on_responder m) Q ((i, r), g).
Proof. intros H. by apply wp_zoom. Qed.

(** Both peers compute the exporter from the same PRK4e3m and TH4. *)
Lemma exported_agree c1 c2 prk th :
  exported c1 prk th -> exported c2 prk th ->
  msk c1 = msk c2 /\ emsk c1 = emsk c2 /\ zlen (msk c1) = 64 /\ zlen (emsk c1) = 64.
Proof.
  intros [E1 F1] [E2 F2]. rewrite E1, E2, F1, F2.
  split_and!; try done; apply zlen_hkdf_expand; unfold E4_MSK_LEN, E4_EMSK_LEN; lia.
Qed.

(** ** The handshake, one message at a time

    [sent1] to [sent4] describe both contexts after each message; the lemmas
    [step1] to [step5] take one to the next.  The EAP layer's proofs use them
    with fragmentation between the steps. *)
Section steps.
Variables ue aaa : edhoc4_creds.
Hypothesis Hue : creds_ok ue.
Hypothesis Haaa : creds_ok aaa.
Let I0 : edhoc4_ctx := edhoc4_init_initiator ue (kem_pk aaa).
Let R0 : edhoc4_ctx := edhoc4_init_responder aaa (kem_pk ue).

Definition sent1 (i : edhoc4_ctx) (m1 : bytes) : Prop := msg1_sent I0 i (kem_sk aaa) m1.

Definition sent2 (i r : edhoc4_ctx) (m2 : bytes) : Prop :=
  exists m1, sent1 i m1 /\ msg2_sent R0 r (eph_sk i) (kem_sk ue) m1 m2 /\ ss_b r = ss_b i.

Definition sent3 (i r : edhoc4_ctx) (m3 : bytes) : Prop :=
  exists sigi,
    let p4 := hkdf_extract (prk3e2m r) (ss_a r) in
    let mac3 := compute_mac p4 (th3 r) (id_cred ue) (new_pk i) in
    let pt3 := id_cred ue ++ new_pk i ++ mac3 ++ sig_vk ue ++ sigi in
    role i = 1 /\ role r = 0 /\ xwing_pair (new_pk i) (new_sk i) /\
    zlen sigi = E4_MLDSA_SIG /\ aead_opens (prk3e2m r) (th3 r) m3 pt3 /\
    mldsa_verify sigi (sig_message (th3 r) (id_cred ue) mac3) (sig_vk ue) = true /\
    prk4e3m i = p4 /\ th4 i = sha256_cat [th3 r; pt3] /\ exported i p4 (th4 i).

Definition sent4 (i r : edhoc4_ctx) (m4 : bytes) : Prop :=
  role i = 1 /\ th4 r = th4 i /\ exported i (prk4e3m i) (th4 i) /\
  exported r (prk4e3m i) (th4 i) /\ xwing_pair (new_pk r) (new_sk r) /\
  aead_opens (prk4e3m i) (th4 i) m4 (new_pk r) /\ peer_new_pk r = new_pk i /\ done r = 1.

Lemma step1 g :
  wp (edhoc4_i_make_msg1 E4_MAX_MSG)
     (fun m1 s => sent1 (fst s) m1 /\ zlen m1 = 2354) (I0, g).
Proof.
  destruct Haaa as (Hk & _). eapply wp_mono; [|by apply (make_msg1_wp I0 g (kem_sk aaa))].
  intros m1 s H. split; [exact H|].
  destruct H as (ctb & ct1 & -> & Hctb & Hct1 & Heph & _).
  pose proof (xwing_pair_len _ _ Heph) as [Hleph _]. zl4.
Qed.

Lemma step2 i m1 g :
  sent1 i m1 ->
  wp (edhoc4_r_handle_msg1 m1 E4_MAX_MSG)
     (fun m2 s => sent2 i (fst s) m2 /\ zlen m2 = 6000) (R0, g).
Proof.
  intros H1. pose proof H1 as (ctb & ct1 & -> & Hctb & Hct1 & Heph & Hopb & [Ht1 Hp1] & Hpt1 & _).
  destruct Hue as (Hkem_u & _).
  eapply wp_mono; [|eapply (handle_msg1_wp R0 g ctb (eph_pk i) ct1 (ss_b i))]; try done.
  2: { by rewrite Ht1, Hp1 in *. }
  intros m2 s [H2 (Hssb & _)]. split; [by exists (ctb ++ eph_pk i ++ ct1)|].
  destruct H2 as (cte & ct2 & sigr & -> & Hcte & Hct2 & _). zl4.
Qed.

Lemma step3 i r m2 g :
  sent2 i r m2 ->
  wp (edhoc4_i_handle_msg2 m2 E4_MAX_MSG)
     (fun m3 s => sent3 (fst s) r m3 /\ zlen m3 = 4975) (i, g).
Proof.
  intros (m1 & (ctb & ct1 & Em1 & _ & _ & _ & _ & _ & _ & Hh1 & Hri & Hself & _)
    & (cte & ct2 & sigr & -> & Hcte & Hct2 & Hcta & Hsigr & Hope & Hopa
    & (Ht2 & Hp2 & Hp3) & Hver & Hpt2 & Ht3 & Hrr & Hselfr & _ & Hcr) & Hssb).
  change (self r = aaa) in Hselfr. change (c_r r = [0x20]) in Hcr. change (self i = ue) in Hself.
  unfold pt2_of in Hpt2, Ht3. rewrite ?Hselfr, ?Hcr in *.
  pose proof (mldsa_pair_len _ _ (proj1 (proj2 Haaa))) as Hvk_a.
  pose proof Haaa as (_ & _ & Hid_a).
  eapply wp_mono; [|eapply (handle_msg2_wp i g cte ct2 (ct_a r) (id_cred aaa) (sig_vk aaa)
    sigr (ss_e r) (ss_a r))]; try done.
  all: rewrite ?Hself, ?Hh1, <-?Hssb; try done.
  all: rewrite <-?Ht2, <-?Hp2, <-?Hp3, <-?Ht3; try done.
  intros m3 [i2 g3]. cbn [fst snd].
  intros ((sigi & Hm3 & Hsigi & Hnew & Hver3 & Hpt3 & Ht4 & Hexp & Hdone & Hri2 & Hself2)
    & Eth3 & Ep3 & Ep4 & _).
  unfold pt3_of in Hpt3, Ht4. rewrite Hself2, Hself, Ep3, Eth3, Ep4 in *.
  split; [|zl4]. exists sigi. cbn [fst]. by split_and!.
Qed.

Lemma step4 i r m3 g :
  sent3 i r m3 ->
  wp (edhoc4_r_handle_msg3 m3 E4_MAX_MSG)
     (fun m4 s => sent4 i (fst s) m4 /\ zlen m4 = 1232) (r, g).
Proof.
  intros (sigi & Hri & Hrr & Hnew & Hsigi & Hpt3 & Hver3 & Ep4 & Ht4 & Hexp).
  pose proof (xwing_pair_len _ _ Hnew) as [Hlnew _].
  pose proof (mldsa_pair_len _ _ (proj1 (proj2 Hue))) as Hvk_u.
  pose proof Hue as (_ & _ & Hid_u).
  eapply wp_mono; [|eapply (handle_msg3_wp r g m3 (id_cred ue) (new_pk i) (sig_vk ue) sigi)];
    try done.
  intros m4 [r2 g4]. cbn [fst snd].
  intros ((Hm4 & Hnewr & Hpt4 & Hexpr & Hdoner) & Ep4r & Eth4 & Epnk & _).
  rewrite Ep4r, Eth4, <-Ht4, <-Ep4 in *. split; [|zl4]. by split_and!.
Qed.

Lemma step5 i r m4 g :
  sent4 i r m4 ->
  wp (edhoc4_i_handle_msg4 m4)
     (fun _ s => selftest_ok (fst s) r = true /\ msk (fst s) = msk r /\
                 zlen (msk (fst s)) = 64 /\ zlen (emsk (fst s)) = 64) (i, g).
Proof.
  intros (Hri & Eth & Hexp & Hexpr & Hnewr & Hpt4 & Epnk & Hdoner).
  pose proof (xwing_pair_len _ _ Hnewr) as [Hlnewr _].
  destruct (exported_agree i r _ _ Hexp Hexpr) as (Emsk & Eemsk & Hlmsk & Hlemsk).
  eapply wp_mono; [|eapply (handle_msg4_wp i g m4 (new_pk r))]; try done.
  intros _ [i3 g5] E3. cbn [fst snd] in *. subst i3. fields4. split_and!; [|done..].
  unfold selftest_ok. fields4. rewrite Hdoner.
  by rewrite !bool_decide_true by congruence.
Qed.

Lemma handshake_wp g :
  wp edhoc4_handshake
     (fun ms s => let '(i, r) := fst s in
        selftest_ok i r = true /\ map zlen ms = [2354; 6000; 4975; 1232] /\
        zlen (msk i) = 64 /\ zlen (emsk i) = 64) ((I0, R0), g).
Proof.
  unfold edhoc4_handshake. apply wp_bind, wp_on_initiator.
  eapply wp_mono; [|apply step1]. intros m1 [i1 g1] [H1 L1]. cbn [fst snd] in *.
  apply wp_bind, wp_on_responder.
  eapply wp_mono; [|by apply step2]. intros m2 [r1 g2] [H2 L2]. cbn [fst snd] in *.
  apply wp_bind, wp_on_initiator.
  eapply wp_mono; [|by apply step3]. intros m3 [i2 g3] [H3 L3]. cbn [fst snd] in *.
  apply wp_bind, wp_on_responder.
  eapply wp_mono; [|by apply step4]. intros m4 [r2 g4] [H4 L4]. cbn [fst snd] in *.
  apply wp_bind, wp_on_initiator.
  eapply wp_mono; [|by eapply step5]. intros [] [i3 g5] (H5 & _ & L5). cbn [fst snd] in *.
  apply wp_ret. cbn [fst snd map]. rewrite L1, L2, L3, L4. done.
Qed.
End steps.

Lemma gen_creds_ok {X} (x : X) r i k s' :
  zlen i = E4_ID_CRED ->
  edhoc4_gen_creds 0 (Some i) (x, r) = (Ok k, s') -> creds_ok k.
Proof.
  intros Hi E. pose proof (gen_creds_wp x r i Hi) as H. unfold wp, post in H.
  rewrite E in H. apply H.
Qed.

(** Two provisioned peers, whatever randomness is drawn. *)
Lemma handshake_agreed idu ida ga gb sa sb ue aaa g :
  zlen idu = E4_ID_CRED -> zlen ida = E4_ID_CRED ->
  edhoc4_gen_creds 0 (Some idu) (tt, ga) = (Ok ue, sa) ->
  edhoc4_gen_creds 0 (Some ida) (tt, gb) = (Ok aaa, sb) ->
  exists ms i r g',
    edhoc4_handshake ((edhoc4_init_initiator ue (kem_pk aaa),
                       edhoc4_init_responder aaa (kem_pk ue)), g) = (Ok ms, ((i, r), g')) /\
    map zlen ms = [2354; 6000; 4975; 1232] /\
    msk i = msk r /\ zlen (msk i) = 64 /\ emsk i = emsk r /\ th4 i = th4 r /\
    new_pk i = peer_new_pk r /\ new_pk r = peer_new_pk i /\ done i <> 0 /\ done r <> 0.
Proof.
  intros Hu Ha Eu Ea.
  destruct (wp_run _ _ _ (handshake_wp ue aaa (gen_creds_ok _ _ _ _ _ Hu Eu)
    (gen_creds_ok _ _ _ _ _ Ha Ea) g)) as (ms & [[i r] g'] & E & Hok & Hlen & Hmsk & _).
  exists ms, i, r, g'. unfold selftest_ok in Hok.
  repeat match goal with H : _ && _ = true |- _ => apply andb_true_iff in H as [H ?] end.
  rewrite !bool_decide_eq_true in *. rewrite !negb_true_iff, !Z.eqb_neq in *.
  by split_and!.
Qed.

(** C1: two peers that hold each other's key made by [edhoc4_gen_creds] complete
    the handshake, with no error, whatever randomness is drawn: the four messages
    have 2354, 6000, 4975 and 1232 bytes, both sides end with the same MSK (of 64
    bytes), EMSK and TH4, each side holds the other's next static key, and both
    report that they are done. *)
Theorem edhoc4_handshake_agrees idu ida ga gb sa sb ue aaa g :
  zlen idu = E4_ID_CRED -> zlen ida = E4_ID_CRED ->
  edhoc4_gen_creds 0 (Some idu) (tt, ga) = (Ok ue, sa) ->
  edhoc4_gen_creds 0 (Some ida) (tt, gb) = (Ok aaa, sb) ->
  exists ms i r g',
    edhoc4_handshake ((edhoc4_init_initiator ue (kem_pk aaa),
                       edhoc4_init_responder aaa (kem_pk ue)), g) = (Ok ms, ((i, r), g')) /\
    map zlen ms = [2354; 6000; 4975; 1232] /\
    msk i = msk r /\ zlen (msk i) = 64 /\ emsk i = emsk r /\ th4 i = th4 r /\
    new_pk i = peer_new_pk r /\ new_pk r = peer_new_pk i /\ done i <> 0 /\ done r <> 0.
Proof. apply handshake_agreed. Qed.

(** The self-test of the core passes on every run: starting from any
    randomness, [main] of selftest.c reports the four message sizes and never
    takes one of its failure exits. *)
Theorem selftest_passes {X} (x : X) g :
  exists g', selftest_main 0 (x, g) = (Ok [2354; 6000; 4975; 1232], (x, g')).
Proof.
  assert (H : wp (selftest_main 0)
    (fun ns s => ns = [2354; 6000; 4975; 1232] /\ fst s = x) (x, g)).
  { unfold selftest_main. wp_steps. apply wp_return_if; [done|]. wp_steps.
    destruct (wp_run _ _ _ (gen_creds_wp x g [0; 0; 1] ltac:(done))) as (ue & [? g1] & E1 & Hue & _ & [= ->]).
    eapply run_wp; [exact E1|]. wp_steps.
    destruct (wp_run _ _ _ (gen_creds_wp x g1 [0; 0; 2] ltac:(done))) as (aa & [? g2] & E2 & Haa & _ & [= ->]).
    eapply run_wp; [exact E2|]. wp_steps. apply wp_with_ctx.
    eapply wp_mono; [|apply (handshake_wp ue aa Hue Haa g2)].
    intros ms [[i r] g3] (Hok & Hlen & _). fields4. cbn beta iota. wp_steps.
    apply wp_return_if; [by rewrite Hok|]. by wp_steps. }
  destruct (wp_run _ _ _ H) as (ns & [x' g'] & E & -> & <-). by exists g'.
Qed.

(** ** Credential files *)
Lemma creds_of_bytes_bytes k :
  zlen (kem_sk k) = E4_XWING_SK -> zlen (kem_pk k) = E4_XWING_PK ->
  zlen (sig_sk k) = E4_MLDSA_SK -> zlen (sig_vk k) = E4_MLDSA_PK ->
  zlen (id_cred k) = E4_ID_CRED ->
  creds_of_bytes (creds_bytes k) = k /\ zlen (creds_bytes k) = creds_size.
Proof.
  intros. unfold creds_of_bytes, creds_bytes. split; [|unfold creds_size; zl4].
  destruct k; cbn in *. f_equal; by slices4.
Qed.
End facts.
#[export] Hint Rewrite @zlen_sha256_cat @zlen_compute_mac using typeclasses eauto : zlen.

(** Credentials made by the concrete primitives. *)
Module ToyCreds.
Definition run_creds (i : Z) : res edhoc4_creds * st (C := toy_crypto) unit :=
  edhoc4_gen_creds (C := toy_crypto) 0 (Some [0; 0; i]) (tt, i).
Definition creds_of (i : Z) : edhoc4_creds :=
  match run_creds i with (Ok k, _) => k | _ => self zero_ctx end.
Definition ue : edhoc4_creds := creds_of 1.
Definition aaa : edhoc4_creds := creds_of 2.
End ToyCreds.

Lemma edhoc4_handshake_agrees_witness :
  exists ms i r g',
    edhoc4_handshake (C := toy_crypto)
      ((edhoc4_init_initiator ToyCreds.ue (kem_pk ToyCreds.aaa),
        edhoc4_init_responder ToyCreds.aaa (kem_pk ToyCreds.ue)), 40) = (Ok ms, ((i, r), g')) /\
    map zlen ms = [2354; 6000; 4975; 1232] /\
    msk i = msk r /\ zlen (msk i) = 64 /\ emsk i = emsk r /\ th4 i = th4 r /\
    new_pk i = peer_new_pk r /\ new_pk r = peer_new_pk i /\ done i <> 0 /\ done r <> 0.
Proof.
  apply (edhoc4_handshake_agrees (CL := toy_laws) [0; 0; 1] [0; 0; 2] 1 2
    (snd (ToyCreds.run_creds 1)) (snd (ToyCreds.run_creds 2))).
  - reflexivity.
  - reflexivity.
  - vm_compute. reflexivity.
  - vm_compute. reflexivity.
Defined.

Lemma selftest_passes_witness :
  exists g', selftest_main (C := toy_crypto) 0 (tt, 5) = (Ok [2354; 6000; 4975; 1232], (tt, g')).
Proof. apply (selftest_passes (CL := toy_laws) tt 5). Defined.
