(* ===== verification/Edhoc4Safety.v ===== *)
(** * Edhoc4Safety: types, bounds and error behaviour of the method 4 core

    Every handler is run here on arbitrary input and an arbitrary well-formed
    context: the context stays well-formed on every outcome, replies have their
    exact sizes, error codes are those of edhoc4.h, and the only faults are the
    decryptions of an overlong ciphertext into a local buffer. *)
From stdpp Require Import base gmap numbers list option strings.
From Stdlib Require Import ZArith Lia.
From S2P Require Import Prelude Crypto Hkdf Files Edhoc4 Edhoc4Facts.
Local Open Scope c_scope.

(** ** The five entry points as one labelled call *)
Inductive call4 :=
  | MakeMsg1
  | HandleMsg1 (inp : bytes)
  | HandleMsg2 (inp : bytes)
  | HandleMsg3 (inp : bytes)
  | HandleMsg4 (inp : bytes).

Definition exec4 `{C : Crypto} (k : call4) (cap : Z) : M (st edhoc4_ctx) bytes :=
  match k with
  | MakeMsg1 => edhoc4_i_make_msg1 cap
  | HandleMsg1 inp => edhoc4_r_handle_msg1 inp cap
  | HandleMsg2 inp => edhoc4_i_handle_msg2 inp cap
  | HandleMsg3 inp => edhoc4_r_handle_msg3 inp cap
  | HandleMsg4 inp => edhoc4_i_handle_msg4 inp ;;; ret []
  end.

(** The role a call is for: 1 the initiator, 0 the responder. *)
Definition call_role (k : call4) : Z :=
  match k with MakeMsg1 | HandleMsg2 _ | HandleMsg4 _ => 1 | _ => 0 end.

Definition reply_len (k : call4) : Z :=
  match k with
  | MakeMsg1 => E4_XWING_CT + E4_XWING_PK + 2 + E4_AEAD_TAG
  | HandleMsg1 _ => E4_XWING_CT + E4_PT2 + E4_AEAD_TAG
  | HandleMsg2 _ => E4_PT3 + E4_AEAD_TAG
  | HandleMsg3 _ => E4_XWING_PK + E4_AEAD_TAG
  | HandleMsg4 _ => 0
  end.

(** The input whose ciphertext is longer than the buffer it is opened into. *)
Definition overlong (k : call4) : Prop :=
  match k with
  | MakeMsg1 => False
  | HandleMsg1 inp => E4_XWING_CT + E4_XWING_PK + 64 + E4_AEAD_TAG < zlen inp
  | HandleMsg2 inp => E4_XWING_CT + E4_PT2 + 16 + E4_AEAD_TAG < zlen inp
  | HandleMsg3 inp => E4_PT3 + 16 + E4_AEAD_TAG < zlen inp
  | HandleMsg4 inp => E4_XWING_PK + 16 + E4_AEAD_TAG < zlen inp
  end.

(** ** Well-formed contexts: every array has its declared size *)
Record wf_creds (k : edhoc4_creds) : Prop := {
  wf_kem_sk : zlen (kem_sk k) = E4_XWING_SK;
  wf_kem_pk : zlen (kem_pk k) = E4_XWING_PK;
  wf_sig_sk : zlen (sig_sk k) = E4_MLDSA_SK;
  wf_sig_vk : zlen (sig_vk k) = E4_MLDSA_PK;
  wf_id_cred : zlen (id_cred k) = E4_ID_CRED
}.

Definition wf4 (c : edhoc4_ctx) : Prop :=
  wf_creds (self c) /\ zlen (peer_kem_pk c) = E4_XWING_PK /\
  zlen (peer_sig_vk c) = E4_MLDSA_PK /\ zlen (peer_id_cred c) = E4_ID_CRED /\
  zlen (c_i c) = E4_CONN_ID /\ zlen (c_r c) = E4_CONN_ID /\
  zlen (eph_sk c) = E4_XWING_SK /\ zlen (eph_pk c) = E4_XWING_PK /\
  zlen (ss_b c) = E4_XWING_SS /\ zlen (ss_e c) = E4_XWING_SS /\ zlen (ss_a c) = E4_XWING_SS /\
  zlen (th1 c) = E4_HASH_LEN /\ zlen (th2 c) = E4_HASH_LEN /\ zlen (th3 c) = E4_HASH_LEN /\
  zlen (th4 c) = E4_HASH_LEN /\ zlen (h_msg1 c) = E4_HASH_LEN /\
  zlen (prk1e c) = E4_PRK_LEN /\ zlen (prk2e c) = E4_PRK_LEN /\ zlen (prk3e2m c) = E4_PRK_LEN /\
  zlen (prk4e3m c) = E4_PRK_LEN /\ zlen (prk_out c) = E4_PRK_LEN /\
  zlen (new_sk c) = E4_XWING_SK /\ zlen (new_pk c) = E4_XWING_PK /\
  zlen (peer_new_pk c) = E4_XWING_PK /\ zlen (ct_a c) = E4_XWING_CT /\
  zlen (msk c) = E4_MSK_LEN /\ zlen (emsk c) = E4_EMSK_LEN /\ (done c = 0 \/ done c = 1).

Section wf_sizes.
Variable c : edhoc4_ctx.
Hypothesis H : wf4 c.
Ltac wf_proj := unfold wf4 in *; tauto.
Lemma wf4_eph_pk : zlen (eph_pk c) = E4_XWING_PK.
Proof. wf_proj. Qed.
Lemma wf4_new_pk : zlen (new_pk c) = E4_XWING_PK.
Proof. wf_proj. Qed.
Lemma wf4_ct_a : zlen (ct_a c) = E4_XWING_CT.
Proof. wf_proj. Qed.
Lemma wf4_c_r : zlen (c_r c) = E4_CONN_ID.
Proof. wf_proj. Qed.
Lemma wf4_id_cred : zlen (id_cred (self c)) = E4_ID_CRED.
Proof. apply H. Qed.
Lemma wf4_sig_vk : zlen (sig_vk (self c)) = E4_MLDSA_PK.
Proof. apply H. Qed.
End wf_sizes.
#[local] Hint Rewrite wf4_eph_pk wf4_new_pk wf4_ct_a wf4_c_r wf4_id_cred wf4_sig_vk
  using assumption : zlen.

Ltac wf_field := unfold wf4 in *; fields4; tauto.
Section wf_setters.
Variables (v : bytes) (c : edhoc4_ctx).
Hypothesis H : wf4 c.
Lemma wf_set_peer_sig_vk : zlen v = E4_MLDSA_PK -> wf4 (set_peer_sig_vk v c).
Proof. wf_field. Qed.
Lemma wf_set_peer_id_cred : zlen v = E4_ID_CRED -> wf4 (set_peer_id_cred v c).
Proof. wf_field. Qed.
Lemma wf_set_c_i : zlen v = E4_CONN_ID -> wf4 (set_c_i v c).
Proof. wf_field. Qed.
Lemma wf_set_c_r : zlen v = E4_CONN_ID -> wf4 (set_c_r v c).
Proof. wf_field. Qed.
Lemma wf_set_eph_sk : zlen v = E4_XWING_SK -> wf4 (set_eph_sk v c).
Proof. wf_field. Qed.
Lemma wf_set_eph_pk : zlen v = E4_XWING_PK -> wf4 (set_eph_pk v c).
Proof. wf_field. Qed.
Lemma wf_set_ss_b : zlen v = E4_XWING_SS -> wf4 (set_ss_b v c).
Proof. wf_field. Qed.
Lemma wf_set_ss_e : zlen v = E4_XWING_SS -> wf4 (set_ss_e v c).
Proof. wf_field. Qed.
Lemma wf_set_ss_a : zlen v = E4_XWING_SS -> wf4 (set_ss_a v c).
Proof. wf_field. Qed.
Lemma wf_set_th1 : zlen v = E4_HASH_LEN -> wf4 (set_th1 v c).
Proof. wf_field. Qed.
Lemma wf_set_th2 : zlen v = E4_HASH_LEN -> wf4 (set_th2 v c).
Proof. wf_field. Qed.
Lemma wf_set_th3 : zlen v = E4_HASH_LEN -> wf4 (set_th3 v c).
Proof. wf_field. Qed.
Lemma wf_set_th4 : zlen v = E4_HASH_LEN -> wf4 (set_th4 v c).
Proof. wf_field. Qed.
Lemma wf_set_h_msg1 : zlen v = E4_HASH_LEN -> wf4 (set_h_msg1 v c).
Proof. wf_field. Qed.
Lemma wf_set_prk1e : zlen v = E4_PRK_LEN -> wf4 (set_prk1e v c).
Proof. wf_field. Qed.
Lemma wf_set_prk2e : zlen v = E4_PRK_LEN -> wf4 (set_prk2e v c).
Proof. wf_field. Qed.
Lemma wf_set_prk3e2m : zlen v = E4_PRK_LEN -> wf4 (set_prk3e2m v c).
Proof. wf_field. Qed.
Lemma wf_set_prk4e3m : zlen v = E4_PRK_LEN -> wf4 (set_prk4e3m v c).
Proof. wf_field. Qed.
Lemma wf_set_prk_out : zlen v = E4_PRK_LEN -> wf4 (set_prk_out v c).
Proof. wf_field. Qed.
Lemma wf_set_new_sk : zlen v = E4_XWING_SK -> wf4 (set_new_sk v c).
Proof. wf_field. Qed.
Lemma wf_set_new_pk : zlen v = E4_XWING_PK -> wf4 (set_new_pk v c).
Proof. wf_field. Qed.
Lemma wf_set_peer_new_pk : zlen v = E4_XWING_PK -> wf4 (set_peer_new_pk v c).
Proof. wf_field. Qed.
Lemma wf_set_ct_a : zlen v = E4_XWING_CT -> wf4 (set_ct_a v c).
Proof. wf_field. Qed.
Lemma wf_set_msk : zlen v = E4_MSK_LEN -> wf4 (set_msk v c).
Proof. wf_field. Qed.
Lemma wf_set_emsk : zlen v = E4_EMSK_LEN -> wf4 (set_emsk v c).
Proof. wf_field. Qed.
Lemma wf_set_done b : b = 0 \/ b = 1 -> wf4 (set_done b c).
Proof. wf_field. Qed.
End wf_setters.

Definition error4 (rc : Z) : Prop := E4_ERR_STATE <= rc <= E4_ERR_ARG.

Section safety.
Context `{CL : CryptoLaws}.

Lemma ht_xwing_keypair {X} (Q : bytes * bytes -> st X -> Prop) E F x r :
  (forall pk sk r', zlen pk = E4_XWING_PK -> zlen sk = E4_XWING_SK -> Q (pk, sk) (x, r')) ->
  ht xwing_keypair Q E F (x, r).
Proof.
  intros HQ. destruct (mlkem_keypair_ok r) as (pkm & skm & r' & Em & Hp & Hs).
  apply ht_bind, ht_draw. intros a r1 Ea. rewrite Em in Ea. simplify_eq.
  apply ht_bind, ht_of_option; [done|]. intros [pk sk] [= <- <-].
  apply ht_bind, ht_draw. intros skx r2 Ex.
  pose proof (randombytes_zlen _ _ _ _ Ex ltac:(done)). apply ht_ret, HQ; zl4.
Qed.

Lemma ht_xwing_encaps {X} pk (Q : bytes * option bytes -> st X -> Prop) E F x r :
  (forall ct o r', zlen ct = E4_XWING_CT -> (forall ss, o = Some ss -> zlen ss = E4_XWING_SS) ->
     Q (ct, o) (x, r')) ->
  (forall r', E E4_ERR_KEM (x, r')) ->
  ht (xwing_encaps pk) Q E F (x, r).
Proof.
  intros HQ HE. destruct (mlkem_enc_ok (ztake E4_MLKEM_PK pk) r) as (ct & ssm & r1 & Ee & Hc & Hs).
  apply ht_bind, ht_draw. intros a r2 Ea. rewrite Ee in Ea. simplify_eq.
  apply ht_bind, ht_of_option; [done|]. intros [ct' ss'] [= <- <-].
  apply ht_bind, ht_draw. intros esk r3 Er. cbv zeta. apply ht_ret, HQ; [zl4|].
  intros ss. destruct (crypto_scalarmult _ _); [|discriminate]. intros [= <-]. apply zlen_sha256_cat.
Qed.

Lemma ht_xwing_decaps {X} ct sk (Q : bytes -> st X -> Prop) E F s :
  (forall ss, zlen ss = E4_XWING_SS -> Q ss s) -> E E4_ERR_KEM s ->
  ht (xwing_decaps ct sk) Q E F s.
Proof.
  intros HQ HE. apply ht_bind, ht_of_option; [done|]. intros ssm _. cbv zeta.
  apply ht_bind, ht_of_option; [done|]. intros ssx _. apply ht_ret, HQ, zlen_sha256_cat.
Qed.

Lemma ht_aead_seal {X} prk th pt cap (Q : bytes -> st X -> Prop) E F s :
  zlen pt + E4_AEAD_TAG <= cap ->
  (forall ct, zlen ct = zlen pt + E4_AEAD_TAG -> Q ct s) ->
  ht (aead_seal prk th pt cap) Q E F s.
Proof.
  intros Hcap HQ. unfold aead_seal. destruct (derive_k prk th) as [key nonce].
  apply ht_bind, ht_crash_if; [lia|]. intros _. apply ht_ret, HQ, aead_encrypt_len.
Qed.

Lemma ht_aead_open {X} prk th ct cap (Q : bytes -> st X -> Prop) E (F : st X -> Prop) s :
  (forall pt, zlen ct = zlen pt + E4_AEAD_TAG -> Q pt s) -> E E4_ERR_AEAD s ->
  (cap + E4_AEAD_TAG < zlen ct -> F s) ->
  ht (aead_open prk th ct cap) Q E F s.
Proof.
  intros HQ HE HF. unfold aead_open. destruct (derive_k prk th) as [key nonce].
  apply ht_bind, ht_crash_if.
  - intros [_ H]%andb_true_iff. apply HF. lia.
  - intros _. apply ht_of_option; [done|]. intros pt Hpt. apply HQ.
    by apply aead_decrypt_len in Hpt.
Qed.

Lemma ht_mldsa_sign {X} m sk (Q : option bytes -> st X -> Prop) E F x r :
  (forall s r', (forall sig, s = Some sig -> zlen sig = E4_MLDSA_SIG) -> Q s (x, r')) ->
  ht (draw (mldsa_sign m sk)) Q E F (x, r).
Proof.
  intros HQ. apply ht_draw. intros s r' Es. apply HQ. intros sig ->. by apply mldsa_sign_len in Es.
Qed.

(** Contexts are tracked up to well-formedness only. *)
Lemma ht_set_wf (f : edhoc4_ctx -> edhoc4_ctx) (Q : unit -> st edhoc4_ctx -> Prop) E F c r :
  wf4 c -> (wf4 c -> wf4 (f c)) -> (forall c', wf4 c' -> Q tt (c', r)) ->
  ht (ctx_set f) Q E F (c, r).
Proof. intros Hc Hf HQ. apply ht_ctx_set, HQ, Hf, Hc. Qed.

Ltac wf_len :=
  first [ assumption | apply zlen_sha256_cat | apply zlen_sha256 | apply zlen_hkdf_extract
        | reflexivity | by left | by right
        | (apply zlen_hkdf_expand; autounfold with e4; lia) | zl4 ].
Ltac autoapply_wf :=
  first [ apply wf_set_peer_sig_vk
        | apply wf_set_peer_id_cred
        | apply wf_set_c_i
        | apply wf_set_c_r
        | apply wf_set_eph_sk
        | apply wf_set_eph_pk
        | apply wf_set_ss_b
        | apply wf_set_ss_e
        | apply wf_set_ss_a
        | apply wf_set_th1
        | apply wf_set_th2
        | apply wf_set_th3
        | apply wf_set_th4
        | apply wf_set_h_msg1
        | apply wf_set_prk1e
        | apply wf_set_prk2e
        | apply wf_set_prk3e2m
        | apply wf_set_prk4e3m
        | apply wf_set_prk_out
        | apply wf_set_new_sk
        | apply wf_set_new_pk
        | apply wf_set_peer_new_pk
        | apply wf_set_ct_a
        | apply wf_set_msk
        | apply wf_set_emsk
        | apply wf_set_done ]; [|wf_len].
Ltac wf_set :=
  intros _; unfold derive_prk_out_and_msk; cbv zeta;
  repeat match goal with
  | H : wf4 ?c |- wf4 ?c => exact H
  | |- wf4 _ => progress (autoapply_wf)
  end.
Ltac err4 :=
  intros; cbn [fst snd];
  split; [assumption|unfold error4; vm_compute; split; discriminate].
Ltac ht_step :=
  match goal with
  | |- ht (bind _ _) _ _ _ _ => apply ht_bind
  | |- ht (ctx_get _) _ _ _ _ => apply ht_ctx_get
  | |- ht (ctx_set _) _ _ _ _ =>
      eapply ht_set_wf; [eassumption|wf_set|]; intros ? ?
  | |- ht (or_return _ _) _ _ _ _ => apply ht_or_return
  | |- ht (ret _) _ _ _ _ => apply ht_ret
  | |- ht (return_if _ _) _ _ _ _ => apply ht_return_if; [err4|intros ?]
  | |- ht xwing_keypair _ _ _ _ => apply ht_xwing_keypair; intros ? ? ? ? ?
  | |- ht (xwing_encaps _) _ _ _ _ => apply ht_xwing_encaps; [intros ? ? ? ? ?|err4]
  | |- ht (xwing_decaps _ _) _ _ _ _ => apply ht_xwing_decaps; [intros ? ?|err4]
  | |- ht (draw (mldsa_sign _ _)) _ _ _ _ => apply ht_mldsa_sign; intros ? ? ?
  | |- ht (of_option _ (Some _)) _ _ _ _ => apply ht_of_option; [done|]; intros ? [= <-]
  | H : forall sig, ?s = Some sig -> zlen sig = _ |- ht (of_option _ ?s) _ _ _ _ =>
      let Es := fresh "Es" in apply ht_of_option; [intros _; err4|intros ? Es; apply H in Es]
  end; fields4; cbn beta iota.
Ltac ht_steps := repeat ht_step.

Definition safe4 (k : call4) (cap : Z) (s : st edhoc4_ctx) : Prop :=
  ht (exec4 k cap)
     (fun out s' => wf4 (fst s') /\ zlen out = reply_len k /\
                    (zlen out = 0 \/ zlen out <= cap))
     (fun rc s' => wf4 (fst s') /\ error4 rc)
     (fun s' => wf4 (fst s') /\ overlong k) s.

Lemma make_msg1_safe cap c r : wf4 c -> safe4 MakeMsg1 cap (c, r).
Proof.
  intros Hc. unfold safe4, exec4, edhoc4_i_make_msg1. ht_steps.
  apply ht_aead_seal; [lia|]. intros ct1 Hct1. ht_steps.
  split_and!; [assumption|cbn [reply_len]; zl4|right; zl4].
Qed.

Lemma handle_msg1_safe inp cap c r : wf4 c -> safe4 (HandleMsg1 inp) cap (c, r).
Proof.
  intros Hc. unfold safe4, exec4, edhoc4_r_handle_msg1. cbv zeta. ht_steps.
  apply ht_aead_open; [intros pt1 Hpt1|err4|split; [assumption|cbn [overlong]; zl4]]. ht_steps.
  apply ht_aead_seal; [zl4|]. intros ct2 Hct2. ht_steps.
  split_and!; [assumption|cbn [reply_len]; zl4|right; zl4].
Qed.

Lemma handle_msg2_safe inp cap c r : wf4 c -> safe4 (HandleMsg2 inp) cap (c, r).
Proof.
  intros Hc. unfold safe4, exec4, edhoc4_i_handle_msg2. cbv zeta. ht_steps.
  apply ht_aead_open; [intros pt2 Hpt2|err4|split; [assumption|cbn [overlong]; zl4]]. ht_steps.
  apply ht_aead_seal; [zl4|]. intros ct3 Hct3. ht_steps.
  split_and!; [assumption|cbn [reply_len]; zl4|right; zl4].
Qed.

Lemma handle_msg3_safe inp cap c r : wf4 c -> safe4 (HandleMsg3 inp) cap (c, r).
Proof.
  intros Hc. unfold safe4, exec4, edhoc4_r_handle_msg3. cbv zeta. ht_steps.
  apply ht_aead_open; [intros pt3 Hpt3|err4|split; [assumption|cbn [overlong]; zl4]]. ht_steps.
  apply ht_aead_seal; [zl4|]. intros ct4 Hct4. ht_steps.
  split_and!; [assumption|cbn [reply_len]; zl4|right; zl4].
Qed.

Lemma handle_msg4_safe inp cap c r : wf4 c -> safe4 (HandleMsg4 inp) cap (c, r).
Proof.
  intros Hc. unfold safe4, exec4, edhoc4_i_handle_msg4. ht_steps.
  apply ht_aead_open; [intros pt4 Hpt4|err4|split; [assumption|cbn [overlong]; zl4]]. ht_steps.
  split_and!; [assumption|done|by left].
Qed.

(** A ciphertext too long for the local array of its handler is written past it. *)
Lemma handle_msg1_overflow inp cap c g ss :
  role c = 0 -> xwing_opens (ztake E4_XWING_CT inp) (kem_sk (self c)) ss ->
  overlong (HandleMsg1 inp) ->
  fst (edhoc4_r_handle_msg1 inp cap (c, g)) = Fault.
Proof.
  intros Hrole Hopen Hlong. cbn [overlong] in Hlong.
  assert (H : ht (edhoc4_r_handle_msg1 inp cap) (fun _ _ => False) (fun _ _ => False)
                 (fun _ => True) (c, g)).
  { unfold edhoc4_r_handle_msg1. cbv zeta.
    apply ht_bind, ht_ctx_get, ht_bind, ht_return_if; fields4.
    { rewrite Hrole. done. }
    intros _. apply ht_bind, ht_return_if; [zl4|]. intros _.
    apply ht_bind, ht_ctx_set, ht_bind, ht_ctx_get, ht_bind, ht_or_return. fields4.
    unfold ht at 1, post. rewrite Hopen.
    apply ht_bind, ht_ctx_set, ht_bind, ht_ctx_set, ht_bind, ht_ctx_set, ht_bind, ht_ctx_get.
    fields4. apply ht_bind, ht_or_return. unfold aead_open. destruct (derive_k _ _).
    apply ht_bind, ht_crash_if; [done|]. intros [H|H]%andb_false_iff; zl4. }
  unfold ht, post in H. by destruct (edhoc4_r_handle_msg1 inp cap (c, g)) as [[] ?].
Qed.

Lemma exec4_safe_ht k cap c g : wf4 c -> safe4 k cap (c, g).
Proof.
  intros Hc. destruct k; [by apply make_msg1_safe|by apply handle_msg1_safe
    |by apply handle_msg2_safe|by apply handle_msg3_safe|by apply handle_msg4_safe].
Qed.

(** C8: for every call with any input on a context whose arrays have their
    declared sizes, the context keeps those sizes on every outcome; a reply has
    exactly the length of its message and fits the output buffer; an error code
    is one of those of edhoc4.h; and the call can only fault, that is write past
    a local array, when the input's ciphertext is longer than that array. *)
Theorem exec4_safe k cap c g :
  wf4 c ->
  match exec4 k cap (c, g) with
  | (Ok out, (c', _)) => wf4 c' /\ zlen out = reply_len k /\ (zlen out = 0 \/ zlen out <= cap)
  | (Err rc, (c', _)) => wf4 c' /\ E4_ERR_STATE <= rc <= E4_ERR_ARG
  | (Fault, (c', _)) => wf4 c' /\ overlong k
  end.
Proof.
  intros Hc.
  pose proof (exec4_safe_ht k cap c g Hc) as H.
  unfold safe4, ht, post in H. destruct (exec4 k cap (c, g)) as [[out|rc|] [c' g']]; exact H.
Qed.

(** C37: the responder's message 1 handler opens AEAD(K1) into a buffer of 64 bytes
    without bounding the ciphertext it was given.  On a well-formed responder
    context whose key decapsulates the message's KEM ciphertext, the handler
    writes past that buffer exactly when the message has more than
    1120 + 1216 + 64 + 16 bytes, well below the 8192 its caller accepts. *)
Theorem handle_msg1_fault_iff inp cap c g ss :
  wf4 c -> role c = 0 -> xwing_opens (ztake E4_XWING_CT inp) (kem_sk (self c)) ss ->
  fst (edhoc4_r_handle_msg1 inp cap (c, g)) = Fault <-> 2416 < zlen inp.
Proof.
  intros Hc Hrole Hopen. split.
  - pose proof (handle_msg1_safe inp cap c g Hc) as H. unfold safe4, ht, post, exec4 in H.
    destruct (edhoc4_r_handle_msg1 inp cap (c, g)) as [[out|rc|] [c' g']]; try done.
    intros _. destruct H as [_ H]. cbn [overlong] in H. zl4.
  - intros H. eapply handle_msg1_overflow; [done..|]. cbn [overlong]. zl4.
Qed.

Lemma exec4_wrong_role_eq k cap c g :
  role c <> call_role k -> exec4 k cap (c, g) = (Err E4_ERR_STATE, (c, g)).
Proof.
  intros H. apply Z.eqb_neq in H.
  destruct k; cbn [call_role] in H; unfold exec4, edhoc4_i_make_msg1, edhoc4_r_handle_msg1,
    edhoc4_i_handle_msg2, edhoc4_r_handle_msg3, edhoc4_i_handle_msg4, bind, ctx_get, gets;
    cbn [fst]; by rewrite H.
Qed.

(** A call for the other role is refused with [E4_ERR_STATE] before it
    reads its input, draws randomness or touches the context. *)
Theorem exec4_wrong_role k cap c g :
  role c <> call_role k -> exec4 k cap (c, g) = (Err E4_ERR_STATE, (c, g)).
Proof. apply exec4_wrong_role_eq. Qed.
End safety.

(** ** Concrete contexts, for evaluation *)
Module ToyPeers.
#[local] Existing Instance toy_crypto.
Definition ue : edhoc4_creds := ToyCreds.ue.
Definition aaa : edhoc4_creds := ToyCreds.aaa.
Definition I0 : edhoc4_ctx := edhoc4_init_initiator ue (kem_pk aaa).
Definition R0 : edhoc4_ctx := edhoc4_init_responder aaa (kem_pk ue).

(** The value of a computation that returns, and the context it leaves. *)
Definition value {A} (d : A) (p : res A * st edhoc4_ctx) : A :=
  match p with (Ok a, _) => a | _ => d end.
Definition context (p : res bytes * st edhoc4_ctx) : edhoc4_ctx := fst (snd p).

Definition run1 := exec4 MakeMsg1 E4_MAX_MSG (I0, 7).
Definition m1 : bytes := value [] run1.
Definition I1 : edhoc4_ctx := context run1.
Definition run2 := exec4 (HandleMsg1 m1) E4_MAX_MSG (R0, 11).
Definition m2 : bytes := value [] run2.
Definition R1 : edhoc4_ctx := context run2.
Definition run3 := exec4 (HandleMsg2 m2) E4_MAX_MSG (I1, 17).
Definition m3 : bytes := value [] run3.
Definition I2 : edhoc4_ctx := context run3.
Definition run4 := exec4 (HandleMsg3 m3) E4_MAX_MSG (R1, 23).
Definition m4 : bytes := value [] run4.
Definition R2 : edhoc4_ctx := context run4.
End ToyPeers.

Example toy_sizes :
  map zlen [ToyPeers.m1; ToyPeers.m2; ToyPeers.m3; ToyPeers.m4] = [2354; 6000; 4975; 1232].
Proof. vm_compute. reflexivity. Qed.

Lemma toy_wf4 : wf4 ToyPeers.R0.
Proof.
  unfold wf4. split; [split; vm_compute; reflexivity|].
  repeat match goal with |- _ /\ _ => split end;
    first [vm_compute; reflexivity | left; vm_compute; reflexivity].
Qed.

Lemma exec4_safe_witness :
  match exec4 (C := toy_crypto) (HandleMsg1 ToyPeers.m1) E4_MAX_MSG (ToyPeers.R0, 3) with
  | (Ok out, (c', _)) => wf4 c' /\ zlen out = reply_len (HandleMsg1 ToyPeers.m1) /\
                         (zlen out = 0 \/ zlen out <= E4_MAX_MSG)
  | (Err rc, (c', _)) => wf4 c' /\ E4_ERR_STATE <= rc <= E4_ERR_ARG
  | (Fault, (c', _)) => wf4 c' /\ overlong (HandleMsg1 ToyPeers.m1)
  end.
Proof.
  apply (exec4_safe (CL := toy_laws) (HandleMsg1 ToyPeers.m1) E4_MAX_MSG ToyPeers.R0 3 toy_wf4).
Defined.

Lemma exec4_wrong_role_witness :
  exec4 (C := toy_crypto) (HandleMsg2 ToyPeers.m2) E4_MAX_MSG (ToyPeers.R0, 3)
  = (Err E4_ERR_STATE, (ToyPeers.R0, 3)).
Proof.
  apply (exec4_wrong_role (C := toy_crypto) (HandleMsg2 ToyPeers.m2) E4_MAX_MSG ToyPeers.R0 3).
  vm_compute. discriminate.
Defined.

Lemma toy_opens_long :
  exists ss, xwing_opens (C := toy_crypto)
    (ztake E4_XWING_CT (ToyPeers.m1 ++ zreplicate 100 0)) (kem_sk (self ToyPeers.R0)) ss.
Proof. eexists. intros X s. vm_compute. reflexivity. Qed.

Lemma handle_msg1_fault_iff_witness :
  exists ss, xwing_opens (C := toy_crypto)
    (ztake E4_XWING_CT (ToyPeers.m1 ++ zreplicate 100 0)) (kem_sk (self ToyPeers.R0)) ss /\
  (fst (edhoc4_r_handle_msg1 (C := toy_crypto) (ToyPeers.m1 ++ zreplicate 100 0) E4_MAX_MSG
          (ToyPeers.R0, 3)) = Fault <->
   2416 < zlen (ToyPeers.m1 ++ zreplicate 100 0)).
Proof.
  destruct toy_opens_long as [ss H]. exists ss. split; [exact H|].
  apply (handle_msg1_fault_iff (CL := toy_laws) (ToyPeers.m1 ++ zreplicate 100 0) E4_MAX_MSG
           ToyPeers.R0 3 ss toy_wf4); [reflexivity|exact H].
Defined.

(** ** Credential files *)
Lemma wf_creds_bytes k :
  wf_creds k -> creds_of_bytes (creds_bytes k) = k /\ zlen (creds_bytes k) = creds_size.
Proof. intros []. by apply creds_of_bytes_bytes. Qed.

Lemma creds_load_wf path old fs k :
  wf_creds old -> edhoc4_creds_load (Some path) (Some old) fs = (E4_OK, k) ->
  exists k', k = Some k' /\ wf_creds k'.
Proof.
  intros Hold. destruct (wf_creds_bytes old Hold) as [_ Lo].
  unfold edhoc4_creds_load. destruct (fread_file fs path creds_size) as [data|]; [|done].
  destruct (Z.eqb_spec (zlen data) creds_size) as [E|]; [|done]. intros [= <-].
  eexists. split; [done|]. rewrite splice_all by lia. unfold creds_size in E.
  split; cbn; zl4.
Qed.

Lemma pub_load_len path old fs k :
  zlen old = E4_XWING_PK -> edhoc4_pub_load (Some path) (Some old) fs = (E4_OK, k) ->
  exists k', k = Some k' /\ zlen k' = E4_XWING_PK.
Proof.
  intros Hold. unfold edhoc4_pub_load. destruct (fread_file fs path E4_XWING_PK) as [data|]; [|done].
  destruct (Z.eqb_spec (zlen data) E4_XWING_PK) as [E|]; [|done]. intros [= <-].
  eexists. split; [done|]. by rewrite splice_all by lia.
Qed.

Lemma zero_creds_wf : wf_creds (self zero_ctx).
Proof. split; vm_compute; reflexivity. Qed.

(** Credentials saved without an error load back unchanged, and the public
    key file holds exactly the static key the peer pins; a missing file and a
    short file give the two documented error codes. *)
Theorem creds_files_roundtrip path k old peer fs fs' :
  wf_creds k -> wf_creds old -> zlen peer = E4_XWING_PK ->
  (edhoc4_creds_save (Some path) (Some k) fs = (E4_OK, fs') ->
   edhoc4_creds_load (Some path) (Some old) fs' = (E4_OK, Some k)) /\
  (edhoc4_pub_save (Some path) (Some k) fs = (E4_OK, fs') ->
   edhoc4_pub_load (Some path) (Some peer) fs' = (E4_OK, Some (kem_pk k))) /\
  (fs_files fs !! path = None ->
   edhoc4_creds_load (Some path) (Some old) fs = (E4_ERR_ARG, Some old)) /\
  (forall data, fs_files fs !! path = Some data -> zlen data < creds_size ->
   fst (edhoc4_creds_load (Some path) (Some old) fs) = E4_ERR_PARSE).
Proof.
  intros Hk Hold Hpeer.
  destruct (wf_creds_bytes k Hk) as [Ek Lk]. destruct (wf_creds_bytes old Hold) as [_ Lo].
  pose proof (wf_kem_pk k Hk) as Hpk.
  unfold edhoc4_creds_save, edhoc4_creds_load, edhoc4_pub_save, edhoc4_pub_load.
  split_and!.
  - destruct (fwrite_file fs path (creds_bytes k)) as [[n fs1]|] eqn:Ew; [|done].
    destruct (Z.eqb_spec n creds_size) as [->|]; intros [= <-].
    rewrite <-Lk in Ew. rewrite (fread_fwrite _ _ _ _ _ Ew), ztake_all, Lk, Z.eqb_refl by lia.
    by rewrite splice_all, Ek by lia.
  - destruct (fwrite_file fs path (kem_pk k)) as [[n fs1]|] eqn:Ew; [|done].
    destruct (Z.eqb_spec n E4_XWING_PK) as [->|]; intros [= <-].
    rewrite <-Hpk in Ew. rewrite (fread_fwrite _ _ _ _ _ Ew), ztake_all, Hpk, Z.eqb_refl by lia.
    by rewrite splice_all by lia.
  - unfold fread_file. by intros ->.
  - unfold fread_file. intros data -> Hlen. cbn. rewrite ztake_all by lia.
    by destruct (Z.eqb_spec (zlen data) creds_size); [lia|].
Qed.

Definition toy_fs : filesystem :=
  {| fs_files := empty; fs_writable := fun _ => true; fs_room := 100000 |}.

Lemma toy_wf_creds : wf_creds ToyPeers.ue.
Proof. split; vm_compute; reflexivity. Qed.

Lemma creds_files_roundtrip_witness :
  let fs' := snd (edhoc4_creds_save (Some "ue.creds") (Some ToyPeers.ue) toy_fs) in
  edhoc4_creds_load (Some "ue.creds") (Some ToyPeers.ue) fs' = (E4_OK, Some ToyPeers.ue).
Proof.
  intros fs'.
  apply (proj1 (creds_files_roundtrip "ue.creds" ToyPeers.ue ToyPeers.ue (kem_pk ToyPeers.ue)
           toy_fs fs' toy_wf_creds toy_wf_creds (wf_kem_pk _ toy_wf_creds))).
  vm_compute. reflexivity.
Defined.
