(* ===== verification/Edhoc4Auth.v ===== *)
(** * Edhoc4Auth: what an accepted message proves to the method 4 core

    No hypothesis on the primitives is used here: the theorems say which checks
    have succeeded, on the keys the core itself derived, whenever a handler
    accepts a message, and, by induction on the sequence of calls, whenever the
    responder reports that the handshake is done. *)
From stdpp Require Import base numbers list option strings.
From Stdlib Require Import ZArith Lia.
From S2P Require Import Prelude Crypto Hkdf Files Edhoc4 Edhoc4Facts Edhoc4Safety.
Local Open Scope c_scope.

Section auth.
Context `{C : Crypto}.

(** The initiator, in context [c], accepted [inp] as message 2 and is now in [c']. *)
Definition msg2_verified (c : edhoc4_ctx) (inp : bytes) (c' : edhoc4_ctx) : Prop :=
  exists sse pt2,
    let cte := ztake E4_XWING_CT inp in
    let mac2 := sub pt2 (E4_XWING_CT + E4_CONN_ID + E4_ID_CRED + E4_MLDSA_PK) E4_MAC_LEN in
    let sig_r := sub pt2 (E4_XWING_CT + E4_CONN_ID + E4_ID_CRED + E4_MLDSA_PK + E4_MAC_LEN)
                   E4_MLDSA_SIG in
    xwing_opens cte (eph_sk c) sse /\
    schedule2 c' (h_msg1 c) cte [0x20] /\ ss_e c' = sse /\ ss_b c' = ss_b c /\
    aead_opens (prk2e c') (th2 c') (zdrop E4_XWING_CT inp) pt2 /\ zlen pt2 = E4_PT2 /\
    peer_id_cred c' = sub pt2 (E4_XWING_CT + E4_CONN_ID) E4_ID_CRED /\
    peer_sig_vk c' = sub pt2 (E4_XWING_CT + E4_CONN_ID + E4_ID_CRED) E4_MLDSA_PK /\
    mac2 = compute_mac (prk3e2m c') (th2 c') (peer_id_cred c') [] /\
    mldsa_verify sig_r (sig_message (th2 c') (peer_id_cred c') mac2) (peer_sig_vk c') = true /\
    th3 c' = sha256_cat [th2 c'; pt2] /\
    exported c' (prk4e3m c') (th4 c') /\ done c' = 0.

(** The responder, in context [c], accepted [inp] as message 3 and is now in [c']. *)
Definition msg3_verified (c : edhoc4_ctx) (inp : bytes) (c' : edhoc4_ctx) : Prop :=
  exists pt3,
    let mac3 := sub pt3 (E4_ID_CRED + E4_XWING_PK) E4_MAC_LEN in
    let sig_i := sub pt3 (E4_ID_CRED + E4_XWING_PK + E4_MAC_LEN + E4_MLDSA_PK) E4_MLDSA_SIG in
    let prk := hkdf_extract (prk3e2m c) (ss_a c) in
    aead_opens (prk3e2m c) (th3 c) inp pt3 /\ zlen pt3 = E4_PT3 /\
    peer_id_cred c' = ztake E4_ID_CRED pt3 /\
    peer_new_pk c' = sub pt3 E4_ID_CRED E4_XWING_PK /\
    peer_sig_vk c' = sub pt3 (E4_ID_CRED + E4_XWING_PK + E4_MAC_LEN) E4_MLDSA_PK /\
    mac3 = compute_mac prk (th3 c) (peer_id_cred c') (peer_new_pk c') /\
    mldsa_verify sig_i (sig_message (th3 c) (peer_id_cred c') mac3) (peer_sig_vk c') = true /\
    exported c' prk (sha256_cat [th3 c; pt3]).

Lemma xwing_decaps_opens {X} ct sk (s : st X) ss s' :
  xwing_decaps ct sk s = (Ok ss, s') -> xwing_opens ct sk ss /\ s' = s.
Proof.
  unfold xwing_opens, xwing_decaps, bind, of_option, ret, fail. cbv zeta.
  destruct (mlkem_dec _ _); cbn; [|intros H; discriminate H].
  destruct (crypto_scalarmult _ _); cbn; intros H; [|discriminate H].
  injection H as <- <-. done.
Qed.

(** The state is unchanged by the building blocks, whatever they return. *)
Lemma ht_decaps {X} ct sk (Q : bytes -> st X -> Prop) E F s :
  (forall ss, xwing_opens ct sk ss -> Q ss s) -> E E4_ERR_KEM s ->
  ht (xwing_decaps ct sk) Q E F s.
Proof.
  intros HQ HE. unfold ht, post. destruct (xwing_decaps ct sk s) as [[ss|rc|] s'] eqn:Ed.
  - apply xwing_decaps_opens in Ed as [H ->]. by apply HQ.
  - unfold xwing_decaps, bind, of_option, ret, fail in Ed. cbv zeta in Ed.
    destruct (mlkem_dec _ _); [destruct (crypto_scalarmult _ _)|]; simplify_eq; done.
  - unfold xwing_decaps, bind, of_option, ret, fail in Ed. cbv zeta in Ed.
    destruct (mlkem_dec _ _); [destruct (crypto_scalarmult _ _)|]; simplify_eq; done.
Qed.

Lemma ht_open {X} prk th ct cap (Q : bytes -> st X -> Prop) E (F : st X -> Prop) s :
  (forall pt, aead_opens prk th ct pt -> Q pt s) -> E E4_ERR_AEAD s -> F s ->
  ht (aead_open prk th ct cap) Q E F s.
Proof.
  intros HQ HE HF. unfold aead_open. unfold aead_opens in HQ.
  destruct (derive_k prk th) as [key nonce].
  apply ht_bind, ht_crash_if; [done|]. intros _. apply ht_of_option; [done|]. exact HQ.
Qed.

Lemma ht_seal {X} prk th pt cap (Q : bytes -> st X -> Prop) E (F : st X -> Prop) s :
  (forall ct, Q ct s) -> F s -> ht (aead_seal prk th pt cap) Q E F s.
Proof.
  intros HQ HF. unfold aead_seal. destruct (derive_k prk th) as [key nonce].
  apply ht_bind, ht_crash_if; [done|]. intros _. by apply ht_ret.
Qed.

Lemma ht_keypair {X} (Q : bytes * bytes -> st X -> Prop) (E : Z -> st X -> Prop) F x r :
  (forall pk sk r', Q (pk, sk) (x, r')) -> (forall r', E E4_ERR_KEM (x, r')) ->
  ht xwing_keypair Q E F (x, r).
Proof.
  intros HQ HE. apply ht_bind, ht_draw. intros a r1 _.
  apply ht_bind, ht_of_option; [done|]. intros [pk sk] _.
  apply ht_bind, ht_draw. intros skx r2 _. apply ht_ret, HQ.
Qed.

Lemma ht_encaps {X} pk (Q : bytes * option bytes -> st X -> Prop) (E : Z -> st X -> Prop) F x r :
  (forall ct ss r', Q (ct, ss) (x, r')) -> (forall r', E E4_ERR_KEM (x, r')) ->
  ht (xwing_encaps pk) Q E F (x, r).
Proof.
  intros HQ HE. apply ht_bind, ht_draw. intros a r1 _.
  apply ht_bind, ht_of_option; [done|]. intros [ct ss] _.
  apply ht_bind, ht_draw. intros skx r2 _. cbv zeta. apply ht_ret, HQ.
Qed.

(** [auto_ht tac] runs a handler; [tac] closes the error and fault branches. *)
Ltac auto_step tac :=
  match goal with
  | |- ht (bind _ _) _ _ _ _ => apply ht_bind
  | |- ht (ctx_get _) _ _ _ _ => apply ht_ctx_get
  | |- ht (ctx_set _) _ _ _ _ => apply ht_ctx_set
  | |- ht (or_return _ _) _ _ _ _ => apply ht_or_return
  | |- ht (ret _) _ _ _ _ => apply ht_ret
  | |- ht (return_if _ _) _ _ _ _ => apply ht_return_if; [intros _; tac|intros ?]
  | |- ht xwing_keypair _ _ _ _ => apply ht_keypair; [intros ? ? ?|intros ?; tac]
  | |- ht (xwing_encaps _) _ _ _ _ => apply ht_encaps; [intros ? ? ?|intros ?; tac]
  | |- ht (xwing_decaps _ _) _ _ _ _ => apply ht_decaps; [intros ? ?|tac]
  | |- ht (aead_seal _ _ _ _) _ _ _ _ => apply ht_seal; [intros ?|tac]
  | |- ht (aead_open _ _ _ _) _ _ _ _ => apply ht_open; [intros ? ?|tac|tac]
  | |- ht (draw _) _ _ _ _ => apply ht_draw; intros ? ? _
  | |- ht (of_option _ _) _ _ _ _ => apply ht_of_option; [intros _; tac|intros ? ?]
  end; fields4; cbn beta iota.
Ltac auto_ht tac := repeat auto_step tac.

Ltac auto_until_msk tac :=
  repeat (lazymatch goal with
          | |- ht (ctx_set derive_prk_out_and_msk) _ _ _ _ => fail
          | _ => auto_step tac
          end).

Lemma ht_derive_msk (Q : unit -> st edhoc4_ctx -> Prop) E F c r :
  (forall po m e,
     (forall c', msk c' = m -> emsk c' = e -> exported c' (prk4e3m c) (th4 c)) ->
     Q tt (set_done 1 (set_emsk e (set_msk m (set_prk_out po c))), r)) ->
  ht (ctx_set derive_prk_out_and_msk) Q E F (c, r).
Proof. exact (wp_derive_msk Q c r). Qed.

Lemma handle_msg2_ht inp cap c r :
  ht (edhoc4_i_handle_msg2 inp cap)
     (fun _ s' => msg2_verified c inp (fst s'))
     (fun _ s' => True) (fun _ => True) (c, r).
Proof.
  unfold edhoc4_i_handle_msg2. cbv zeta. auto_until_msk ltac:(exact I).
  apply ht_derive_msk. intros po m e Hexp. auto_ht ltac:(exact I).
  repeat match goal with
  | H : negb _ = false |- _ => apply negb_false_iff in H
  | H : bool_decide _ = true |- _ => apply bool_decide_eq_true in H
  end.
  exists ss, pt. fields4. rewrite <-H4. split_and!; try done; [lia|by apply Hexp].
Qed.

(** What a call of the responder leaves of the key material and the flag. *)
Definition same_keys (c c' : edhoc4_ctx) : Prop :=
  msk c' = msk c /\ emsk c' = emsk c /\ done c' = done c /\ role c' = role c.

Lemma handle_msg1_keys inp cap c r :
  ht (edhoc4_r_handle_msg1 inp cap)
     (fun _ s' => same_keys c (fst s')) (fun _ s' => same_keys c (fst s'))
     (fun s' => same_keys c (fst s')) (c, r).
Proof.
  unfold edhoc4_r_handle_msg1. cbv zeta. by auto_ht ltac:(by split_and!).
Qed.

Lemma handle_msg3_ht inp cap c r :
  ht (edhoc4_r_handle_msg3 inp cap)
     (fun _ s' => msg3_verified c inp (fst s') /\ done (fst s') = 1 /\ role (fst s') = role c)
     (fun _ s' => same_keys c (fst s') \/
        msg3_verified c inp (fst s') /\ role (fst s') = role c)
     (fun s' => same_keys c (fst s') \/
        msg3_verified c inp (fst s') /\ role (fst s') = role c) (c, r).
Proof.
  unfold edhoc4_r_handle_msg3. cbv zeta. auto_until_msk ltac:(by left).
  apply ht_derive_msk. intros po m e Hexp.
  repeat match goal with
  | H : negb _ = false |- _ => apply negb_false_iff in H
  | H : bool_decide _ = true |- _ => apply bool_decide_eq_true in H
  end.
  assert (Hv : forall c', exported c' (hkdf_extract (prk3e2m c) (ss_a c))
                 (sha256_cat [th3 c; pt]) ->
    peer_id_cred c' = ztake E4_ID_CRED pt -> peer_new_pk c' = sub pt E4_ID_CRED E4_XWING_PK ->
    peer_sig_vk c' = sub pt (E4_ID_CRED + E4_XWING_PK + E4_MAC_LEN) E4_MLDSA_PK ->
    msg3_verified c inp c').
  { intros c' H' E1 E2 E3. exists pt. rewrite E1, E2, E3, <-H2. split_and!; try done. lia. }
  fields4. auto_ht ltac:(right; split; [apply Hv; [by apply Hexp|done..]|done]).
  split_and!; [|done..]. apply Hv; [by apply Hexp|done..].
Qed.

(** ** Sequences of calls *)

(** The contexts an application can bring a context to with any sequence of
    calls on any inputs, whatever their outcomes. *)
Inductive reach4 (c0 : edhoc4_ctx) : edhoc4_ctx -> Prop :=
  | reach4_init : reach4 c0 c0
  | reach4_call c k cap g :
      reach4 c0 c -> reach4 c0 (fst (snd (exec4 k cap (c, g)))).


(** What a responder context that reports [done] owes its keys to. *)
Definition done_by (c0 c : edhoc4_ctx) : Prop :=
  exists c1 c2 inp, reach4 c0 c1 /\ msg3_verified c1 inp c2 /\
    msk c = msk c2 /\ emsk c = emsk c2.

(** The invariant of a responder context over sequences of calls. *)
Definition responder_inv (c0 c : edhoc4_ctx) : Prop :=
  role c = 0 /\ (done c <> 0 -> done_by c0 c).

Lemma responder_inv_step c0 c k cap g :
  reach4 c0 c -> responder_inv c0 c ->
  responder_inv c0 (fst (snd (exec4 k cap (c, g)))).
Proof.
  intros Hc [Hrole IH].
  assert (Hsame : forall c1, same_keys c c1 -> responder_inv c0 c1).
  { intros c1 (E1 & E2 & E3 & E4). split; [congruence|]. intros Hd.
    destruct IH as (a & b & inp & ?); [congruence|]. exists a, b, inp. by rewrite E1, E2. }
  assert (Hver : forall c1 inp, msg3_verified c inp c1 /\ role c1 = role c -> responder_inv c0 c1).
  { intros c1 inp [Hv Er]. split; [congruence|]. intros _. by exists c, c1, inp. }
  destruct (decide (role c = call_role k)) as [E|E].
  2: { rewrite exec4_wrong_role_eq by done. by apply Hsame. }
  rewrite Hrole in E. destruct k; try done; cbn [exec4].
  - apply (ht_post _ _ _ _ (fun s' => responder_inv c0 (fst s')) _ (fun _ s' => Hsame (fst s'))
      (fun s' => Hsame (fst s')) (fun _ s' => Hsame (fst s')) (handle_msg1_keys inp cap c g)).
  - eapply (ht_post _ _ _ _ (fun s' => responder_inv c0 (fst s')) (c, g));
      [..|apply (handle_msg3_ht inp cap c g)]; cbn.
    + intros rc s' [H|H]; eauto.
    + intros s' [H|H]; eauto.
    + intros a s' (H1 & H2 & H3). eauto.
Qed.

(** C31: whenever the initiator accepts a message 2, that message decrypted under
    the key derived from the KEM ciphertext in it, its MAC equals the one the
    initiator computes from its transcript, and the signature in it verifies,
    over that MAC, under the verification key it carries; the exported keys come
    from this transcript and the handshake is not reported done yet. *)
Theorem initiator_accepts_verified inp cap c g m3 c' g' :
  edhoc4_i_handle_msg2 inp cap (c, g) = (Ok m3, (c', g')) -> msg2_verified c inp c'.
Proof. intros H. apply (ht_run _ _ _ _ _ (handle_msg2_ht inp cap c g) _ _ H). Qed.

(** C2: whatever sequence of calls with whatever inputs a fresh responder is
    driven through, and however they ended, it only reports [done] when some
    call on it was given a message 3 that decrypted, whose MAC matched and whose
    signature verified, and its MSK and EMSK are the keys exported from that
    message's transcript. *)
Theorem responder_done_verified me peer c :
  reach4 (edhoc4_init_responder me peer) c -> done c <> 0 ->
  done_by (edhoc4_init_responder me peer) c.
Proof.
  intros Hc. enough (H : responder_inv (edhoc4_init_responder me peer) c) by apply H.
  induction Hc as [|c k cap g Hc IH]; [done|]. by apply responder_inv_step.
Qed.
End auth.

Lemma initiator_accepts_verified_witness :
  zlen ToyPeers.m3 = 4975 /\ msg2_verified (C := toy_crypto) ToyPeers.I1 ToyPeers.m2 ToyPeers.I2.
Proof.
  split; [vm_compute; reflexivity|].
  apply (initiator_accepts_verified (C := toy_crypto) ToyPeers.m2 E4_MAX_MSG ToyPeers.I1 17
           ToyPeers.m3 ToyPeers.I2 (snd (snd ToyPeers.run3))).
  vm_compute. reflexivity.
Defined.

Lemma responder_done_verified_witness :
  done_by (C := toy_crypto) ToyPeers.R0 ToyPeers.R2.
Proof.
  apply (responder_done_verified (C := toy_crypto) ToyPeers.aaa (kem_pk ToyPeers.ue)).
  - apply (reach4_call (C := toy_crypto) _ ToyPeers.R1 (HandleMsg3 ToyPeers.m3) E4_MAX_MSG 23).
    apply (reach4_call (C := toy_crypto) _ ToyPeers.R0 (HandleMsg1 ToyPeers.m1) E4_MAX_MSG 11).
    apply reach4_init.
  - vm_compute. discriminate.
Defined.
