(* ===== verification/Edhoc03.v ===== *)
(** * Edhoc03: the classical EAP-EDHOC methods 0 to 3, edhoc4/edhoc03.c

    Ephemeral X25519 with Ed25519 signatures (SIG) or static Diffie-Hellman
    MACs (STAT) on either side.  The conventions are those of Edhoc4: a handler
    is a computation over the context and the random generator, [Fault] a write
    past a local buffer. *)
From stdpp Require Import base numbers list option strings.
From Stdlib Require Import ZArith Lia.
From S2P Require Import Prelude Crypto Hkdf Files.
Local Open Scope c_scope.

(** ** Sizes and codes (edhoc03.h) *)
Definition E3_X_PK : Z := 32.
Definition E3_X_SK : Z := 32.
Definition E3_X_SS : Z := 32.
Definition E3_ED_PK : Z := 32.
Definition E3_ED_SK : Z := 64.
Definition E3_ED_SIG : Z := 64.
Definition E3_HASH_LEN : Z := 32.
Definition E3_PRK_LEN : Z := 32.
Definition E3_MAC_LEN : Z := 8.
Definition E3_AEAD_KEY : Z := 32.
Definition E3_AEAD_NONCE : Z := 12.
Definition E3_AEAD_TAG : Z := 16.
Definition E3_CONN_ID : Z := 1.
Definition E3_ID_CRED : Z := 3.
Definition E3_MSK_LEN : Z := 64.
Definition E3_EMSK_LEN : Z := 64.
Definition E3_MAX_MSG : Z := 512.
Definition E3_AUTH_SIG : Z := 0.
Definition E3_AUTH_STAT : Z := 1.

Definition E3_OK : Z := 0.
Definition E3_ERR_ARG : Z := -1.
Definition E3_ERR_BUF : Z := -2.
Definition E3_ERR_PARSE : Z := -3.
Definition E3_ERR_DH : Z := -4.
Definition E3_ERR_AEAD : Z := -5.
Definition E3_ERR_MAC : Z := -6.
Definition E3_ERR_SIG : Z := -7.
Definition E3_ERR_STATE : Z := -8.

(** [sizeof(pt2)] and [sizeof(pt3)] of the sender; a receiver's have 16 more. *)
Definition E3_PT : Z := E3_ID_CRED + E3_X_PK + E3_ED_SIG.

Create HintDb e3.
#[export] Hint Unfold E3_X_PK E3_X_SK E3_X_SS E3_ED_PK E3_ED_SK E3_ED_SIG E3_HASH_LEN
  E3_PRK_LEN E3_MAC_LEN E3_AEAD_KEY E3_AEAD_NONCE E3_AEAD_TAG E3_CONN_ID E3_ID_CRED
  E3_MSK_LEN E3_EMSK_LEN E3_MAX_MSG E3_PT : e3.

(** ** Credentials and context *)
Record edhoc03_creds := {
  id_cred : bytes;
  sig_sk : bytes;
  sig_vk : bytes;
  dh_sk : bytes;
  dh_pk : bytes
}.

Record edhoc03_peer := {
  peer_vk : bytes;   (* sig_vk *)
  peer_dh : bytes    (* dh_pk *)
}.

Record edhoc03_ctx := {
  role : Z;
  method : Z;
  self_auth : Z;
  peer_auth : Z;
  self : edhoc03_creds;
  peer : edhoc03_peer;
  c_i : bytes;
  c_r : bytes;
  eph_sk : bytes;
  eph_pk : bytes;
  peer_eph_pk : bytes;
  ss_e : bytes;
  h_msg1 : bytes;
  th2 : bytes;
  th3 : bytes;
  th4 : bytes;
  prk2e : bytes;
  prk3e2m : bytes;
  prk4e3m : bytes;
  prk_out : bytes;
  peer_id_cred : bytes;
  msk : bytes;
  emsk : bytes;
  done : Z
}.

Definition eta3 (c : edhoc03_ctx) : edhoc03_ctx := {|
  role := role c; method := method c; self_auth := self_auth c; peer_auth := peer_auth c;
  self := self c; peer := peer c; c_i := c_i c; c_r := c_r c;
  eph_sk := eph_sk c; eph_pk := eph_pk c; peer_eph_pk := peer_eph_pk c;
  ss_e := ss_e c; h_msg1 := h_msg1 c; th2 := th2 c; th3 := th3 c; th4 := th4 c;
  prk2e := prk2e c; prk3e2m := prk3e2m c; prk4e3m := prk4e3m c; prk_out := prk_out c;
  peer_id_cred := peer_id_cred c; msk := msk c; emsk := emsk c; done := done c |}.

Section setters.
Implicit Types (v : bytes) (c : edhoc03_ctx).
Definition set_method (v : Z) c : edhoc03_ctx := ltac:(derive_set eta3 method v c).
Definition set_self_auth (v : Z) c : edhoc03_ctx := ltac:(derive_set eta3 self_auth v c).
Definition set_peer_auth (v : Z) c : edhoc03_ctx := ltac:(derive_set eta3 peer_auth v c).
Definition set_c_i v c : edhoc03_ctx := ltac:(derive_set eta3 c_i v c).
Definition set_eph_sk v c : edhoc03_ctx := ltac:(derive_set eta3 eph_sk v c).
Definition set_eph_pk v c : edhoc03_ctx := ltac:(derive_set eta3 eph_pk v c).
Definition set_peer_eph_pk v c : edhoc03_ctx := ltac:(derive_set eta3 peer_eph_pk v c).
Definition set_ss_e v c : edhoc03_ctx := ltac:(derive_set eta3 ss_e v c).
Definition set_h_msg1 v c : edhoc03_ctx := ltac:(derive_set eta3 h_msg1 v c).
Definition set_th2 v c : edhoc03_ctx := ltac:(derive_set eta3 th2 v c).
Definition set_th3 v c : edhoc03_ctx := ltac:(derive_set eta3 th3 v c).
Definition set_th4 v c : edhoc03_ctx := ltac:(derive_set eta3 th4 v c).
Definition set_prk2e v c : edhoc03_ctx := ltac:(derive_set eta3 prk2e v c).
Definition set_prk3e2m v c : edhoc03_ctx := ltac:(derive_set eta3 prk3e2m v c).
Definition set_prk4e3m v c : edhoc03_ctx := ltac:(derive_set eta3 prk4e3m v c).
Definition set_prk_out v c : edhoc03_ctx := ltac:(derive_set eta3 prk_out v c).
Definition set_peer_id_cred v c : edhoc03_ctx := ltac:(derive_set eta3 peer_id_cred v c).
Definition set_msk v c : edhoc03_ctx := ltac:(derive_set eta3 msk v c).
Definition set_emsk v c : edhoc03_ctx := ltac:(derive_set eta3 emsk v c).
Definition set_done (v : Z) c : edhoc03_ctx := ltac:(derive_set eta3 done v c).
End setters.

Ltac fields3 :=
  cbn [
    role method self_auth peer_auth self peer c_i c_r eph_sk eph_pk peer_eph_pk ss_e
    h_msg1 th2 th3 th4 prk2e prk3e2m prk4e3m prk_out peer_id_cred msk emsk done
    set_method set_self_auth set_peer_auth set_c_i set_eph_sk set_eph_pk set_peer_eph_pk
    set_ss_e set_h_msg1 set_th2 set_th3 set_th4 set_prk2e set_prk3e2m set_prk4e3m
    set_prk_out set_peer_id_cred set_msk set_emsk set_done fst snd id].

(** ** Method table *)
Definition edhoc03_method_valid (m : Z) : bool := (0 <=? m) && (m <=? 3).
Definition method_init_auth (m : Z) : Z :=
  if (m =? 0) || (m =? 1) then E3_AUTH_SIG else E3_AUTH_STAT.
Definition method_resp_auth (m : Z) : Z :=
  if (m =? 0) || (m =? 2) then E3_AUTH_SIG else E3_AUTH_STAT.

Section core.
Context `{C : Crypto}.

(** ** Crypto helpers *)
Definition e3_sha256 (m : bytes) : bytes := crypto_hash_sha256 m.
Definition e3_sha256_cat (segs : list bytes) : bytes := crypto_hash_sha256 (concat segs).
Definition e3_hkdf_extract (salt ikm : bytes) : bytes := crypto_auth_hmacsha256 salt ikm.
Definition e3_hkdf_expand (prk info : bytes) (okm_len : Z) : bytes :=
  expand_loop (crypto_auth_hmacsha256 prk) info okm_len (Z.to_nat okm_len) 0 0 1 [] [].

Definition e3_derive_k (prk th : bytes) : bytes * bytes :=
  let info := th ++ str "E3KEY" in
  let okm := e3_hkdf_expand prk info (E3_AEAD_KEY + E3_AEAD_NONCE) in
  (ztake E3_AEAD_KEY okm, sub okm E3_AEAD_KEY E3_AEAD_NONCE).

Definition e3_aead_seal {X} (prk th pt : bytes) (cap : Z) : M (st X) bytes :=
  let '(key, nonce) := e3_derive_k prk th in
  crash_if (cap <? zlen pt + E3_AEAD_TAG) ;;;
  ret (aead_encrypt key nonce th pt).

Definition e3_aead_open {X} (prk th ct : bytes) (cap : Z) : M (st X) bytes :=
  let '(key, nonce) := e3_derive_k prk th in
  crash_if ((E3_AEAD_TAG <=? zlen ct) && (cap <? zlen ct - E3_AEAD_TAG)) ;;;
  of_option E3_ERR_AEAD (aead_decrypt key nonce th ct).

Definition e3_compute_mac (prk th id cred_pub : bytes) : bytes :=
  e3_hkdf_expand prk (th ++ id ++ cred_pub) E3_MAC_LEN.

Definition e3_sig_message (th id mac : bytes) : bytes := th ++ id ++ mac.

Definition e3_derive_msk (c : edhoc03_ctx) : edhoc03_ctx :=
  let c := set_prk_out (e3_hkdf_expand (prk4e3m c) (th4 c) E3_PRK_LEN) c in
  let c := set_msk (e3_hkdf_expand (prk_out c) (str "EDHOC-EAP-MSK") E3_MSK_LEN) c in
  let c := set_emsk (e3_hkdf_expand (prk_out c) (str "EDHOC-EAP-EMSK") E3_EMSK_LEN) c in
  set_done 1 c.

(** ** Credentials and initialisation *)
Definition zero_creds : edhoc03_creds := {|
  id_cred := zreplicate E3_ID_CRED 0; sig_sk := zreplicate E3_ED_SK 0;
  sig_vk := zreplicate E3_ED_PK 0; dh_sk := zreplicate E3_X_SK 0;
  dh_pk := zreplicate E3_X_PK 0 |}.

(** The state is what [c] points to, [None] for a NULL pointer. *)
Definition edhoc03_gen_creds_at (sodium_init : Z) (id : option bytes) : M (st (option edhoc03_creds)) unit :=
  let! null := ctx_get (fun c => match c with None => true | Some _ => false end) in
  return_if null E3_ERR_ARG ;;;
  return_if (sodium_init <? 0) E3_ERR_ARG ;;;
  ctx_set (fun _ => Some zero_creds) ;;;
  let! (vk, sk) := draw ed25519_keypair in
  let! dsk := draw (fun r => randombytes_buf r E3_X_SK) in
  ctx_set (fmap (fun c => {| id_cred := default (id_cred c) id; sig_sk := sk; sig_vk := vk;
                             dh_sk := dsk; dh_pk := crypto_scalarmult_base dsk |})).

(** A call with the address of a local structure, as all callers make it; its contents
    before the call are overwritten. *)
Definition edhoc03_gen_creds {X} (sodium_init : Z) (id : option bytes)
    : M (st X) edhoc03_creds :=
  let! (_, c) := with_ctx (Some zero_creds) (edhoc03_gen_creds_at sodium_init id) in
  of_option E3_ERR_ARG c.

(** A context whose arrays are zero, but for the fields given. *)
Definition blank_ctx (r m sa pa : Z) (me : edhoc03_creds) (p : edhoc03_peer)
    (ci cr : bytes) : edhoc03_ctx := {|
  role := r; method := m; self_auth := sa; peer_auth := pa; self := me; peer := p;
  c_i := ci; c_r := cr;
  eph_sk := zreplicate E3_X_SK 0; eph_pk := zreplicate E3_X_PK 0;
  peer_eph_pk := zreplicate E3_X_PK 0; ss_e := zreplicate E3_X_SS 0;
  h_msg1 := zreplicate E3_HASH_LEN 0; th2 := zreplicate E3_HASH_LEN 0;
  th3 := zreplicate E3_HASH_LEN 0; th4 := zreplicate E3_HASH_LEN 0;
  prk2e := zreplicate E3_PRK_LEN 0; prk3e2m := zreplicate E3_PRK_LEN 0;
  prk4e3m := zreplicate E3_PRK_LEN 0; prk_out := zreplicate E3_PRK_LEN 0;
  peer_id_cred := zreplicate E3_ID_CRED 0;
  msk := zreplicate E3_MSK_LEN 0; emsk := zreplicate E3_EMSK_LEN 0; done := 0 |}.

Definition zero_peer : edhoc03_peer :=
  {| peer_vk := zreplicate E3_ED_PK 0; peer_dh := zreplicate E3_X_PK 0 |}.
Definition zero_ctx : edhoc03_ctx := blank_ctx 0 0 0 0 zero_creds zero_peer [0] [0].

Definition edhoc03_init_initiator (m : Z) (me : edhoc03_creds) (p : edhoc03_peer)
    : edhoc03_ctx :=
  blank_ctx 1 m (method_init_auth m) (method_resp_auth m) me p [0x10] [0x20].

Definition edhoc03_init_responder (me : edhoc03_creds) (p : edhoc03_peer) : edhoc03_ctx :=
  blank_ctx 0 0 0 0 me p [0x10] [0x20].

(** ** Message 1: method || G_X || C_I *)
Definition edhoc03_i_make_msg1 (out_cap : Z) : M (st edhoc03_ctx) bytes :=
  let! c := ctx_get id in
  return_if (negb (role c =? 1)) E3_ERR_STATE ;;;
  return_if (negb (edhoc03_method_valid (method c))) E3_ERR_ARG ;;;
  let! esk := draw (fun r => randombytes_buf r E3_X_SK) in
  ctx_set (set_eph_sk esk) ;;;
  ctx_set (fun c => set_eph_pk (crypto_scalarmult_base (eph_sk c)) c) ;;;
  return_if (out_cap <? 1 + E3_X_PK + E3_CONN_ID) E3_ERR_BUF ;;;
  let! c := ctx_get id in
  let out := [u8 (method c)] ++ eph_pk c ++ [byte_at (c_i c) 0] in
  ctx_set (set_h_msg1 (e3_sha256 out)) ;;;
  ret out.

(** ** Message 1 handling, message 2: G_Y || AEAD(K2, PT2) *)
Definition edhoc03_r_handle_msg1 (inp : bytes) (out_cap : Z) : M (st edhoc03_ctx) bytes :=
  let! my_role := ctx_get role in
  return_if (negb (my_role =? 0)) E3_ERR_STATE ;;;
  return_if (negb (zlen inp =? 1 + E3_X_PK + E3_CONN_ID)) E3_ERR_PARSE ;;;
  let m := byte_at inp 0 in
  return_if (negb (edhoc03_method_valid m)) E3_ERR_PARSE ;;;
  ctx_set (set_method m) ;;;
  ctx_set (set_self_auth (method_resp_auth m)) ;;;
  ctx_set (set_peer_auth (method_init_auth m)) ;;;
  ctx_set (set_peer_eph_pk (sub inp 1 E3_X_PK)) ;;;
  ctx_set (set_c_i [byte_at inp (1 + E3_X_PK)]) ;;;
  ctx_set (set_h_msg1 (e3_sha256 inp)) ;;;
  let! esk := draw (fun r => randombytes_buf r E3_X_SK) in
  ctx_set (set_eph_sk esk) ;;;
  ctx_set (fun c => set_eph_pk (crypto_scalarmult_base (eph_sk c)) c) ;;;
  let! c := ctx_get id in
  let! ss := of_option E3_ERR_DH (crypto_scalarmult (eph_sk c) (peer_eph_pk c)) in
  ctx_set (set_ss_e ss) ;;;
  (* TH2 = H(G_Y || H(msg1) || C_R) *)
  ctx_set (fun c => set_th2 (e3_sha256_cat [eph_pk c; h_msg1 c; c_r c]) c) ;;;
  ctx_set (fun c => set_prk2e (e3_hkdf_extract (th2 c) (ss_e c)) c) ;;;
  let! c := ctx_get id in
  let me := self c in
  let! pt2 :=
    if self_auth c =? E3_AUTH_STAT then
      (* G_RX = ECDH(static dh_sk_R, G_X) *)
      let! g_rx := of_option E3_ERR_DH (crypto_scalarmult (dh_sk me) (peer_eph_pk c)) in
      ctx_set (fun c => set_prk3e2m (e3_hkdf_extract (prk2e c) g_rx) c) ;;;
      let! c := ctx_get id in
      let mac2 := e3_compute_mac (prk3e2m c) (th2 c) (id_cred me) (dh_pk me) in
      ret (id_cred me ++ dh_pk me ++ mac2)
    else
      ctx_set (fun c => set_prk3e2m (prk2e c) c) ;;;
      let! c := ctx_get id in
      let mac2 := e3_compute_mac (prk3e2m c) (th2 c) (id_cred me) (sig_vk me) in
      let sigmsg := e3_sig_message (th2 c) (id_cred me) mac2 in
      let! sig_r := of_option E3_ERR_SIG (ed25519_sign sigmsg (sig_sk me)) in
      ret (id_cred me ++ sig_vk me ++ sig_r) in
  (* TH3 = H(TH2 || PT2) *)
  ctx_set (fun c => set_th3 (e3_sha256_cat [th2 c; pt2]) c) ;;;
  let! c := ctx_get id in
  let! ct2 := or_return E3_ERR_AEAD
                (e3_aead_seal (prk2e c) (th2 c) pt2 (E3_PT + E3_AEAD_TAG)) in
  return_if (out_cap <? E3_X_PK + zlen ct2) E3_ERR_BUF ;;;
  ret (eph_pk c ++ ct2).

(** ** Message 2 handling, message 3: AEAD(K3, PT3) *)
Definition edhoc03_i_handle_msg2 (inp : bytes) (out_cap : Z) : M (st edhoc03_ctx) bytes :=
  let! my_role := ctx_get role in
  return_if (negb (my_role =? 1)) E3_ERR_STATE ;;;
  return_if (zlen inp <? E3_X_PK + E3_AEAD_TAG) E3_ERR_PARSE ;;;
  ctx_set (set_peer_eph_pk (ztake E3_X_PK inp)) ;;;
  let ct2 := zdrop E3_X_PK inp in
  let! c := ctx_get id in
  let! ss := of_option E3_ERR_DH (crypto_scalarmult (eph_sk c) (peer_eph_pk c)) in
  ctx_set (set_ss_e ss) ;;;
  ctx_set (fun c => set_th2 (e3_sha256_cat [peer_eph_pk c; h_msg1 c; c_r c]) c) ;;;
  ctx_set (fun c => set_prk2e (e3_hkdf_extract (th2 c) (ss_e c)) c) ;;;
  let! c := ctx_get id in
  let! pt2 := or_return E3_ERR_AEAD (e3_aead_open (prk2e c) (th2 c) ct2 (E3_PT + 16)) in
  (if peer_auth c =? E3_AUTH_STAT then
     return_if (negb (zlen pt2 =? E3_ID_CRED + E3_X_PK + E3_MAC_LEN)) E3_ERR_PARSE ;;;
     ctx_set (set_peer_id_cred (ztake E3_ID_CRED pt2)) ;;;
     let dh_pk_r := sub pt2 E3_ID_CRED E3_X_PK in
     let mac2 := sub pt2 (E3_ID_CRED + E3_X_PK) E3_MAC_LEN in
     return_if (negb (bool_decide (dh_pk_r = peer_dh (peer c)))) E3_ERR_MAC ;;;
     (* G_RX = ECDH(x, dh_pk_R) *)
     let! g_rx := of_option E3_ERR_DH (crypto_scalarmult (eph_sk c) dh_pk_r) in
     ctx_set (fun c => set_prk3e2m (e3_hkdf_extract (prk2e c) g_rx) c) ;;;
     let! c := ctx_get id in
     let mac2_c := e3_compute_mac (prk3e2m c) (th2 c) (peer_id_cred c) dh_pk_r in
     return_if (negb (bool_decide (mac2_c = mac2))) E3_ERR_MAC
   else
     return_if (negb (zlen pt2 =? E3_ID_CRED + E3_ED_PK + E3_ED_SIG)) E3_ERR_PARSE ;;;
     ctx_set (set_peer_id_cred (ztake E3_ID_CRED pt2)) ;;;
     let vk_r := sub pt2 E3_ID_CRED E3_ED_PK in
     let sig_r := sub pt2 (E3_ID_CRED + E3_ED_PK) E3_ED_SIG in
     return_if (negb (bool_decide (vk_r = peer_vk (peer c)))) E3_ERR_SIG ;;;
     ctx_set (fun c => set_prk3e2m (prk2e c) c) ;;;
     let! c := ctx_get id in
     let mac2_c := e3_compute_mac (prk3e2m c) (th2 c) (peer_id_cred c) vk_r in
     let sigmsg := e3_sig_message (th2 c) (peer_id_cred c) mac2_c in
     return_if (negb (ed25519_verify sig_r sigmsg vk_r)) E3_ERR_SIG) ;;;
  ctx_set (fun c => set_th3 (e3_sha256_cat [th2 c; pt2]) c) ;;;
  let! c := ctx_get id in
  let me := self c in
  let! pt3 :=
    if self_auth c =? E3_AUTH_STAT then
      (* G_IY = ECDH(static dh_sk_I, G_Y) *)
      let! g_iy := of_option E3_ERR_DH (crypto_scalarmult (dh_sk me) (peer_eph_pk c)) in
      ctx_set (fun c => set_prk4e3m (e3_hkdf_extract (prk3e2m c) g_iy) c) ;;;
      let! c := ctx_get id in
      let mac3 := e3_compute_mac (prk4e3m c) (th3 c) (id_cred me) (dh_pk me) in
      ret (id_cred me ++ dh_pk me ++ mac3)
    else
      ctx_set (fun c => set_prk4e3m (prk3e2m c) c) ;;;
      let! c := ctx_get id in
      let mac3 := e3_compute_mac (prk4e3m c) (th3 c) (id_cred me) (sig_vk me) in
      let sigmsg := e3_sig_message (th3 c) (id_cred me) mac3 in
      let! sig_i := of_option E3_ERR_SIG (ed25519_sign sigmsg (sig_sk me)) in
      ret (id_cred me ++ sig_vk me ++ sig_i) in
  ctx_set (fun c => set_th4 (e3_sha256_cat [th3 c; pt3]) c) ;;;
  let! c := ctx_get id in
  let! ct3 := or_return E3_ERR_AEAD
                (e3_aead_seal (prk3e2m c) (th3 c) pt3 (E3_PT + E3_AEAD_TAG)) in
  return_if (out_cap <? zlen ct3) E3_ERR_BUF ;;;
  ctx_set e3_derive_msk ;;;
  ret ct3.

(** ** Message 3 handling; message 4 is empty *)
Definition edhoc03_r_handle_msg3 (inp : bytes) (out_cap : Z) : M (st edhoc03_ctx) bytes :=
  let! my_role := ctx_get role in
  return_if (negb (my_role =? 0)) E3_ERR_STATE ;;;
  let! c := ctx_get id in
  let! pt3 := or_return E3_ERR_AEAD (e3_aead_open (prk3e2m c) (th3 c) inp (E3_PT + 16)) in
  (if peer_auth c =? E3_AUTH_STAT then
     return_if (negb (zlen pt3 =? E3_ID_CRED + E3_X_PK + E3_MAC_LEN)) E3_ERR_PARSE ;;;
     ctx_set (set_peer_id_cred (ztake E3_ID_CRED pt3)) ;;;
     let dh_pk_i := sub pt3 E3_ID_CRED E3_X_PK in
     let mac3 := sub pt3 (E3_ID_CRED + E3_X_PK) E3_MAC_LEN in
     return_if (negb (bool_decide (dh_pk_i = peer_dh (peer c)))) E3_ERR_MAC ;;;
     (* G_IY = ECDH(y, dh_pk_I) *)
     let! g_iy := of_option E3_ERR_DH (crypto_scalarmult (eph_sk c) dh_pk_i) in
     ctx_set (fun c => set_prk4e3m (e3_hkdf_extract (prk3e2m c) g_iy) c) ;;;
     let! c := ctx_get id in
     let mac3_c := e3_compute_mac (prk4e3m c) (th3 c) (peer_id_cred c) dh_pk_i in
     return_if (negb (bool_decide (mac3_c = mac3))) E3_ERR_MAC
   else
     return_if (negb (zlen pt3 =? E3_ID_CRED + E3_ED_PK + E3_ED_SIG)) E3_ERR_PARSE ;;;
     ctx_set (set_peer_id_cred (ztake E3_ID_CRED pt3)) ;;;
     let vk_i := sub pt3 E3_ID_CRED E3_ED_PK in
     let sig_i := sub pt3 (E3_ID_CRED + E3_ED_PK) E3_ED_SIG in
     return_if (negb (bool_decide (vk_i = peer_vk (peer c)))) E3_ERR_SIG ;;;
     ctx_set (fun c => set_prk4e3m (prk3e2m c) c) ;;;
     let! c := ctx_get id in
     let mac3_c := e3_compute_mac (prk4e3m c) (th3 c) (peer_id_cred c) vk_i in
     let sigmsg := e3_sig_message (th3 c) (peer_id_cred c) mac3_c in
     return_if (negb (ed25519_verify sig_i sigmsg vk_i)) E3_ERR_SIG) ;;;
  ctx_set (fun c => set_th4 (e3_sha256_cat [th3 c; pt3]) c) ;;;
  ctx_set e3_derive_msk ;;;
  ret [].

Definition edhoc03_i_handle_msg4 (inp : bytes) : M (st edhoc03_ctx) unit :=
  let! my_role := ctx_get role in
  return_if (negb (my_role =? 1)) E3_ERR_STATE ;;;
  return_if (negb (zlen inp =? 0)) E3_ERR_PARSE ;;;
  ctx_set (set_done 1) ;;;
  ret tt.

(** ** Two peers (selftest03.c) *)
Definition on_initiator {A} (m : M (st edhoc03_ctx) A) : M (st (edhoc03_ctx * edhoc03_ctx)) A :=
  zoom (fun s => (fst (fst s), snd s)) (fun t s => ((fst t, snd (fst s)), snd t)) m.
Definition on_responder {A} (m : M (st edhoc03_ctx) A) : M (st (edhoc03_ctx * edhoc03_ctx)) A :=
  zoom (fun s => (snd (fst s), snd s)) (fun t s => ((fst (fst s), fst t), snd t)) m.

Definition handshake03 : M (st (edhoc03_ctx * edhoc03_ctx)) (list bytes) :=
  let! m1 := on_initiator (edhoc03_i_make_msg1 E3_MAX_MSG) in
  let! m2 := on_responder (edhoc03_r_handle_msg1 m1 E3_MAX_MSG) in
  let! m3 := on_initiator (edhoc03_i_handle_msg2 m2 E3_MAX_MSG) in
  let! m4 := on_responder (edhoc03_r_handle_msg3 m3 E3_MAX_MSG) in
  on_initiator (edhoc03_i_handle_msg4 m4) ;;;
  ret [m1; m2; m3; m4].

(** The static public keys the other side pins. *)
Definition peer_of (k : edhoc03_creds) : edhoc03_peer :=
  {| peer_vk := sig_vk k; peer_dh := dh_pk k |}.

(** [run_method]: the message sizes it prints, or 1.  [main] has called
    [sodium_init] before, so the calls that generate credentials cannot fail. *)
Definition run_method {X} (m : Z) : M (st X) (list Z) :=
  let! ue := edhoc03_gen_creds 0 (Some [0x00; 0x00; 0x01]) in
  let! srv := edhoc03_gen_creds 0 (Some [0x00; 0x00; 0x02]) in
  let! (ms, (i, r)) := or_return 1 (with_ctx
      (edhoc03_init_initiator m ue (peer_of srv), edhoc03_init_responder srv (peer_of ue))
      handshake03) in
  return_if ((done i =? 0) || (done r =? 0)) 1 ;;;
  return_if (negb (bool_decide (msk i = msk r))) 1 ;;;
  return_if (negb (bool_decide (emsk i = emsk r))) 1 ;;;
  ret (map zlen ms).

(** [fails += run_method(m)] for one method. *)
Definition count_fail {S A} (m : M S A) : M S Z := fun s =>
  match m s with
  | (Ok _, s') => (Ok 0, s')
  | (Err rc, s') => (Ok rc, s')
  | (Fault, s') => (Fault, s')
  end.

Definition selftest03_main {X} (sodium_init : Z) : M (st X) unit :=
  return_if (sodium_init <? 0) 1 ;;;
  let! f0 := count_fail (run_method 0) in
  let! f1 := count_fail (run_method 1) in
  let! f2 := count_fail (run_method 2) in
  let! f3 := count_fail (run_method 3) in
  return_if (negb (f0 + f1 + f2 + f3 =? 0)) 1.
End core.

Definition edhoc03_strerror (rc : Z) : string :=
  if rc =? E3_OK then "ok"
  else if rc =? E3_ERR_ARG then "invalid argument"
  else if rc =? E3_ERR_BUF then "buffer too small"
  else if rc =? E3_ERR_PARSE then "malformed message"
  else if rc =? E3_ERR_DH then "X25519 failure"
  else if rc =? E3_ERR_AEAD then "AEAD auth failure"
  else if rc =? E3_ERR_MAC then "MAC mismatch"
  else if rc =? E3_ERR_SIG then "signature verify failed"
  else if rc =? E3_ERR_STATE then "wrong role/state"
  else "unknown error".

(** ** Credential files: byte arrays in the order of the struct *)
Definition creds_size : Z := E3_ID_CRED + E3_ED_SK + E3_ED_PK + E3_X_SK + E3_X_PK.
Definition creds_bytes (c : edhoc03_creds) : bytes :=
  id_cred c ++ sig_sk c ++ sig_vk c ++ dh_sk c ++ dh_pk c.
Definition creds_of_bytes (b : bytes) : edhoc03_creds := {|
  id_cred := ztake E3_ID_CRED b;
  sig_sk := sub b E3_ID_CRED E3_ED_SK;
  sig_vk := sub b (E3_ID_CRED + E3_ED_SK) E3_ED_PK;
  dh_sk := sub b (E3_ID_CRED + E3_ED_SK + E3_ED_PK) E3_X_SK;
  dh_pk := sub b (E3_ID_CRED + E3_ED_SK + E3_ED_PK + E3_X_SK) E3_X_PK |}.

Definition peer_size : Z := E3_ED_PK + E3_X_PK.
Definition peer_bytes (p : edhoc03_peer) : bytes := peer_vk p ++ peer_dh p.
Definition peer_of_bytes (b : bytes) : edhoc03_peer :=
  {| peer_vk := ztake E3_ED_PK b; peer_dh := sub b E3_ED_PK E3_X_PK |}.

Definition edhoc03_creds_save (path : option string) (c : option edhoc03_creds)
    (fs : filesystem) : Z * filesystem :=
  match path, c with
  | Some path, Some c =>
      match fwrite_file fs path (creds_bytes c) with
      | None => (E3_ERR_ARG, fs)
      | Some (n, fs') => (if n =? creds_size then E3_OK else E3_ERR_ARG, fs')
      end
  | _, _ => (E3_ERR_ARG, fs)
  end.

Definition edhoc03_creds_load (path : option string) (c : option edhoc03_creds)
    (fs : filesystem) : Z * option edhoc03_creds :=
  match path, c with
  | Some path, Some c =>
      match fread_file fs path creds_size with
      | None => (E3_ERR_ARG, Some c)
      | Some data => (if zlen data =? creds_size then E3_OK else E3_ERR_PARSE,
                      Some (creds_of_bytes (splice (creds_bytes c) 0 data)))
      end
  | _, _ => (E3_ERR_ARG, c)
  end.

Definition edhoc03_pub_save (path : option string) (c : option edhoc03_creds)
    (fs : filesystem) : Z * filesystem :=
  match path, c with
  | Some path, Some c =>
      let p := {| peer_vk := ztake E3_ED_PK (sig_vk c); peer_dh := ztake E3_X_PK (dh_pk c) |} in
      match fwrite_file fs path (peer_bytes p) with
      | None => (E3_ERR_ARG, fs)
      | Some (n, fs') => (if n =? peer_size then E3_OK else E3_ERR_ARG, fs')
      end
  | _, _ => (E3_ERR_ARG, fs)
  end.

Definition edhoc03_pub_load (path : option string) (p : option edhoc03_peer)
    (fs : filesystem) : Z * option edhoc03_peer :=
  match path, p with
  | Some path, Some p =>
      match fread_file fs path peer_size with
      | None => (E3_ERR_ARG, Some p)
      | Some data => (if zlen data =? peer_size then E3_OK else E3_ERR_PARSE,
                      Some (peer_of_bytes (splice (peer_bytes p) 0 data)))
      end
  | _, _ => (E3_ERR_ARG, p)
  end.

(** [snprintf] into a buffer of 512 bytes keeps the first 511 characters. *)
Definition snprintf_512 (s : string) : string := String.substring 0 511 s.

(** keygen03.c *)
Definition save_pair (dir name : string) (c : edhoc03_creds) (fs : filesystem)
    : Z * filesystem :=
  let p := snprintf_512 (dir +:+ "/" +:+ name +:+ ".creds") in
  let '(rc, fs) := edhoc03_creds_save (Some p) (Some c) fs in
  if negb (rc =? E3_OK) then (1, fs)
  else
    let p := snprintf_512 (dir +:+ "/" +:+ name +:+ ".pub") in
    let '(rc, fs) := edhoc03_pub_save (Some p) (Some c) fs in
    if negb (rc =? E3_OK) then (1, fs) else (0, fs).

Definition keygen03_main `{C : Crypto} (sodium_init : Z) (dir : string)
    : M (st filesystem) unit :=
  return_if (sodium_init <? 0) 1 ;;;
  let! server := or_return 1 (edhoc03_gen_creds sodium_init (Some [0x00; 0x00; 0x02])) in
  let! ue := or_return 1 (edhoc03_gen_creds sodium_init (Some [0x00; 0x00; 0x01])) in
  let! fs := ctx_get id in
  let '(rc, fs) := save_pair dir "server03" server fs in
  ctx_set (fun _ => fs) ;;;
  return_if (negb (rc =? 0)) 1 ;;;
  let '(rc, fs) := save_pair dir "ue03" ue fs in
  ctx_set (fun _ => fs) ;;;
  return_if (negb (rc =? 0)) 1 ;;;
  ret tt.
