(* ===== verification/Edhoc03Facts.v ===== *)
(** * Edhoc03Facts: agreement of the classical methods *)
From stdpp Require Import base numbers list option strings.
From Stdlib Require Import ZArith Lia.
From S2P Require Import Prelude Crypto Hkdf Files Edhoc03.
Local Open Scope c_scope.

Ltac zl3 := autorewrite with zlen in *; repeat autounfold with e3 in *; zl.
Ltac slices3 :=
  repeat first
    [ rewrite sub_app_exact by zl3
    | rewrite sub_all by zl3
    | rewrite sub_app_r by zl3
    | rewrite ztake_app_exact by zl3 ].

Section facts.
Context `{CL : CryptoLaws}.

(** The HKDF of this file is the one of the method 4 core. *)
Lemma e3_hkdf_expand_eq prk info n : e3_hkdf_expand prk info n = hkdf_expand prk info n.
Proof. reflexivity. Qed.

Lemma zlen_e3_sha256_cat segs : zlen (e3_sha256_cat segs) = 32.
Proof. apply sha256_len. Qed.
Lemma zlen_e3_compute_mac prk th i k : zlen (e3_compute_mac prk th i k) = E3_MAC_LEN.
Proof.
  unfold e3_compute_mac. rewrite e3_hkdf_expand_eq. apply zlen_hkdf_expand.
  unfold E3_MAC_LEN. lia.
Qed.
#[local] Hint Rewrite zlen_e3_sha256_cat zlen_e3_compute_mac : zlen.

Definition aead_opens (prk th ct pt : bytes) : Prop :=
  aead_decrypt (fst (e3_derive_k prk th)) (snd (e3_derive_k prk th)) th ct = Some pt.

Lemma wp_e3_seal {X} prk th pt cap (Q : bytes -> st X -> Prop) s :
  zlen pt + E3_AEAD_TAG <= cap ->
  (forall ct, aead_opens prk th ct pt -> zlen ct = zlen pt + E3_AEAD_TAG -> Q ct s) ->
  wp (e3_aead_seal prk th pt cap) Q s.
Proof.
  intros Hcap HQ. unfold e3_aead_seal.
  assert (Hk : aead_opens prk th
    (aead_encrypt (fst (e3_derive_k prk th)) (snd (e3_derive_k prk th)) th pt) pt)
    by apply aead_decrypt_encrypt.
  destruct (e3_derive_k prk th) as [key nonce] eqn:E. cbn in Hk.
  apply wp_bind, wp_crash_if; [lia|]. apply wp_ret, HQ; [exact Hk|apply aead_encrypt_len].
Qed.

Lemma wp_e3_open {X} prk th ct pt cap (Q : bytes -> st X -> Prop) s :
  aead_opens prk th ct pt -> zlen pt <= cap -> Q pt s ->
  wp (e3_aead_open prk th ct cap) Q s.
Proof.
  unfold aead_opens, e3_aead_open. intros H Hcap HQ.
  destruct (e3_derive_k prk th) as [key nonce]. cbn in H.
  apply wp_bind, wp_crash_if.
  - apply aead_decrypt_len in H. unfold E3_AEAD_TAG in *.
    apply andb_false_iff. right. lia.
  - by eapply wp_of_option.
Qed.

(** Credentials as [edhoc03_gen_creds] makes them. *)
Definition creds_ok (k : edhoc03_creds) : Prop :=
  (exists r r', ed25519_keypair r = ((sig_vk k, sig_sk k), r')) /\
  zlen (sig_vk k) = E3_ED_PK /\ zlen (dh_sk k) = E3_X_SK /\
  dh_pk k = crypto_scalarmult_base (dh_sk k) /\ zlen (id_cred k) = E3_ID_CRED.

(** What a verifier with ephemeral secret [esk] needs of a plaintext [pt] in
    which the owner of [k] authenticates with mode [a], keys going from [prk] to
    [prk']. *)
Inductive authenticates (k : edhoc03_creds) (a : Z) (esk prk th prk' pt : bytes) : Prop :=
  | auth_stat g :
      a = E3_AUTH_STAT -> crypto_scalarmult esk (dh_pk k) = Some g ->
      prk' = e3_hkdf_extract prk g ->
      pt = id_cred k ++ dh_pk k ++ e3_compute_mac prk' th (id_cred k) (dh_pk k) ->
      authenticates k a esk prk th prk' pt
  | auth_sig sg :
      a = E3_AUTH_SIG -> prk' = prk -> zlen sg = E3_ED_SIG ->
      ed25519_verify sg (e3_sig_message th (id_cred k)
        (e3_compute_mac prk' th (id_cred k) (sig_vk k))) (sig_vk k) = true ->
      pt = id_cred k ++ sig_vk k ++ sg ->
      authenticates k a esk prk th prk' pt.

(** The size of a plaintext for an authentication mode. *)
Definition pt_len (a : Z) : Z :=
  E3_ID_CRED + 32 + (if a =? E3_AUTH_STAT then E3_MAC_LEN else E3_ED_SIG).

Lemma authenticates_len k a esk prk th prk' pt :
  creds_ok k -> authenticates k a esk prk th prk' pt -> zlen pt = pt_len a.
Proof.
  intros (_ & Hv & _ & Hd & Hid) [g -> _ -> ->|sg -> -> Hs _ ->]; unfold pt_len.
  - rewrite Hd, Z.eqb_refl. zl3.
  - change (E3_AUTH_SIG =? E3_AUTH_STAT) with false. zl3.
Qed.

Ltac wp_step :=
  match goal with
  | |- wp (bind _ _) _ _ => apply wp_bind
  | |- wp (ctx_get _) _ _ => apply wp_ctx_get
  | |- wp (ctx_set e3_derive_msk) _ _ => fail 1
  | |- wp (ctx_set _) _ _ => apply wp_ctx_set
  | |- wp (or_return _ _) _ _ => apply wp_or_return
  | |- wp (ret _) _ _ => apply wp_ret
  end; fields3; cbn beta iota.
Ltac wp_steps := repeat wp_step.

Definition msg1_sent (c0 c : edhoc03_ctx) (m1 : bytes) : Prop :=
  m1 = [u8 (method c)] ++ eph_pk c ++ [byte_at (c_i c) 0] /\
  zlen (eph_sk c) = E3_X_SK /\ eph_pk c = crypto_scalarmult_base (eph_sk c) /\
  h_msg1 c = e3_sha256 m1 /\ role c = 1 /\ method c = method c0 /\
  self_auth c = self_auth c0 /\ peer_auth c = peer_auth c0 /\ self c = self c0 /\
  peer c = peer c0 /\ c_i c = c_i c0 /\ c_r c = c_r c0.

Lemma e3_make_msg1_wp c r cap :
  role c = 1 -> edhoc03_method_valid (method c) = true -> 34 <= cap ->
  wp (edhoc03_i_make_msg1 cap) (fun m1 s => msg1_sent c (fst s) m1) (c, r).
Proof.
  intros Hrole Hm Hcap. unfold edhoc03_i_make_msg1. wp_steps.
  apply wp_return_if; [by rewrite Hrole|]. wp_steps.
  apply wp_return_if; [by rewrite Hm|]. wp_steps.
  destruct (randombytes_buf r E3_X_SK) as [esk r1] eqn:Er.
  pose proof (randombytes_zlen _ _ _ _ Er ltac:(done)).
  eapply wp_draw; [exact Er|]. wp_steps. apply wp_return_if; [zl3|]. wp_steps.
  by split_and!.
Qed.

Definition auth_valid (a : Z) : Prop := a = E3_AUTH_STAT \/ a = E3_AUTH_SIG.
Lemma init_mode m : auth_valid (method_init_auth m).
Proof. unfold auth_valid, method_init_auth. destruct (_ || _); auto. Qed.
Lemma resp_mode m : auth_valid (method_resp_auth m).
Proof. unfold auth_valid, method_resp_auth. destruct (_ || _); auto. Qed.
Lemma pt_len_le a : pt_len a <= 99.
Proof. unfold pt_len. destruct (a =? E3_AUTH_STAT); cbv; discriminate. Qed.
Lemma pt_len_nonneg a : 0 <= pt_len a.
Proof. unfold pt_len. destruct (a =? E3_AUTH_STAT); cbv; discriminate. Qed.

Lemma stat_key k x :
  creds_ok k -> zlen x = E3_X_SK ->
  exists g, crypto_scalarmult (dh_sk k) (crypto_scalarmult_base x) = Some g /\
            crypto_scalarmult x (dh_pk k) = Some g.
Proof.
  intros (_ & _ & Hd & -> & _) Hx.
  destruct (scalarmult_comm (dh_sk k) x) as (g & E1 & E2); [done..|]. eauto.
Qed.
Lemma sig_key k msg :
  creds_ok k -> exists sg, ed25519_sign msg (sig_sk k) = Some sg /\
    zlen sg = E3_ED_SIG /\ ed25519_verify sg msg (sig_vk k) = true.
Proof.
  intros ((r & r' & E) & _). destruct (ed25519_sign_ok msg (sig_sk k)) as (sg & Es & Hl).
  exists sg. split_and!; [done..|]. by eapply ed25519_verify_sign.
Qed.

(** The two ways to authenticate, as the sender of a message runs them. *)
Definition msg2_sent (c0 c : edhoc03_ctx) (x m1 m2 : bytes) : Prop :=
  exists ct2 pt2,
    m2 = eph_pk c ++ ct2 /\ eph_pk c = crypto_scalarmult_base (eph_sk c) /\
    zlen (eph_sk c) = E3_X_SK /\
    crypto_scalarmult x (eph_pk c) = Some (ss_e c) /\
    th2 c = e3_sha256_cat [eph_pk c; e3_sha256 m1; c_r c] /\
    prk2e c = e3_hkdf_extract (th2 c) (ss_e c) /\
    authenticates (self c) (self_auth c) x (prk2e c) (th2 c) (prk3e2m c) pt2 /\
    aead_opens (prk2e c) (th2 c) ct2 pt2 /\ zlen ct2 = zlen pt2 + E3_AEAD_TAG /\
    th3 c = e3_sha256_cat [th2 c; pt2] /\
    role c = 0 /\ self c = self c0 /\ peer c = peer c0 /\ c_r c = c_r c0.

(** The sender's branch on its authentication mode [a]. *)
Ltac send_checks a Hmode Hself Hx :=
  destruct (Z.eqb_spec a E3_AUTH_STAT) as [Ea|Ea];
  [ destruct (stat_key _ _ Hself Hx) as (g & E1 & E2);
    wp_steps; eapply wp_of_option; [eassumption|]; wp_steps;
    eexists; split; [reflexivity|]; by eapply auth_stat
  | destruct Hmode as [?|Ea']; [done|]; wp_steps;
    match goal with |- wp (of_option _ (ed25519_sign ?msg _)) _ _ =>
      destruct (sig_key _ msg Hself) as (sg & E1 & E2 & E3) end;
    eapply wp_of_option; [eassumption|]; wp_steps;
    eexists; split; [reflexivity|]; by eapply auth_sig ].

Lemma e3_handle_msg1_wp c r m ci x cap :
  role c = 0 -> creds_ok (self c) -> edhoc03_method_valid m = true -> is_byte m ->
  zlen x = E3_X_SK -> zlen (c_r c) = E3_CONN_ID -> 147 <= cap ->
  let m1 := [m] ++ crypto_scalarmult_base x ++ [ci] in
  wp (edhoc03_r_handle_msg1 m1 cap)
     (fun m2 s => msg2_sent c (fst s) x m1 m2 /\ method (fst s) = m /\
        self_auth (fst s) = method_resp_auth m /\ peer_auth (fst s) = method_init_auth m) (c, r).
Proof.
  intros Hrole Hself Hm Hbyte Hx Hcr Hcap m1.
  pose proof Hself as ((r0 & r0' & Ek) & Hvk & Hdsk & Hdpk & Hid).
  unfold edhoc03_r_handle_msg1. cbv zeta.
  assert (byte_at m1 0 = m) as -> by done.
  assert (sub m1 1 E3_X_PK = crypto_scalarmult_base x) as ->.
  { unfold m1. slices3. done. }
  wp_steps. apply wp_return_if; [by rewrite Hrole|]. wp_steps.
  apply wp_return_if; [unfold m1; apply negb_false_iff, Z.eqb_eq; zl3|]. wp_steps.
  apply wp_return_if; [by rewrite Hm|]. wp_steps.
  destruct (randombytes_buf r E3_X_SK) as [y r1] eqn:Er.
  pose proof (randombytes_zlen _ _ _ _ Er ltac:(done)) as Hy.
  eapply wp_draw; [exact Er|]. wp_steps.
  destruct (scalarmult_comm x y) as (ss & Ex & Ey); [done..|].
  eapply wp_of_option; [exact Ey|]. wp_steps.
  eapply (wp_mono _ (fun pt2 s' => exists prk',
    s' = (set_prk3e2m prk' _, r1) /\ authenticates (self c) (method_resp_auth m) x _ _ prk' pt2)).
  2: { send_checks (method_resp_auth m) (resp_mode m) Hself Hx. }
  intros pt2 s' (prk' & -> & Hauth). cbn beta iota.
  pose proof (authenticates_len _ _ _ _ _ _ _ Hself Hauth) as Hlen.
  pose proof (pt_len_le (method_resp_auth m)).
  wp_steps. apply wp_e3_seal; [zl3|]. intros ct2 Hct2 Hlen2. wp_steps.
  apply wp_return_if; [zl3|]. wp_steps.
  split_and!; try done. exists ct2, pt2. fields3. by split_and!.
Qed.

Definition exported (c : edhoc03_ctx) (prk th : bytes) : Prop :=
  let out := e3_hkdf_expand prk th E3_PRK_LEN in
  msk c = e3_hkdf_expand out (str "EDHOC-EAP-MSK") E3_MSK_LEN /\
  emsk c = e3_hkdf_expand out (str "EDHOC-EAP-EMSK") E3_EMSK_LEN.

Lemma e3_wp_derive_msk (Q : unit -> st edhoc03_ctx -> Prop) c r :
  (forall po m e,
     (forall c', msk c' = m -> emsk c' = e -> exported c' (prk4e3m c) (th4 c)) ->
     Q tt (set_done 1 (set_emsk e (set_msk m (set_prk_out po c))), r)) ->
  wp (ctx_set e3_derive_msk) Q (c, r).
Proof.
  intros HQ. apply wp_ctx_set.
  change (e3_derive_msk c) with
    (let po := e3_hkdf_expand (prk4e3m c) (th4 c) E3_PRK_LEN in
     set_done 1 (set_emsk (e3_hkdf_expand po (str "EDHOC-EAP-EMSK") E3_EMSK_LEN)
       (set_msk (e3_hkdf_expand po (str "EDHOC-EAP-MSK") E3_MSK_LEN) (set_prk_out po c)))).
  apply HQ. intros c' E1 E2. split; [exact E1|exact E2].
Qed.

(** Slices of a plaintext made of three fields. *)
Lemma pt_fields (i k t : bytes) n :
  zlen i = E3_ID_CRED -> zlen k = 32 -> zlen t = n ->
  ztake E3_ID_CRED (i ++ k ++ t) = i /\ sub (i ++ k ++ t) E3_ID_CRED 32 = k /\
  sub (i ++ k ++ t) (E3_ID_CRED + 32) n = t /\ zlen (i ++ k ++ t) = E3_ID_CRED + 32 + n.
Proof. intros Hi Hk <-. split_and!; [by slices3..|zl3]. Qed.

Definition msg3_sent (c : edhoc03_ctx) (y m3 : bytes) : Prop :=
  exists pt3,
    authenticates (self c) (self_auth c) y (prk3e2m c) (th3 c) (prk4e3m c) pt3 /\
    aead_opens (prk3e2m c) (th3 c) m3 pt3 /\ zlen m3 = zlen pt3 + E3_AEAD_TAG /\
    th4 c = e3_sha256_cat [th3 c; pt3] /\ exported c (prk4e3m c) (th4 c) /\
    done c = 1 /\ role c = 1.

(** The checks of a receiver, run on a plaintext its peer made. *)
Ltac run_checks :=
  match goal with
  | H : authenticates ?k ?a ?esk ?prk ?th ?prk' ?pt |- _ =>
      destruct H as [g Ea Eg Ep Ept|sg Ea Ep Hsg Hver Ept];
      [ destruct (pt_fields (id_cred k) (dh_pk k)
          (e3_compute_mac prk' th (id_cred k) (dh_pk k)) E3_MAC_LEN) as (F1 & F2 & F3 & F4);
        [assumption|assumption|apply zlen_e3_compute_mac|]
      | destruct (pt_fields (id_cred k) (sig_vk k) sg E3_ED_SIG) as (F1 & F2 & F3 & F4);
        [assumption|assumption|assumption|] ];
      rewrite <-Ept in *
  end.

Ltac recv_checks Hpeer :=
  change E3_X_PK with 32; change E3_ED_PK with 32; run_checks;
  match goal with
  | Ea : _ = E3_AUTH_STAT, Eg : _ = Some _, Ep : _ = e3_hkdf_extract _ _,
    F1 : ztake _ _ = _, F2 : sub _ _ 32 = _, F3 : sub _ _ E3_MAC_LEN = _, F4 : zlen _ = _ + _ |- _ =>
      rewrite Ea, Z.eqb_refl, F1, F2, F3, F4; wp_steps;
      apply wp_return_if; [done|]; wp_steps;
      apply wp_return_if; [by rewrite Hpeer, bool_decide_true|]; wp_steps;
      eapply wp_of_option; [exact Eg|]; wp_steps;
      rewrite Ep; apply wp_return_if; [by apply negb_false_iff, bool_decide_eq_true|reflexivity]
  | Ea : _ = E3_AUTH_SIG, Ep : ?p = _, Hver : ed25519_verify _ _ _ = true,
    F1 : ztake _ _ = _, F2 : sub _ _ 32 = _, F3 : sub _ _ E3_ED_SIG = _, F4 : zlen _ = _ + _ |- _ =>
      rewrite Ea; change (E3_AUTH_SIG =? E3_AUTH_STAT) with false; cbn iota;
      rewrite F1, F2, F3, F4; wp_steps;
      apply wp_return_if; [done|]; wp_steps;
      apply wp_return_if; [by rewrite Hpeer, bool_decide_true|]; wp_steps;
      subst p; apply wp_return_if; [apply negb_false_iff; exact Hver|reflexivity]
  end.

Lemma e3_handle_msg2_wp c r k y ct2 pt2 p3 ss cap :
  role c = 1 -> creds_ok (self c) -> creds_ok k -> peer c = peer_of k ->
  auth_valid (self_auth c) -> auth_valid (peer_auth c) ->
  zlen y = E3_X_SK -> zlen (eph_sk c) = E3_X_SK ->
  crypto_scalarmult (eph_sk c) (crypto_scalarmult_base y) = Some ss ->
  let t2 := e3_sha256_cat [crypto_scalarmult_base y; h_msg1 c; c_r c] in
  let p2 := e3_hkdf_extract t2 ss in
  authenticates k (peer_auth c) (eph_sk c) p2 t2 p3 pt2 ->
  aead_opens p2 t2 ct2 pt2 -> zlen ct2 = zlen pt2 + E3_AEAD_TAG -> 115 <= cap ->
  wp (edhoc03_i_handle_msg2 (crypto_scalarmult_base y ++ ct2) cap)
     (fun m3 s => let c' := fst s in msg3_sent c' y m3 /\
        th3 c' = e3_sha256_cat [t2; pt2] /\ prk3e2m c' = p3 /\
        self c' = self c /\ self_auth c' = self_auth c /\ peer_id_cred c' = id_cred k) (c, r).
Proof.
  intros Hrole Hself Hk Hpeer Hsa Hpa Hy Hx Hss t2 p2 Hauth Hpt2 Hlct2 Hcap.
  pose proof Hk as (_ & Hkvk & Hkdsk & Hkdpk & Hkid).
  pose proof (authenticates_len _ _ _ _ _ _ _ Hk Hauth) as Hlen.
  pose proof (pt_len_le (peer_auth c)).
  assert (zlen (dh_pk k) = 32) as Hkpk by (rewrite Hkdpk; zl3).
  unfold edhoc03_i_handle_msg2. cbv zeta.
  rewrite (ztake_app_exact E3_X_PK), (zdrop_app_exact E3_X_PK) by zl3.
  assert (0 <= zlen pt2) by apply zlen_nonneg.
  wp_steps. apply wp_return_if; [by rewrite Hrole|]. wp_steps.
  apply wp_return_if; [zl3|]. wp_steps.
  eapply wp_of_option; [exact Hss|]. wp_steps.
  eapply wp_e3_open; [exact Hpt2|zl3|]. wp_steps.
  eapply (wp_mono _ (fun _ s' =>
    s' = (set_prk3e2m p3 (set_peer_id_cred (id_cred k) _), r))).
  2: { recv_checks Hpeer. }
  intros _ s' ->. wp_steps.
  eapply (wp_mono _ (fun pt3 s' => exists prk',
    s' = (set_prk4e3m prk' _, r) /\
    authenticates (self c) (self_auth c) y _ _ prk' pt3)).
  2: { send_checks (self_auth c) Hsa Hself Hy. }
  intros pt3 s' (prk' & -> & Hauth3). cbn beta iota.
  pose proof (authenticates_len _ _ _ _ _ _ _ Hself Hauth3) as Hlen3.
  pose proof (pt_len_le (self_auth c)).
  wp_steps. apply wp_e3_seal; [zl3|]. intros ct3 Hct3 Hl3. wp_steps.
  apply wp_return_if; [zl3|]. wp_steps.
  apply e3_wp_derive_msk. intros po m e Hexp. wp_steps.
  split_and!; try done. exists pt3. fields3. split_and!; try done. by apply Hexp.
Qed.

Lemma e3_handle_msg3_wp c r k m3 pt3 p4 cap :
  role c = 0 -> creds_ok k -> peer c = peer_of k -> auth_valid (peer_auth c) ->
  authenticates k (peer_auth c) (eph_sk c) (prk3e2m c) (th3 c) p4 pt3 ->
  aead_opens (prk3e2m c) (th3 c) m3 pt3 ->
  wp (edhoc03_r_handle_msg3 m3 cap)
     (fun m4 s => let c' := fst s in m4 = [] /\ prk4e3m c' = p4 /\
        th4 c' = e3_sha256_cat [th3 c; pt3] /\ exported c' p4 (th4 c') /\
        done c' = 1 /\ peer_id_cred c' = id_cred k /\ method c' = method c) (c, r).
Proof.
  intros Hrole Hk Hpeer Hpa Hauth Hpt3.
  pose proof Hk as (_ & Hkvk & Hkdsk & Hkdpk & Hkid).
  pose proof (authenticates_len _ _ _ _ _ _ _ Hk Hauth) as Hlen.
  pose proof (pt_len_le (peer_auth c)).
  assert (zlen (dh_pk k) = 32) as Hkpk by (rewrite Hkdpk; zl3).
  unfold edhoc03_r_handle_msg3. cbv zeta.
  wp_steps. apply wp_return_if; [by rewrite Hrole|]. wp_steps.
  eapply wp_e3_open; [exact Hpt3|zl3|]. wp_steps.
  eapply (wp_mono _ (fun _ s' =>
    s' = (set_prk4e3m p4 (set_peer_id_cred (id_cred k) _), r))).
  2: { recv_checks Hpeer. }
  intros _ s' ->. wp_steps.
  apply e3_wp_derive_msk. intros po m e Hexp. wp_steps.
  split_and!; try done. by apply Hexp.
Qed.

Lemma e3_handle_msg4_wp c r :
  role c = 1 -> wp (edhoc03_i_handle_msg4 []) (fun _ s => fst s = set_done 1 c) (c, r).
Proof.
  intros Hrole. unfold edhoc03_i_handle_msg4.
  wp_steps. apply wp_return_if; [by rewrite Hrole|]. wp_steps.
  apply wp_return_if; [done|]. by wp_steps.
Qed.

Lemma e3_gen_creds_wp {X} (x : X) r i :
  zlen i = E3_ID_CRED ->
  wp (edhoc03_gen_creds 0 (Some i))
     (fun k s => creds_ok k /\ id_cred k = i /\ fst s = x) (x, r).
Proof.
  intros Hi. unfold edhoc03_gen_creds, edhoc03_gen_creds_at. wp_steps. apply wp_with_ctx. wp_steps.
  apply wp_return_if; [done|]. wp_steps. apply wp_return_if; [done|]. wp_steps.
  destruct (ed25519_keypair r) as [[vk sk] r1] eqn:Ek.
  destruct (ed25519_keypair_len r) as [Hvk Hsk]. rewrite Ek in Hvk, Hsk. cbn in Hvk, Hsk.
  eapply wp_draw; [exact Ek|]. cbn beta iota. wp_steps.
  destruct (randombytes_buf r1 E3_X_SK) as [dsk r2] eqn:Er.
  pose proof (randombytes_zlen _ _ _ _ Er ltac:(done)).
  eapply wp_draw; [exact Er|]. wp_steps. eapply wp_of_option; [done|]. wp_steps.
  split_and!; [|done..]. unfold creds_ok. cbn. split_and!; try done. eauto.
Qed.

Lemma e3_wp_on_initiator {A} (m : M (st edhoc03_ctx) A) Q i r g :
  wp m (fun a s => Q a ((fst s, r), snd s)) (i, g) -> wp (on_initiator m) Q ((i, r), g).
Proof. intros H. by apply wp_zoom. Qed.
Lemma e3_wp_on_responder {A} (m : M (st edhoc03_ctx) A) Q i r g :
  wp m (fun a s => Q a ((i, fst s), snd s)) (r, g) -> wp (on_responder m) Q ((i, r), g).
Proof. intros H. by apply wp_zoom. Qed.

Lemma e3_exported_agree c1 c2 prk th :
  exported c1 prk th -> exported c2 prk th ->
  msk c1 = msk c2 /\ emsk c1 = emsk c2 /\ zlen (msk c1) = 64.
Proof.
  intros [E1 F1] [E2 F2]. rewrite E1, E2, F1, F2. split_and!; try done.
  rewrite e3_hkdf_expand_eq. apply zlen_hkdf_expand. unfold E3_MSK_LEN. lia.
Qed.

(** The sizes of the four messages of method [m]. *)
Definition sizes (m : Z) : list Z :=
  [34; 32 + pt_len (method_resp_auth m) + 16; pt_len (method_init_auth m) + 16; 0].

(** ** The handshake, one message at a time *)
Section steps.
Variables (m : Z) (ue srv : edhoc03_creds).
Hypothesis Hm : edhoc03_method_valid m = true.
Hypothesis Hue : creds_ok ue.
Hypothesis Hsrv : creds_ok srv.
Let I0 : edhoc03_ctx := edhoc03_init_initiator m ue (peer_of srv).
Let R0 : edhoc03_ctx := edhoc03_init_responder srv (peer_of ue).

Definition sent1 (i : edhoc03_ctx) (m1 : bytes) : Prop := msg1_sent I0 i m1.

Definition sent2 (i r : edhoc03_ctx) (m2 : bytes) : Prop :=
  exists m1, sent1 i m1 /\ msg2_sent R0 r (eph_sk i) m1 m2 /\ method r = m /\
    self_auth r = method_resp_auth m /\ peer_auth r = method_init_auth m.

Definition sent3 (i r : edhoc03_ctx) (m3 : bytes) : Prop :=
  exists pt3, role i = 1 /\ role r = 0 /\ peer r = peer_of ue /\
    peer_auth r = method_init_auth m /\ method r = m /\
    authenticates ue (method_init_auth m) (eph_sk r) (prk3e2m r) (th3 r) (prk4e3m i) pt3 /\
    aead_opens (prk3e2m r) (th3 r) m3 pt3 /\ th4 i = e3_sha256_cat [th3 r; pt3] /\
    exported i (prk4e3m i) (th4 i) /\ done i = 1 /\ peer_id_cred i = id_cred srv.

Definition agreed (i r : edhoc03_ctx) : Prop :=
  msk i = msk r /\ zlen (msk i) = 64 /\ emsk i = emsk r /\ th4 i = th4 r /\
  peer_id_cred i = id_cred srv /\ peer_id_cred r = id_cred ue /\ method r = m /\
  done i = 1 /\ done r = 1.

Lemma is_byte_method : is_byte m.
Proof.
  unfold edhoc03_method_valid in Hm. apply andb_true_iff in Hm as [? ?]. unfold is_byte. lia.
Qed.

Lemma e3_step1 g cap :
  34 <= cap ->
  wp (edhoc03_i_make_msg1 cap)
     (fun m1 s => sent1 (fst s) m1 /\ zlen m1 = 34 /\ byte_at m1 0 = m) (I0, g).
Proof.
  intros Hcap. eapply wp_mono; [|by apply (e3_make_msg1_wp I0 g)].
  intros m1 s H. split; [exact H|]. destruct H as (-> & Hx & Hpk & Hh & Hri & Hmi & _).
  rewrite Hpk. split; [zl3|].
  change (byte_at ([u8 (method (fst s))] ++ crypto_scalarmult_base (eph_sk (fst s)) ++
            [byte_at (c_i (fst s)) 0]) 0) with (u8 (method (fst s))).
  rewrite Hmi. apply u8_small, is_byte_method.
Qed.

Lemma e3_step2 i m1 g cap :
  147 <= cap -> sent1 i m1 ->
  wp (edhoc03_r_handle_msg1 m1 cap)
     (fun m2 s => sent2 i (fst s) m2 /\ zlen m2 = 32 + pt_len (method_resp_auth m) + 16) (R0, g).
Proof.
  intros Hcap H1.
  pose proof H1 as (-> & Hx & Hpk & Hh & Hri & Hmi & Hsa & Hpa & Hself & Hpeer & Hci & Hcr).
  change (method i = m) in Hmi. rewrite Hmi, Hpk, Hci, u8_small in * by apply is_byte_method.
  eapply wp_mono; [|eapply (e3_handle_msg1_wp R0 g m _ (eph_sk i))]; try done.
  2: apply is_byte_method.
  intros m2 s [H2 (Hmr & Hsar & Hpar)]. split.
  - exists (m :: crypto_scalarmult_base (eph_sk i) ++ [0x10]).
    by split_and!.
  - destruct H2 as (ct2 & pt2 & -> & Hpky & Hy & Hss & Ht2 & Hp2 & Hauth & Hpt2 & Hl2 & _ & _
      & Hselfr & _). change (self (fst s) = srv) in Hselfr. rewrite Hselfr in Hauth.
    pose proof (authenticates_len _ _ _ _ _ _ _ Hsrv Hauth) as Hlp. rewrite Hsar in Hlp.
    rewrite Hpky. zl3.
Qed.

Lemma e3_step3 i r m2 g cap :
  115 <= cap -> sent2 i r m2 ->
  wp (edhoc03_i_handle_msg2 m2 cap)
     (fun m3 s => sent3 (fst s) r m3 /\ zlen m3 = pt_len (method_init_auth m) + 16) (i, g).
Proof.
  intros Hcap (m1 & (Em1 & Hx & Hpk & Hh & Hri & Hmi & Hsa & Hpa & Hself & Hpeer & Hci & Hcr)
    & (ct2 & pt2 & -> & Hpky & Hy & Hss & Ht2 & Hp2 & Hauth & Hpt2 & Hl2 & Ht3
    & Hrr & Hselfr & Hpeerr & Hcrr) & Hmr & Hsar & Hpar).
  change (self i = ue) in Hself. change (self r = srv) in Hselfr.
  change (c_r r = [0x20]) in Hcrr. change (c_r i = [0x20]) in Hcr.
  change (self_auth i = method_init_auth m) in Hsa.
  change (peer_auth i = method_resp_auth m) in Hpa.
  change (peer i = peer_of srv) in Hpeer. change (peer r = peer_of ue) in Hpeerr.
  rewrite Hpky, Hselfr, Hsar, Hcrr in *. rewrite Ht2, Hp2 in *.
  eapply wp_mono; [|eapply (e3_handle_msg2_wp i g srv (eph_sk r) ct2 pt2 (prk3e2m r) (ss_e r))].
  all: rewrite ?Hself, ?Hsa, ?Hpa, ?Hh, ?Hcr; try done; try apply init_mode; try apply resp_mode.
  intros m3 [i2 g3] ((pt3 & Hauth3 & Hpt3 & Hl3 & Ht4 & Hexp & Hdone & Hri2) & Eth3 & Ep3
    & Eself & Esa & Eidr). cbn [fst snd] in *.
  rewrite <-Ht3 in Eth3. rewrite Eself, Esa, Eth3, Ep3 in *.
  split; [exists pt3; by split_and!|].
  pose proof (authenticates_len _ _ _ _ _ _ _ Hue Hauth3). unfold E3_AEAD_TAG in *. lia.
Qed.

Lemma e3_step4 i r m3 g cap :
  sent3 i r m3 ->
  wp (edhoc03_r_handle_msg3 m3 cap) (fun m4 s => m4 = [] /\ agreed i (fst s)) (r, g).
Proof.
  intros (pt3 & Hri & Hrr & Hpeerr & Hpar & Hmr & Hauth3 & Hpt3 & Ht4 & Hexp & Hdone & Hid).
  eapply wp_mono; [|eapply (e3_handle_msg3_wp r g ue m3 pt3 (prk4e3m i))]; try done.
  all: rewrite ?Hpar, ?Hmr; try done; try apply init_mode.
  intros m4 [r2 g4] (-> & Ep4 & Eth4 & Hexpr & Hdoner & Eidi & Emr). cbn [fst snd] in *.
  rewrite Eth4, <-Ht4 in *.
  destruct (e3_exported_agree i r2 _ _ Hexp Hexpr) as (Emsk & Eemsk & Hlen).
  split; [done|]. split_and!; congruence.
Qed.

Lemma e3_handshake_wp g :
  wp handshake03
     (fun ms s => let '(i, r) := fst s in map zlen ms = sizes m /\ agreed i r) ((I0, R0), g).
Proof.
  unfold handshake03. apply wp_bind, e3_wp_on_initiator.
  eapply wp_mono; [|by apply e3_step1]. intros m1 [i1 g1] (H1 & L1 & _). cbn [fst snd] in *.
  apply wp_bind, e3_wp_on_responder.
  eapply wp_mono; [|by apply e3_step2]. intros m2 [r1 g2] [H2 L2]. cbn [fst snd] in *.
  apply wp_bind, e3_wp_on_initiator.
  eapply wp_mono; [|by apply e3_step3]. intros m3 [i2 g3] [H3 L3]. cbn [fst snd] in *.
  pose proof H3 as (pt3 & Hri & _).
  apply wp_bind, e3_wp_on_responder.
  eapply wp_mono; [|by apply e3_step4]. intros m4 [r2 g4] [-> H4]. cbn [fst snd] in *.
  apply wp_bind, e3_wp_on_initiator.
  eapply wp_mono; [|by apply (e3_handle_msg4_wp i2 g4)].
  intros _ [i3 g5] E3. cbn [fst snd] in *. subst i3. apply wp_ret. fields3.
  split; [unfold sizes; cbn [map]; by rewrite L1, L2, L3|].
  destruct H4 as (? & ? & ? & ? & ? & ? & ? & ? & ?). by split_and!.
Qed.
End steps.

Lemma e3_gen_creds_ok {X} (x : X) r i k s' :
  zlen i = E3_ID_CRED ->
  edhoc03_gen_creds 0 (Some i) (x, r) = (Ok k, s') -> creds_ok k.
Proof.
  intros Hi E. pose proof (e3_gen_creds_wp x r i Hi) as H. unfold wp, post in H.
  rewrite E in H. apply H.
Qed.

(** C32: for every classical method 0 to 3, two peers that pin each other's public
    keys complete the handshake without error whatever randomness is drawn: both
    end with the same MSK (64 bytes), EMSK and TH4, each learns the other's
    identifier, the responder ends with the method the initiator chose, both
    report they are done, and each message has the size its authentication modes
    give, all below 148 bytes. *)
Theorem edhoc03_handshake_agrees m idu ids ga gb sa sb ue srv g :
  0 <= m <= 3 -> zlen idu = E3_ID_CRED -> zlen ids = E3_ID_CRED ->
  edhoc03_gen_creds 0 (Some idu) (tt, ga) = (Ok ue, sa) ->
  edhoc03_gen_creds 0 (Some ids) (tt, gb) = (Ok srv, sb) ->
  exists ms i r g',
    handshake03 ((edhoc03_init_initiator m ue (peer_of srv),
                  edhoc03_init_responder srv (peer_of ue)), g) = (Ok ms, ((i, r), g')) /\
    map zlen ms = sizes m /\ Forall (fun n => n < 148) (sizes m) /\
    msk i = msk r /\ zlen (msk i) = 64 /\ emsk i = emsk r /\ th4 i = th4 r /\
    peer_id_cred i = ids /\ peer_id_cred r = idu /\ method r = m /\
    done i = 1 /\ done r = 1.
Proof.
  intros Hm Hu Hs Eu Es.
  destruct (wp_run _ _ _ (e3_gen_creds_wp tt ga idu Hu)) as (ue' & su & Eu' & Hue & Eidu & _).
  destruct (wp_run _ _ _ (e3_gen_creds_wp tt gb ids Hs)) as (srv' & ss & Es' & Hsrv & Eids & _).
  rewrite Eu in Eu'. rewrite Es in Es'. simplify_eq.
  assert (Hmv : edhoc03_method_valid m = true).
  { unfold edhoc03_method_valid. apply andb_true_iff. lia. }
  destruct (wp_run _ _ _ (e3_handshake_wp m ue' srv' Hmv Hue Hsrv g)) as (ms & [[i r] g'] & E & H).
  cbn [fst] in H. unfold agreed in H. decompose [and] H. exists ms, i, r, g'.
  split_and!; try done; try congruence.
  unfold sizes. pose proof (pt_len_le (method_resp_auth m)).
  pose proof (pt_len_le (method_init_auth m)). repeat constructor; lia.
Qed.
End facts.

Module ToyCreds.
Definition run_creds (i : Z) : res edhoc03_creds * st (C := toy_crypto) unit :=
  edhoc03_gen_creds (C := toy_crypto) 0 (Some [0; 0; i]) (tt, i).
Definition creds_of (i : Z) : edhoc03_creds :=
  match run_creds i with (Ok k, _) => k | _ => zero_creds end.
Definition ue : edhoc03_creds := creds_of 1.
Definition srv : edhoc03_creds := creds_of 2.
End ToyCreds.

Lemma edhoc03_handshake_agrees_witness :
  exists ms i r g',
    handshake03 (C := toy_crypto)
      ((edhoc03_init_initiator 2 ToyCreds.ue (peer_of ToyCreds.srv),
        edhoc03_init_responder ToyCreds.srv (peer_of ToyCreds.ue)), 40) = (Ok ms, ((i, r), g')) /\
    map zlen ms = sizes 2 /\ Forall (fun n => n < 148) (sizes 2) /\
    msk i = msk r /\ zlen (msk i) = 64 /\ emsk i = emsk r /\ th4 i = th4 r /\
    peer_id_cred i = [0; 0; 2] /\ peer_id_cred r = [0; 0; 1] /\ method r = 2 /\
    done i = 1 /\ done r = 1.
Proof.
  apply (edhoc03_handshake_agrees (CL := toy_laws) 2 [0; 0; 1] [0; 0; 2] 1 2
    (snd (ToyCreds.run_creds 1)) (snd (ToyCreds.run_creds 2))).
  - lia.
  - reflexivity.
  - reflexivity.
  - vm_compute. reflexivity.
  - vm_compute. reflexivity.
Defined.
