(* ===== verification/Edhoc03Auth.v ===== *)
(** * Edhoc03Auth: safety and authentication of the classical methods

    As in Edhoc4Safety and Edhoc4Auth, with one difference that matters: here
    the public key in a message is compared with the provisioned one before it is
    used, so an accepted message authenticates the pinned peer. *)
From stdpp Require Import base gmap numbers list option strings.
From Stdlib Require Import ZArith Lia.
From S2P Require Import Prelude Crypto Hkdf Files Edhoc03 Edhoc03Facts.
Local Open Scope c_scope.

Inductive call3 :=
  | MakeMsg1
  | HandleMsg1 (inp : bytes)
  | HandleMsg2 (inp : bytes)
  | HandleMsg3 (inp : bytes)
  | HandleMsg4 (inp : bytes).

Definition exec3 `{C : Crypto} (k : call3) (cap : Z) : M (st edhoc03_ctx) bytes :=
  match k with
  | MakeMsg1 => edhoc03_i_make_msg1 cap
  | HandleMsg1 inp => edhoc03_r_handle_msg1 inp cap
  | HandleMsg2 inp => edhoc03_i_handle_msg2 inp cap
  | HandleMsg3 inp => edhoc03_r_handle_msg3 inp cap
  | HandleMsg4 inp => edhoc03_i_handle_msg4 inp ;;; ret []
  end.

Definition call_role (k : call3) : Z :=
  match k with MakeMsg1 | HandleMsg2 _ | HandleMsg4 _ => 1 | _ => 0 end.

(** The inputs a handler opens into a local array that is too small. *)
Definition overlong (k : call3) : Prop :=
  match k with
  | HandleMsg2 inp => E3_X_PK + E3_PT + 16 + E3_AEAD_TAG < zlen inp
  | HandleMsg3 inp => E3_PT + 16 + E3_AEAD_TAG < zlen inp
  | _ => False
  end.

(** Run a handler; [tac] closes the error branches. *)
Ltac auto_step tac :=
  match goal with
  | |- ht (bind _ _) _ _ _ _ => apply ht_bind
  | |- ht (ctx_get _) _ _ _ _ => apply ht_ctx_get
  | |- ht (ctx_set e3_derive_msk) _ _ _ _ => fail 1
  | |- ht (ctx_set _) _ _ _ _ => apply ht_ctx_set
  | |- ht (or_return _ _) _ _ _ _ => apply ht_or_return
  | |- ht (ret _) _ _ _ _ => apply ht_ret
  | |- ht (return_if _ _) _ _ _ _ => apply ht_return_if; [intros _; tac|intros ?]
  | |- ht (draw _) _ _ _ _ => apply ht_draw; intros ? ? _
  | |- ht (of_option _ _) _ _ _ _ => apply ht_of_option; [intros _; tac|intros ? ?]
  end; fields3; cbn beta iota.
Ltac auto_ht tac := repeat auto_step tac.

Ltac bools :=
  repeat match goal with
  | H : negb _ = false |- _ => apply negb_false_iff in H
  | H : bool_decide _ = true |- _ => apply bool_decide_eq_true in H
  | H : (_ =? _) = true |- _ => apply Z.eqb_eq in H
  end.

Section auth.
Context `{C : Crypto}.

(** What was checked of a plaintext [pt] from the pinned peer [p] authenticating
    with mode [a]. *)
Definition peer_verified (p : edhoc03_peer) (a : Z) (esk prk th prk' pt : bytes) : Prop :=
  let idc := ztake E3_ID_CRED pt in
  if a =? E3_AUTH_STAT then
    zlen pt = E3_ID_CRED + E3_X_PK + E3_MAC_LEN /\ sub pt E3_ID_CRED E3_X_PK = peer_dh p /\
    (exists g, crypto_scalarmult esk (peer_dh p) = Some g /\ prk' = e3_hkdf_extract prk g) /\
    sub pt (E3_ID_CRED + E3_X_PK) E3_MAC_LEN = e3_compute_mac prk' th idc (peer_dh p)
  else
    zlen pt = E3_ID_CRED + E3_ED_PK + E3_ED_SIG /\ sub pt E3_ID_CRED E3_ED_PK = peer_vk p /\
    prk' = prk /\
    ed25519_verify (sub pt (E3_ID_CRED + E3_ED_PK) E3_ED_SIG)
      (e3_sig_message th idc (e3_compute_mac prk' th idc (peer_vk p))) (peer_vk p) = true.

Definition msg2_verified (c : edhoc03_ctx) (inp : bytes) (c' : edhoc03_ctx) : Prop :=
  exists ss pt2,
    crypto_scalarmult (eph_sk c) (ztake E3_X_PK inp) = Some ss /\
    th2 c' = e3_sha256_cat [ztake E3_X_PK inp; h_msg1 c; c_r c] /\
    prk2e c' = e3_hkdf_extract (th2 c') ss /\
    aead_opens (prk2e c') (th2 c') (zdrop E3_X_PK inp) pt2 /\
    peer_verified (peer c) (peer_auth c) (eph_sk c) (prk2e c') (th2 c') (prk3e2m c') pt2 /\
    peer_id_cred c' = ztake E3_ID_CRED pt2 /\
    th3 c' = e3_sha256_cat [th2 c'; pt2] /\ exported c' (prk4e3m c') (th4 c') /\ done c' = 1.

Definition msg3_verified (c : edhoc03_ctx) (inp : bytes) (c' : edhoc03_ctx) : Prop :=
  exists pt3,
    aead_opens (prk3e2m c) (th3 c) inp pt3 /\
    peer_verified (peer c) (peer_auth c) (eph_sk c) (prk3e2m c) (th3 c) (prk4e3m c') pt3 /\
    peer_id_cred c' = ztake E3_ID_CRED pt3 /\
    th4 c' = e3_sha256_cat [th3 c; pt3] /\ exported c' (prk4e3m c') (th4 c') /\ done c' = 1.

Lemma ht_e3_open {X} prk th ct cap (Q : bytes -> st X -> Prop) E (F : st X -> Prop) s :
  (forall pt, aead_opens prk th ct pt -> Q pt s) -> E E3_ERR_AEAD s ->
  (cap + E3_AEAD_TAG < zlen ct -> F s) ->
  ht (e3_aead_open prk th ct cap) Q E F s.
Proof.
  intros HQ HE HF. unfold e3_aead_open. unfold aead_opens in HQ.
  destruct (e3_derive_k prk th) as [key nonce].
  apply ht_bind, ht_crash_if.
  - intros [_ H]%andb_true_iff. apply HF. lia.
  - intros _. apply ht_of_option; [done|]. exact HQ.
Qed.

Lemma e3_ht_derive_msk (Q : unit -> st edhoc03_ctx -> Prop) E F c r :
  (forall po m e,
     (forall c', msk c' = m -> emsk c' = e -> exported c' (prk4e3m c) (th4 c)) ->
     Q tt (set_done 1 (set_emsk e (set_msk m (set_prk_out po c))), r)) ->
  ht (ctx_set e3_derive_msk) Q E F (c, r).
Proof. exact (e3_wp_derive_msk Q c r). Qed.

Lemma ht_e3_seal {X} prk th pt cap (Q : bytes -> st X -> Prop) E (F : st X -> Prop) s :
  (forall ct, Q ct s) -> F s -> ht (e3_aead_seal prk th pt cap) Q E F s.
Proof.
  intros HQ HF. unfold e3_aead_seal. destruct (e3_derive_k prk th) as [key nonce].
  apply ht_bind, ht_crash_if; [done|]. intros _. by apply ht_ret.
Qed.

(** What a call of the responder that fails leaves alone. *)
Definition same_keys (c c' : edhoc03_ctx) : Prop :=
  msk c' = msk c /\ emsk c' = emsk c /\ done c' = done c /\ role c' = role c /\
  peer c' = peer c.

Lemma e3_handle_msg3_ht inp cap c r :
  ht (edhoc03_r_handle_msg3 inp cap)
     (fun out s' => out = [] /\ msg3_verified c inp (fst s') /\ role (fst s') = role c /\
                    peer (fst s') = peer c)
     (fun _ s' => same_keys c (fst s'))
     (fun s' => s' = (c, r) /\ overlong (HandleMsg3 inp)) (c, r).
Proof.
  unfold edhoc03_r_handle_msg3. cbv zeta.
  auto_ht ltac:(done).
  apply ht_e3_open; [intros pt3 Hpt3|done|intros Hl; split; [done|cbn [overlong]; lia]]. cbn beta iota.
  auto_step ltac:(done).
  eapply (ht_ok _ (fun _ s' => exists c1, s' = (c1, r) /\
      peer_verified (peer c) (peer_auth c) (eph_sk c) (prk3e2m c) (th3 c) (prk4e3m c1) pt3 /\
      peer_id_cred c1 = ztake E3_ID_CRED pt3 /\ th3 c1 = th3 c /\ role c1 = role c /\
      peer c1 = peer c)).
  { unfold peer_verified. destruct (Z.eqb_spec (peer_auth c) E3_AUTH_STAT).
    - auto_ht ltac:(done). bools. eexists. split; [reflexivity|]. fields3.
      repeat match goal with E : sub _ _ _ = _ |- _ => rewrite E in * end.
      split_and!; eauto.
    - auto_ht ltac:(done). bools. eexists. split; [reflexivity|]. fields3.
      repeat match goal with E : sub _ _ _ = _ |- _ => rewrite E in * end.
      split_and!; done. }
  intros _ s' (c1 & -> & Hv & Hid & Ht3 & Hr & Hp). auto_ht ltac:(done).
  apply e3_ht_derive_msk. intros po m e Hexp. auto_ht ltac:(done).
  split_and!; [done| |done..]. exists pt3. fields3. rewrite Ht3 in *.
  split_and!; try done. by apply Hexp.
Qed.

Lemma e3_handle_msg2_ht inp cap c r :
  ht (edhoc03_i_handle_msg2 inp cap)
     (fun _ s' => msg2_verified c inp (fst s')) (fun _ _ => True)
     (fun _ => True) (c, r).
Proof.
  unfold edhoc03_i_handle_msg2. cbv zeta. auto_ht ltac:(done).
  apply ht_e3_open; [intros pt2 Hpt2|done|done]. cbn beta iota. auto_step ltac:(done).
  eapply (ht_ok _ (fun _ s' => exists c1, s' = (c1, r) /\ self c1 = self c /\
      self_auth c1 = self_auth c /\ th2 c1 = _ /\ prk2e c1 = _ /\
      peer_verified (peer c) (peer_auth c) (eph_sk c) _ _ (prk3e2m c1) pt2 /\
      peer_id_cred c1 = ztake E3_ID_CRED pt2 /\ role c1 = role c)).
  { unfold peer_verified. destruct (Z.eqb_spec (peer_auth c) E3_AUTH_STAT).
    - auto_ht ltac:(done). bools. eexists. split; [reflexivity|]. fields3.
      repeat match goal with E : sub _ _ _ = _ |- _ => rewrite E in * end.
      split_and!; eauto.
    - auto_ht ltac:(done). bools. eexists. split; [reflexivity|]. fields3.
      repeat match goal with E : sub _ _ _ = _ |- _ => rewrite E in * end.
      split_and!; done. }
  intros _ s' (c1 & -> & Hself & Hsa & Et2 & Ep2 & Hv & Hid & Hr). auto_ht ltac:(done).
  eapply (ht_ok _ (fun _ s' => exists p, s' = (set_prk4e3m p (set_th3 _ c1), r))).
  { destruct (self_auth c1 =? E3_AUTH_STAT).
    - auto_ht ltac:(done). by eexists.
    - auto_ht ltac:(done). by eexists. }
  intros pt3 s' (p4 & ->). rewrite Et2. auto_ht ltac:(done).
  apply ht_e3_seal; [intros ct3|done]. auto_ht ltac:(done).
  apply e3_ht_derive_msk. intros po m e Hexp. auto_ht ltac:(done).
  exists a, pt2. fields3. rewrite Et2, Ep2. split_and!; try done. by apply Hexp.
Qed.

(** Whenever the initiator accepts a message 2, the message decrypted under
    the key of its Diffie-Hellman share, the public key in it is the provisioned
    one of the responder, and the proof of possession for the responder's mode
    verified under that key: the static Diffie-Hellman MAC, or the signature over
    the transcript; the exported keys belong to this transcript. *)
Theorem edhoc03_initiator_accepts_verified inp cap c g m3 c' g' :
  edhoc03_i_handle_msg2 inp cap (c, g) = (Ok m3, (c', g')) -> msg2_verified c inp c'.
Proof. intros H. apply (ht_run _ _ _ _ _ (e3_handle_msg2_ht inp cap c g) _ _ H). Qed.

(** ** Sequences of calls on a responder *)
Inductive reach3 (c0 : edhoc03_ctx) : edhoc03_ctx -> Prop :=
  | reach3_init : reach3 c0 c0
  | reach3_call c k cap g :
      reach3 c0 c -> reach3 c0 (fst (snd (exec3 k cap (c, g)))).

Definition done_by (c0 c : edhoc03_ctx) : Prop :=
  exists c1 c2 inp, reach3 c0 c1 /\ peer c1 = peer c0 /\ msg3_verified c1 inp c2 /\
    msk c = msk c2 /\ emsk c = emsk c2.

Lemma e3_handle_msg1_keys inp cap c r :
  ht (edhoc03_r_handle_msg1 inp cap)
     (fun _ s' => same_keys c (fst s')) (fun _ s' => same_keys c (fst s'))
     (fun s' => same_keys c (fst s')) (c, r).
Proof.
  unfold edhoc03_r_handle_msg1. cbv zeta. auto_ht ltac:(by split_and!).
  eapply (ht_ok _ (fun _ s' => exists p, s' = (set_prk3e2m p _, _))).
  { destruct (_ =? E3_AUTH_STAT).
    - auto_ht ltac:(by split_and!). by eexists.
    - auto_ht ltac:(by split_and!). by eexists. }
  intros pt2 s' (p3 & ->). auto_ht ltac:(by split_and!).
  apply ht_e3_seal; [intros ct2|by split_and!]. by auto_ht ltac:(by split_and!).
Qed.

Lemma exec3_wrong_role k cap c g :
  role c <> call_role k -> exec3 k cap (c, g) = (Err E3_ERR_STATE, (c, g)).
Proof.
  intros H. apply Z.eqb_neq in H.
  destruct k; cbn [call_role] in H; unfold exec3, edhoc03_i_make_msg1, edhoc03_r_handle_msg1,
    edhoc03_i_handle_msg2, edhoc03_r_handle_msg3, edhoc03_i_handle_msg4, bind, ctx_get, gets;
    cbn [fst id]; by rewrite H.
Qed.

Definition responder_inv (c0 c : edhoc03_ctx) : Prop :=
  role c = 0 /\ peer c = peer c0 /\ (done c <> 0 -> done_by c0 c).

Lemma e3_responder_inv_step c0 c k cap g :
  reach3 c0 c -> responder_inv c0 c ->
  responder_inv c0 (fst (snd (exec3 k cap (c, g)))).
Proof.
  intros Hc (Hrole & Hpeer & IH).
  assert (Hsame : forall c1, same_keys c c1 -> responder_inv c0 c1).
  { intros c1 (E1 & E2 & E3 & E4 & E5). split_and!; [congruence..|]. intros Hd.
    destruct IH as (a & b & inp & ?); [congruence|]. exists a, b, inp. by rewrite E1, E2. }
  destruct (decide (role c = call_role k)) as [E|E].
  2: { rewrite exec3_wrong_role by done. by apply Hsame. }
  rewrite Hrole in E. destruct k; try done; cbn [exec3].
  - apply (ht_post _ _ _ _ (fun s' => responder_inv c0 (fst s')) _ (fun _ s' => Hsame (fst s'))
      (fun s' => Hsame (fst s')) (fun _ s' => Hsame (fst s')) (e3_handle_msg1_keys inp cap c g)).
  - eapply (ht_post _ _ _ _ (fun s' => responder_inv c0 (fst s')) (c, g));
      [..|apply (e3_handle_msg3_ht inp cap c g)]; cbn.
    + intros rc s'. apply Hsame.
    + intros s' [-> _]. by apply Hsame.
    + intros a s' (_ & H1 & H2 & H3). split_and!; [congruence..|]. intros _.
      by exists c, (fst s'), inp.
Qed.

(** C9: whatever sequence of calls with whatever inputs a fresh responder is
    driven through, and however they ended, it only reports [done] when some
    message 3 decrypted, carried the public key provisioned for the initiator, and
    passed the check of the initiator's mode under that key; the MSK and EMSK it
    holds are those exported from that message's transcript. *)
Theorem edhoc03_responder_done_verified me p c :
  reach3 (edhoc03_init_responder me p) c -> done c <> 0 ->
  done_by (edhoc03_init_responder me p) c.
Proof.
  intros Hc. enough (H : responder_inv (edhoc03_init_responder me p) c) by apply H.
  induction Hc as [|c k cap g Hc IH]; [done|]. by apply e3_responder_inv_step.
Qed.
End auth.

(** ** Bounds and error codes *)
Section safety.
Context `{CL : CryptoLaws}.

Definition kept (c c' : edhoc03_ctx) : Prop :=
  self c' = self c /\ peer c' = peer c /\ role c' = role c.

Definition safe3 (k : call3) (cap : Z) (c : edhoc03_ctx) (r : rng) : Prop :=
  ht (exec3 k cap)
     (fun out s' => kept c (fst s') /\ zlen out <= Z.max 0 cap)
     (fun rc s' => kept c (fst s') /\ E3_ERR_STATE <= rc <= E3_ERR_ARG)
     (fun s' => kept c (fst s') /\ overlong k) (c, r).

Lemma ht_e3_seal_len {X} prk th pt cap (Q : bytes -> st X -> Prop) E (F : st X -> Prop) s :
  zlen pt + E3_AEAD_TAG <= cap ->
  (forall ct, Q ct s) -> ht (e3_aead_seal prk th pt cap) Q E F s.
Proof.
  intros Hcap HQ. unfold e3_aead_seal. destruct (e3_derive_k prk th) as [key nonce].
  apply ht_bind, ht_crash_if; [lia|]. intros _. by apply ht_ret.
Qed.

(** The sizes of the credentials a sender puts in a plaintext. *)
Definition wf_self (k : edhoc03_creds) : Prop :=
  zlen (id_cred k) = E3_ID_CRED /\ zlen (sig_vk k) = E3_ED_PK /\ zlen (dh_pk k) = E3_X_PK.

Lemma sign_len m sk sg : ed25519_sign m sk = Some sg -> zlen sg = 64.
Proof. intros H. destruct (ed25519_sign_ok m sk) as (sg' & E & Hl). rewrite H in E. by simplify_eq. Qed.

Ltac err3 := split; [by split_and!|vm_compute; split; discriminate].
Ltac sent := repeat match goal with H : ed25519_sign _ _ = Some _ |- _ => apply sign_len in H end;
  split; [eexists; reflexivity|].

Lemma zlen_mac prk th i k : zlen (e3_compute_mac prk th i k) = 8.
Proof. apply zlen_e3_compute_mac. Qed.

Lemma e3_make_msg1_safe cap c r : safe3 MakeMsg1 cap c r.
Proof.
  unfold safe3, exec3, edhoc03_i_make_msg1. auto_ht ltac:(err3).
  split; [by split_and!|].
  zl3.
Qed.

Lemma e3_handle_msg1_safe inp cap c r : wf_self (self c) -> safe3 (HandleMsg1 inp) cap c r.
Proof.
  intros (Hid & Hvk & Hdh). unfold safe3, exec3, edhoc03_r_handle_msg1. cbv zeta.
  auto_ht ltac:(err3).
  eapply (ht_ok _ (fun pt2 s' => (exists p, s' = (set_prk3e2m p _, _)) /\ zlen pt2 <= E3_PT)).
  { destruct (_ =? E3_AUTH_STAT); auto_ht ltac:(err3); sent; rewrite ?zlen_app, ?zlen_mac; zl3. }
  intros pt2 s' [[p3 ->] Hlen]. auto_ht ltac:(err3).
  apply ht_e3_seal_len; [zl3|]. intros ct2. auto_ht ltac:(err3).
  split; [by split_and!|zl3].
Qed.

Lemma e3_handle_msg2_safe inp cap c r : wf_self (self c) -> safe3 (HandleMsg2 inp) cap c r.
Proof.
  intros (Hid & Hvk & Hdh). unfold safe3, exec3, edhoc03_i_handle_msg2. cbv zeta.
  auto_ht ltac:(err3).
  apply ht_e3_open; [intros pt2 Hpt2|err3|intros Hl; split; [by split_and!|cbn [overlong]; zl3]].
  cbn beta iota. auto_step ltac:(err3).
  eapply (ht_ok _ (fun _ s' => exists c1, s' = (c1, r) /\ kept c c1)).
  { destruct (_ =? E3_AUTH_STAT); auto_ht ltac:(err3); (eexists; split; [reflexivity|by split_and!]). }
  intros _ s' (c1 & -> & Hself & Hpeer & Hrole). auto_ht ltac:(err3). rewrite Hself.
  eapply (ht_ok _ (fun pt3 s' => (exists p, s' = (set_prk4e3m p _, _)) /\ zlen pt3 <= E3_PT)).
  { destruct (_ =? E3_AUTH_STAT); auto_ht ltac:(err3); sent; rewrite ?zlen_app, ?zlen_mac; zl3. }
  intros pt3 s' [[p4 ->] Hlen]. auto_ht ltac:(err3).
  apply ht_e3_seal_len; [zl3|]. intros ct3. auto_ht ltac:(err3).
  apply ht_ctx_set. auto_ht ltac:(err3). split; [by split_and!|lia].
Qed.

Lemma e3_handle_msg3_safe inp cap c r : safe3 (HandleMsg3 inp) cap c r.
Proof.
  unfold safe3, exec3, edhoc03_r_handle_msg3. cbv zeta. auto_ht ltac:(err3).
  apply ht_e3_open; [intros pt3 Hpt3|err3|intros Hl; split; [by split_and!|cbn [overlong]; zl3]].
  cbn beta iota. auto_step ltac:(err3).
  eapply (ht_ok _ (fun _ s' => exists c1, s' = (c1, r) /\ kept c c1)).
  { destruct (_ =? E3_AUTH_STAT); auto_ht ltac:(err3); (eexists; split; [reflexivity|by split_and!]). }
  intros _ s' (c1 & -> & Hself & Hpeer & Hrole). auto_ht ltac:(err3).
  apply ht_ctx_set. auto_ht ltac:(err3). split; [by split_and!|rewrite zlen_nil; lia].
Qed.

Lemma exec3_safe_ht k cap c g : wf_self (self c) -> safe3 k cap c g.
Proof.
  intros Hc. destruct k; [apply e3_make_msg1_safe|by apply e3_handle_msg1_safe
    |by apply e3_handle_msg2_safe|apply e3_handle_msg3_safe|].
  unfold safe3, exec3, edhoc03_i_handle_msg4. auto_ht ltac:(err3).
  split; [by split_and!|rewrite zlen_nil; lia].
Qed.

(** For every call with any input, the peer's pinned keys, the credentials
    and the role are left alone on every outcome; a reply fits the output buffer;
    an error code is one of edhoc03.h; and the call can only write past a local
    array when it is given a message 2 longer than 163 bytes or a message 3 longer
    than 131, lengths no honest peer sends and no handler refuses. *)
Theorem exec3_safe k cap c g :
  wf_self (self c) ->
  match exec3 k cap (c, g) with
  | (Ok out, (c', _)) => kept c c' /\ zlen out <= Z.max 0 cap
  | (Err rc, (c', _)) => kept c c' /\ E3_ERR_STATE <= rc <= E3_ERR_ARG
  | (Fault, (c', _)) => kept c c' /\
      match k with
      | HandleMsg2 inp => 163 < zlen inp
      | HandleMsg3 inp => 131 < zlen inp
      | _ => False
      end
  end.
Proof.
  intros Hc. pose proof (exec3_safe_ht k cap c g Hc) as H.
  unfold safe3, ht, post in H. destruct (exec3 k cap (c, g)) as [[out|rc|] [c' g']]; [done..|].
  destruct H as [Hk Ho]. split; [exact Hk|]. destruct k; cbn [overlong] in Ho; zl3.
Qed.
End safety.

(** ** Credential files *)
Record wf_creds (k : edhoc03_creds) : Prop := {
  wf_id_cred : zlen (id_cred k) = E3_ID_CRED;
  wf_sig_sk : zlen (sig_sk k) = E3_ED_SK;
  wf_sig_vk : zlen (sig_vk k) = E3_ED_PK;
  wf_dh_sk : zlen (dh_sk k) = E3_X_SK;
  wf_dh_pk : zlen (dh_pk k) = E3_X_PK
}.

Lemma creds_bytes_wf k :
  wf_creds k -> creds_of_bytes (creds_bytes k) = k /\ zlen (creds_bytes k) = creds_size.
Proof.
  intros []. unfold creds_of_bytes, creds_bytes. split; [|unfold creds_size; zl3].
  destruct k; cbn in *. f_equal; by slices3.
Qed.

Lemma e3_creds_load_wf path old fs k :
  wf_creds old -> edhoc03_creds_load (Some path) (Some old) fs = (E3_OK, k) ->
  exists k', k = Some k' /\ wf_creds k'.
Proof.
  intros Hold. destruct (creds_bytes_wf old Hold) as [_ Lo].
  unfold edhoc03_creds_load. destruct (fread_file fs path creds_size) as [data|]; [|done].
  destruct (Z.eqb_spec (zlen data) creds_size) as [E|]; [|done]. intros [= <-].
  eexists. split; [done|]. rewrite splice_all by lia. unfold creds_size in E.
  split; cbn; zl3.
Qed.

Lemma e3_zero_creds_wf : wf_creds zero_creds.
Proof. split; reflexivity. Qed.

(** Credentials and pinned peer keys of the classical methods written without
    an error load back unchanged; a missing and a short file give the two error
    codes. *)
Theorem creds03_files_roundtrip path k old oldp fs fs' :
  wf_creds k -> wf_creds old -> zlen (peer_bytes oldp) = peer_size ->
  (edhoc03_creds_save (Some path) (Some k) fs = (E3_OK, fs') ->
   edhoc03_creds_load (Some path) (Some old) fs' = (E3_OK, Some k)) /\
  (edhoc03_pub_save (Some path) (Some k) fs = (E3_OK, fs') ->
   edhoc03_pub_load (Some path) (Some oldp) fs' = (E3_OK, Some (peer_of k))) /\
  (fs_files fs !! path = None ->
   edhoc03_creds_load (Some path) (Some old) fs = (E3_ERR_ARG, Some old)) /\
  (forall data, fs_files fs !! path = Some data -> zlen data < creds_size ->
   fst (edhoc03_creds_load (Some path) (Some old) fs) = E3_ERR_PARSE).
Proof.
  intros Hk Hold Hp.
  destruct (creds_bytes_wf k Hk) as [Ek Lk]. destruct (creds_bytes_wf old Hold) as [_ Lo].
  destruct Hk as [_ _ Hvk _ Hdh].
  unfold edhoc03_creds_save, edhoc03_creds_load, edhoc03_pub_save, edhoc03_pub_load.
  split_and!.
  - destruct (fwrite_file fs path (creds_bytes k)) as [[n fs1]|] eqn:Ew; [|done].
    destruct (Z.eqb_spec n creds_size) as [->|]; intros [= <-].
    rewrite <-Lk in Ew. rewrite (fread_fwrite _ _ _ _ _ Ew), ztake_all, Lk, Z.eqb_refl by lia.
    by rewrite splice_all, Ek by lia.
  - rewrite !ztake_all by lia. fold (peer_of k).
    assert (zlen (peer_bytes (peer_of k)) = peer_size) as Lp
      by (unfold peer_bytes, peer_of, peer_size; cbn; zl3).
    destruct (fwrite_file fs path (peer_bytes (peer_of k))) as [[n fs1]|] eqn:Ew; [|done].
    destruct (Z.eqb_spec n peer_size) as [->|]; intros [= <-].
    rewrite <-Lp in Ew. rewrite (fread_fwrite _ _ _ _ _ Ew), ztake_all, Lp, Z.eqb_refl by lia.
    rewrite splice_all by lia. unfold peer_of_bytes, peer_bytes, peer_of. cbn.
    do 3 f_equal; by slices3.
  - unfold fread_file. by intros ->.
  - unfold fread_file. intros data -> Hlen. cbn. rewrite ztake_all by lia.
    by destruct (Z.eqb_spec (zlen data) creds_size); [lia|].
Qed.

(** ** Concrete contexts *)
Module ToyPeers.
#[local] Existing Instance toy_crypto.
Definition value {A} (d : A) (p : res A * st edhoc03_ctx) : A :=
  match p with (Ok a, _) => a | _ => d end.
Definition context (p : res bytes * st edhoc03_ctx) : edhoc03_ctx := fst (snd p).
Definition I0 := edhoc03_init_initiator 1 ToyCreds.ue (peer_of ToyCreds.srv).
Definition R0 := edhoc03_init_responder ToyCreds.srv (peer_of ToyCreds.ue).
Definition run1 := exec3 MakeMsg1 512 (I0, 7).
Definition m1 : bytes := value [] run1.
Definition I1 := context run1.
Definition run2 := exec3 (HandleMsg1 m1) 512 (R0, 11).
Definition m2 : bytes := value [] run2.
Definition R1 := context run2.
Definition run3 := exec3 (HandleMsg2 m2) 512 (I1, 17).
Definition m3 : bytes := value [] run3.
Definition I2 := context run3.
Definition run4 := exec3 (HandleMsg3 m3) 512 (R1, 23).
Definition R2 := context run4.
End ToyPeers.

Lemma edhoc03_initiator_accepts_verified_witness :
  zlen ToyPeers.m3 = 115 /\ msg2_verified (C := toy_crypto) ToyPeers.I1 ToyPeers.m2 ToyPeers.I2.
Proof.
  split; [vm_compute; reflexivity|].
  apply (edhoc03_initiator_accepts_verified (C := toy_crypto) ToyPeers.m2 512 ToyPeers.I1 17
           ToyPeers.m3 ToyPeers.I2 (snd (snd ToyPeers.run3))).
  vm_compute. reflexivity.
Defined.

Lemma edhoc03_responder_done_verified_witness :
  done_by (C := toy_crypto) ToyPeers.R0 ToyPeers.R2.
Proof.
  apply (edhoc03_responder_done_verified (C := toy_crypto) ToyCreds.srv (peer_of ToyCreds.ue)).
  - apply (reach3_call (C := toy_crypto) _ ToyPeers.R1 (HandleMsg3 ToyPeers.m3) 512 23).
    apply (reach3_call (C := toy_crypto) _ ToyPeers.R0 (HandleMsg1 ToyPeers.m1) 512 11).
    apply reach3_init.
  - vm_compute. discriminate.
Defined.

Lemma exec3_safe_witness :
  match exec3 (C := toy_crypto) (HandleMsg2 (ToyPeers.m2 ++ zreplicate 60 7)) 512 (ToyPeers.I1, 3) with
  | (Ok out, (c', _)) => kept ToyPeers.I1 c' /\ zlen out <= Z.max 0 512
  | (Err rc, (c', _)) => kept ToyPeers.I1 c' /\ E3_ERR_STATE <= rc <= E3_ERR_ARG
  | (Fault, (c', _)) => kept ToyPeers.I1 c' /\ 163 < zlen (ToyPeers.m2 ++ zreplicate 60 7)
  end.
Proof.
  apply (exec3_safe (CL := toy_laws) (HandleMsg2 (ToyPeers.m2 ++ zreplicate 60 7)) 512 ToyPeers.I1 3).
  vm_compute. split_and!; reflexivity.
Defined.

Definition toy_fs : filesystem :=
  {| fs_files := empty; fs_writable := fun _ => true; fs_room := 1000 |}.

Lemma creds03_files_roundtrip_witness :
  let fs' := snd (edhoc03_creds_save (Some "ue03.creds") (Some ToyCreds.ue) toy_fs) in
  edhoc03_creds_load (Some "ue03.creds") (Some zero_creds) fs' = (E3_OK, Some ToyCreds.ue).
Proof.
  intros fs'.
  apply (proj1 (creds03_files_roundtrip "ue03.creds" ToyCreds.ue zero_creds zero_peer toy_fs fs'
           ltac:(split; vm_compute; reflexivity) e3_zero_creds_wf ltac:(reflexivity))).
  vm_compute. reflexivity.
Defined.
