(* ===== verification/Frag.v ===== *)
(** * Frag: the fragmentation protocol between the EAP-EDHOC peers

    EDHOC messages longer than one EAP payload are cut into wires of at most
    1000 bytes, each with a flag byte: 0x80 announces the total length in the
    next two bytes, 0x40 says that more fragments follow.  The responder
    (rlm_eap_edhoc.c) and the initiator (e2e_radius_bench.c) implement both ends
    separately; this file holds what both are proved to do: [send_wire], the next
    wire of a message, and [reassemble], the receiver's step. *)
From stdpp Require Import base numbers list option.
From Stdlib Require Import ZArith Lia.
From S2P Require Import Prelude.

(** Constants of edhoc4.h. *)
Definition E4_EDHOC_FRAG_WIRE_MAX : Z := 1000.
Definition E4_EDHOC_FRAG_FLAG_LEN : Z := 0x80.
Definition E4_EDHOC_FRAG_FLAG_MORE : Z := 0x40.
Definition E4_EDHOC_FRAG_HDR_LEN : Z := 1.
Definition E4_EDHOC_FRAG_LEN_LEN : Z := 2.

(** The size of the reassembly buffer, [E4_MAX_MSG]. *)
Definition frag_max : Z := 8192.
(** The payload of a first and of a later fragment. *)
Definition first_cap : Z := 997.
Definition next_cap : Z := 999.

(** ** The sender *)
Definition frag_len (msg : bytes) (pos : Z) : Z :=
  Z.min (zlen msg - pos) (if pos =? 0 then first_cap else next_cap).

Definition send_wire (msg : bytes) (pos : Z) : bytes :=
  let n := frag_len msg pos in
  let more := n <? zlen msg - pos in
  let announce := (pos =? 0) && more in
  [Z.lor (if more then 0x40 else 0) (if announce then 0x80 else 0)] ++
  (if announce then be16 (zlen msg) else []) ++ sub msg pos n.

(** ** The receiver *)
Record rbuf := { r_len : Z; r_pos : Z; r_data : bytes }.

Inductive consumed :=
  | NeedAck
  | Message (m : bytes).

#[export] Instance consumed_eq_dec : EqDecision consumed.
Proof. solve_decision. Defined.

Section reassemble.
Local Open Scope c_scope.
(** The codes the receivers return for a malformed wire and an impossible length. *)
Variables (e_parse e_buf : Z).

Definition reassemble (wire : bytes) : M rbuf consumed :=
  return_if (zlen wire =? 0) e_parse ;;;
  let flags := byte_at wire 0 in
  let! pos :=
    if negb (Z.land flags 0x80 =? 0) then
      return_if (zlen wire <? 3) e_parse ;;;
      let total := rd16 (byte_at wire 1) (byte_at wire 2) in
      return_if ((total =? 0) || (frag_max <? total)) e_buf ;;;
      let! b := gets id in
      if r_len b =? 0 then
        modify (fun b => {| r_len := total; r_pos := 0; r_data := r_data b |}) ;;; ret 3
      else return_if (negb (r_len b =? total)) e_parse ;;; ret 3
    else ret 1 in
  let! b := gets id in
  if negb (r_len b =? 0) then
    let payload := zdrop pos wire in
    return_if (r_len b <? r_pos b + zlen payload) e_buf ;;;
    crash_if (zlen (r_data b) <? r_pos b + zlen payload) ;;;
    modify (fun b => {| r_len := r_len b; r_pos := r_pos b + zlen payload;
                        r_data := splice (r_data b) (r_pos b) payload |}) ;;;
    if negb (Z.land flags 0x40 =? 0) then ret NeedAck
    else
      let! b := gets id in
      return_if (negb (r_pos b =? r_len b)) e_parse ;;;
      let m := ztake (r_len b) (r_data b) in
      modify (fun b => {| r_len := 0; r_pos := 0; r_data := r_data b |}) ;;;
      ret (Message m)
  else
    return_if (negb (Z.land flags 0x40 =? 0)) e_parse ;;;
    ret (Message (zdrop pos wire)).

(** ** The receiver follows the sender *)

(** A receiver that holds the first [pos] bytes of [msg]. *)
Definition received (msg : bytes) (pos : Z) (b : rbuf) : Prop :=
  zlen (r_data b) = frag_max /\
  if pos =? 0 then r_len b = 0
  else r_len b = zlen msg /\ r_pos b = pos /\ ztake pos (r_data b) = ztake pos msg.

Lemma flags_of_wire (more announce : bool) :
  let f := Z.lor (if more then 0x40 else 0) (if announce then 0x80 else 0) in
  (Z.land f 0x80 =? 0) = negb announce /\ (Z.land f 0x40 =? 0) = negb more.
Proof. by destruct more, announce. Qed.

Lemma frag_len_pos msg pos :
  0 <= pos < zlen msg -> 0 < frag_len msg pos <= zlen msg - pos.
Proof. unfold frag_len, first_cap, next_cap. destruct (pos =? 0); lia. Qed.

Lemma zlen_send_wire msg pos :
  0 <= pos <= zlen msg -> zlen (send_wire msg pos) <= E4_EDHOC_FRAG_WIRE_MAX.
Proof.
  intros H. unfold send_wire, E4_EDHOC_FRAG_WIRE_MAX, frag_len, first_cap, next_cap.
  destruct (Z.eqb_spec pos 0); cbn [andb]; [destruct (_ <? _)|]; zl.
Qed.

Lemma splice_extends (buf msg : bytes) pos n :
  0 <= pos -> 0 <= n -> pos + n <= zlen msg -> pos + n <= zlen buf ->
  ztake pos buf = ztake pos msg ->
  ztake (pos + n) (splice buf pos (sub msg pos n)) = ztake (pos + n) msg.
Proof.
  intros Hp Hn Hm Hb E. unfold splice. rewrite E, app_assoc.
  rewrite ztake_app_exact.
  - unfold sub. by rewrite <-ztake_add by lia.
  - rewrite zlen_app, zlen_ztake, zlen_sub. lia.
Qed.

(** The two shapes of a wire: announcing the length, or not. *)
Lemma send_wire_plain msg pos :
  (pos =? 0) && (frag_len msg pos <? zlen msg - pos) = false ->
  send_wire msg pos = (if frag_len msg pos <? zlen msg - pos then 0x40 else 0)
                      :: sub msg pos (frag_len msg pos).
Proof. intros H. unfold send_wire. rewrite H. by destruct (_ <? _). Qed.

Lemma send_wire_first msg :
  (frag_len msg 0 <? zlen msg) = true ->
  send_wire msg 0 = 0xC0 :: be16 (zlen msg) ++ sub msg 0 (frag_len msg 0).
Proof. intros H. unfold send_wire. rewrite Z.sub_0_r, H. done. Qed.

(** The receiver appends a payload to a message in progress. *)
Lemma reassemble_append flags payload b :
  flags = 0 \/ flags = 0x40 -> r_len b <> 0 ->
  r_pos b + zlen payload <= r_len b -> r_len b <= zlen (r_data b) ->
  let data := splice (r_data b) (r_pos b) payload in
  let pos := r_pos b + zlen payload in
  (flags = 0 -> pos = r_len b) ->
  reassemble (flags :: payload) b =
    if flags =? 0 then
      (Ok (Message (ztake (r_len b) data)), {| r_len := 0; r_pos := 0; r_data := data |})
    else (Ok NeedAck, {| r_len := r_len b; r_pos := pos; r_data := data |}).
Proof.
  intros Hf Hlen Hpos Hbuf data pos Hlast.
  unfold reassemble, bind, return_if, crash_if, gets, modify, ret.
  assert ((zlen (flags :: payload) =? 0) = false) as -> by zl.
  assert (byte_at (flags :: payload) 0 = flags) as -> by done.
  assert ((Z.land flags 0x80 =? 0) = true) as -> by (by destruct Hf as [->| ->]).
  cbn [negb id r_len r_pos r_data].
  assert (zdrop 1 (flags :: payload) = payload) as -> by done.
  assert ((r_len b =? 0) = false) as -> by (by apply Z.eqb_neq).
  assert ((r_len b <? r_pos b + zlen payload) = false) as -> by lia.
  assert ((zlen (r_data b) <? r_pos b + zlen payload) = false) as -> by lia.
  cbn [negb]. destruct Hf as [->| ->].
  - change (Z.land 0 0x40 =? 0) with true. cbn [negb id r_len r_pos r_data].
    fold pos data. rewrite (Hlast eq_refl), Z.eqb_refl. done.
  - change (Z.land 0x40 0x40 =? 0) with false. done.
Qed.

(** A first fragment opens a message of [total] bytes. *)
Lemma reassemble_open total payload b :
  0 < total <= frag_max -> r_len b = 0 -> zlen (r_data b) = frag_max ->
  zlen payload <= total ->
  reassemble (0xC0 :: be16 total ++ payload) b =
    (Ok NeedAck, {| r_len := total; r_pos := zlen payload; r_data := splice (r_data b) 0 payload |}).
Proof.
  intros Ht Hlen Hbuf Hp.
  assert (frag_max = 8192) by done.
  unfold reassemble, bind, return_if, crash_if, gets, modify, ret.
  assert ((zlen (0xC0 :: be16 total ++ payload) =? 0) = false) as -> by zl.
  assert (byte_at (0xC0 :: be16 total ++ payload) 0 = 0xC0) as -> by done.
  assert (byte_at (0xC0 :: be16 total ++ payload) 1 = u8 (total / 256)) as -> by done.
  assert (byte_at (0xC0 :: be16 total ++ payload) 2 = u8 total) as -> by done.
  rewrite rd16_be16 by lia.
  assert ((zlen (0xC0 :: be16 total ++ payload) <? 3) = false) as -> by zl.
  assert ((Z.land 0xC0 0x80 =? 0) = false) as -> by done.
  assert ((Z.land 0xC0 0x40 =? 0) = false) as -> by done.
  assert (((total =? 0) || (frag_max <? total)) = false) as ->.
  { apply orb_false_iff. lia. }
  cbn [negb id]. rewrite Hlen. cbn [Z.eqb id r_len r_pos r_data].
  assert (zdrop 3 (0xC0 :: be16 total ++ payload) = payload) as -> by done.
  assert ((total =? 0) = false) as -> by lia. cbn [negb].
  assert ((total <? 0 + zlen payload) = false) as -> by lia.
  assert ((zlen (r_data b) <? 0 + zlen payload) = false) as -> by lia.
  done.
Qed.

Lemma reassemble_whole payload b :
  r_len b = 0 -> reassemble (0 :: payload) b = (Ok (Message payload), b).
Proof.
  intros Hlen. unfold reassemble, bind, return_if, gets, ret.
  assert ((zlen (0 :: payload) =? 0) = false) as -> by zl.
  assert (byte_at (0 :: payload) 0 = 0) as -> by done.
  cbn [negb id]. change (Z.land 0 0x80) with 0. change (Z.land 0 0x40) with 0.
  cbn. rewrite Hlen. done.
Qed.

(** The start of a conversation, one byte without payload. *)
Lemma reassemble_start b : r_len b = 0 -> reassemble [1] b = (Ok (Message []), b).
Proof.
  intros Hlen. unfold reassemble, bind, return_if, gets, ret.
  assert ((zlen [1] =? 0) = false) as -> by done. assert (byte_at [1] 0 = 1) as -> by done.
  change (Z.land 1 0x80) with 0. change (Z.land 1 0x40) with 0.
  cbn [Z.eqb negb id].
  by rewrite Hlen.
Qed.

(** One wire of [msg] from offset [pos], received after the bytes before [pos]:
    the receiver asks for more until the wire that ends the message. *)
Lemma reassemble_step msg pos b :
  0 < zlen msg <= frag_max -> 0 <= pos < zlen msg -> received msg pos b ->
  let pos' := pos + frag_len msg pos in
  exists b', reassemble (send_wire msg pos) b
    = (Ok (if pos' <? zlen msg then NeedAck else Message msg), b') /\
    received msg (if pos' <? zlen msg then pos' else 0) b'.
Proof.
  intros Hmsg Hpos [Hbuf Hrec] pos'.
  pose proof (frag_len_pos msg pos Hpos) as Hn. subst pos'. set (n := frag_len msg pos) in *.
  assert (zlen (sub msg pos n) = n) as Hsub by (rewrite zlen_sub; lia).
  destruct (Z.eqb_spec pos 0) as [->|Hp0].
  - destruct (Z.ltb_spec (0 + n) (zlen msg)) as [Hmore|Hlast].
    + rewrite send_wire_first by (apply Z.ltb_lt; lia).
      rewrite reassemble_open by (fold n; rewrite ?Hsub; done || lia). fold n.
      eexists. split; [done|]. unfold received.
      destruct (Z.eqb_spec (0 + n) 0); [lia|]. cbn [r_len r_pos r_data].
      rewrite zlen_splice by lia. rewrite Hsub. split_and!; [done..|].
      apply splice_extends; first [done|lia].
    + rewrite send_wire_plain by (cbn; apply Z.ltb_ge; fold n; lia).
      fold n. assert ((n <? zlen msg - 0) = false) as -> by lia.
      rewrite sub_all by lia. rewrite reassemble_whole by done.
      eexists. split; [done|]. by split.
  - destruct Hrec as (Hrl & Hrp & Htk).
    rewrite send_wire_plain.
    2: { apply andb_false_iff. left. by apply Z.eqb_neq. }
    fold n. rewrite reassemble_append; rewrite ?Hrl, ?Hrp, ?Hsub; try lia.
    2: { destruct (_ <? _); auto. }
    2: { destruct (Z.ltb_spec n (zlen msg - pos)); [done|lia]. }
    pose proof (splice_extends (r_data b) msg pos n) as Hs.
    destruct (Z.ltb_spec n (zlen msg - pos)), (Z.ltb_spec (pos + n) (zlen msg)); try lia; cbn [Z.eqb].
    + eexists. split; [done|]. unfold received. cbn [r_len r_pos r_data].
      rewrite zlen_splice by lia. destruct (Z.eqb_spec (pos + n) 0); [lia|].
      split_and!; [done..|]. apply Hs; first [done|lia].
    + eexists. split.
      * do 3 f_equal. replace (zlen msg) with (pos + n) at 1 by lia.
        rewrite Hs by (done || lia). apply ztake_all. lia.
      * unfold received. cbn. rewrite zlen_splice by lia. done.
Qed.

(** ** The receiver's buffer is never overrun *)
Record rbuf_ok (b : rbuf) : Prop := {
  rb_data : zlen (r_data b) = frag_max;
  rb_pos : 0 <= r_pos b <= r_len b;
  rb_len : r_len b <= frag_max
}.

Lemma reassemble_ht wire b :
  bytes_ok wire -> rbuf_ok b ->
  ht (reassemble wire) (fun _ b' => rbuf_ok b')
     (fun rc b' => rbuf_ok b' /\ (rc = e_parse \/ rc = e_buf)) (fun _ => False) b.
Proof.
  intros Hwire Hb. pose proof Hb as [Hdata Hpos Hlen].
  assert (frag_max = 8192) by done. unfold reassemble.
  apply ht_bind, ht_return_if; [by auto|]. intros ?%Z.eqb_neq.
  apply ht_bind. eapply (ht_ok _ (fun pos b' => rbuf_ok b')).
  { destruct (negb _); [|by apply ht_ret].
    pose proof (rd16_range _ _ (byte_at_ok wire 1 Hwire) (byte_at_ok wire 2 Hwire)).
    apply ht_bind, ht_return_if; [by auto|]. intros _.
    apply ht_bind, ht_return_if; [by auto|]. intros [?%Z.eqb_neq ?%Z.ltb_ge]%orb_false_iff.
    apply ht_bind, ht_gets. destruct (Z.eqb_spec (r_len (id b)) 0).
    - apply ht_bind, ht_modify, ht_ret. split; cbn; [done|lia..].
    - apply ht_bind, ht_return_if; [by auto|]. intros _. by apply ht_ret. }
  clear b Hb Hdata Hpos Hlen. intros pos b' Hb. pose proof Hb as [Hd Hp Hl]. apply ht_bind, ht_gets. unfold id.
  pose proof (zlen_nonneg (zdrop pos wire)).
  destruct (Z.eqb_spec (r_len b') 0); cbn [negb].
  - apply ht_bind, ht_return_if; [by auto|]. intros _. by apply ht_ret.
  - apply ht_bind, ht_return_if; [by auto|]. intros ?%Z.ltb_ge.
    apply ht_bind, ht_crash_if; [intros ?%Z.ltb_lt; lia|]. intros _.
    apply ht_bind, ht_modify.
    assert (zlen (splice (r_data b') (r_pos b') (zdrop pos wire)) = frag_max)
      by (rewrite zlen_splice; lia).
    match goal with |- ht _ _ _ _ ?b1 => assert (Hb1 : rbuf_ok b1) end.
    { split; cbn [r_data r_pos r_len]; [done|lia..]. }
    destruct (negb _); [by apply ht_ret|].
    apply ht_bind, ht_gets, ht_bind, ht_return_if; [by auto|].
    intros _. apply ht_bind, ht_modify, ht_ret.
    split; cbn [r_data r_pos r_len]; [done|lia..].
Qed.
End reassemble.
