(* ===== verification/Responder.v ===== *)
(** * Responder: what an EDHOC core promises to the EAP module

    The EAP module drives two cores through the same two entry points.  The
    class [ResponderLaws] states what its proofs need of a core: an invariant of
    the context, kept by both entry points on every outcome; replies that fit the
    output buffer; faults only on inputs in [overlong1] and [overlong3]; and that
    a context that reports it is done is vouched for by a verified message 3. *)
From stdpp Require Import base numbers list option.
From Stdlib Require Import ZArith Lia.
From S2P Require Import Prelude Crypto Hkdf.
From S2P Require Edhoc4 Edhoc4Facts Edhoc4Safety Edhoc4Auth Edhoc03 Edhoc03Facts Edhoc03Auth.

Class Responder `{C : Crypto} (X : Type) := {
  r_msg1 : bytes -> Z -> M (st X) bytes;
  r_msg3 : bytes -> Z -> M (st X) bytes;
  r_done : X -> Z;
  r_msk : X -> bytes;
  overlong1 : bytes -> Prop;
  overlong3 : bytes -> Prop
}.

Class ResponderLaws `{C : Crypto} {X} (R : Responder X) (fresh : X -> Prop)
    (vouched : X -> X -> Prop) := {
  r_inv : X -> X -> Prop;
  r_inv_fresh x : fresh x -> r_inv x x;
  r_msg1_spec x0 inp cap x g : 0 <= cap -> r_inv x0 x ->
    ht (r_msg1 inp cap)
       (fun out s' => r_inv x0 (fst s') /\ zlen out <= cap) (fun _ s' => r_inv x0 (fst s'))
       (fun s' => r_inv x0 (fst s') /\ overlong1 inp) (x, g);
  r_msg3_spec x0 inp cap x g : 0 <= cap -> r_inv x0 x ->
    ht (r_msg3 inp cap)
       (fun out s' => r_inv x0 (fst s') /\ zlen out <= cap) (fun _ s' => r_inv x0 (fst s'))
       (fun s' => r_inv x0 (fst s') /\ overlong3 inp) (x, g);
  r_done_vouched x0 x : r_inv x0 x -> r_done x <> 0 -> vouched x0 x
}.

(** ** Method 4 *)
#[export] Instance responder4 `{C : Crypto} : Responder Edhoc4.edhoc4_ctx := {|
  r_msg1 := Edhoc4.edhoc4_r_handle_msg1;
  r_msg3 := Edhoc4.edhoc4_r_handle_msg3;
  r_done := Edhoc4.done;
  r_msk := Edhoc4.msk;
  overlong1 := fun inp => 2416 < zlen inp;
  overlong3 := fun inp => 4991 < zlen inp
|}.

Definition fresh4 (c : Edhoc4.edhoc4_ctx) : Prop :=
  exists me peer, c = Edhoc4.edhoc4_init_responder me peer /\ Edhoc4Safety.wf_creds me /\
                  zlen peer = Edhoc4.E4_XWING_PK.

Section method4.
Context `{CL : CryptoLaws}.

Definition inv4 (c0 c : Edhoc4.edhoc4_ctx) : Prop :=
  Edhoc4Safety.wf4 c /\ Edhoc4Auth.reach4 c0 c /\ Edhoc4Auth.responder_inv c0 c.

Lemma fresh4_wf c : fresh4 c -> Edhoc4Safety.wf4 c.
Proof.
  intros (me & peer & -> & Hme & Hp). unfold Edhoc4Safety.wf4, Edhoc4.edhoc4_init_responder.
  split; [exact Hme|]. split; [exact Hp|].
  repeat match goal with |- _ /\ _ => split end;
    first [vm_compute; reflexivity | left; reflexivity].
Qed.

Lemma inv4_exec c0 k cap c g :
  inv4 c0 c ->
  ht (Edhoc4Safety.exec4 k cap)
     (fun out s' => inv4 c0 (fst s') /\ (zlen out = 0 \/ zlen out <= cap))
     (fun _ s' => inv4 c0 (fst s'))
     (fun s' => inv4 c0 (fst s') /\ Edhoc4Safety.overlong k) (c, g).
Proof.
  intros (Hwf & Hreach & Hinv).
  pose proof (Edhoc4Auth.reach4_call c0 c k cap g Hreach) as Hreach'.
  pose proof (Edhoc4Auth.responder_inv_step c0 c k cap g Hreach Hinv) as Hinv'.
  pose proof (Edhoc4Safety.exec4_safe_ht k cap c g Hwf) as Hs.
  unfold Edhoc4Safety.safe4, ht, post in *. unfold inv4.
  destruct (Edhoc4Safety.exec4 k cap (c, g)) as [[out|rc|] [c' g']]; cbn [fst snd] in *; tauto.
Qed.

#[export] Program Instance responder4_laws :
    ResponderLaws responder4 fresh4 Edhoc4Auth.done_by := {| r_inv := inv4 |}.
Next Obligation.
  intros x H. pose proof (fresh4_wf x H). destruct H as (me & peer & -> & _).
  split; [done|]. split; [apply Edhoc4Auth.reach4_init|done].
Qed.
Next Obligation.
  intros x0 inp cap x g Hcap H.
  eapply ht_mono; [..|exact (inv4_exec x0 (Edhoc4Safety.HandleMsg1 inp) cap x g H)]; cbn.
  - intros a s' [? [?|?]]; split; auto; lia.
  - done.
  - intros s' [? Ho]. split; [done|]. exact Ho.
Qed.
Next Obligation.
  intros x0 inp cap x g Hcap H.
  eapply ht_mono; [..|exact (inv4_exec x0 (Edhoc4Safety.HandleMsg3 inp) cap x g H)]; cbn.
  - intros a s' [? [?|?]]; split; auto; lia.
  - done.
  - intros s' [? Ho]. split; [done|]. exact Ho.
Qed.
Next Obligation. intros x0 x (_ & _ & H). apply H. Qed.
End method4.

(** ** Methods 0 to 3 *)
#[export] Instance responder3 `{C : Crypto} : Responder Edhoc03.edhoc03_ctx := {|
  r_msg1 := Edhoc03.edhoc03_r_handle_msg1;
  r_msg3 := Edhoc03.edhoc03_r_handle_msg3;
  r_done := Edhoc03.done;
  r_msk := Edhoc03.msk;
  overlong1 := fun _ => False;
  overlong3 := fun inp => 131 < zlen inp
|}.

Definition fresh3 (c : Edhoc03.edhoc03_ctx) : Prop :=
  exists me peer, c = Edhoc03.edhoc03_init_responder me peer /\ Edhoc03Auth.wf_self me.

Section classical.
Context `{CL : CryptoLaws}.

Definition inv3 (c0 c : Edhoc03.edhoc03_ctx) : Prop :=
  Edhoc03Auth.wf_self (Edhoc03.self c) /\ Edhoc03Auth.reach3 c0 c /\
  Edhoc03Auth.responder_inv c0 c.

Lemma inv3_exec c0 k cap c g :
  inv3 c0 c ->
  ht (Edhoc03Auth.exec3 k cap)
     (fun out s' => inv3 c0 (fst s') /\ zlen out <= Z.max 0 cap)
     (fun _ s' => inv3 c0 (fst s'))
     (fun s' => inv3 c0 (fst s') /\ Edhoc03Auth.overlong k) (c, g).
Proof.
  intros (Hwf & Hreach & Hinv).
  pose proof (Edhoc03Auth.reach3_call c0 c k cap g Hreach) as Hreach'.
  pose proof (Edhoc03Auth.e3_responder_inv_step c0 c k cap g Hreach Hinv) as Hinv'.
  pose proof (Edhoc03Auth.exec3_safe_ht k cap c g Hwf) as Hs.
  unfold Edhoc03Auth.safe3, Edhoc03Auth.kept, ht, post in *. unfold inv3.
  destruct (Edhoc03Auth.exec3 k cap (c, g)) as [[out|rc|] [c' g']]; cbn [fst snd] in *;
    destruct Hs as [[-> _] ?]; tauto.
Qed.

#[export] Program Instance responder3_laws :
    ResponderLaws responder3 fresh3 Edhoc03Auth.done_by := {| r_inv := inv3 |}.
Next Obligation.
  intros x (me & peer & -> & Hme). split; [exact Hme|].
  split; [apply Edhoc03Auth.reach3_init|done].
Qed.
Next Obligation.
  intros x0 inp cap x g Hcap H.
  eapply ht_mono; [..|exact (inv3_exec x0 (Edhoc03Auth.HandleMsg1 inp) cap x g H)]; cbn.
  - intros a s' [? ?]; split; auto; lia.
  - done.
  - done.
Qed.
Next Obligation.
  intros x0 inp cap x g Hcap H.
  eapply ht_mono; [..|exact (inv3_exec x0 (Edhoc03Auth.HandleMsg3 inp) cap x g H)]; cbn.
  - intros a s' [? ?]; split; auto; lia.
  - done.
  - intros s' [? Ho]. split; [done|]. exact Ho.
Qed.
Next Obligation. intros x0 x (_ & _ & H). apply H. Qed.
End classical.
