(* ===== verification/RlmEapEdhoc.v ===== *)
(** * RlmEapEdhoc: the EAP-EDHOC responder module of FreeRADIUS

    freeradius-v3/src/modules/rlm_eap/types/rlm_eap_edhoc/rlm_eap_edhoc.c: the
    session of one EAP conversation, fragmentation on both directions, and
    [mod_process], which drives one of the two EDHOC cores and decides when to
    send EAP-Success.  A function that returns 1 is [Ok tt], one that returns 0
    is [Err 0]; [talloc n] says whether an allocation of [n] bytes succeeds. *)
From stdpp Require Import base gmap numbers list option strings.
From Stdlib Require Import ZArith Lia.
From S2P Require Import Prelude Crypto Hkdf Files Frag.
From S2P Require Edhoc4 Edhoc03.
Import Edhoc4(E4_MAX_MSG, E4_OK, E4_ERR_PARSE, E4_ERR_BUF).
Local Open Scope c_scope.

Definition PW_EAP_REQUEST : Z := 1.
Definition PW_EAP_SUCCESS : Z := 3.
Definition PW_EAP_FAILURE : Z := 4.
Definition PW_EAP_EDHOC : Z := 56.

(** ** State *)
Record rlm_eap_edhoc_t := {
  server : Edhoc4.edhoc4_creds;
  ue_pub : bytes;
  server03 : Edhoc03.edhoc03_creds;
  ue03_pub : Edhoc03.edhoc03_peer;
  have03 : bool
}.

Record edhoc_session_t := {
  ctx : Edhoc4.edhoc4_ctx;
  ctx03 : Edhoc03.edhoc03_ctx;
  mode : Z;
  round : Z;
  in_buf : bytes;
  in_len : Z;
  in_pos : Z;
  out_buf : bytes;
  out_len : Z;
  out_pos : Z
}.

(** [eap_ds->request]: the packet under construction; [type_ptr] is [type.data],
    [None] for NULL. *)
Record eap_request := { code : Z; type_num : Z; type_length : Z; type_ptr : option bytes }.

(** The bytes of the packet, none where there is no buffer. *)
Definition type_data (q : eap_request) : bytes := default [] (type_ptr q).

(** The zeroed packet of a new request. *)
Definition blank_request : eap_request := {| code := 0; type_num := 0; type_length := 0; type_ptr := None |}.

(** What one call sees: the session, the request, the reply pairs added. *)
Record proc := {
  sess : edhoc_session_t;
  request : eap_request;
  reply : list (string * bytes)
}.

Definition eta_session (s : edhoc_session_t) : edhoc_session_t := {|
  ctx := ctx s; ctx03 := ctx03 s; mode := mode s; round := round s;
  in_buf := in_buf s; in_len := in_len s; in_pos := in_pos s;
  out_buf := out_buf s; out_len := out_len s; out_pos := out_pos s |}.
Section setters.
Implicit Type s : edhoc_session_t.
Definition set_ctx (v : Edhoc4.edhoc4_ctx) s : edhoc_session_t :=
  ltac:(derive_set eta_session ctx v s).
Definition set_ctx03 (v : Edhoc03.edhoc03_ctx) s : edhoc_session_t :=
  ltac:(derive_set eta_session ctx03 v s).
Definition set_mode (v : Z) s : edhoc_session_t := ltac:(derive_set eta_session mode v s).
Definition set_round (v : Z) s : edhoc_session_t := ltac:(derive_set eta_session round v s).
Definition set_in_buf (v : bytes) s : edhoc_session_t := ltac:(derive_set eta_session in_buf v s).
Definition set_in_len (v : Z) s : edhoc_session_t := ltac:(derive_set eta_session in_len v s).
Definition set_in_pos (v : Z) s : edhoc_session_t := ltac:(derive_set eta_session in_pos v s).
Definition set_out_buf (v : bytes) s : edhoc_session_t := ltac:(derive_set eta_session out_buf v s).
Definition set_out_len (v : Z) s : edhoc_session_t := ltac:(derive_set eta_session out_len v s).
Definition set_out_pos (v : Z) s : edhoc_session_t := ltac:(derive_set eta_session out_pos v s).
End setters.

Definition with_sess (v : edhoc_session_t) (p : proc) : proc :=
  {| sess := v; request := request p; reply := reply p |}.
Definition with_request (v : eap_request) (p : proc) : proc :=
  {| sess := sess p; request := v; reply := reply p |}.
Definition with_code (v : Z) (p : proc) : proc :=
  with_request {| code := v; type_num := type_num (request p); type_length := type_length (request p);
                  type_ptr := type_ptr (request p) |} p.

Ltac fields_rlm :=
  cbn [server ue_pub server03 ue03_pub have03 ctx ctx03 mode round in_buf in_len in_pos
       out_buf out_len out_pos code type_num type_length type_ptr type_data from_option sess request reply
       set_ctx set_ctx03 set_mode set_round set_in_buf set_in_len set_in_pos set_out_buf
       set_out_len set_out_pos with_sess with_request with_code fst snd id].

(** ** Loading the credentials *)

(** [mod_instantiate]: the parsed configuration gives the four paths; [-1] is
    the module failing to load. *)
Definition mod_instantiate (talloc : Z -> bool) (size : Z) (parse_rc : Z)
    (creds_path peer_pub_path creds03_path peer_pub03_path : option string)
    (fs : filesystem) : res rlm_eap_edhoc_t :=
  if negb (talloc size) then Err (-1)
  else if parse_rc <? 0 then Err (-1)
  else match creds_path, peer_pub_path with
  | Some cp, Some pp =>
      let '(rc, srv) :=
        Edhoc4.edhoc4_creds_load (Some cp) (Some (Edhoc4.self Edhoc4.zero_ctx)) fs in
      if negb (rc =? E4_OK) then Err (-1) else
      let '(rc, pub) :=
        Edhoc4.edhoc4_pub_load (Some pp) (Some (Edhoc4.peer_kem_pk Edhoc4.zero_ctx)) fs in
      if negb (rc =? E4_OK) then Err (-1) else
      let inst srv03 pub03 have := {|
        server := default (Edhoc4.self Edhoc4.zero_ctx) srv; ue_pub := default [] pub;
        server03 := default Edhoc03.zero_creds srv03;
        ue03_pub := default Edhoc03.zero_peer pub03; have03 := have |} in
      match creds03_path, peer_pub03_path with
      | Some cp3, Some pp3 =>
          let '(rc, srv03) :=
            Edhoc03.edhoc03_creds_load (Some cp3) (Some Edhoc03.zero_creds) fs in
          if negb (rc =? Edhoc03.E3_OK) then Err (-1) else
          let '(rc, pub03) :=
            Edhoc03.edhoc03_pub_load (Some pp3) (Some Edhoc03.zero_peer) fs in
          if negb (rc =? Edhoc03.E3_OK) then Err (-1) else
          Ok (inst srv03 pub03 true)
      | _, _ => Ok (inst None None false)
      end
  | _, _ => Err (-1)
  end.

(** A zeroed session. *)
Definition new_session : edhoc_session_t := {|
  ctx := Edhoc4.zero_ctx; ctx03 := Edhoc03.zero_ctx; mode := 0; round := 0;
  in_buf := zreplicate E4_MAX_MSG 0; in_len := 0; in_pos := 0;
  out_buf := zreplicate E4_MAX_MSG 0; out_len := 0; out_pos := 0 |}.

(** [mod_session_init]: the session stored in [handler->opaque] and the
    EAP-Request/EDHOC start; a failed allocation returns 0. *)
Definition mod_session_init (talloc : Z -> bool) (session_size : Z)
    (opaque : option edhoc_session_t) (req : eap_request)
    : res unit * (option edhoc_session_t * eap_request) :=
  if negb (talloc session_size) then (Err 0, (opaque, req))
  else
    let req := {| code := PW_EAP_REQUEST; type_num := PW_EAP_EDHOC; type_length := type_length req; type_ptr := None |} in
    if negb (talloc 1) then (Err 0, (Some new_session, req))
    else (Ok tt, (Some new_session,
                  {| code := code req; type_num := type_num req; type_length := 1; type_ptr := Some [0x01] |})).

(** ** Sending *)
Section module.
Context `{C : Crypto}.
Variable talloc : Z -> bool.

(** [type.data] is NULL, and [type.length] what it was, when the allocation fails. *)
Definition edhoc_emit_eap (c : Z) (buf : bytes) : M (st proc) unit :=
  ctx_set (fun p => with_request {| code := c; type_num := PW_EAP_EDHOC;
    type_length := type_length (request p); type_ptr := None |} p) ;;;
  return_if (negb (talloc (zlen buf))) 0 ;;;
  ctx_set (fun p => with_request {| code := code (request p); type_num := type_num (request p);
    type_length := zlen buf; type_ptr := Some buf |} p).

Definition edhoc_send_ack (c : Z) : M (st proc) unit := edhoc_emit_eap c [0x00].

Definition edhoc_send_fragment (c : Z) : M (st proc) unit :=
  let first_cap :=
    E4_EDHOC_FRAG_WIRE_MAX - E4_EDHOC_FRAG_HDR_LEN - E4_EDHOC_FRAG_LEN_LEN in
  let next_cap := E4_EDHOC_FRAG_WIRE_MAX - E4_EDHOC_FRAG_HDR_LEN in
  let! s := ctx_get sess in
  let remaining := u64 (out_len s - out_pos s) in
  let frag_cap := if out_pos s =? 0 then first_cap else next_cap in
  let frag_len := if remaining <? frag_cap then remaining else frag_cap in
  let with_len := (out_pos s =? 0) && (frag_len <? remaining) in
  let wire_len := E4_EDHOC_FRAG_HDR_LEN +
    (if with_len then E4_EDHOC_FRAG_LEN_LEN else 0) + frag_len in
  return_if (remaining =? 0) 0 ;;;
  return_if (negb (talloc wire_len)) 0 ;;;
  crash_if (E4_MAX_MSG <? out_pos s + frag_len) ;;;
  let wire :=
    [Z.lor (if frag_len <? remaining then E4_EDHOC_FRAG_FLAG_MORE else 0)
           (if with_len then E4_EDHOC_FRAG_FLAG_LEN else 0)] ++
    (if with_len then be16 (u16 (out_len s)) else []) ++
    sub (out_buf s) (out_pos s) frag_len in
  ctx_set (fun p => with_sess (set_out_pos (out_pos (sess p) + frag_len) (sess p)) p) ;;;
  let! s := ctx_get sess in
  (if out_len s <=? out_pos s then
     ctx_set (fun p => with_sess (set_out_pos 0 (set_out_len 0 (sess p))) p)
   else ret tt) ;;;
  edhoc_emit_eap c wire.

Definition edhoc_queue_outgoing (c : Z) (buf : bytes) : M (st proc) unit :=
  let first_cap :=
    E4_EDHOC_FRAG_WIRE_MAX - E4_EDHOC_FRAG_HDR_LEN - E4_EDHOC_FRAG_LEN_LEN in
  if zlen buf =? 0 then edhoc_send_ack c
  else if zlen buf <=? first_cap then edhoc_emit_eap c ([0x00] ++ buf)
  else
    return_if (E4_MAX_MSG <? zlen buf) 0 ;;;
    ctx_set (fun p => with_sess (set_out_buf (splice (out_buf (sess p)) 0 buf) (sess p)) p) ;;;
    ctx_set (fun p => with_sess (set_out_len (zlen buf) (sess p)) p) ;;;
    ctx_set (fun p => with_sess (set_out_pos 0 (sess p)) p) ;;;
    edhoc_send_fragment c.

(** ** Receiving: the message and [need_ack] *)
Definition edhoc_consume_incoming (inp : option bytes) : M edhoc_session_t (bytes * bool) :=
  match inp with
  | None => fail E4_ERR_PARSE
  | Some inp =>
      return_if (zlen inp =? 0) E4_ERR_PARSE ;;;
      let flags := byte_at inp 0 in
      let! pos :=
        if negb (Z.land flags E4_EDHOC_FRAG_FLAG_LEN =? 0) then
          return_if (zlen inp <? E4_EDHOC_FRAG_HDR_LEN + E4_EDHOC_FRAG_LEN_LEN) E4_ERR_PARSE ;;;
          let total := rd16 (byte_at inp 1) (byte_at inp 2) in
          return_if ((total =? 0) || (E4_MAX_MSG <? total)) E4_ERR_BUF ;;;
          let! s := gets id in
          if in_len s =? 0 then
            modify (set_in_len total) ;;; modify (set_in_pos 0) ;;; ret 3
          else return_if (negb (in_len s =? total)) E4_ERR_PARSE ;;; ret 3
        else ret 1 in
      return_if (zlen inp <? pos) E4_ERR_PARSE ;;;
      let! s := gets id in
      if negb (in_len s =? 0) then
        let payload_len := zlen inp - pos in
        return_if (in_len s <? in_pos s + payload_len) E4_ERR_BUF ;;;
        crash_if (E4_MAX_MSG <? in_pos s + payload_len) ;;;
        modify (fun s => set_in_buf (splice (in_buf s) (in_pos s) (zdrop pos inp)) s) ;;;
        modify (fun s => set_in_pos (in_pos s + payload_len) s) ;;;
        if negb (Z.land flags E4_EDHOC_FRAG_FLAG_MORE =? 0) then ret ([], true)
        else
          let! s := gets id in
          return_if (negb (in_pos s =? in_len s)) E4_ERR_PARSE ;;;
          let msg := ztake (in_len s) (in_buf s) in
          modify (set_in_len 0) ;;; modify (set_in_pos 0) ;;;
          ret (msg, false)
      else
        return_if (negb (Z.land flags E4_EDHOC_FRAG_FLAG_MORE =? 0)) E4_ERR_PARSE ;;;
        ret (zdrop pos inp, false)
  end.

(** ** Processing *)

(** Calls that work on the session, and on each core's context. *)
Definition on_sess {A} (m : M edhoc_session_t A) : M (st proc) A :=
  zoom (fun s => sess (fst s)) (fun t s => (with_sess t (fst s), snd s)) m.
Definition on_ctx {A} (m : M (st Edhoc4.edhoc4_ctx) A) : M (st proc) A :=
  zoom (fun s => (ctx (sess (fst s)), snd s))
       (fun t s => (with_sess (set_ctx (fst t) (sess (fst s))) (fst s), snd t)) m.
Definition on_ctx03 {A} (m : M (st Edhoc03.edhoc03_ctx) A) : M (st proc) A :=
  zoom (fun s => (ctx03 (sess (fst s)), snd s))
       (fun t s => (with_sess (set_ctx03 (fst t) (sess (fst s))) (fst s), snd t)) m.

(** [eap_ds->request->code = PW_EAP_FAILURE; return 0;] *)
Definition eap_failure {A} : M (st proc) A :=
  ctx_set (with_code PW_EAP_FAILURE) ;;; fail 0.
Definition fail_when (b : bool) : M (st proc) unit := if b then eap_failure else ret tt.
(** The same when [m] returns an error code. *)
Definition or_failure {A} (m : M (st proc) A) : M (st proc) A := fun s =>
  match m s with
  | (Err _, s') => eap_failure s'
  | r => r
  end.

Definition eap_add_reply (name : string) (value : bytes) : M (st proc) unit :=
  ctx_set (fun p => {| sess := sess p; request := request p; reply := reply p ++ [(name, value)] |}).

(** The exported keys: the halves of the MSK. *)
Definition add_mppe_keys (msk : bytes) : M (st proc) unit :=
  ctx_set (with_code PW_EAP_SUCCESS) ;;;
  eap_add_reply "MS-MPPE-Recv-Key" (ztake 32 msk) ;;;
  eap_add_reply "MS-MPPE-Send-Key" (sub msk 32 32).

(** [round 0]: message 1 selects the core and is answered with message 2. *)
Definition process_msg1 (inst : rlm_eap_edhoc_t) (msg : bytes) : M (st proc) unit :=
  let! s := ctx_get sess in
  (if mode s =? 0 then
     if (zlen msg =? 1 + Edhoc03.E3_X_PK + Edhoc03.E3_CONN_ID) && (byte_at msg 0 <=? 3) then
       ctx_set (fun p => with_sess (set_mode 3 (sess p)) p)
     else ctx_set (fun p => with_sess (set_mode 4 (sess p)) p)
   else ret tt) ;;;
  let! s := ctx_get sess in
  let! out :=
    if mode s =? 3 then
      fail_when (negb (have03 inst)) ;;;
      ctx_set (fun p => with_sess
        (set_ctx03 (Edhoc03.edhoc03_init_responder (server03 inst) (ue03_pub inst)) (sess p)) p) ;;;
      or_failure (on_ctx03 (Edhoc03.edhoc03_r_handle_msg1 msg E4_MAX_MSG))
    else
      ctx_set (fun p => with_sess
        (set_ctx (Edhoc4.edhoc4_init_responder (server inst) (ue_pub inst)) (sess p)) p) ;;;
      or_failure (on_ctx (Edhoc4.edhoc4_r_handle_msg1 msg E4_MAX_MSG)) in
  edhoc_queue_outgoing PW_EAP_REQUEST out ;;;
  ctx_set (fun p => with_sess (set_round 1 (sess p)) p).

(** [round 1]: message 3; a classical handshake ends here, method 4 answers
    with message 4. *)
Definition process_msg3 (msg : bytes) : M (st proc) unit :=
  let! s := ctx_get sess in
  if mode s =? 3 then
    let! _ := or_failure (on_ctx03 (Edhoc03.edhoc03_r_handle_msg3 msg E4_MAX_MSG)) in
    let! s := ctx_get sess in
    fail_when (Edhoc03.done (ctx03 s) =? 0) ;;;
    add_mppe_keys (Edhoc03.msk (ctx03 s))
  else
    let! out := or_failure (on_ctx (Edhoc4.edhoc4_r_handle_msg3 msg E4_MAX_MSG)) in
    edhoc_queue_outgoing PW_EAP_REQUEST out ;;;
    ctx_set (fun p => with_sess (set_round 2 (sess p)) p).

(** [round 2]: the acknowledgement of message 4. *)
Definition process_ack (msg : bytes) : M (st proc) unit :=
  fail_when (negb (zlen msg =? 0)) ;;;
  let! s := ctx_get sess in
  fail_when (Edhoc4.done (ctx s) =? 0) ;;;
  add_mppe_keys (Edhoc4.msk (ctx s)).

(** [switch (sess->round)]: a complete message. *)
Definition process_message (inst : rlm_eap_edhoc_t) (msg : bytes) : M (st proc) unit :=
  let! s := ctx_get sess in
  if round s =? 0 then process_msg1 inst msg
  else if round s =? 1 then process_msg3 msg
  else if round s =? 2 then process_ack msg
  else eap_failure.

(** [mod_process] once the session is known; [inp] is the type data of the
    response, [None] a null pointer. *)
Definition process_session (inst : rlm_eap_edhoc_t) (inp : option bytes) : M (st proc) unit :=
  let! s := ctx_get sess in
  if out_pos s <? out_len s then or_failure (edhoc_send_fragment PW_EAP_REQUEST)
  else
    let! (msg, need_ack) := or_failure (on_sess (edhoc_consume_incoming inp)) in
    if need_ack : bool then or_failure (edhoc_send_ack PW_EAP_REQUEST)
    else process_message inst msg.

(** The handler FreeRADIUS keeps between calls, with the packet of this call. *)
Record eap_handler := {
  opaque : option edhoc_session_t;
  h_request : eap_request;
  h_reply : list (string * bytes)
}.

Definition mod_process (inst : rlm_eap_edhoc_t) (inp : option bytes) : M (st eap_handler) unit :=
  fun '(h, g) =>
    match opaque h with
    | None =>
        (Err 0, ({| opaque := None;
                    h_request := {| code := PW_EAP_FAILURE; type_num := type_num (h_request h);
                                    type_length := type_length (h_request h);
                                    type_ptr := type_ptr (h_request h) |};
                    h_reply := h_reply h |}, g))
    | Some s =>
        let '(r, (p, g)) := process_session inst inp
          ({| sess := s; request := h_request h; reply := h_reply h |}, g) in
        (r, ({| opaque := Some (sess p); h_request := request p; h_reply := reply p |}, g))
    end.
End module.
