(* ===== verification/RlmFacts.v ===== *)
(** * RlmFacts: correctness of the EAP-EDHOC responder module

    The two halves of the fragmentation are refinements of Frag's; the session
    invariant is kept by [mod_process] for any sequence of packets; EAP-Success
    and the MPPE keys are only sent for a handshake that was verified. *)
From stdpp Require Import base gmap numbers list option strings.
From Stdlib Require Import ZArith Lia.
From S2P Require Import Prelude Crypto Hkdf Files Frag Responder RlmEapEdhoc.
From S2P Require Edhoc4 Edhoc4Facts Edhoc4Safety Edhoc4Auth Edhoc03 Edhoc03Facts Edhoc03Auth.
Import Edhoc4(E4_MAX_MSG, E4_OK, E4_ERR_PARSE, E4_ERR_BUF).
Local Open Scope c_scope.

(** ** Receiving refines [reassemble] *)
Definition rbuf_of (s : edhoc_session_t) : rbuf :=
  {| r_len := in_len s; r_pos := in_pos s; r_data := in_buf s |}.
Definition put_rbuf (b : rbuf) (s : edhoc_session_t) : edhoc_session_t :=
  set_in_pos (r_pos b) (set_in_len (r_len b) (set_in_buf (r_data b) s)).

Definition outcome (r : res consumed) : res (bytes * bool) :=
  match r with
  | Ok NeedAck => Ok ([], true)
  | Ok (Message m) => Ok (m, false)
  | Err rc => Err rc
  | Fault => Fault
  end.

Lemma put_rbuf_of s : put_rbuf (rbuf_of s) s = s.
Proof. by destruct s. Qed.

Lemma consume_refines s wire :
  zlen (in_buf s) = frag_max ->
  edhoc_consume_incoming (Some wire) s =
  let '(r, b) := reassemble E4_ERR_PARSE E4_ERR_BUF wire (rbuf_of s) in
  (outcome r, put_rbuf b s).
Proof.
  intros Hbuf. unfold edhoc_consume_incoming, reassemble.
  unfold bind, return_if, crash_if, gets, modify, ret, fail, crash.
  change E4_EDHOC_FRAG_FLAG_LEN with 0x80. change E4_EDHOC_FRAG_FLAG_MORE with 0x40.
  change (E4_EDHOC_FRAG_HDR_LEN + E4_EDHOC_FRAG_LEN_LEN) with 3.
  change E4_MAX_MSG with frag_max.
  destruct (Z.eqb_spec (zlen wire) 0) as [H0|H0]; [by rewrite put_rbuf_of|].
  pose proof (zlen_nonneg wire).
  assert (zlen (zdrop 1 wire) = zlen wire - 1) as E1 by zl.
  destruct s as [c c3 m r ib il ip ob ol op]. cbn [rbuf_of in_len in_pos in_buf] in *.
  destruct (Z.land (byte_at wire 0) 128 =? 0); cbn [negb id].
  - destruct (Z.ltb_spec (zlen wire) 1); [lia|]. fields_rlm. unfold rbuf_of. fields_rlm.
    cbn [r_len r_pos r_data]. rewrite E1, Hbuf. clear E1.
    repeat (cbn [negb id r_len r_pos r_data outcome]; fields_rlm;
      match goal with |- context [if ?b then _ else _] => destruct b end); reflexivity.
  - destruct (Z.ltb_spec (zlen wire) 3); [reflexivity|].
    assert (zlen (zdrop 3 wire) = zlen wire - 3) as E3 by zl.
    destruct (_ || _); [reflexivity|]. unfold rbuf_of. fields_rlm. cbn [r_len r_pos r_data].
    destruct (il =? 0); [|destruct (negb (il =? _)); [reflexivity|]].
    all: fields_rlm; cbn [r_len r_pos r_data id]; rewrite E3, Hbuf;
      destruct (Z.ltb_spec (zlen wire) 3); [lia|]; clear E3;
      repeat (cbn [negb id r_len r_pos r_data outcome]; fields_rlm;
        match goal with |- context [if ?b then _ else _] => destruct b end); reflexivity.
Qed.

(** ** Sending produces [send_wire] *)
Section sending.
Context `{C : Crypto}.
Variable talloc : Z -> bool.

(** The message being sent. *)
Definition pending (s : edhoc_session_t) : bytes := ztake (out_len s) (out_buf s).

Definition after_fragment (s : edhoc_session_t) : edhoc_session_t :=
  let pos := out_pos s + frag_len (pending s) (out_pos s) in
  if out_len s <=? pos then set_out_pos 0 (set_out_len 0 s) else set_out_pos pos s.

Definition packet (c : Z) (data : bytes) : eap_request :=
  {| code := c; type_num := PW_EAP_EDHOC; type_length := zlen data; type_ptr := Some data |}.
(** What a failed allocation leaves. *)
Definition no_packet (c : Z) (q : eap_request) : eap_request :=
  {| code := c; type_num := PW_EAP_EDHOC; type_length := type_length q; type_ptr := None |}.

Lemma ht_emit_eap c buf p g (Q : unit -> st proc -> Prop) E F :
  Q tt (with_request (packet c buf) p, g) ->
  (talloc (zlen buf) = false ->
   E 0 (with_request (no_packet c (request p)) p, g)) ->
  ht (edhoc_emit_eap talloc c buf) Q E F (p, g).
Proof.
  intros HQ HE. unfold edhoc_emit_eap.
  apply ht_bind, ht_ctx_set, ht_bind, ht_return_if.
  - intros H. apply negb_true_iff in H. by apply HE.
  - intros _. by apply ht_ctx_set.
Qed.

Lemma u64_small x : 0 <= x < 18446744073709551616 -> u64 x = x.
Proof. unfold u64. intros. by apply Z.mod_small. Qed.

Lemma zlen_pending s :
  0 <= out_len s <= frag_max -> zlen (out_buf s) = frag_max -> zlen (pending s) = out_len s.
Proof. intros. unfold pending. rewrite zlen_ztake. lia. Qed.

Lemma sub_pending s pos n :
  0 <= pos -> 0 <= n -> pos + n <= out_len s -> sub (pending s) pos n = sub (out_buf s) pos n.
Proof.
  intros. unfold pending, sub. replace (out_len s) with (pos + (out_len s - pos)) by lia.
  rewrite zdrop_ztake by lia. rewrite ztake_ztake. f_equal. lia.
Qed.

Lemma ht_send_fragment c p g (Q : unit -> st proc -> Prop) E F :
  let s := sess p in
  0 <= out_pos s < out_len s -> out_len s <= frag_max -> zlen (out_buf s) = frag_max ->
  (forall w, w = send_wire (pending s) (out_pos s) ->
     Q tt (with_request (packet c w) (with_sess (after_fragment s) p), g) /\
     (talloc (zlen w) = false ->
      (E 0 (p, g) /\
       E 0 (with_request (no_packet c (request p)) (with_sess (after_fragment s) p), g)))) ->
  ht (edhoc_send_fragment talloc c) Q E F (p, g).
Proof.
  intros s Hpos Hlen Hbuf HQ. unfold edhoc_send_fragment. cbv zeta.
  change (E4_EDHOC_FRAG_WIRE_MAX - E4_EDHOC_FRAG_HDR_LEN - E4_EDHOC_FRAG_LEN_LEN) with first_cap.
  change (E4_EDHOC_FRAG_WIRE_MAX - E4_EDHOC_FRAG_HDR_LEN) with next_cap.
  change E4_MAX_MSG with frag_max. assert (frag_max = 8192) as Hfm by done.
  apply ht_bind, ht_ctx_get. fold s. rewrite u64_small by lia.
  pose proof (zlen_pending s ltac:(lia) Hbuf) as Hpl.
  pose proof (frag_len_pos (pending s) (out_pos s) ltac:(lia)) as Hn.
  assert (Hfl : (if out_len s - out_pos s <? (if out_pos s =? 0 then first_cap else next_cap)
    then out_len s - out_pos s else (if out_pos s =? 0 then first_cap else next_cap))
    = frag_len (pending s) (out_pos s)).
  { unfold frag_len. rewrite Hpl. destruct (Z.ltb_spec (out_len s - out_pos s)
      (if out_pos s =? 0 then first_cap else next_cap)); lia. }
  rewrite Hfl. set (n := frag_len (pending s) (out_pos s)) in *.
  set (w := send_wire (pending s) (out_pos s)) in *.
  assert (Hw : w = [Z.lor (if n <? out_len s - out_pos s then E4_EDHOC_FRAG_FLAG_MORE else 0)
      (if (out_pos s =? 0) && (n <? out_len s - out_pos s) then E4_EDHOC_FRAG_FLAG_LEN else 0)] ++
    (if (out_pos s =? 0) && (n <? out_len s - out_pos s) then be16 (u16 (out_len s)) else []) ++
    sub (out_buf s) (out_pos s) n).
  { unfold w, send_wire. fold n. rewrite Hpl, sub_pending by lia.
    rewrite u16_small by lia. reflexivity. }
  rewrite <-Hw. destruct (HQ w eq_refl) as [HQ1 HQ2].
  assert (Hwl : E4_EDHOC_FRAG_HDR_LEN + (if (out_pos s =? 0) && (n <? out_len s - out_pos s)
    then E4_EDHOC_FRAG_LEN_LEN else 0) + n = zlen w).
  { rewrite Hw. unfold E4_EDHOC_FRAG_HDR_LEN, E4_EDHOC_FRAG_LEN_LEN.
    destruct (_ && _); zl. }
  rewrite Hwl. clear Hwl Hw Hfl.
  apply ht_bind, ht_return_if; [intros ?%Z.eqb_eq; exfalso; lia|]. intros _.
  apply ht_bind, ht_return_if; [intros H%negb_true_iff; by apply HQ2|]. intros Ht%negb_false_iff.
  apply ht_bind, ht_crash_if; [intros ?%Z.ltb_lt; exfalso; lia|]. intros _.
  apply ht_bind, ht_ctx_set, ht_bind, ht_ctx_get. fields_rlm. fold s.
  apply ht_bind. unfold after_fragment in HQ1. fold n in HQ1.
  destruct (Z.leb_spec (out_len s) (out_pos s + n)).
  - apply ht_ctx_set, ht_emit_eap; [|congruence].
    destruct s as [? ? ? ? ? ? ? ? ? ?] eqn:Es. exact HQ1.
  - apply ht_ret, ht_emit_eap; [|congruence]. exact HQ1.
Qed.

(** Queueing leaves a session whose pending data are what follows the first wire. *)
Definition queued (msg : bytes) (s : edhoc_session_t) : edhoc_session_t :=
  set_out_pos 0 (set_out_len (zlen msg) (set_out_buf (splice (out_buf s) 0 msg) s)).

Lemma pending_queued msg s :
  zlen msg <= frag_max -> zlen (out_buf s) = frag_max -> pending (queued msg s) = msg.
Proof.
  intros Hm Hb. unfold pending, queued. fields_rlm. unfold splice.
  rewrite (ztake_nonpos 0), app_nil_l by lia. by apply ztake_app_exact.
Qed.

Lemma ht_queue_outgoing c msg p g (Q : unit -> st proc -> Prop) E F :
  let s := sess p in
  zlen msg <= frag_max -> zlen (out_buf s) = frag_max ->
  (zlen msg <= first_cap -> forall w, w = 0 :: msg ->
     Q tt (with_request (packet c w) p, g) /\
     (talloc (zlen w) = false -> E 0 (with_request (no_packet c (request p)) p, g))) ->
  (first_cap < zlen msg -> forall w, w = send_wire msg 0 ->
     Q tt (with_request (packet c w) (with_sess (after_fragment (queued msg s)) p), g) /\
     (talloc (zlen w) = false ->
      (E 0 (with_sess (queued msg s) p, g) /\
       E 0 (with_request (no_packet c (request p))
              (with_sess (after_fragment (queued msg s)) p), g)))) ->
  ht (edhoc_queue_outgoing talloc c msg) Q E F (p, g).
Proof.
  intros s Hm Hb Hsmall Hbig. unfold edhoc_queue_outgoing. cbv zeta.
  change (E4_EDHOC_FRAG_WIRE_MAX - E4_EDHOC_FRAG_HDR_LEN - E4_EDHOC_FRAG_LEN_LEN) with first_cap.
  assert (first_cap = 997) as Hfc by done. pose proof (zlen_nonneg msg).
  destruct (Z.eqb_spec (zlen msg) 0) as [H0|H0].
  { apply zlen_0_nil in H0 as ->. destruct (Hsmall ltac:(done) _ eq_refl).
    by apply ht_emit_eap. }
  destruct (Z.leb_spec (zlen msg) first_cap).
  { destruct (Hsmall ltac:(lia) _ eq_refl). by apply ht_emit_eap. }
  apply ht_bind, ht_return_if;
    [change E4_MAX_MSG with frag_max; intros ?%Z.ltb_lt; exfalso; lia|]. intros _.
  apply ht_bind, ht_ctx_set, ht_bind, ht_ctx_set, ht_bind, ht_ctx_set. fields_rlm. fold s.
  apply (ht_send_fragment c (with_sess (queued msg s) p)); unfold queued; fields_rlm.
  - lia.
  - done.
  - rewrite zlen_splice by lia. done.
  - fold (queued msg s). rewrite pending_queued by done. intros w Hw.
    exact (Hbig ltac:(lia) w Hw).
Qed.
End sending.

(** ** The session invariant *)
Section invariant.
Context `{CL : CryptoLaws}.
Variable talloc : Z -> bool.
Variable inst : rlm_eap_edhoc_t.

(** The contexts [process_msg1] starts from. *)
Definition R4 : Edhoc4.edhoc4_ctx := Edhoc4.edhoc4_init_responder (server inst) (ue_pub inst).
Definition R3 : Edhoc03.edhoc03_ctx :=
  Edhoc03.edhoc03_init_responder (server03 inst) (ue03_pub inst).

(** Credentials as [mod_instantiate] loads them. *)
Definition wf_inst : Prop :=
  Edhoc4Safety.wf_creds (server inst) /\ zlen (ue_pub inst) = Edhoc4.E4_XWING_PK /\
  Edhoc03Auth.wf_self (server03 inst).

Record buffers_ok (s : edhoc_session_t) : Prop := {
  bo_in : zlen (in_buf s) = frag_max;
  bo_out : zlen (out_buf s) = frag_max;
  bo_in_pos : 0 <= in_pos s <= in_len s /\ in_len s <= frag_max;
  bo_out_pos : 0 <= out_pos s <= out_len s /\ out_len s <= frag_max
}.

(** Which core the session is using, and how far it is. *)
Definition core_ok (s : edhoc_session_t) : Prop :=
  round s = 0 \/
  (round s = 1 /\ mode s = 3 /\ r_inv R3 (ctx03 s)) \/
  ((round s = 1 \/ round s = 2) /\ mode s <> 3 /\ r_inv R4 (ctx s)).

Definition session_inv (s : edhoc_session_t) : Prop := buffers_ok s /\ core_ok s.

(** A message longer than the core's plaintext buffers. *)
Definition core_overlong (s : edhoc_session_t) (msg : bytes) : Prop :=
  (round s = 0 /\ overlong1 (X := Edhoc4.edhoc4_ctx) msg) \/
  (round s = 1 /\ (overlong3 (X := Edhoc4.edhoc4_ctx) msg \/
                   overlong3 (X := Edhoc03.edhoc03_ctx) msg)).

(** EAP-Success, with the keys of a context that is done and vouched for. *)
Definition success (s : edhoc_session_t) (r0 r : list (string * bytes)) : Prop :=
  exists key,
    r = r0 ++ [("MS-MPPE-Recv-Key"%string, ztake 32 key); ("MS-MPPE-Send-Key"%string, sub key 32 32)] /\
    ((mode s = 3 /\ key = Edhoc03.msk (ctx03 s) /\ Edhoc03Auth.done_by R3 (ctx03 s)) \/
     (mode s <> 3 /\ key = Edhoc4.msk (ctx s) /\ Edhoc4Auth.done_by R4 (ctx s))).

(** The outcomes of a call made on session [s0] with response [inp], reply [r0]. *)
Definition ok_post (r0 : list (string * bytes)) (s' : st proc) : Prop :=
  let p := fst s' in
  session_inv (sess p) /\
  ((code (request p) = PW_EAP_REQUEST /\ type_num (request p) = PW_EAP_EDHOC /\
    reply p = r0 /\ zlen (type_data (request p)) <= E4_EDHOC_FRAG_WIRE_MAX) \/
   (code (request p) = PW_EAP_SUCCESS /\ success (sess p) r0 (reply p))).

Definition err_post (r0 : list (string * bytes)) (rc : Z) (s' : st proc) : Prop :=
  let p := fst s' in
  rc = 0 /\ session_inv (sess p) /\ reply p = r0 /\ code (request p) <> PW_EAP_SUCCESS.

Definition fault_post (s0 : edhoc_session_t) (inp : option bytes) : Prop :=
  exists msg s1, edhoc_consume_incoming inp s0 = (Ok (msg, false), s1) /\ core_overlong s1 msg.

Lemma ht_or_failure {A} (m : M (st proc) A) Q E F s :
  ht m Q (fun _ s' => E 0 (with_code PW_EAP_FAILURE (fst s'), snd s')) F s ->
  ht (or_failure m) Q E F s.
Proof.
  unfold ht, post, or_failure. destruct (m s) as [[a|rc|] [p g]]; done.
Qed.

Lemma ht_fail_when b (Q : unit -> st proc -> Prop) E F p g :
  (b = true -> E 0 (with_code PW_EAP_FAILURE p, g)) -> (b = false -> Q tt (p, g)) ->
  ht (fail_when b) Q E F (p, g).
Proof.
  intros HE HQ. destruct b; [|by apply ht_ret, HQ]. unfold fail_when, eap_failure.
  apply ht_bind, ht_ctx_set. by apply HE.
Qed.

Lemma failure_err r0 p g c0 :
  session_inv (sess p) -> reply p = r0 -> c0 <> PW_EAP_SUCCESS ->
  err_post r0 0 (with_code c0 p, g).
Proof. intros. by split_and!. Qed.

(** Sessions that differ only in the fields a function may write. *)
Lemma rbuf_ok_of s : buffers_ok s -> rbuf_ok (rbuf_of s).
Proof. intros [? ? [? ?] ?]. by split. Qed.

Lemma buffers_put s b : buffers_ok s -> rbuf_ok b -> buffers_ok (put_rbuf b s).
Proof. intros [? ? ? ?] [? ? ?]. by split. Qed.

Lemma consume_ht inp s :
  match inp with Some w => bytes_ok w | None => True end -> session_inv s ->
  ht (edhoc_consume_incoming inp)
     (fun _ s' => session_inv s') (fun _ s' => session_inv s') (fun _ => False) s.
Proof.
  intros Hw [Hb Hc]. destruct inp as [w|]; [|by split].
  unfold ht, post. rewrite consume_refines by apply Hb.
  pose proof (reassemble_ht E4_ERR_PARSE E4_ERR_BUF w (rbuf_of s) Hw (rbuf_ok_of s Hb)) as H.
  unfold ht, post in H. destruct (reassemble _ _ w (rbuf_of s)) as [[[|m]|rc|] b]; cbn.
  - split; [by apply buffers_put|exact Hc].
  - split; [by apply buffers_put|exact Hc].
  - destruct H. split; [by apply buffers_put|exact Hc].
  - done.
Qed.

Lemma after_fragment_inv s :
  session_inv s -> out_pos s < out_len s -> session_inv (after_fragment s).
Proof.
  intros [Hb Hc] Hlt. unfold after_fragment. destruct Hb as [H1 H2 [H3 H3'] [H4 H4']].
  pose proof (zlen_pending s ltac:(lia) H2) as Hp.
  pose proof (frag_len_pos (pending s) (out_pos s) ltac:(lia)).
  destruct (Z.leb_spec (out_len s) (out_pos s + frag_len (pending s) (out_pos s)));
    (split; [split; fields_rlm; [done|done|lia|]|exact Hc]).
  - unfold frag_max. lia.
  - lia.
Qed.

Lemma wire_le s :
  buffers_ok s -> out_pos s < out_len s ->
  zlen (send_wire (pending s) (out_pos s)) <= E4_EDHOC_FRAG_WIRE_MAX.
Proof.
  intros [H1 H2 H3 H4] Hlt. apply zlen_send_wire.
  rewrite zlen_pending by (done || lia). lia.
Qed.

Lemma continue_ht p g r0 :
  session_inv (sess p) -> reply p = r0 -> out_pos (sess p) < out_len (sess p) ->
  ht (or_failure (edhoc_send_fragment talloc PW_EAP_REQUEST))
     (fun _ => ok_post r0) (err_post r0) (fun _ => False) (p, g).
Proof.
  intros Hs Hr Hlt. pose proof (after_fragment_inv _ Hs Hlt) as Hs'.
  pose proof Hs as [[H1 H2 [H3 H3'] [H4 H4']] _].
  apply ht_or_failure, ht_send_fragment; try lia; try done.
  intros w Hw. split.
  - split; [exact Hs'|]. left. fields_rlm. split_and!; try done. subst w. by apply wire_le.
  - intros _. split; by apply failure_err.
Qed.

Lemma queued_inv msg s :
  session_inv s -> zlen msg <= frag_max -> session_inv (queued msg s).
Proof.
  intros [[H1 H2 H3 H4] Hc] Hm. pose proof (zlen_nonneg msg).
  split; [split; unfold queued; fields_rlm; [done| |done|lia]|exact Hc].
  by rewrite zlen_splice by lia.
Qed.

(** Queueing a reply of a core and moving to the next round. *)
Lemma queue_ht msg p g r0 n (Q : unit -> st proc -> Prop) F :
  session_inv (sess p) -> reply p = r0 -> code (request p) <> PW_EAP_SUCCESS ->
  zlen msg <= frag_max ->
  (forall s req, core_ok (set_round n s) -> buffers_ok s ->
     code req = PW_EAP_REQUEST -> type_num req = PW_EAP_EDHOC ->
     zlen (type_data req) <= E4_EDHOC_FRAG_WIRE_MAX ->
     Q tt ({| sess := set_round n s; request := req; reply := r0 |}, g)) ->
  core_ok (set_round n (sess p)) ->
  ht (edhoc_queue_outgoing talloc PW_EAP_REQUEST msg ;;;
      ctx_set (fun p => with_sess (set_round n (sess p)) p)) Q (err_post r0) F (p, g).
Proof.
  intros Hs Hr Hcode Hm HQ Hcore.
  pose proof (queued_inv msg _ Hs Hm) as Hq.
  pose proof Hs as [Hb _]. pose proof (bo_out _ Hb) as Hbo.
  apply ht_bind, ht_queue_outgoing; [done|done| |].
  - intros Hle w ->. split.
    + apply ht_ctx_set. subst r0. apply HQ; try done.
      unfold packet, first_cap, E4_EDHOC_FRAG_WIRE_MAX in *. fields_rlm. zl.
    + intros _. by split_and!.
  - intros Hgt w ->.
    assert (Hlt : out_pos (queued msg (sess p)) < out_len (queued msg (sess p))).
    { unfold queued, first_cap in *. fields_rlm. lia. }
    pose proof (after_fragment_inv _ Hq Hlt) as Hs'.
    pose proof (wire_le _ (proj1 Hq) Hlt) as Hw.
    rewrite pending_queued in Hw by done.
    split.
    + apply ht_ctx_set. subst r0. apply HQ; try done.
      * unfold after_fragment. by destruct (_ <=? _).
      * apply Hs'.
    + intros _. split; by split_and!.
Qed.

(** A core's handler, run on the session's context. *)
Lemma on_ctx03_ht inp x0 (m : M (st Edhoc03.edhoc03_ctx) bytes) (over : bytes -> Prop) p g Q E
    (F : st proc -> Prop) :
  ht m (fun out s' => r_inv x0 (fst s') /\ zlen out <= E4_MAX_MSG) (fun _ s' => r_inv x0 (fst s'))
     (fun s' => r_inv x0 (fst s') /\ over inp) (ctx03 (sess p), g) ->
  (forall out c g', r_inv x0 c -> zlen out <= E4_MAX_MSG ->
     Q out (with_sess (set_ctx03 c (sess p)) p, g')) ->
  (forall c g', r_inv x0 c ->
     E 0 (with_code PW_EAP_FAILURE (with_sess (set_ctx03 c (sess p)) p), g')) ->
  (over inp -> forall s', F s') ->
  ht (or_failure (on_ctx03 m)) Q E F (p, g).
Proof.
  intros Hm HQ HE HF. apply ht_or_failure, ht_zoom. eapply ht_mono; [..|exact Hm].
  - intros out [c g'] [? ?]. by apply HQ.
  - intros _ [c g'] ?. by apply HE.
  - intros s' [_ Ho]. by apply HF.
Qed.

Lemma on_ctx_ht inp x0 (m : M (st Edhoc4.edhoc4_ctx) bytes) (over : bytes -> Prop) p g Q E
    (F : st proc -> Prop) :
  ht m (fun out s' => r_inv x0 (fst s') /\ zlen out <= E4_MAX_MSG) (fun _ s' => r_inv x0 (fst s'))
     (fun s' => r_inv x0 (fst s') /\ over inp) (ctx (sess p), g) ->
  (forall out c g', r_inv x0 c -> zlen out <= E4_MAX_MSG ->
     Q out (with_sess (set_ctx c (sess p)) p, g')) ->
  (forall c g', r_inv x0 c ->
     E 0 (with_code PW_EAP_FAILURE (with_sess (set_ctx c (sess p)) p), g')) ->
  (over inp -> forall s', F s') ->
  ht (or_failure (on_ctx m)) Q E F (p, g).
Proof.
  intros Hm HQ HE HF. apply ht_or_failure, ht_zoom. eapply ht_mono; [..|exact Hm].
  - intros out [c g'] [? ?]. by apply HQ.
  - intros _ [c g'] ?. by apply HE.
  - intros s' [_ Ho]. by apply HF.
Qed.

Hypothesis Hinst : wf_inst.

Lemma fresh_R4 : r_inv R4 R4.
Proof. apply r_inv_fresh. destruct Hinst as (? & ? & ?). by exists (server inst), (ue_pub inst). Qed.
Lemma fresh_R3 : r_inv R3 R3.
Proof. apply r_inv_fresh. destruct Hinst as (? & ? & ?). by exists (server03 inst), (ue03_pub inst). Qed.

Lemma inv_round n s : buffers_ok s -> core_ok (set_round n s) -> session_inv (set_round n s).
Proof. intros [] Hc. split; [by split|exact Hc]. Qed.

Lemma process_msg1_ht msg p g r0 :
  session_inv (sess p) -> round (sess p) = 0 -> reply p = r0 ->
  code (request p) <> PW_EAP_SUCCESS ->
  ht (process_msg1 talloc inst msg) (fun _ => ok_post r0) (err_post r0)
     (fun _ => core_overlong (sess p) msg) (p, g).
Proof.
  intros Hs Hround Hr Hcode. unfold process_msg1.
  apply ht_bind, ht_ctx_get, ht_bind. cbn beta.
  eapply (ht_ok _ (fun _ s' => exists m, s' = (with_sess (set_mode m (sess p)) p, g))).
  { destruct (mode (sess p) =? 0).
    - destruct (_ && _); apply ht_ctx_set; eauto.
    - apply ht_ret. exists (mode (sess p)). by destruct p as [[] ? ?]. }
  intros _ s' (m & ->). apply ht_bind, ht_ctx_get. fields_rlm.
  assert (Hs1 : session_inv (set_mode m (sess p))).
  { destruct Hs as [[H1 H2 H3 H4] Hc]. split; [by split|by left]. }
  apply ht_bind. destruct (Z.eqb_spec m 3) as [->|Hm].
  - apply ht_bind, ht_fail_when; [intros _; by apply failure_err|]. intros _.
    apply ht_bind, ht_ctx_set. fields_rlm.
    eapply (on_ctx03_ht msg R3 _ (overlong1 (X := Edhoc03.edhoc03_ctx)));
      [exact (r_msg1_spec R3 msg E4_MAX_MSG R3 g ltac:(done) fresh_R3)| | |done].
    2: { intros c g' Hc. apply failure_err; [|done..]. split; [destruct Hs1 as [[] _]; by split|by left]. }
    intros out c g' Hc Hout. fields_rlm. apply queue_ht; try done.
    + split; [destruct Hs1 as [[] _]; by split|by left].
    + intros s req Hcore Hb Hq1 Hq2 Hq3. split; [by apply inv_round|]. by left.
    + right. left. by split_and!.
  - apply ht_bind, ht_ctx_set. fields_rlm.
    eapply (on_ctx_ht msg R4 _ (overlong1 (X := Edhoc4.edhoc4_ctx)));
      [exact (r_msg1_spec R4 msg E4_MAX_MSG R4 g ltac:(done) fresh_R4)| | |].
    2: { intros c g' Hc. apply failure_err; [|done..]. split; [destruct Hs1 as [[] _]; by split|by left]. }
    2: { intros Ho _. by left. }
    intros out c g' Hc Hout. fields_rlm. apply queue_ht; try done.
    + split; [destruct Hs1 as [[] _]; by split|by left].
    + intros s req Hcore Hb Hq1 Hq2 Hq3. split; [by apply inv_round|]. by left.
    + right. right. by split_and!; [left|..].
Qed.

Lemma process_msg3_ht msg p g r0 :
  session_inv (sess p) -> round (sess p) = 1 -> reply p = r0 ->
  code (request p) <> PW_EAP_SUCCESS ->
  ht (process_msg3 talloc msg) (fun _ => ok_post r0) (err_post r0)
     (fun _ => core_overlong (sess p) msg) (p, g).
Proof.
  intros [Hb Hcore] Hround Hr Hcode. unfold process_msg3.
  apply ht_bind, ht_ctx_get. cbn beta. destruct Hcore as [H0|[(_ & Hm & Hi)|(_ & Hm & Hi)]].
  - fields_rlm. lia.
  - fields_rlm. rewrite Hm. cbn [Z.eqb Pos.eqb].
    assert (Hci : forall c, r_inv R3 c -> session_inv (set_ctx03 c (sess p))).
    { intros c Hc. destruct Hb. split; [by split|]. right. left. by split_and!. }
    apply ht_bind. eapply (on_ctx03_ht msg R3 _ (overlong3 (X := Edhoc03.edhoc03_ctx)));
      [exact (r_msg3_spec R3 msg E4_MAX_MSG _ g ltac:(done) Hi)| | |].
    2: { intros c g' Hc. by apply failure_err; [apply Hci|..]. }
    2: { intros Ho _. right. split; [done|by right]. }
    intros out c g' Hc Hout. apply ht_bind, ht_ctx_get. fields_rlm.
    apply ht_bind, ht_fail_when; [intros _; by apply failure_err; [apply Hci|..]|].
    intros Hd%Z.eqb_neq. unfold add_mppe_keys, eap_add_reply.
    apply ht_bind, ht_ctx_set, ht_bind, ht_ctx_set, ht_ctx_set. fields_rlm.
    split; [by apply Hci|]. right. split; [done|]. fields_rlm. rewrite Hr, <-app_assoc.
    eexists. split; [reflexivity|]. left. split_and!; [done..|].
    by apply (r_done_vouched R3).
  - fields_rlm. destruct (Z.eqb_spec (mode (sess p)) 3) as [|_]; [done|].
    assert (Hci : forall c, r_inv R4 c -> session_inv (set_ctx c (sess p))).
    { intros c Hc. destruct Hb. split; [by split|]. right. right. by split_and!; [left|..]. }
    apply ht_bind. eapply (on_ctx_ht msg R4 _ (overlong3 (X := Edhoc4.edhoc4_ctx)));
      [exact (r_msg3_spec R4 msg E4_MAX_MSG _ g ltac:(done) Hi)| | |].
    2: { intros c g' Hc. by apply failure_err; [apply Hci|..]. }
    2: { intros Ho _. right. split; [done|by left]. }
    intros out c g' Hc Hout. fields_rlm. apply queue_ht; try done.
    + by apply Hci.
    + intros s req Hcore Hbo Hq1 Hq2 Hq3. split; [by apply inv_round|]. by left.
    + right. right. by split_and!; [right|..].
Qed.

Lemma process_ack_ht msg p g r0 :
  session_inv (sess p) -> round (sess p) = 2 -> reply p = r0 ->
  code (request p) <> PW_EAP_SUCCESS ->
  ht (process_ack msg) (fun _ => ok_post r0) (err_post r0) (fun _ => False) (p, g).
Proof.
  intros Hs Hround Hr Hcode. unfold process_ack.
  apply ht_bind, ht_fail_when; [intros _; by apply failure_err|]. intros _.
  apply ht_bind, ht_ctx_get. fields_rlm.
  apply ht_bind, ht_fail_when; [intros _; by apply failure_err|]. intros Hd%Z.eqb_neq.
  unfold add_mppe_keys, eap_add_reply.
  apply ht_bind, ht_ctx_set, ht_bind, ht_ctx_set, ht_ctx_set. fields_rlm.
  split; [done|]. right. split; [done|]. fields_rlm. rewrite Hr, <-app_assoc.
  eexists. split; [reflexivity|]. right.
  destruct Hs as [_ [H0|[(H1 & _)|(_ & Hm & Hi)]]]; [lia..|].
  split_and!; [done..|]. by apply (r_done_vouched R4).
Qed.

Lemma process_message_ht msg p g :
  session_inv (sess p) -> code (request p) <> PW_EAP_SUCCESS ->
  ht (process_message talloc inst msg) (fun _ => ok_post (reply p)) (err_post (reply p))
     (fun _ => core_overlong (sess p) msg) (p, g).
Proof.
  intros Hs Hcode. unfold process_message. apply ht_bind, ht_ctx_get. fields_rlm.
  destruct (Z.eqb_spec (round (sess p)) 0) as [H0|H0]; [by apply process_msg1_ht|].
  destruct (Z.eqb_spec (round (sess p)) 1) as [H1|H1]; [by apply process_msg3_ht|].
  destruct (Z.eqb_spec (round (sess p)) 2) as [H2|H2].
  { eapply ht_mono; [..|by apply (process_ack_ht msg p g (reply p))]; done. }
  unfold eap_failure. apply ht_bind, ht_ctx_set. by apply failure_err.
Qed.

(** The whole of [mod_process] on a session. *)
Lemma process_session_ht inp p g :
  match inp with Some w => bytes_ok w | None => True end ->
  session_inv (sess p) -> code (request p) <> PW_EAP_SUCCESS ->
  ht (process_session talloc inst inp) (fun _ => ok_post (reply p)) (err_post (reply p))
     (fun _ => fault_post (sess p) inp) (p, g).
Proof.
  intros Hw Hs Hcode. unfold process_session. apply ht_bind, ht_ctx_get. fields_rlm.
  destruct (Z.ltb_spec (out_pos (sess p)) (out_len (sess p))) as [Hlt|_].
  { eapply ht_mono; [..|apply (continue_ht p g (reply p) Hs eq_refl Hlt)]; done. }
  pose proof (consume_ht inp (sess p) Hw Hs) as Hc. unfold ht, post in Hc.
  apply ht_bind, ht_or_failure, ht_zoom. fields_rlm. unfold ht at 1, post.
  destruct (edhoc_consume_incoming inp (sess p)) as [[[msg ack]|rc|] s1] eqn:Ec;
    [|by apply failure_err|done].
  destruct ack.
  - apply ht_or_failure. apply ht_emit_eap.
    + split; [done|]. left. by fields_rlm.
    + intros _. by apply failure_err.
  - eapply ht_mono; [..|by apply (process_message_ht msg (with_sess s1 p) g)]; try done.
    intros ? Ho. by exists msg, s1.
Qed.
End invariant.

(** ** Conversations: any sequence of packets, with any allocation failures *)
Definition response_ok (inp : option bytes) : Prop :=
  match inp with Some w => bytes_ok w | None => True end.

(** The handler at the start of a call: a zeroed packet and no reply pairs. *)
Definition fresh_handler (s : edhoc_session_t) : eap_handler :=
  {| opaque := Some s; h_request := blank_request;
     h_reply := [] |}.

Inductive reach_session `{C : Crypto} (inst : rlm_eap_edhoc_t) : edhoc_session_t -> Prop :=
  | reach_new talloc size q s q' :
      mod_session_init talloc size None q = (Ok tt, (Some s, q')) -> reach_session inst s
  | reach_process talloc s inp g r h g' s' :
      reach_session inst s -> response_ok inp ->
      mod_process talloc inst inp (fresh_handler s, g) = (r, (h, g')) ->
      r <> Fault -> opaque h = Some s' -> reach_session inst s'.

Section conversations.
Context `{CL : CryptoLaws}.
Variable inst : rlm_eap_edhoc_t.
Hypothesis Hinst : wf_inst inst.

Lemma new_session_inv : session_inv inst new_session.
Proof. split; [|by left]. split; [reflexivity|reflexivity| |]; vm_compute; split_and!; discriminate. Qed.

Lemma mod_process_run talloc s inp g r h g' :
  session_inv inst s -> response_ok inp ->
  mod_process talloc inst inp (fresh_handler s, g) = (r, (h, g')) ->
  exists s', opaque h = Some s' /\
  match r with
  | Ok _ => ok_post inst [] ({| sess := s'; request := h_request h; reply := h_reply h |}, g')
  | Err rc => err_post inst [] rc ({| sess := s'; request := h_request h; reply := h_reply h |}, g')
  | Fault => fault_post s inp
  end.
Proof.
  intros Hs Hinp. unfold mod_process, fresh_handler. cbn [opaque h_request h_reply].
  set (p := {| sess := s; request := blank_request; reply := [] |}).
  pose proof (process_session_ht talloc inst Hinst inp p g Hinp Hs ltac:(done)) as H.
  unfold ht, post in H. destruct (process_session talloc inst inp (p, g)) as [r' [p' g1]].
  intros [= <- <- <-]. cbn [opaque h_request h_reply]. exists (sess p'). split; [done|].
  destruct p'. by destruct r'.
Qed.

Lemma reach_session_inv s : reach_session inst s -> session_inv inst s.
Proof.
  induction 1 as [talloc size q s q' E|talloc s inp g r h g' s' Hs IH Hinp E Hr Ho].
  - unfold mod_session_init in E. destruct (talloc size); [|done].
    destruct (talloc 1); [|done]. cbn in E. simplify_eq. apply new_session_inv.
  - destruct (mod_process_run _ _ _ _ _ _ _ IH Hinp E) as (s1 & Ho' & H). simplify_eq.
    destruct r as [[]|rc|]; [apply H|apply H|done].
Qed.

(** C3: after any sequence of responses to a new session, EAP-Success is only sent,
    and the two MPPE keys only handed to the RADIUS reply, when the EDHOC context
    they come from verified a message 3: the keys are the halves of its MSK, and
    that MSK is the one exported from the verified transcript.  A call that fails
    or asks for more data hands out no key. *)
Theorem eap_success_verified talloc s inp g r h g' :
  reach_session inst s -> response_ok inp ->
  mod_process talloc inst inp (fresh_handler s, g) = (r, (h, g')) -> r <> Fault ->
  (code (h_request h) = PW_EAP_SUCCESS /\ r = Ok tt /\
   exists s', opaque h = Some s' /\ success inst s' [] (h_reply h)) \/
  (code (h_request h) <> PW_EAP_SUCCESS /\ h_reply h = []).
Proof.
  intros Hs%reach_session_inv Hinp E Hr.
  destruct (mod_process_run _ _ _ _ _ _ _ Hs Hinp E) as (s1 & Ho & H).
  destruct r as [[]|rc|]; [|by right; destruct H as (_ & _ & ? & ?)|done].
  destruct H as [_ [(Hc & _ & Hrep & _)|[Hc Hsucc]]].
  - right. cbn in Hc, Hrep. by rewrite Hc.
  - left. eauto.
Qed.

End conversations.

(** A configuration that loads gives credentials whose arrays have the sizes
    both cores need; without paths for the classical methods their support is
    off. *)
Theorem mod_instantiate_wf talloc size parse_rc cp pp cp3 pp3 fs inst :
  mod_instantiate talloc size parse_rc cp pp cp3 pp3 fs = Ok inst ->
  wf_inst inst /\
  (have03 inst = true <-> cp3 <> None /\ pp3 <> None).
Proof.
  unfold mod_instantiate. destruct (negb (talloc size)); [done|].
  destruct (parse_rc <? 0); [done|]. destruct cp as [cp|]; [|done]. destruct pp as [pp|]; [|done].
  destruct (Edhoc4.edhoc4_creds_load (Some cp) _ fs) as [rc srv] eqn:E1.
  destruct (Z.eqb_spec rc E4_OK) as [->|]; [|done]. cbn [negb].
  apply Edhoc4Safety.creds_load_wf in E1 as (k & -> & Hk); [|apply Edhoc4Safety.zero_creds_wf].
  destruct (Edhoc4.edhoc4_pub_load (Some pp) _ fs) as [rc pub] eqn:E2.
  destruct (Z.eqb_spec rc E4_OK) as [->|]; [|done]. cbn [negb].
  apply Edhoc4Safety.pub_load_len in E2 as (pk & -> & Hpk); [|reflexivity].
  assert (Hz : Edhoc03Auth.wf_self Edhoc03.zero_creds) by by split_and!.
  destruct cp3 as [cp3|]; [|intros [= <-]; by split; [split_and!|split; [|intros [? ?]]]].
  destruct pp3 as [pp3|]; [|intros [= <-]; by split; [split_and!|split; [|intros [? ?]]]].
  destruct (Edhoc03.edhoc03_creds_load (Some cp3) _ fs) as [rc srv] eqn:E3.
  destruct (Z.eqb_spec rc Edhoc03.E3_OK) as [->|]; [|done]. cbn [negb].
  apply Edhoc03Auth.e3_creds_load_wf in E3 as (k3 & -> & Hk3); [|apply Edhoc03Auth.e3_zero_creds_wf].
  destruct (Edhoc03.edhoc03_pub_load (Some pp3) _ fs) as [rc pub] eqn:E4.
  destruct (Z.eqb_spec rc Edhoc03.E3_OK) as [->|]; [|done]. cbn [negb].
  intros [= <-]. destruct Hk3. by split; [split_and!|].
Qed.

(** ** A conversation of method 3 with [toy_crypto] *)
Module ToyServer.
#[local] Existing Instance toy_crypto.
Definition inst : rlm_eap_edhoc_t := {|
  server := Edhoc4Facts.ToyCreds.aaa; ue_pub := Edhoc4.kem_pk Edhoc4Facts.ToyCreds.ue;
  server03 := Edhoc03Facts.ToyCreds.srv;
  ue03_pub := Edhoc03.peer_of Edhoc03Facts.ToyCreds.ue; have03 := true |}.
Definition peer0 : Edhoc03.edhoc03_ctx :=
  Edhoc03.edhoc03_init_initiator 3 Edhoc03Facts.ToyCreds.ue
    (Edhoc03.peer_of Edhoc03Facts.ToyCreds.srv).

Definition value (p : res bytes * st Edhoc03.edhoc03_ctx) : bytes :=
  match p with (Ok a, _) => a | _ => [] end.
Definition call (inp : bytes) (s : edhoc_session_t) (g : Z) : res unit * st eap_handler :=
  mod_process (fun _ => true) inst (Some inp) (fresh_handler s, g).
Definition handler_of (p : res unit * st eap_handler) : eap_handler := fst (snd p).
Definition session_of (p : res unit * st eap_handler) : edhoc_session_t :=
  default new_session (opaque (handler_of p)).

(** A call, split in its parts. *)
Lemma call_run inp s g :
  mod_process (fun _ => true) inst (Some inp) (fresh_handler s, g) =
  (fst (call inp s g), (handler_of (call inp s g), snd (snd (call inp s g)))).
Proof. apply surjective_pairing3. Qed.

Definition peer1 := Edhoc03.edhoc03_i_make_msg1 E4_MAX_MSG (peer0, 5).
Definition call1 := call (0 :: value peer1) new_session 9.
Definition peer2 :=
  Edhoc03.edhoc03_i_handle_msg2 (zdrop 1 (type_data (h_request (handler_of call1))))
    E4_MAX_MSG (snd peer1).
Definition call2 := call (0 :: value peer2) (session_of call1) 13.

Lemma wf : wf_inst inst.
Proof. by vm_compute. Qed.
Lemma reach0 : reach_session inst new_session.
Proof. by apply (reach_new inst (fun _ => true) 0 (packet 0 []) _ (packet PW_EAP_REQUEST [1])). Qed.
Lemma wires_ok : bytes_ok (0 :: value peer1) /\ bytes_ok (0 :: value peer2).
Proof. split; apply (bool_decide_unpack _); vm_compute; exact I. Qed.
Lemma reach1 : reach_session inst (session_of call1).
Proof.
  apply (reach_process (C := toy_crypto) inst (fun _ => true) new_session
    (Some (0 :: value peer1)) 9 (fst call1) (handler_of call1) (snd (snd call1))).
  - exact reach0.
  - apply wires_ok.
  - exact (call_run (0 :: value peer1) new_session 9).
  - vm_compute. discriminate.
  - vm_compute. reflexivity.
Qed.
End ToyServer.

Lemma eap_success_verified_witness :
  fst ToyServer.call2 = Ok tt /\
  code (h_request (ToyServer.handler_of ToyServer.call2)) = PW_EAP_SUCCESS /\
  exists s', opaque (ToyServer.handler_of ToyServer.call2) = Some s' /\
    success (C := toy_crypto) ToyServer.inst s' [] (h_reply (ToyServer.handler_of ToyServer.call2)).
Proof.
  assert (Hc : code (h_request (ToyServer.handler_of ToyServer.call2)) = PW_EAP_SUCCESS)
    by (vm_compute; reflexivity).
  destruct (eap_success_verified (CL := toy_laws) ToyServer.inst ToyServer.wf (fun _ => true)
    (ToyServer.session_of ToyServer.call1) (Some (0 :: ToyServer.value ToyServer.peer2)) 13
    (fst ToyServer.call2) (ToyServer.handler_of ToyServer.call2) (snd (snd ToyServer.call2))
    ToyServer.reach1 (proj2 ToyServer.wires_ok)
    (ToyServer.call_run (0 :: ToyServer.value ToyServer.peer2)
       (ToyServer.session_of ToyServer.call1) 13)) as [(H1 & H2 & H3)|[H _]].
  - vm_compute. discriminate.
  - exact (conj H2 (conj H1 H3)).
  - destruct (H Hc).
Defined.


(** The server's credential files, as keygen and keygen03 leave them. *)
Module ToyFiles.
Definition fs0 : filesystem :=
  {| fs_files := ∅; fs_writable := fun _ => true; fs_room := 100000 |}.
Definition fs : filesystem :=
  let fs := snd (Edhoc4.edhoc4_creds_save (Some "s.creds"%string) (Some (server ToyServer.inst)) fs0) in
  let fs := snd (Edhoc4.edhoc4_pub_save (Some "u.pub"%string) (Some Edhoc4Facts.ToyCreds.ue) fs) in
  let fs := snd (Edhoc03.edhoc03_creds_save (Some "s3.creds"%string)
                   (Some (server03 ToyServer.inst)) fs) in
  snd (Edhoc03.edhoc03_pub_save (Some "u3.pub"%string) (Some Edhoc03Facts.ToyCreds.ue) fs).
End ToyFiles.

Lemma mod_instantiate_wf_witness :
  mod_instantiate (fun _ => true) 0 0 (Some "s.creds") (Some "u.pub") (Some "s3.creds")
    (Some "u3.pub") ToyFiles.fs = Ok ToyServer.inst /\
  wf_inst ToyServer.inst /\
  (have03 ToyServer.inst = true <->
   Some "s3.creds"%string <> None /\ Some "u3.pub"%string <> None).
Proof.
  assert (E : mod_instantiate (fun _ => true) 0 0 (Some "s.creds"%string) (Some "u.pub"%string)
    (Some "s3.creds"%string) (Some "u3.pub"%string) ToyFiles.fs = Ok ToyServer.inst)
    by (vm_compute; reflexivity).
  exact (conj E (mod_instantiate_wf _ _ _ _ _ _ _ _ _ E)).
Defined.
