(* ===== verification/EapPeer.v ===== *)
(** * EapPeer: the EAP-EDHOC initiator engine, benchmark/e2e_radius_bench.c

    [eng_react] answers each EAP-Request/EDHOC with one EAP-Response: it
    reassembles the incoming fragments, runs the initiator of one of the two
    cores, and fragments what it sends.  The RADIUS side of the file (attribute
    packing, [build_access_request], [parse_reply], the exchange with
    retransmissions) is modelled in BenchRadius. *)
From stdpp Require Import base gmap numbers list option strings.
From Stdlib Require Import ZArith Lia.
From S2P Require Import Prelude Crypto Hkdf Files Frag.
From S2P Require Edhoc4 Edhoc03.
Import Edhoc4(E4_MAX_MSG).
Local Open Scope c_scope.

Record eng_t := {
  method : Z;
  classical : bool;
  c3 : Edhoc03.edhoc03_ctx;
  c4 : Edhoc4.edhoc4_ctx;
  step : Z;
  done : Z;
  failed : Z;
  e_in : bytes;
  e_in_len : Z;
  e_in_pos : Z;
  e_out : bytes;
  e_out_len : Z;
  e_out_pos : Z;
  msg_bytes : list Z;
  msg_frags : list Z;
  cur_out_msg : Z;
  cur_in_msg : Z;
  msk : bytes
}.

Definition eta_eng (e : eng_t) : eng_t := {|
  method := method e; classical := classical e; c3 := c3 e; c4 := c4 e; step := step e;
  done := done e; failed := failed e; e_in := e_in e; e_in_len := e_in_len e;
  e_in_pos := e_in_pos e; e_out := e_out e; e_out_len := e_out_len e;
  e_out_pos := e_out_pos e; msg_bytes := msg_bytes e; msg_frags := msg_frags e;
  cur_out_msg := cur_out_msg e; cur_in_msg := cur_in_msg e; msk := msk e |}.
Section setters.
Implicit Type e : eng_t.
Definition set_c3 (v : Edhoc03.edhoc03_ctx) e : eng_t := ltac:(derive_set eta_eng c3 v e).
Definition set_c4 (v : Edhoc4.edhoc4_ctx) e : eng_t := ltac:(derive_set eta_eng c4 v e).
Definition set_step (v : Z) e : eng_t := ltac:(derive_set eta_eng step v e).
Definition set_in (v : bytes) e : eng_t := ltac:(derive_set eta_eng e_in v e).
Definition set_in_len (v : Z) e : eng_t := ltac:(derive_set eta_eng e_in_len v e).
Definition set_in_pos (v : Z) e : eng_t := ltac:(derive_set eta_eng e_in_pos v e).
Definition set_out (v : bytes) e : eng_t := ltac:(derive_set eta_eng e_out v e).
Definition set_out_len (v : Z) e : eng_t := ltac:(derive_set eta_eng e_out_len v e).
Definition set_out_pos (v : Z) e : eng_t := ltac:(derive_set eta_eng e_out_pos v e).
Definition set_msg_bytes (v : list Z) e : eng_t := ltac:(derive_set eta_eng msg_bytes v e).
Definition set_msg_frags (v : list Z) e : eng_t := ltac:(derive_set eta_eng msg_frags v e).
Definition set_cur_out_msg (v : Z) e : eng_t := ltac:(derive_set eta_eng cur_out_msg v e).
Definition set_cur_in_msg (v : Z) e : eng_t := ltac:(derive_set eta_eng cur_in_msg v e).
Definition set_msk (v : bytes) e : eng_t := ltac:(derive_set eta_eng msk v e).
End setters.

Ltac fields_eng :=
  cbn [method classical c3 c4 step done failed e_in e_in_len e_in_pos e_out e_out_len
       e_out_pos msg_bytes msg_frags cur_out_msg cur_in_msg msk
       set_c3 set_c4 set_step set_in set_in_len set_in_pos set_out set_out_len set_out_pos
       set_msg_bytes set_msg_frags set_cur_out_msg set_cur_in_msg set_msk fst snd id].

(** [e->msg_frags\[i\]++] and [e->msg_bytes\[i\] = v]. *)
Definition count_frag (i : Z) (e : eng_t) : eng_t :=
  set_msg_frags (<[Z.to_nat i := nth (Z.to_nat i) (msg_frags e) 0 + 1]> (msg_frags e)) e.
Definition note_bytes (i v : Z) (e : eng_t) : eng_t :=
  set_msg_bytes (<[Z.to_nat i := v]> (msg_bytes e)) e.

Definition in_1_4 (i : Z) : bool := (1 <=? i) && (i <=? 4).

(** [memset(&e, 0, sizeof(e))] and the two fields [run_handshake] sets. *)
Definition zero_eng (m : Z) : eng_t := {|
  method := m; classical := m <=? 3; c3 := Edhoc03.zero_ctx; c4 := Edhoc4.zero_ctx;
  step := 0; done := 0; failed := 0;
  e_in := zreplicate E4_MAX_MSG 0; e_in_len := 0; e_in_pos := 0;
  e_out := zreplicate E4_MAX_MSG 0; e_out_len := 0; e_out_pos := 0;
  msg_bytes := zreplicate 5 0; msg_frags := zreplicate 5 0;
  cur_out_msg := 0; cur_in_msg := 0; msk := zreplicate 64 0 |}.

(** ** Fragmentation *)
Definition eng_send_fragment : M eng_t bytes :=
  let first_cap :=
    E4_EDHOC_FRAG_WIRE_MAX - E4_EDHOC_FRAG_HDR_LEN - E4_EDHOC_FRAG_LEN_LEN in
  let next_cap := E4_EDHOC_FRAG_WIRE_MAX - E4_EDHOC_FRAG_HDR_LEN in
  let! e := gets id in
  let remaining := u64 (e_out_len e - e_out_pos e) in
  let frag_cap := if e_out_pos e =? 0 then first_cap else next_cap in
  let frag_len := if remaining <? frag_cap then remaining else frag_cap in
  let add_len := (e_out_pos e =? 0) && (frag_len <? remaining) in
  let wire :=
    [Z.lor (if frag_len <? remaining then E4_EDHOC_FRAG_FLAG_MORE else 0)
           (if add_len then E4_EDHOC_FRAG_FLAG_LEN else 0)] ++
    (if add_len then be16 (u16 (e_out_len e)) else []) ++
    sub (e_out e) (e_out_pos e) frag_len in
  crash_if ((E4_MAX_MSG <? e_out_pos e + frag_len) ||
            (E4_EDHOC_FRAG_WIRE_MAX <? zlen wire)) ;;;
  modify (fun e => set_out_pos (e_out_pos e + frag_len) e) ;;;
  modify (fun e => if in_1_4 (cur_out_msg e) then count_frag (cur_out_msg e) e else e) ;;;
  modify (fun e => if e_out_len e <=? e_out_pos e
                   then set_out_pos 0 (set_out_len 0 e) else e) ;;;
  ret wire.

Definition eng_queue_outgoing (which : Z) : M eng_t bytes :=
  let first_cap :=
    E4_EDHOC_FRAG_WIRE_MAX - E4_EDHOC_FRAG_HDR_LEN - E4_EDHOC_FRAG_LEN_LEN in
  let! len := gets e_out_len in
  modify (set_cur_out_msg which) ;;;
  modify (note_bytes which len) ;;;
  if len <=? first_cap then
    let! e := gets id in
    let wire := [0x00] ++ ztake len (e_out e) in
    modify (count_frag which) ;;;
    modify (fun e => set_out_pos 0 (set_out_len 0 e)) ;;;
    ret wire
  else
    modify (set_out_pos 0) ;;;
    eng_send_fragment.

Definition eng_consume (inp : option bytes) : M eng_t (bytes * bool) :=
  match inp with
  | None => fail (-3)
  | Some inp =>
      return_if (zlen inp =? 0) (-3) ;;;
      let flags := byte_at inp 0 in
      let! pos :=
        if negb (Z.land flags E4_EDHOC_FRAG_FLAG_LEN =? 0) then
          return_if (zlen inp <? 3) (-3) ;;;
          let total := rd16 (byte_at inp 1) (byte_at inp 2) in
          return_if ((total =? 0) || (E4_MAX_MSG <? total)) (-2) ;;;
          let! e := gets id in
          if e_in_len e =? 0 then
            modify (set_in_len total) ;;; modify (set_in_pos 0) ;;; ret 3
          else return_if (negb (e_in_len e =? total)) (-3) ;;; ret 3
        else ret 1 in
      return_if (zlen inp <? pos) (-3) ;;;
      let! e := gets id in
      if negb (e_in_len e =? 0) then
        let payload := zlen inp - pos in
        return_if (e_in_len e <? e_in_pos e + payload) (-2) ;;;
        crash_if (E4_MAX_MSG <? e_in_pos e + payload) ;;;
        modify (fun e => set_in (splice (e_in e) (e_in_pos e) (zdrop pos inp)) e) ;;;
        modify (fun e => set_in_pos (e_in_pos e + payload) e) ;;;
        modify (fun e => if in_1_4 (cur_in_msg e) then count_frag (cur_in_msg e) e else e) ;;;
        if negb (Z.land flags E4_EDHOC_FRAG_FLAG_MORE =? 0) then ret ([], true)
        else
          let! e := gets id in
          return_if (negb (e_in_pos e =? e_in_len e)) (-3) ;;;
          let msg := ztake (e_in_len e) (e_in e) in
          modify (set_in_len 0) ;;; modify (set_in_pos 0) ;;;
          ret (msg, false)
      else
        return_if (negb (Z.land flags E4_EDHOC_FRAG_FLAG_MORE =? 0)) (-3) ;;;
        let msg := zdrop pos inp in
        modify (fun e => if in_1_4 (cur_in_msg e) && (0 <? zlen msg)
                         then count_frag (cur_in_msg e) e else e) ;;;
        ret (msg, false)
  end.

(** ** Reacting to a request *)
Section react.
Context `{C : Crypto}.

Definition on_eng {A} (m : M eng_t A) : M (st eng_t) A :=
  zoom fst (fun t s => (t, snd s)) m.
Definition on_c3 {A} (m : M (st Edhoc03.edhoc03_ctx) A) : M (st eng_t) A :=
  zoom (fun s => (c3 (fst s), snd s)) (fun t s => (set_c3 (fst t) (fst s), snd t)) m.
Definition on_c4 {A} (m : M (st Edhoc4.edhoc4_ctx) A) : M (st eng_t) A :=
  zoom (fun s => (c4 (fst s), snd s)) (fun t s => (set_c4 (fst t) (fst s), snd t)) m.

(** The message a core wrote to [e->out], and [out_len = olen]. *)
Definition put_out (msg : bytes) : M (st eng_t) unit :=
  ctx_set (fun e => set_out_len (zlen msg) (set_out (splice (e_out e) 0 msg) e)).

(** [switch (e->step)]: a complete message. *)
Definition eng_message (msg : bytes) : M (st eng_t) bytes :=
  let! e := ctx_get id in
  if step e =? 0 then
    let! out := or_return (-1)
      (if classical e then on_c3 (Edhoc03.edhoc03_i_make_msg1 E4_MAX_MSG)
       else on_c4 (Edhoc4.edhoc4_i_make_msg1 E4_MAX_MSG)) in
    put_out out ;;;
    ctx_set (set_step 1) ;;;
    ctx_set (set_cur_in_msg 2) ;;;
    on_eng (eng_queue_outgoing 1)
  else if step e =? 1 then
    ctx_set (note_bytes 2 (zlen msg)) ;;;
    let! out := or_return (-1)
      (if classical e then on_c3 (Edhoc03.edhoc03_i_handle_msg2 msg E4_MAX_MSG)
       else on_c4 (Edhoc4.edhoc4_i_handle_msg2 msg E4_MAX_MSG)) in
    put_out out ;;;
    ctx_set (set_step 2) ;;;
    ctx_set (set_cur_in_msg 4) ;;;
    (if classical e then ctx_set (fun e => set_msk (Edhoc03.msk (c3 e)) e) else ret tt) ;;;
    on_eng (eng_queue_outgoing 3)
  else if step e =? 2 then
    ctx_set (note_bytes 4 (zlen msg)) ;;;
    or_return (-1) (on_c4 (Edhoc4.edhoc4_i_handle_msg4 msg)) ;;;
    ctx_set (fun e => set_msk (Edhoc4.msk (c4 e)) e) ;;;
    ctx_set (set_step 3) ;;;
    ret [0x00]
  else fail (-1).

Definition eng_react (inp : option bytes) : M (st eng_t) bytes :=
  let! e := ctx_get id in
  if e_out_pos e <? e_out_len e then on_eng eng_send_fragment
  else
    let! (msg, need_ack) := or_return (-1) (on_eng (eng_consume inp)) in
    if need_ack : bool then ret [0x00]
    else eng_message msg.
End react.

(** [load_creds]: the files of the credentials directory. *)
Definition path_in (dir name : string) : string := String.substring 0 511 (dir +:+ "/" +:+ name).

(** The local credential structures are uninitialised; a load that succeeds
    overwrites all of them, so the zero values stand for their contents. *)
Definition load_creds (dir : string) (fs : filesystem) (e : eng_t) : Z * eng_t :=
  if classical e then
    let '(rc, me) :=
      Edhoc03.edhoc03_creds_load (Some (path_in dir "ue03.creds")) (Some Edhoc03.zero_creds) fs in
    if negb (rc =? Edhoc03.E3_OK) then (-1, e) else
    let '(rc, peer) :=
      Edhoc03.edhoc03_pub_load (Some (path_in dir "server03.pub")) (Some Edhoc03.zero_peer) fs in
    if negb (rc =? Edhoc03.E3_OK) then (-1, e) else
    (0, set_c3 (Edhoc03.edhoc03_init_initiator (method e)
                  (default Edhoc03.zero_creds me) (default Edhoc03.zero_peer peer)) e)
  else
    let '(rc, me) :=
      Edhoc4.edhoc4_creds_load (Some (path_in dir "ue.creds"))
        (Some (Edhoc4.self Edhoc4.zero_ctx)) fs in
    if negb (rc =? Edhoc4.E4_OK) then (-1, e) else
    let '(rc, pk) :=
      Edhoc4.edhoc4_pub_load (Some (path_in dir "server.pub"))
        (Some (Edhoc4.peer_kem_pk Edhoc4.zero_ctx)) fs in
    if negb (rc =? Edhoc4.E4_OK) then (-1, e) else
    (0, set_c4 (Edhoc4.edhoc4_init_initiator
                  (default (Edhoc4.self Edhoc4.zero_ctx) me)
                  (default (Edhoc4.peer_kem_pk Edhoc4.zero_ctx) pk)) e).
