(* ===== verification/PeerFacts.v ===== *)
(** * PeerFacts: correctness of the EAP-EDHOC initiator engine

    The engine's fragmentation refines Frag's sender and receiver, up to the
    traffic counters it keeps; its invariant is kept on every input. *)
From stdpp Require Import base gmap numbers list option strings.
From Stdlib Require Import ZArith Lia.
From S2P Require Import Prelude Crypto Hkdf Files Frag EapPeer.
From S2P Require Edhoc4 Edhoc4Safety Edhoc03 Edhoc03Facts Edhoc03Auth.
Import Edhoc4(E4_MAX_MSG).
Local Open Scope c_scope.

(** ** Receiving refines [reassemble] *)
Definition eng_rbuf (e : eng_t) : rbuf :=
  {| r_len := e_in_len e; r_pos := e_in_pos e; r_data := e_in e |}.
Definition put_eng_rbuf (b : rbuf) (e : eng_t) : eng_t :=
  set_in_pos (r_pos b) (set_in_len (r_len b) (set_in (r_data b) e)).

Definition eng_outcome (r : res consumed) : res (bytes * bool) :=
  match r with
  | Ok NeedAck => Ok ([], true)
  | Ok (Message m) => Ok (m, false)
  | Err rc => Err rc
  | Fault => Fault
  end.

(** Only the fragment counters depend on more than the reassembly state. *)
Definition up_to_frags {A} (r : res A * eng_t) (a : res A) (e : eng_t) : Prop :=
  exists mf, r = (a, set_msg_frags mf e).

Lemma up_to_frags_refl {A} (a : res A) e : up_to_frags (a, e) a e.
Proof. exists (msg_frags e). by destruct e. Qed.
Lemma up_to_frags_set {A} (a : res A) mf e : up_to_frags (a, set_msg_frags mf e) a e.
Proof. by exists mf. Qed.

Ltac branch :=
  match goal with
  | |- context [if ?b then _ else _] => destruct b
  end.
Ltac eng_simpl Hcim :=
  unfold count_frag;
  do 2 (fields_eng; rewrite ?Hcim; cbn [negb id andb r_len r_pos r_data eng_outcome]).

Lemma eng_consume_refines e wire :
  zlen (e_in e) = frag_max ->
  let '(r, b) := reassemble (-3) (-2) wire (eng_rbuf e) in
  up_to_frags (eng_consume (Some wire) e) (eng_outcome r) (put_eng_rbuf b e).
Proof.
  intros Hbuf. unfold eng_consume, reassemble.
  unfold bind, return_if, crash_if, gets, modify, ret, fail, crash.
  change E4_EDHOC_FRAG_FLAG_LEN with 0x80. change E4_EDHOC_FRAG_FLAG_MORE with 0x40.
  change E4_MAX_MSG with frag_max. pose proof (zlen_nonneg wire).
  assert (Hput : forall e, put_eng_rbuf (eng_rbuf e) e = e) by by intros [].
  destruct (Z.eqb_spec (zlen wire) 0) as [H0|H0]; [rewrite Hput; apply up_to_frags_refl|].
  assert (zlen (zdrop 1 wire) = zlen wire - 1) as E1 by zl.
  clear Hput. destruct e as [m cl k3 k4 s0 d0 f0 ib il ip ob ol op mb mf com cim key].
  change (zlen ib = frag_max) in Hbuf. unfold eng_rbuf, put_eng_rbuf. fields_eng.
  destruct (in_1_4 cim) eqn:Hcim;
  destruct (Z.land (byte_at wire 0) 128 =? 0); cbn [negb id r_len r_pos r_data].
  1, 3: destruct (Z.ltb_spec (zlen wire) 1); [lia|]; fields_eng; cbn [r_len r_pos r_data];
    rewrite E1, Hbuf; clear E1;
    repeat (eng_simpl Hcim; branch); eng_simpl Hcim; eexists; reflexivity.
  all: destruct (Z.ltb_spec (zlen wire) 3); [eexists; reflexivity|];
    assert (zlen (zdrop 3 wire) = zlen wire - 3) as E3 by zl;
    (destruct (_ || _); [eexists; reflexivity|]); fields_eng; cbn [r_len r_pos r_data];
    (destruct (_ =? 0); [|destruct (negb (_ =? _)); [eexists; reflexivity|]]).
  all: fields_eng; cbn [r_len r_pos r_data id]; rewrite E3, Hbuf;
      destruct (Z.ltb_spec (zlen wire) 3); [lia|]; clear E3;
      repeat (eng_simpl Hcim; branch); eng_simpl Hcim; eexists; reflexivity.
Qed.

(** ** Sending produces [send_wire] *)
Definition eng_pending (e : eng_t) : bytes := ztake (e_out_len e) (e_out e).
Definition eng_after (e : eng_t) : eng_t :=
  let pos := e_out_pos e + frag_len (eng_pending e) (e_out_pos e) in
  if e_out_len e <=? pos then set_out_pos 0 (set_out_len 0 e) else set_out_pos pos e.

Record eng_out_ok (e : eng_t) : Prop := {
  eb_out : zlen (e_out e) = frag_max;
  eb_pos : 0 <= e_out_pos e <= e_out_len e;
  eb_len : e_out_len e <= frag_max
}.

Lemma eng_pending_len e : eng_out_ok e -> zlen (eng_pending e) = e_out_len e.
Proof. intros [? ? ?]. unfold eng_pending. rewrite zlen_ztake. lia. Qed.

Lemma eng_send_wire e :
  eng_out_ok e -> e_out_pos e < e_out_len e \/ e_out_pos e = 0 ->
  up_to_frags (eng_send_fragment e) (Ok (send_wire (eng_pending e) (e_out_pos e))) (eng_after e).
Proof.
  intros He Hpos. pose proof (eng_pending_len e He) as Hpl. destruct He as [Hout Hp Hl].
  unfold eng_send_fragment, bind, crash_if, gets, modify, ret, crash. cbv zeta.
  change (E4_EDHOC_FRAG_WIRE_MAX - E4_EDHOC_FRAG_HDR_LEN - E4_EDHOC_FRAG_LEN_LEN) with first_cap.
  change (E4_EDHOC_FRAG_WIRE_MAX - E4_EDHOC_FRAG_HDR_LEN) with next_cap.
  change E4_MAX_MSG with frag_max. assert (frag_max = 8192) as Hfm by done. unfold id.
  assert (u64 (e_out_len e - e_out_pos e) = e_out_len e - e_out_pos e) as ->.
  { unfold u64. apply Z.mod_small. lia. }
  assert (Hfl : (if e_out_len e - e_out_pos e <? (if e_out_pos e =? 0 then first_cap else next_cap)
    then e_out_len e - e_out_pos e else (if e_out_pos e =? 0 then first_cap else next_cap))
    = frag_len (eng_pending e) (e_out_pos e)).
  { unfold frag_len. rewrite Hpl. destruct (Z.ltb_spec (e_out_len e - e_out_pos e)
      (if e_out_pos e =? 0 then first_cap else next_cap)); lia. }
  rewrite Hfl. clear Hfl. pose proof (zlen_send_wire (eng_pending e) (e_out_pos e)) as Hwl.
  set (n := frag_len (eng_pending e) (e_out_pos e)) in *.
  assert (0 <= n <= e_out_len e - e_out_pos e) as Hn.
  { unfold n, frag_len. rewrite Hpl. change first_cap with 997. change next_cap with 999.
    destruct (e_out_pos e =? 0); lia. }
  assert (Hsub : sub (eng_pending e) (e_out_pos e) n = sub (e_out e) (e_out_pos e) n).
  { unfold eng_pending, sub. replace (e_out_len e) with (e_out_pos e + (e_out_len e - e_out_pos e))
      at 1 by lia. rewrite zdrop_ztake, ztake_ztake by lia. f_equal. lia. }
  assert (Hw : [Z.lor (if n <? e_out_len e - e_out_pos e then E4_EDHOC_FRAG_FLAG_MORE else 0)
      (if (e_out_pos e =? 0) && (n <? e_out_len e - e_out_pos e) then E4_EDHOC_FRAG_FLAG_LEN else 0)] ++
    (if (e_out_pos e =? 0) && (n <? e_out_len e - e_out_pos e)
     then be16 (u16 (e_out_len e)) else []) ++
    sub (e_out e) (e_out_pos e) n = send_wire (eng_pending e) (e_out_pos e)).
  { unfold send_wire. fold n. rewrite Hpl, Hsub, u16_small by lia. reflexivity. }
  rewrite Hw. clear Hw.
  assert ((frag_max <? e_out_pos e + n) ||
    (E4_EDHOC_FRAG_WIRE_MAX <? zlen (send_wire (eng_pending e) (e_out_pos e))) = false) as ->.
  { apply orb_false_iff. rewrite Hpl in Hwl. split; apply Z.ltb_ge; lia. }
  fields_eng. unfold eng_after. fold n. destruct (in_1_4 _); unfold count_frag; fields_eng;
    destruct (_ <=? _); by eexists.
Qed.

(** A whole message in the output buffer. *)
Lemma eng_queue_wire which e :
  eng_out_ok e ->
  exists mb mf, eng_queue_outgoing which e =
    (Ok (send_wire (eng_pending e) 0),
     set_msg_frags mf (set_msg_bytes mb (set_cur_out_msg which (eng_after (set_out_pos 0 e))))).
Proof.
  intros He. pose proof (eng_pending_len e He) as Hpl. pose proof He as [Hout Hp Hl].
  unfold eng_queue_outgoing, bind, gets, modify. cbv zeta.
  change (E4_EDHOC_FRAG_WIRE_MAX - E4_EDHOC_FRAG_HDR_LEN - E4_EDHOC_FRAG_LEN_LEN) with first_cap.
  fields_eng. destruct (Z.leb_spec (e_out_len e) first_cap) as [Hs|Hb].
  - unfold ret. fields_eng.
    assert (frag_len (eng_pending e) 0 = e_out_len e) as Hfl.
    { unfold frag_len. rewrite Hpl. cbn. lia. }
    assert (send_wire (eng_pending e) 0 = [0] ++ ztake (e_out_len e) (e_out e)) as ->.
    { rewrite send_wire_plain; rewrite Hfl, Hpl, Z.sub_0_r, Z.ltb_irrefl; [|done].
      rewrite sub_all; [done|done|]. by rewrite Hpl. }
    unfold eng_after. fields_eng.
    change (eng_pending (set_out_pos 0 e)) with (eng_pending e).
    rewrite Hfl, Z.add_0_l, Z.leb_refl. by destruct e; do 2 eexists.
  - match goal with |- context [eng_send_fragment ?x] => set (e' := x) end.
    assert (He' : eng_out_ok e') by (split; unfold e', note_bytes; fields_eng; [done|lia|done]).
    destruct (eng_send_wire e' He' ltac:(by right)) as [mf ->].
    exists (msg_bytes e'), mf. change (eng_pending e') with (eng_pending e).
    change (e_out_pos e') with 0. do 2 f_equal.
    unfold eng_after. change (eng_pending e') with (eng_pending e).
    change (e_out_len e') with (e_out_len e). change (e_out_pos e') with 0. fields_eng.
    change (eng_pending (set_out_pos 0 e)) with (eng_pending e).
    by destruct (_ <=? _), e.
Qed.

(** ** The invariant of the engine *)
Section invariant.
Context `{CL : CryptoLaws}.

Record eng_inv (e : eng_t) : Prop := {
  ei_in : rbuf_ok (eng_rbuf e);
  ei_out : eng_out_ok e;
  ei_pos : e_out_pos e < e_out_len e \/ e_out_pos e = 0;
  ei_c4 : Edhoc4Safety.wf4 (c4 e);
  ei_c3 : Edhoc03Auth.wf_self (Edhoc03.self (c3 e))
}.

(** The invariant only looks at some of the fields. *)
Ltac same_inv :=
  match goal with
  | H : eng_inv _ |- eng_inv _ =>
      destruct H as [? [? ? ?] ? ? ?]; split; [assumption|split; assumption|assumption..]
  end.

(** A message that overflows a plaintext buffer of the initiator's core. *)
Definition eng_overlong (e : eng_t) (msg : bytes) : Prop :=
  (step e = 1 /\ (if classical e then Edhoc03Auth.overlong (Edhoc03Auth.HandleMsg2 msg)
                  else Edhoc4Safety.overlong (Edhoc4Safety.HandleMsg2 msg))) \/
  (step e = 2 /\ Edhoc4Safety.overlong (Edhoc4Safety.HandleMsg4 msg)).

Definition eng_fault (e : eng_t) (inp : option bytes) : Prop :=
  exists msg e', eng_consume inp e = (Ok (msg, false), e') /\ eng_overlong e' msg.

Lemma eng_consume_ht inp e :
  match inp with Some w => bytes_ok w | None => True end -> eng_inv e ->
  ht (eng_consume inp) (fun _ => eng_inv) (fun _ => eng_inv) (fun _ => False) e.
Proof.
  intros Hw He. destruct inp as [w|]; [|exact He].
  pose proof (reassemble_ht (-3) (-2) w (eng_rbuf e) Hw (ei_in e He)) as H.
  pose proof (eng_consume_refines e w (rb_data _ (ei_in e He))) as Hr.
  unfold ht, post in *. destruct (reassemble _ _ w (eng_rbuf e)) as [r b].
  destruct Hr as [mf ->]. destruct He as [_ [? ? ?] ? ? ?].
  assert (Hi : rbuf_ok b -> eng_inv (set_msg_frags mf (put_eng_rbuf b e))).
  { intros [? ? ?]. split; [by split|by split|done..]. }
  destruct r as [[|m]|rc|]; cbn [eng_outcome]; [by apply Hi..| |done]. by apply Hi, H.
Qed.

Lemma eng_after_inv e mf :
  eng_inv e -> e_out_pos e < e_out_len e \/ e_out_pos e = 0 ->
  eng_inv (set_msg_frags mf (eng_after e)) /\
  zlen (send_wire (eng_pending e) (e_out_pos e)) <= E4_EDHOC_FRAG_WIRE_MAX.
Proof.
  intros He Hp. pose proof (eng_pending_len e (ei_out e He)) as Hpl.
  destruct He as [[] [? ? ?] ? ? ?]. split; [|apply zlen_send_wire; lia].
  assert (0 <= frag_len (eng_pending e) (e_out_pos e) <= e_out_len e - e_out_pos e).
  { unfold frag_len. rewrite Hpl. change first_cap with 997. change next_cap with 999.
    destruct (e_out_pos e =? 0); lia. }
  unfold eng_after.
  destruct (Z.leb_spec (e_out_len e) (e_out_pos e + frag_len (eng_pending e) (e_out_pos e)));
    (split; [by split| |by (left; fields_eng; lia) || by right|done..]);
    split; fields_eng; try done; try lia; unfold frag_max; lia.
Qed.

Lemma eng_send_ht e (E : Z -> eng_t -> Prop) F :
  eng_inv e ->
  ht eng_send_fragment (fun w e' => eng_inv e' /\ zlen w <= E4_EDHOC_FRAG_WIRE_MAX) E F e.
Proof.
  intros He. unfold ht, post. destruct (eng_send_wire e (ei_out e He) (ei_pos e He)) as [mf ->].
  apply eng_after_inv; [done|apply He].
Qed.

(** What a core leaves in the output buffer is queued. *)
Lemma eng_queue_ht which e (E : Z -> eng_t -> Prop) F :
  eng_inv e -> e_out_pos e = 0 ->
  ht (eng_queue_outgoing which)
     (fun w e' => eng_inv e' /\ zlen w <= E4_EDHOC_FRAG_WIRE_MAX) E F e.
Proof.
  intros He Hp. unfold ht, post.
  destruct (eng_queue_wire which e (ei_out e He)) as (mb & mf & ->).
  assert (set_out_pos 0 e = e) as -> by (rewrite <-Hp at 1; by destruct e).
  destruct (eng_after_inv e mf He ltac:(by right)) as [H Hl]. rewrite Hp in Hl.
  split; [|done]. same_inv.
Qed.

Lemma put_out_inv out e :
  eng_inv e -> e_out_pos e = 0 -> zlen out <= E4_MAX_MSG ->
  eng_inv (set_out_len (zlen out) (set_out (splice (e_out e) 0 out) e)).
Proof.
  intros [? [? ? ?] ? ? ?] Hp Hl. change E4_MAX_MSG with frag_max in Hl.
  pose proof (zlen_nonneg out).
  split; [done| |right; exact Hp|done..].
  split; fields_eng; [rewrite zlen_splice; lia|lia|lia].
Qed.

(** Answering: the message a core returns is queued, an error is -1. *)
Definition answer_post (w : bytes) (s' : st eng_t) : Prop :=
  eng_inv (fst s') /\ zlen w <= E4_EDHOC_FRAG_WIRE_MAX.
Definition abort_post (rc : Z) (s' : st eng_t) : Prop := rc = -1 /\ eng_inv (fst s').

Lemma on_c4_ht (m : M (st Edhoc4.edhoc4_ctx) bytes) (over : Prop) e g Q (F : st eng_t -> Prop) :
  eng_inv e ->
  ht m (fun out s' => Edhoc4Safety.wf4 (fst s') /\ zlen out <= E4_MAX_MSG)
     (fun _ s' => Edhoc4Safety.wf4 (fst s')) (fun _ => over) (c4 e, g) ->
  (forall out c g', Edhoc4Safety.wf4 c -> zlen out <= E4_MAX_MSG -> Q out (set_c4 c e, g')) ->
  (over -> forall s', F s') ->
  ht (or_return (-1) (on_c4 m)) Q abort_post F (e, g).
Proof.
  intros [? [] ? ? ?] Hm HQ HF. apply ht_or_return, ht_zoom. eapply ht_mono; [..|exact Hm].
  - intros out [c g'] [? ?]. by apply HQ.
  - intros _ [c g'] ?. split; [done|]. by split.
  - intros s' Ho. by apply HF.
Qed.

Lemma on_c3_ht (m : M (st Edhoc03.edhoc03_ctx) bytes) (over : Prop) e g Q (F : st eng_t -> Prop) :
  eng_inv e ->
  ht m (fun out s' => Edhoc03Auth.wf_self (Edhoc03.self (fst s')) /\ zlen out <= E4_MAX_MSG)
     (fun _ s' => Edhoc03Auth.wf_self (Edhoc03.self (fst s'))) (fun _ => over) (c3 e, g) ->
  (forall out c g', Edhoc03Auth.wf_self (Edhoc03.self c) -> zlen out <= E4_MAX_MSG ->
     Q out (set_c3 c e, g')) ->
  (over -> forall s', F s') ->
  ht (or_return (-1) (on_c3 m)) Q abort_post F (e, g).
Proof.
  intros [? [] ? ? ?] Hm HQ HF. apply ht_or_return, ht_zoom. eapply ht_mono; [..|exact Hm].
  - intros out [c g'] [? ?]. by apply HQ.
  - intros _ [c g'] ?. split; [done|]. by split.
  - intros s' Ho. by apply HF.
Qed.

Lemma exec4_for_engine k c g :
  Edhoc4Safety.wf4 c ->
  ht (Edhoc4Safety.exec4 k E4_MAX_MSG)
     (fun out s' => Edhoc4Safety.wf4 (fst s') /\ zlen out <= E4_MAX_MSG)
     (fun _ s' => Edhoc4Safety.wf4 (fst s')) (fun _ => Edhoc4Safety.overlong k) (c, g).
Proof.
  intros Hc. eapply ht_mono; [..|exact (Edhoc4Safety.exec4_safe_ht k E4_MAX_MSG c g Hc)]; cbn beta.
  - intros out s' (? & _ & [-> | ?]); split; done.
  - by intros ? ? [? _].
  - by intros ? [_ ?].
Qed.

Lemma exec3_for_engine k c g :
  Edhoc03Auth.wf_self (Edhoc03.self c) ->
  ht (Edhoc03Auth.exec3 k E4_MAX_MSG)
     (fun out s' => Edhoc03Auth.wf_self (Edhoc03.self (fst s')) /\ zlen out <= E4_MAX_MSG)
     (fun _ s' => Edhoc03Auth.wf_self (Edhoc03.self (fst s')))
     (fun _ => Edhoc03Auth.overlong k) (c, g).
Proof.
  intros Hc. eapply ht_mono; [..|exact (Edhoc03Auth.exec3_safe_ht k E4_MAX_MSG c g Hc)]; cbn beta.
  - intros out s' [[-> _] ?]. by split.
  - by intros ? ? [[-> _] _].
  - by intros ? [_ ?].
Qed.

(** The tails of [eng_message] that queue what a core returned. *)
Lemma eng_queued_ht which out e e' g F :
  eng_inv e -> e_out_pos e = 0 -> zlen out <= E4_MAX_MSG ->
  let e1 := set_out_len (zlen out) (set_out (splice (e_out e) 0 out) e) in
  eng_rbuf e' = eng_rbuf e1 -> e_out e' = e_out e1 -> e_out_pos e' = e_out_pos e1 ->
  e_out_len e' = e_out_len e1 -> c4 e' = c4 e -> c3 e' = c3 e ->
  ht (on_eng (eng_queue_outgoing which)) answer_post abort_post F (e', g).
Proof.
  intros He Hp Hl e1 H1 H2 H3 H4 H5 H6. apply ht_zoom. cbn [fst snd].
  destruct (put_out_inv out e He Hp Hl) as [P1 [P2 P3 P4] P5 P6 P7]. fold e1 in P1, P2, P3, P4, P5.
  apply eng_queue_ht; [|by rewrite H3].
  split; rewrite ?H1, ?H5, ?H6; [exact P1| |rewrite H3, H4; exact P5|exact P6|exact P7].
  by split; rewrite ?H2, ?H3, ?H4.
Qed.

(** A message, complete, in an engine that is not sending. *)
Lemma eng_message_ht msg e g :
  eng_inv e -> e_out_pos e = 0 ->
  ht (eng_message msg) answer_post abort_post (fun _ => eng_overlong e msg) (e, g).
Proof.
  intros He Hp. unfold eng_message. apply ht_bind, ht_ctx_get. unfold id.
  destruct (Z.eqb_spec (step e) 0) as [H0|H0].
  { apply ht_bind. destruct (classical e).
    - eapply on_c3_ht; [done|exact (exec3_for_engine Edhoc03Auth.MakeMsg1 _ g (ei_c3 e He))| |done].
      intros out c g' Hc Hl. unfold put_out. do 3 apply ht_bind, ht_ctx_set.
      apply (eng_queued_ht _ out (set_c3 c e)); try done. same_inv.
    - eapply on_c4_ht; [done|exact (exec4_for_engine Edhoc4Safety.MakeMsg1 _ g (ei_c4 e He))| |done].
      intros out c g' Hc Hl. unfold put_out. do 3 apply ht_bind, ht_ctx_set.
      apply (eng_queued_ht _ out (set_c4 c e)); try done. same_inv. }
  destruct (Z.eqb_spec (step e) 1) as [H1|H1].
  { apply ht_bind, ht_ctx_set, ht_bind. set (e1 := note_bytes 2 (zlen msg) e).
    assert (He1 : eng_inv e1) by same_inv. destruct (classical e) eqn:Hcl.
    - eapply on_c3_ht;
        [done|exact (exec3_for_engine (Edhoc03Auth.HandleMsg2 msg) _ g (ei_c3 e1 He1))| |].
      2: { intros Ho _. left. by rewrite Hcl. }
      intros out c g' Hc Hl. unfold put_out. do 4 apply ht_bind, ht_ctx_set.
      apply (eng_queued_ht _ out (set_c3 c e1)); try done. same_inv.
    - eapply on_c4_ht;
        [done|exact (exec4_for_engine (Edhoc4Safety.HandleMsg2 msg) _ g (ei_c4 e1 He1))| |].
      2: { intros Ho _. left. by rewrite Hcl. }
      intros out c g' Hc Hl. unfold put_out. do 3 apply ht_bind, ht_ctx_set.
      apply ht_bind, ht_ret, (eng_queued_ht _ out (set_c4 c e1)); try done. same_inv. }
  destruct (Z.eqb_spec (step e) 2) as [H2|H2]; [|by apply (conj eq_refl He)].
  apply ht_bind, ht_ctx_set, ht_bind. set (e1 := note_bytes 4 (zlen msg) e).
  assert (He1 : eng_inv e1) by same_inv. apply ht_or_return, ht_zoom.
  pose proof (exec4_for_engine (Edhoc4Safety.HandleMsg4 msg) _ g (ei_c4 e1 He1)) as H4.
  unfold Edhoc4Safety.exec4, ht, post, bind in H4 |- *. cbn [fst snd].
  change (c4 (fst (e1, g))) with (c4 e1).
  destruct (Edhoc4.edhoc4_i_handle_msg4 msg (c4 e1, g)) as [[[]|rc|] [c g']]; cbn [fst snd] in *.
  - split; [|done]. cbn [fst snd]. destruct H4 as [H4 _]. same_inv.
  - split; [done|]. cbn [fst snd]. same_inv.
  - by right.
Qed.

(** [eng_react] on any input. *)
Lemma eng_react_ht inp e g :
  match inp with Some w => bytes_ok w | None => True end -> eng_inv e ->
  ht (eng_react inp) answer_post abort_post (fun _ => eng_fault e inp) (e, g).
Proof.
  intros Hw He. unfold eng_react. apply ht_bind, ht_ctx_get. unfold id.
  destruct (Z.ltb_spec (e_out_pos e) (e_out_len e)) as [Hlt|Hge].
  { apply ht_zoom. by apply eng_send_ht. }
  assert (Hp : e_out_pos e = 0) by (pose proof (ei_pos e He); lia).
  pose proof (eng_consume_ht inp e Hw He) as Hc. unfold ht, post in Hc.
  assert (Hpos : forall a e', eng_consume inp e = (a, e') -> e_out_pos e' = e_out_pos e).
  { intros a e' E. destruct inp as [w|]; [|by injection E as <- <-].
    pose proof (eng_consume_refines e w (rb_data _ (ei_in e He))) as Hr.
    destruct (reassemble _ _ w (eng_rbuf e)) as [r b]. destruct Hr as [mf Hr].
    rewrite E in Hr. by injection Hr as -> ->. }
  apply ht_bind, ht_or_return, ht_zoom. cbn [fst snd]. unfold ht at 1, post.
  destruct (eng_consume inp e) as [[[msg ack]|rc|] e1] eqn:Ec; [|done|done].
  destruct ack.
  - by apply ht_ret.
  - eapply ht_mono; [..|apply (eng_message_ht msg e1 g Hc)]; try done.
    + intros s' Ho. by exists msg, e1.
    + by rewrite (Hpos _ _ eq_refl).
Qed.
End invariant.

(** ** Any sequence of requests *)
Inductive reach_eng `{C : Crypto} : eng_t -> Prop :=
  | reach_loaded dir fs m e : load_creds dir fs (zero_eng m) = (0, e) -> reach_eng e
  | reach_reacted e inp g r e' g' :
      reach_eng e -> match inp with Some w => bytes_ok w | None => True end ->
      eng_react inp (e, g) = (r, (e', g')) -> r <> Fault -> reach_eng e'.

Section requests.
Context `{CL : CryptoLaws}.

Lemma load_creds_inv dir fs m e : load_creds dir fs (zero_eng m) = (0, e) -> eng_inv e.
Proof.
  assert (Hz : forall k4 k3, Edhoc4Safety.wf4 k4 -> Edhoc03Auth.wf_self (Edhoc03.self k3) ->
    eng_inv (set_c3 k3 (set_c4 k4 (zero_eng m)))).
  { intros k4 k3 H4 H3. split; [split|split|by right|exact H4|exact H3]; vm_compute;
      first [reflexivity|discriminate|split; discriminate]. }
  assert (H40 : Edhoc4Safety.wf4 Edhoc4.zero_ctx)
    by (split; [apply Edhoc4Safety.zero_creds_wf|];
        repeat match goal with |- _ /\ _ => split end; first [vm_compute; reflexivity|by left]).
  unfold load_creds. change (classical (zero_eng m)) with (m <=? 3). destruct (m <=? 3).
  - destruct (Edhoc03.edhoc03_creds_load _ _ fs) as [rc me] eqn:E1.
    destruct (Z.eqb_spec rc Edhoc03.E3_OK) as [->|]; [|done]. cbn [negb].
    apply Edhoc03Auth.e3_creds_load_wf in E1 as (k & -> & Hk); [|apply Edhoc03Auth.e3_zero_creds_wf].
    destruct (Edhoc03.edhoc03_pub_load _ _ fs) as [rc pub].
    destruct (Z.eqb_spec rc Edhoc03.E3_OK) as [->|]; [|done]. cbn [negb default].
    intros [= <-]. apply (Hz Edhoc4.zero_ctx); [exact H40|]. destruct Hk. by split.
  - destruct (Edhoc4.edhoc4_creds_load _ _ fs) as [rc me] eqn:E1.
    destruct (Z.eqb_spec rc Edhoc4.E4_OK) as [->|]; [|done]. cbn [negb].
    apply Edhoc4Safety.creds_load_wf in E1 as (k & -> & Hk); [|apply Edhoc4Safety.zero_creds_wf].
    destruct (Edhoc4.edhoc4_pub_load _ _ fs) as [rc pub] eqn:E2.
    destruct (Z.eqb_spec rc Edhoc4.E4_OK) as [->|]; [|done]. cbn [negb].
    apply Edhoc4Safety.pub_load_len in E2 as (pk & -> & Hpk); [|reflexivity]. cbn [default].
    intros [= <-]. apply (Hz (Edhoc4.edhoc4_init_initiator k pk) Edhoc03.zero_ctx);
      [|by vm_compute].
    destruct H40 as (_ & _ & H). split; [exact Hk|]. split; [exact Hpk|].
    unfold Edhoc4.edhoc4_init_initiator.
    repeat match goal with |- _ /\ _ => split end; first [vm_compute; reflexivity|by left].
Qed.

Lemma reach_eng_inv e : reach_eng e -> eng_inv e.
Proof.
  induction 1 as [dir fs m e E|e inp g r e' g' _ IH Hin E Hr]; [by eapply load_creds_inv|].
  pose proof (ht_run _ _ _ _ _ (eng_react_ht inp e g Hin IH) _ _ E) as H.
  destruct r as [w|rc|]; [apply H|apply H|done].
Qed.

(** Whatever requests the engine has answered since its credentials were
    loaded, its next answer is at most the 1000 bytes of the caller's array and
    none of its buffers is overrun; an error is always -1 and leaves the engine
    usable.  Undefined behaviour needs a request that completes a message longer
    than a plaintext buffer of the core. *)
Theorem eng_react_bounds e inp g r e' g' :
  reach_eng e -> match inp with Some w => bytes_ok w | None => True end ->
  eng_react inp (e, g) = (r, (e', g')) ->
  match r with
  | Ok w => zlen w <= 1000 /\ eng_inv e'
  | Err rc => rc = -1 /\ eng_inv e'
  | Fault => eng_fault e inp
  end.
Proof.
  intros He%reach_eng_inv Hin E.
  pose proof (ht_run _ _ _ _ _ (eng_react_ht inp e g Hin He) _ _ E) as H.
  destruct r as [w|rc|]; [by destruct H|exact H|exact H].
Qed.
End requests.

Module ToyPeer.
Definition fs0 : filesystem :=
  {| fs_files := ∅; fs_writable := fun _ => true; fs_room := 100000 |}.
Definition fs : filesystem :=
  let fs := snd (Edhoc03.edhoc03_creds_save (Some "d/ue03.creds"%string)
                   (Some Edhoc03Facts.ToyCreds.ue) fs0) in
  snd (Edhoc03.edhoc03_pub_save (Some "d/server03.pub"%string)
         (Some Edhoc03Facts.ToyCreds.srv) fs).
Definition start : eng_t := snd (load_creds "d" fs (zero_eng 3)).
End ToyPeer.

Lemma eng_react_bounds_witness :
  exists w e' g', eng_react (C := toy_crypto) (Some [1]) (ToyPeer.start, 4) = (Ok w, (e', g')) /\
    zlen w <= 1000 /\ eng_inv e'.
Proof.
  set (run := eng_react (C := toy_crypto) (Some [1]) (ToyPeer.start, 4)).
  assert (Hl : load_creds "d" ToyPeer.fs (zero_eng 3) = (0, ToyPeer.start))
    by (vm_compute; reflexivity).
  assert (Hw : bytes_ok [1]) by (repeat constructor; done).
  pose proof (eng_react_bounds (CL := toy_laws) ToyPeer.start (Some [1]) 4
    (fst run) (fst (snd run)) (snd (snd run))
    (reach_loaded (C := toy_crypto) "d" ToyPeer.fs 3 ToyPeer.start Hl) Hw
    (surjective_pairing3 run)) as H.
  assert (Hok : exists w, fst run = Ok w) by (eexists; vm_compute; reflexivity).
  destruct Hok as [w Hok]. exists w, (fst (snd run)), (snd (snd run)). rewrite Hok in H.
  split; [|exact H]. rewrite <-Hok. apply surjective_pairing3.
Defined.
