(* ===== verification/Conversation.v ===== *)
(** * Conversation: the two ends of EAP-EDHOC joined

    [converse] passes each EAP-Request of the module to the peer's engine and
    each answer back to [mod_process], as the RADIUS exchange of
    e2e_radius_bench.c does, until EAP-Success.  The transfer lemmas carry a
    message of any length from one end to the other through fragments and
    acknowledgements; the theorems are the end-to-end result for every method. *)
From stdpp Require Import base gmap numbers list option strings.
From Stdlib Require Import ZArith Lia.
From S2P Require Import Prelude Crypto Hkdf Files Frag Responder RlmEapEdhoc RlmFacts EapPeer PeerFacts.
From S2P Require Edhoc4 Edhoc4Facts Edhoc4Safety Edhoc03 Edhoc03Facts Edhoc03Auth.
Import Edhoc4(E4_MAX_MSG).
Local Open Scope c_scope.

Section conversation.
Context `{C : Crypto}.
Variable talloc : Z -> bool.
Variable inst : rlm_eap_edhoc_t.

Abbreviation link := (eng_t * edhoc_session_t)%type.

Definition on_peer {A} (m : M (st eng_t) A) : M (st link) A :=
  zoom (fun s => (fst (fst s), snd s)) (fun t s => ((fst t, snd (fst s)), snd t)) m.

(** One call of the module: the packet it builds and the reply pairs. *)
Definition on_server (m : M (st proc) unit) : M (st link) (eap_request * list (string * bytes)) :=
  fun '((e, s), g) =>
    let '(r, (p, g')) :=
      m ({| sess := s; request := blank_request;
            reply := [] |}, g) in
    let s' := ((e, sess p), g') in
    match r with
    | Ok _ => (Ok (request p, reply p), s')
    | Err rc => (Err rc, s')
    | Fault => (Fault, s')
    end.

(** [n] bounds the number of EAP-Requests the peer answers. *)
Definition conclude (k : bytes -> M (st link) (list (string * bytes)))
    (r : eap_request * list (string * bytes)) : M (st link) (list (string * bytes)) :=
  if code (fst r) =? PW_EAP_SUCCESS then ret (snd r) else k (type_data (fst r)).

Fixpoint converse (n : nat) (req : bytes) : M (st link) (list (string * bytes)) :=
  match n with
  | O => fail (-1)
  | S n =>
      let! wire := on_peer (eng_react (Some req)) in
      let! r := on_server (process_session talloc inst (Some wire)) in
      conclude (converse n) r
  end.

(** The second half of a round, and its last part once a message is complete. *)
Definition serve (n : nat) (wire : bytes) : M (st link) (list (string * bytes)) :=
  let! r := on_server (process_session talloc inst (Some wire)) in conclude (converse n) r.
Definition answer (n : nat) (msg : bytes) : M (st link) (list (string * bytes)) :=
  let! r := on_server (process_message talloc inst msg) in conclude (converse n) r.
Definition react (n : nat) (msg : bytes) : M (st link) (list (string * bytes)) :=
  let! wire := on_peer (eng_message msg) in serve n wire.

(** [on_server] is [mod_process] on the packet of a new request. *)
Lemma on_server_mod_process inp e s g :
  on_server (process_session talloc inst inp) ((e, s), g) =
  let '(r, (h, g')) := mod_process talloc inst inp (fresh_handler s, g) in
  let s' := ((e, default s (opaque h)), g') in
  match r with
  | Ok _ => (Ok (h_request h, h_reply h), s')
  | Err rc => (Err rc, s')
  | Fault => (Fault, s')
  end.
Proof.
  unfold on_server, mod_process, fresh_handler. cbn [opaque h_request h_reply].
  by destruct (process_session _ _ _ _) as [[] [? ?]].
Qed.

(** ** States between two packets *)
Definition idle_buf (b : rbuf) : Prop := received [] 0 b.

Definition sending (msg : bytes) (pos : Z) (buf : bytes) (len p : Z) : Prop :=
  zlen buf = frag_max /\
  if pos <? zlen msg then len = zlen msg /\ p = pos /\ ztake (zlen msg) buf = msg
  else len = 0 /\ p = 0.

Definition s_sending msg pos (s : edhoc_session_t) : Prop :=
  sending msg pos (out_buf s) (out_len s) (out_pos s).
Definition e_sending msg pos (e : eng_t) : Prop :=
  sending msg pos (e_out e) (e_out_len e) (e_out_pos e).
Definition s_idle (s : edhoc_session_t) : Prop := s_sending [] 0 s /\ idle_buf (rbuf_of s).
Definition e_idle (e : eng_t) : Prop := e_sending [] 0 e /\ idle_buf (eng_rbuf e).

(** What the buffers do not hold. *)
Definition same_core (s s' : edhoc_session_t) : Prop :=
  ctx s' = ctx s /\ ctx03 s' = ctx03 s /\ mode s' = mode s /\ round s' = round s.
Definition same_eng (e e' : eng_t) : Prop :=
  classical e' = classical e /\ c3 e' = c3 e /\ c4 e' = c4 e /\ step e' = step e /\
  EapPeer.msk e' = EapPeer.msk e.

Lemma same_core_trans s1 s2 s3 : same_core s1 s2 -> same_core s2 s3 -> same_core s1 s3.
Proof. unfold same_core. intros (?&?&?&?) (?&?&?&?). split_and!; congruence. Qed.
Lemma same_eng_trans e1 e2 e3 : same_eng e1 e2 -> same_eng e2 e3 -> same_eng e1 e3.
Proof. unfold same_eng. intros (?&?&?&?&?) (?&?&?&?&?). split_and!; congruence. Qed.
Lemma same_core_refl s : same_core s s.
Proof. done. Qed.
Lemma same_eng_refl e : same_eng e e.
Proof. done. Qed.

Lemma received_0 m b : received m 0 b <-> idle_buf b.
Proof. done. Qed.
Lemma sending_done m pos buf len p : zlen m <= pos -> sending m pos buf len p <-> sending [] 0 buf len p.
Proof. intros. unfold sending. destruct (Z.ltb_spec pos (zlen m)); [lia|]. done. Qed.

Lemma sending_buffers m pos buf len p :
  zlen m <= frag_max -> 0 <= pos -> sending m pos buf len p ->
  zlen buf = frag_max /\ 0 <= p <= len /\ len <= frag_max.
Proof.
  intros Hm Hpos [Hb H]. split; [done|]. unfold frag_max in *.
  destruct (Z.ltb_spec pos (zlen m)); lia.
Qed.

Lemma idle_not_sending buf len p : sending [] 0 buf len p -> (p <? len) = false.
Proof. intros [_ [-> ->]]. done. Qed.

(** The sender's buffer after the wire at [pos]. *)
Lemma sending_next m pos buf len p :
  0 < zlen m -> pos < zlen m -> 0 <= pos -> sending m pos buf len p ->
  sending m (pos + frag_len m pos) buf
    (if len <=? pos + frag_len m pos then 0 else len)
    (if len <=? pos + frag_len m pos then 0 else pos + frag_len m pos).
Proof.
  intros Hm Hlt Hpos [Hb H]. split; [done|].
  destruct (Z.ltb_spec pos (zlen m)) as [_|]; [|lia]. destruct H as (-> & _ & Ht).
  destruct (Z.ltb_spec (pos + frag_len m pos) (zlen m)), (Z.leb_spec (zlen m) (pos + frag_len m pos));
    (done || lia).
Qed.

(** ** The module's steps *)
Hypothesis Htalloc : forall n, talloc n = true.

(** The packet and session after a call that sends a wire. *)
Definition sent (c : Z) (w : bytes) (s : edhoc_session_t) (p : proc) : proc :=
  with_request (packet c w) (with_sess s p).

Lemma wp_or_failure {A} (m : M (st proc) A) Q s : wp m Q s -> wp (or_failure m) Q s.
Proof. unfold wp, post, or_failure. by destruct (m s) as [[] ?]. Qed.

Lemma pending_sending m pos s :
  s_sending m pos s -> pos < zlen m -> pending s = m /\ out_len s = zlen m /\ out_pos s = pos.
Proof.
  unfold s_sending, sending, pending. intros [Hb H] Hlt.
  destruct (Z.ltb_spec pos (zlen m)); [|lia]. destruct H as (-> & -> & Ht). by rewrite Ht.
Qed.

Lemma after_fragment_next m pos s :
  0 < zlen m -> 0 <= pos < zlen m -> s_sending m pos s ->
  s_sending m (pos + frag_len m pos) (after_fragment s) /\
  same_core s (after_fragment s) /\ rbuf_of (after_fragment s) = rbuf_of s.
Proof.
  intros Hm Hpos Hs. destruct (pending_sending m pos s Hs ltac:(lia)) as (Hp & Hl & Hpos').
  pose proof (sending_next m pos _ _ _ Hm ltac:(lia) ltac:(lia) Hs) as Hn.
  unfold after_fragment, s_sending. rewrite Hp, Hpos'.
  by destruct (Z.leb_spec (out_len s) (pos + frag_len m pos)).
Qed.

Lemma server_continue m pos inp p g (Q : unit -> st proc -> Prop) :
  0 < zlen m <= frag_max -> 0 <= pos < zlen m -> s_sending m pos (sess p) ->
  (forall s1, s_sending m (pos + frag_len m pos) s1 -> same_core (sess p) s1 ->
     rbuf_of s1 = rbuf_of (sess p) ->
     Q tt (sent PW_EAP_REQUEST (send_wire m pos) s1 p, g)) ->
  wp (process_session talloc inst inp) Q (p, g).
Proof.
  intros Hm Hpos Hs HQ. destruct (pending_sending m pos _ Hs ltac:(lia)) as (Hp & Hl & Hp').
  pose proof (after_fragment_next m pos (sess p) ltac:(lia) Hpos Hs) as (H1 & H2 & H3).
  unfold process_session. apply wp_bind, wp_ctx_get. rewrite Hl, Hp'.
  destruct (Z.ltb_spec pos (zlen m)); [|lia].
  apply wp_or_failure. apply ht_send_fragment; rewrite ?Hl, ?Hp'; try lia.
  - by destruct Hs.
  - rewrite Hp. intros w ->. split; [by apply HQ|]. rewrite Htalloc. done.
Qed.

Lemma put_rbuf_core b s :
  same_core s (put_rbuf b s) /\ rbuf_of (put_rbuf b s) = b /\
  (forall m pos, s_sending m pos s -> s_sending m pos (put_rbuf b s)).
Proof. by destruct s, b. Qed.

(** The wire of [m] at [pos] reaches a session that is not sending. *)
Lemma server_receive m pos p g (Q : unit -> st proc -> Prop) :
  0 < zlen m <= frag_max -> 0 <= pos < zlen m ->
  s_sending [] 0 (sess p) -> received m pos (rbuf_of (sess p)) ->
  let pos' := pos + frag_len m pos in
  (forall s1, s_sending [] 0 s1 -> same_core (sess p) s1 ->
     received m (if pos' <? zlen m then pos' else 0) (rbuf_of s1) ->
     if pos' <? zlen m then Q tt (sent PW_EAP_REQUEST [0] s1 p, g)
     else wp (process_message talloc inst m) Q (with_sess s1 p, g)) ->
  wp (process_session talloc inst (Some (send_wire m pos))) Q (p, g).
Proof.
  intros Hm Hpos Hout Hin pos' HQ. unfold process_session.
  apply wp_bind, wp_ctx_get. rewrite (idle_not_sending _ _ _ Hout).
  pose proof (reassemble_step Edhoc4.E4_ERR_PARSE Edhoc4.E4_ERR_BUF m pos (rbuf_of (sess p))
    Hm Hpos Hin) as (b & E & Hb). fold pos' in E, Hb.
  destruct (put_rbuf_core b (sess p)) as (Hc & Hrb & Hs).
  specialize (HQ (put_rbuf b (sess p)) (Hs _ _ Hout) Hc). rewrite Hrb in HQ. specialize (HQ Hb).
  apply wp_bind, wp_or_failure, wp_zoom. cbn [fst snd]. unfold wp at 1, post.
  rewrite consume_refines by apply Hin. rewrite E.
  destruct (pos' <? zlen m); cbn [outcome]; [|exact HQ].
  apply wp_or_failure. apply ht_emit_eap; [exact HQ|]. by rewrite Htalloc.
Qed.

(** The closing acknowledgement, an empty message. *)
Lemma server_receive_empty p g (Q : unit -> st proc -> Prop) :
  s_idle (sess p) -> wp (process_message talloc inst []) Q (p, g) ->
  wp (process_session talloc inst (Some [0])) Q (p, g).
Proof.
  intros [Hout Hin] HQ. unfold process_session.
  apply wp_bind, wp_ctx_get. rewrite (idle_not_sending _ _ _ Hout).
  apply wp_bind, wp_or_failure, wp_zoom. cbn [fst snd]. unfold wp at 1, post.
  rewrite consume_refines by apply Hin.
  rewrite (reassemble_whole _ _ [] (rbuf_of (sess p))) by apply Hin.
  cbn [outcome]. rewrite put_rbuf_of. by destruct p.
Qed.

Lemma sending_queued m s :
  0 < zlen m <= frag_max -> zlen (out_buf s) = frag_max -> s_sending m 0 (queued m s).
Proof.
  intros Hm Hb. unfold s_sending, sending, queued. fields_rlm. rewrite zlen_splice by lia.
  split; [done|]. destruct (Z.ltb_spec 0 (zlen m)); [|lia]. split_and!; [done..|].
  unfold splice. rewrite (ztake_nonpos 0), app_nil_l by lia. by apply ztake_app_exact.
Qed.

(** A message the module has ready leaves as its first wire. *)
Lemma server_queue m p g (Q : unit -> st proc -> Prop) :
  0 < zlen m <= frag_max -> s_sending [] 0 (sess p) ->
  (forall s1, s_sending m (frag_len m 0) s1 -> same_core (sess p) s1 ->
     rbuf_of s1 = rbuf_of (sess p) ->
     Q tt (sent PW_EAP_REQUEST (send_wire m 0) s1 p, g)) ->
  wp (edhoc_queue_outgoing talloc PW_EAP_REQUEST m) Q (p, g).
Proof.
  intros Hm Hout HQ. pose proof Hout as [Hbuf [Hl Hp]].
  assert (first_cap = 997) as Hfc by done.
  apply ht_queue_outgoing; [lia|done| |].
  - intros Hs w ->. rewrite Htalloc. split; [|done].
    assert (frag_len m 0 = zlen m) as Hf by (unfold frag_len; cbn; lia).
    assert (send_wire m 0 = 0 :: m) as Hw.
    { rewrite send_wire_plain; rewrite Hf, Z.sub_0_r, Z.ltb_irrefl; [|done].
      by rewrite sub_all. }
    rewrite <-Hw. apply HQ; [|done..]. rewrite Hf. by apply sending_done.
  - intros Hb w ->. rewrite Htalloc. split; [|done].
    destruct (after_fragment_next m 0 (queued m (sess p))) as (H1 & H2 & H3);
      [lia|lia|by apply sending_queued; [lia|]|].
    rewrite Z.add_0_l in H1. by apply HQ.
Qed.
(** ** The engine's steps *)
Lemma eng_out_sending m pos e :
  zlen m <= frag_max -> 0 <= pos -> e_sending m pos e -> eng_out_ok e.
Proof. intros Hm Hpos H. by destruct (sending_buffers _ _ _ _ _ Hm Hpos H) as (? & ? & ?). Qed.

Lemma eng_pending_sending m pos e :
  e_sending m pos e -> pos < zlen m ->
  eng_pending e = m /\ e_out_len e = zlen m /\ e_out_pos e = pos.
Proof.
  unfold e_sending, sending, eng_pending. intros [Hb H] Hlt.
  destruct (Z.ltb_spec pos (zlen m)); [|lia]. destruct H as (-> & -> & Ht). by rewrite Ht.
Qed.

Lemma eng_after_next m pos e :
  0 < zlen m -> 0 <= pos < zlen m -> e_sending m pos e ->
  e_sending m (pos + frag_len m pos) (eng_after e) /\
  same_eng e (eng_after e) /\ eng_rbuf (eng_after e) = eng_rbuf e.
Proof.
  intros Hm Hpos Hs. destruct (eng_pending_sending m pos e Hs ltac:(lia)) as (Hp & Hl & Hpos').
  pose proof (sending_next m pos _ _ _ Hm ltac:(lia) ltac:(lia) Hs) as Hn.
  unfold eng_after, e_sending. rewrite Hp, Hpos'.
  by destruct (Z.leb_spec (e_out_len e) (pos + frag_len m pos)).
Qed.

Lemma peer_continue m pos inp e g (Q : bytes -> st eng_t -> Prop) :
  0 < zlen m <= frag_max -> 0 <= pos < zlen m -> e_sending m pos e ->
  (forall e1, e_sending m (pos + frag_len m pos) e1 -> same_eng e e1 ->
     eng_rbuf e1 = eng_rbuf e -> Q (send_wire m pos) (e1, g)) ->
  wp (eng_react inp) Q (e, g).
Proof.
  intros Hm Hpos Hs HQ. destruct (eng_pending_sending m pos e Hs ltac:(lia)) as (Hp & Hl & Hp').
  destruct (eng_after_next m pos e ltac:(lia) Hpos Hs) as (H1 & H2 & H3).
  unfold eng_react. apply wp_bind, wp_ctx_get. unfold id. rewrite Hl, Hp'.
  destruct (Z.ltb_spec pos (zlen m)); [|lia]. apply wp_zoom. cbn [fst snd]. unfold wp, post.
  destruct (eng_send_wire e (eng_out_sending m pos e ltac:(lia) ltac:(lia) Hs)) as [mf ->];
    [left; lia|].
  rewrite Hp, Hp'. by apply HQ.
Qed.

Lemma put_eng_rbuf_core b mf e :
  let e1 := set_msg_frags mf (put_eng_rbuf b e) in
  same_eng e e1 /\ eng_rbuf e1 = b /\ (forall m pos, e_sending m pos e -> e_sending m pos e1).
Proof. by destruct e, b. Qed.

(** The wire of [m] at [pos] reaches an engine that is not sending. *)
Lemma peer_receive m pos e g (Q : bytes -> st eng_t -> Prop) :
  0 < zlen m <= frag_max -> 0 <= pos < zlen m ->
  e_sending [] 0 e -> received m pos (eng_rbuf e) ->
  let pos' := pos + frag_len m pos in
  (forall e1, e_sending [] 0 e1 -> same_eng e e1 ->
     received m (if pos' <? zlen m then pos' else 0) (eng_rbuf e1) ->
     if pos' <? zlen m then Q [0] (e1, g) else wp (eng_message m) Q (e1, g)) ->
  wp (eng_react (Some (send_wire m pos))) Q (e, g).
Proof.
  intros Hm Hpos Hout Hin pos' HQ. unfold eng_react. apply wp_bind, wp_ctx_get. unfold id.
  rewrite (idle_not_sending _ _ _ Hout).
  pose proof (reassemble_step (-3) (-2) m pos (eng_rbuf e) Hm Hpos Hin) as (b & E & Hb).
  fold pos' in E, Hb.
  pose proof (eng_consume_refines e (send_wire m pos) (proj1 Hin)) as Hc. rewrite E in Hc.
  destruct Hc as [mf Hc]. destruct (put_eng_rbuf_core b mf e) as (Hsame & Hrb & Hs).
  specialize (HQ _ (Hs _ _ Hout) Hsame). rewrite Hrb in HQ. specialize (HQ Hb).
  apply wp_bind, wp_or_return, wp_zoom. cbn [fst snd]. unfold wp at 1, post. rewrite Hc.
  by destruct (pos' <? zlen m).
Qed.

(** The start of the conversation carries no message. *)
Lemma peer_start e g (Q : bytes -> st eng_t -> Prop) :
  e_idle e -> (forall e1, e_idle e1 -> same_eng e e1 -> wp (eng_message []) Q (e1, g)) ->
  wp (eng_react (Some [1])) Q (e, g).
Proof.
  intros [Hout Hin] HQ. unfold eng_react. apply wp_bind, wp_ctx_get. unfold id.
  rewrite (idle_not_sending _ _ _ Hout).
  pose proof (eng_consume_refines e [1] (proj1 Hin)) as Hc.
  rewrite (reassemble_start _ _ _ (proj2 Hin)) in Hc. destruct Hc as [mf Hc].
  destruct (put_eng_rbuf_core (eng_rbuf e) mf e) as (Hsame & Hrb & Hs).
  apply wp_bind, wp_or_return, wp_zoom. cbn [fst snd]. unfold wp at 1, post. rewrite Hc.
  apply HQ; [|done]. split; [by apply Hs|]. by rewrite Hrb.
Qed.

(** A message the engine wrote to its output buffer leaves as its first wire. *)
Lemma sending_put_out m e :
  0 < zlen m <= frag_max -> zlen (e_out e) = frag_max -> e_out_pos e = 0 ->
  e_sending m 0 (set_out_len (zlen m) (set_out (splice (e_out e) 0 m) e)).
Proof.
  intros Hm Hb Hp. unfold e_sending, sending. fields_eng. rewrite zlen_splice by lia.
  split; [done|]. destruct (Z.ltb_spec 0 (zlen m)); [|lia]. split_and!; [done..|].
  unfold splice. rewrite (ztake_nonpos 0), app_nil_l by lia. by apply ztake_app_exact.
Qed.

Lemma peer_queue which m e g (Q : bytes -> st eng_t -> Prop) :
  0 < zlen m <= frag_max -> e_sending m 0 e ->
  (forall e1, e_sending m (frag_len m 0) e1 -> same_eng e e1 ->
     eng_rbuf e1 = eng_rbuf e -> Q (send_wire m 0) (e1, g)) ->
  wp (on_eng (eng_queue_outgoing which)) Q (e, g).
Proof.
  intros Hm Hs HQ. apply wp_zoom. cbn [fst snd].
  destruct (eng_pending_sending m 0 e Hs ltac:(lia)) as (Hpe & _ & Hp').
  destruct (eng_after_next m 0 e ltac:(lia) ltac:(lia) Hs) as (H1 & H2 & H3).
  unfold wp, post.
  destruct (eng_queue_wire which e (eng_out_sending m 0 e ltac:(lia) ltac:(lia) Hs))
    as (mb & mf & ->). rewrite Hpe.
  assert (set_out_pos 0 e = e) as -> by (rewrite <-Hp' at 1; by destruct e).
  rewrite Z.add_0_l in H1. by apply HQ.
Qed.

(** ** Carrying a message across *)
Definition proc0 (s : edhoc_session_t) : proc :=
  {| sess := s; request := blank_request; reply := [] |}.

Lemma wp_on_server m Q e s g :
  wp m (fun _ s' => Q (request (fst s'), reply (fst s')) ((e, sess (fst s')), snd s'))
     (proc0 s, g) ->
  wp (on_server m) Q ((e, s), g).
Proof. unfold wp, post, on_server, proc0. by destruct (m _) as [[] [p g']]. Qed.

Lemma wp_on_peer {A} (m : M (st eng_t) A) Q e s g :
  wp m (fun a s' => Q a ((fst s', s), snd s')) (e, g) -> wp (on_peer m) Q ((e, s), g).
Proof. intros H. by apply wp_zoom. Qed.

(** The bytes left after the wire at [pos] fit in [k] more wires. *)
Definition fits (m : bytes) (pos : Z) (k : nat) : Prop :=
  zlen m - (pos + frag_len m pos) <= 999 * Z.of_nat k.

Lemma fits_next m pos k :
  0 <= pos < zlen m -> fits m pos k -> pos + frag_len m pos < zlen m ->
  0 < frag_len m pos /\ exists k', k = S k' /\ fits m (pos + frag_len m pos) k'.
Proof.
  intros Hp Hf Hlt. pose proof (frag_len_pos m pos Hp) as Hn. unfold fits in *.
  set (d := frag_len m pos) in *. split; [lia|]. destruct k as [|k]; [lia|]. exists k. split; [done|].
  unfold frag_len. destruct (Z.eqb_spec (pos + d) 0); [lia|]. unfold next_cap. lia.
Qed.

(** Their converses, to end a transfer. *)
Lemma answer_wp n m Q e s g :
  wp (answer n m) Q ((e, s), g) ->
  wp (process_message talloc inst m)
     (fun _ s' => wp (conclude (converse n) (request (fst s'), reply (fst s'))) Q
                     ((e, sess (fst s')), snd s')) (proc0 s, g).
Proof.
  unfold answer, bind, on_server, proc0. unfold wp at 1, post.
  intros H. unfold wp at 1, post. by destruct (process_message _ _ _ _) as [[] [p g']].
Qed.

Lemma react_wp n m Q e s g :
  wp (react n m) Q ((e, s), g) ->
  wp (eng_message m) (fun w s' => wp (serve n w) Q ((fst s', s), snd s')) (e, g).
Proof.
  unfold react, bind, on_peer, zoom. unfold wp at 1, post. intros H. unfold wp at 1, post.
  by destruct (eng_message m _) as [[] [e' g']].
Qed.

Lemma deliver_up k : forall m pos e s g n Q,
  0 < zlen m <= frag_max -> 0 <= pos < zlen m ->
  e_sending m (pos + frag_len m pos) e -> idle_buf (eng_rbuf e) ->
  s_sending [] 0 s -> received m pos (rbuf_of s) ->
  fits m pos k -> (k <= n)%nat ->
  (forall e' s' n', (n - k <= n')%nat -> same_eng e e' -> same_core s s' ->
     e_idle e' -> s_idle s' -> wp (answer n' m) Q ((e', s'), g)) ->
  wp (serve n (send_wire m pos)) Q ((e, s), g).
Proof.
  induction k as [k IH] using lt_wf_ind; intros m pos e s g n Q Hm Hpos He Hein Hs Hsin Hk Hn HQ.
  unfold serve. apply wp_bind, wp_on_server, server_receive; [done..|].
  change (sess (proc0 s)) with s. intros s1 Hs1 Hcore Hin1.
  destruct (Z.ltb_spec (pos + frag_len m pos) (zlen m)) as [Hmore|Hlast].
  - destruct (fits_next m pos k ltac:(lia) Hk Hmore) as (Hfp & k' & -> & Hk').
    cbn [fst snd]. unfold conclude, sent. fields_rlm. cbn [code packet Z.eqb].
    destruct n as [|n]; [lia|]. cbn [converse Z.eqb Pos.eqb PW_EAP_REQUEST PW_EAP_SUCCESS type_data].
    fold (serve n). apply wp_bind, wp_on_peer.
    eapply (peer_continue m (pos + frag_len m pos)); [done|lia|done|].
    intros e1 He1 Hsame Hrb. cbn [fst snd].
    apply (IH k'); try done; try lia.
    + by rewrite Hrb.
    + intros e' s' n' Hn' He' Hs' Hi1 Hi2. apply HQ; try done; try lia.
      * by eapply same_eng_trans.
      * by eapply same_core_trans.
  - apply (answer_wp n m Q e s1 g). apply HQ; try done; try lia.
    split; [|done]. unfold e_sending in *. by apply (sending_done m) in He.
Qed.

Lemma deliver_down k : forall m pos e s g n Q,
  0 < zlen m <= frag_max -> 0 <= pos < zlen m ->
  s_sending m (pos + frag_len m pos) s -> idle_buf (rbuf_of s) ->
  e_sending [] 0 e -> received m pos (eng_rbuf e) ->
  fits m pos k -> (S k <= n)%nat ->
  (forall e' s' n', (n - S k <= n')%nat -> same_eng e e' -> same_core s s' ->
     e_idle e' -> s_idle s' -> wp (react n' m) Q ((e', s'), g)) ->
  wp (converse n (send_wire m pos)) Q ((e, s), g).
Proof.
  induction k as [k IH] using lt_wf_ind; intros m pos e s g n Q Hm Hpos Hs Hsin He Hein Hk Hn HQ.
  destruct n as [|n]; [lia|]. cbn [converse]. fold (serve n).
  apply wp_bind, wp_on_peer, peer_receive; [done..|]. intros e1 He1 Hsame Hin1. cbn [fst snd].
  destruct (Z.ltb_spec (pos + frag_len m pos) (zlen m)) as [Hmore|Hlast].
  - destruct (fits_next m pos k Hpos Hk Hmore) as (Hfp & k' & -> & Hk').
    unfold serve. apply wp_bind, wp_on_server.
    eapply (server_continue m (pos + frag_len m pos)); [done|lia|done|].
    change (sess (proc0 s)) with s. intros s1 Hs1 Hcore Hrb. cbn [fst snd].
    unfold conclude, sent. fields_rlm. cbn [packet].
    cbn [PW_EAP_REQUEST PW_EAP_SUCCESS Z.eqb Pos.eqb code type_data].
    apply (IH k'); try done; try lia.
    + by rewrite Hrb.
    + intros e' s' n' Hn' He' Hs' Hi1 Hi2. apply HQ; try done; try lia.
      * by eapply same_eng_trans.
      * by eapply same_core_trans.
  - apply (react_wp n m Q e1 s g). apply HQ; try done; try lia.
    split; [|done]. unfold s_sending in *. by apply (sending_done m) in Hs.
Qed.

(** ** One message at a time *)
Lemma converse_start n e s g Q :
  e_idle e -> (forall e1, e_idle e1 -> same_eng e e1 -> wp (react n []) Q ((e1, s), g)) ->
  wp (converse (S n) [1]) Q ((e, s), g).
Proof.
  intros He HQ. cbn [converse]. fold (serve n). apply wp_bind, wp_on_peer, peer_start; [done|].
  intros e1 He1 Hsame. cbn [fst snd]. by apply react_wp, HQ.
Qed.

Lemma eng_send_msg1 out e g Q :
  0 < zlen out <= frag_max -> e_sending [] 0 e ->
  (forall e1, e_sending out (frag_len out 0) e1 -> same_eng (set_step 1 e) e1 ->
     eng_rbuf e1 = eng_rbuf e -> Q (send_wire out 0) (e1, g)) ->
  wp (put_out out ;;; ctx_set (set_step 1) ;;; ctx_set (set_cur_in_msg 2) ;;;
      on_eng (eng_queue_outgoing 1)) Q (e, g).
Proof.
  intros Hm [Hb [Hl Hp]] HQ. unfold put_out.
  apply wp_bind, wp_ctx_set, wp_bind, wp_ctx_set, wp_bind, wp_ctx_set.
  eapply (peer_queue _ out); [done|exact (sending_put_out out e Hm Hb Hp)|].
  intros e1 H1 H2 H3. by apply HQ.
Qed.

Definition keep_msk (e : eng_t) : eng_t :=
  if classical e then set_msk (Edhoc03.msk (c3 e)) e else e.

Lemma eng_send_msg3 (cl : bool) out e g Q :
  0 < zlen out <= frag_max -> e_sending [] 0 e -> classical e = cl ->
  (forall e1, e_sending out (frag_len out 0) e1 -> same_eng (set_step 2 (keep_msk e)) e1 ->
     eng_rbuf e1 = eng_rbuf e -> Q (send_wire out 0) (e1, g)) ->
  wp (put_out out ;;; ctx_set (set_step 2) ;;; ctx_set (set_cur_in_msg 4) ;;;
      (if cl then ctx_set (fun e => set_msk (Edhoc03.msk (c3 e)) e) else ret tt) ;;;
      on_eng (eng_queue_outgoing 3)) Q (e, g).
Proof.
  intros Hm [Hb [Hl Hp]] Hcl HQ. unfold put_out. unfold keep_msk in HQ. rewrite Hcl in HQ.
  apply wp_bind, wp_ctx_set, wp_bind, wp_ctx_set, wp_bind, wp_ctx_set, wp_bind.
  destruct cl; [apply wp_ctx_set|apply wp_ret];
    (eapply (peer_queue _ out); [done|exact (sending_put_out out e Hm Hb Hp)|]);
    intros e1 H1 H2 H3; by apply HQ.
Qed.

Lemma wp_on_c4 {A} (m : M (st Edhoc4.edhoc4_ctx) A) Q e g :
  wp m (fun a s' => Q a (set_c4 (fst s') e, snd s')) (c4 e, g) -> wp (on_c4 m) Q (e, g).
Proof. intros H. by apply wp_zoom. Qed.
Lemma wp_on_c3 {A} (m : M (st Edhoc03.edhoc03_ctx) A) Q e g :
  wp m (fun a s' => Q a (set_c3 (fst s') e, snd s')) (c3 e, g) -> wp (on_c3 m) Q (e, g).
Proof. intros H. by apply wp_zoom. Qed.

(** The engine's part, as far as the first wire it sends. *)
Lemma react_start n e s g Q :
  e_idle e -> step e = 0 ->
  (if classical e
   then wp (Edhoc03.edhoc03_i_make_msg1 E4_MAX_MSG) (fun out s' => 0 < zlen out <= frag_max /\
     forall e1, e_sending out (frag_len out 0) e1 -> idle_buf (eng_rbuf e1) ->
       same_eng (set_step 1 (set_c3 (fst s') e)) e1 ->
       wp (serve n (send_wire out 0)) Q ((e1, s), snd s')) (c3 e, g)
   else wp (Edhoc4.edhoc4_i_make_msg1 E4_MAX_MSG) (fun out s' => 0 < zlen out <= frag_max /\
     forall e1, e_sending out (frag_len out 0) e1 -> idle_buf (eng_rbuf e1) ->
       same_eng (set_step 1 (set_c4 (fst s') e)) e1 ->
       wp (serve n (send_wire out 0)) Q ((e1, s), snd s')) (c4 e, g)) ->
  wp (react n []) Q ((e, s), g).
Proof.
  intros [Hout Hin] Hstep H. unfold react. apply wp_bind, wp_on_peer. unfold eng_message.
  apply wp_bind, wp_ctx_get. unfold id. rewrite Hstep. cbn [Z.eqb].
  apply wp_bind, wp_or_return. destruct (classical e); [apply wp_on_c3|apply wp_on_c4];
    (eapply wp_mono; [|exact H]); intros out [c g'] [Hl HQ];
    (apply eng_send_msg1; [done|exact Hout|]); intros e1 H1 H2 H3; apply HQ; try done;
    cbn [fst snd]; by rewrite H3.
Qed.

Lemma react_msg2 n m e s g Q :
  e_idle e -> step e = 1 ->
  (if classical e
   then wp (Edhoc03.edhoc03_i_handle_msg2 m E4_MAX_MSG) (fun out s' => 0 < zlen out <= frag_max /\
     forall e1, e_sending out (frag_len out 0) e1 -> idle_buf (eng_rbuf e1) ->
       same_eng (set_step 2 (set_msk (Edhoc03.msk (fst s')) (set_c3 (fst s') e))) e1 ->
       wp (serve n (send_wire out 0)) Q ((e1, s), snd s')) (c3 e, g)
   else wp (Edhoc4.edhoc4_i_handle_msg2 m E4_MAX_MSG) (fun out s' => 0 < zlen out <= frag_max /\
     forall e1, e_sending out (frag_len out 0) e1 -> idle_buf (eng_rbuf e1) ->
       same_eng (set_step 2 (set_c4 (fst s') e)) e1 ->
       wp (serve n (send_wire out 0)) Q ((e1, s), snd s')) (c4 e, g)) ->
  wp (react n m) Q ((e, s), g).
Proof.
  intros [Hout Hin] Hstep H. unfold react. apply wp_bind, wp_on_peer. unfold eng_message.
  apply wp_bind, wp_ctx_get. unfold id. rewrite Hstep. cbn [Z.eqb Pos.eqb].
  apply wp_bind, wp_ctx_set, wp_bind, wp_or_return.
  destruct (classical e) eqn:Hcl; [apply wp_on_c3|apply wp_on_c4];
    (eapply wp_mono; [|exact H]); intros out [c g'] [Hl HQ];
    match type of Hcl with _ = ?b => apply (eng_send_msg3 b out); [exact Hl|exact Hout|exact Hcl|] end;
    unfold keep_msk, note_bytes; fields_eng; rewrite Hcl;
    intros e1 H1 H2 H3; (apply HQ; [exact H1|cbn [fst snd]; rewrite H3; exact Hin|exact H2]).
Qed.

(** Message 4 ends the handshake; the engine acknowledges. *)
Lemma react_msg4 n m e s g Q :
  e_idle e -> step e = 2 ->
  wp (Edhoc4.edhoc4_i_handle_msg4 m) (fun _ s' =>
     forall e1, e_idle e1 -> EapPeer.msk e1 = Edhoc4.msk (fst s') ->
       wp (serve n [0]) Q ((e1, s), snd s')) (c4 e, g) ->
  wp (react n m) Q ((e, s), g).
Proof.
  intros He Hstep H. unfold react. apply wp_bind, wp_on_peer. unfold eng_message.
  apply wp_bind, wp_ctx_get. unfold id. rewrite Hstep. cbn [Z.eqb Pos.eqb].
  apply wp_bind, wp_ctx_set, wp_bind, wp_or_return, wp_on_c4.
  eapply wp_mono; [|exact H]. intros [] [c g'] HQ.
  apply wp_bind, wp_ctx_set, wp_bind, wp_ctx_set, wp_ret. by apply HQ.
Qed.

(** The module's part, as far as the first wire it sends. *)
Lemma wp_or_failure_ctx (m : M (st Edhoc4.edhoc4_ctx) bytes) Q p g :
  wp m (fun out s' => Q out (with_sess (set_ctx (fst s') (sess p)) p, snd s')) (ctx (sess p), g) ->
  wp (or_failure (on_ctx m)) Q (p, g).
Proof. intros H. by apply wp_or_failure, wp_zoom. Qed.
Lemma wp_or_failure_ctx03 (m : M (st Edhoc03.edhoc03_ctx) bytes) Q p g :
  wp m (fun out s' => Q out (with_sess (set_ctx03 (fst s') (sess p)) p, snd s'))
     (ctx03 (sess p), g) ->
  wp (or_failure (on_ctx03 m)) Q (p, g).
Proof. intros H. by apply wp_or_failure, wp_zoom. Qed.
Lemma wp_fail_when b Q s : b = false -> Q tt s -> wp (fail_when b) Q s.
Proof. by intros ->. Qed.

Lemma server_send n rnd out e p g Q :
  0 < zlen out <= frag_max -> s_sending [] 0 (sess p) ->
  (forall s1, s_sending out (frag_len out 0) s1 -> rbuf_of s1 = rbuf_of (sess p) ->
     same_core (set_round rnd (sess p)) s1 ->
     wp (converse n (send_wire out 0)) Q ((e, s1), g)) ->
  wp (edhoc_queue_outgoing talloc PW_EAP_REQUEST out ;;;
      ctx_set (fun p => with_sess (set_round rnd (sess p)) p))
     (fun _ s' => wp (conclude (converse n) (request (fst s'), reply (fst s'))) Q
                     ((e, sess (fst s')), snd s')) (p, g).
Proof.
  intros Hl Hs HQ. apply wp_bind, server_queue; [done..|]. intros s1 H1 (Hc1 & Hc2 & Hc3 & _) H3.
  apply wp_ctx_set. unfold sent. fields_rlm.
  apply (HQ (set_round rnd s1)); [exact H1|exact H3|by split_and!].
Qed.

Lemma answer_msg1_4 n m1 e s g Q :
  s_idle s -> round s = 0 -> mode s = 0 -> zlen m1 <> 34 ->
  wp (Edhoc4.edhoc4_r_handle_msg1 m1 E4_MAX_MSG) (fun out s' => 0 < zlen out <= frag_max /\
    forall s1, s_sending out (frag_len out 0) s1 -> idle_buf (rbuf_of s1) ->
      same_core (set_round 1 (set_ctx (fst s') (set_mode 4 s))) s1 ->
      wp (converse n (send_wire out 0)) Q ((e, s1), snd s')) (R4 inst, g) ->
  wp (answer n m1) Q ((e, s), g).
Proof.
  intros [Hout Hin] Hr Hm Hlen H. unfold answer. apply wp_bind, wp_on_server.
  unfold process_message, process_msg1.
  apply wp_bind, wp_ctx_get. change (sess (proc0 s)) with s. rewrite Hr. cbn [Z.eqb].
  apply wp_bind, wp_ctx_get. change (sess (proc0 s)) with s. rewrite Hm. cbn [Z.eqb].
  assert ((zlen m1 =? 1 + Edhoc03.E3_X_PK + Edhoc03.E3_CONN_ID) = false) as ->
    by by apply Z.eqb_neq.
  cbn [andb]. apply wp_bind, wp_ctx_set, wp_bind, wp_ctx_get. fields_rlm. cbn [Z.eqb Pos.eqb].
  apply wp_bind, wp_bind, wp_ctx_set, wp_or_failure_ctx. fields_rlm.
  eapply wp_mono; [|exact H]. intros out [c g'] [Hl HQ].
  apply server_send; [exact Hl|exact Hout|]. intros s1 H1 H2 H3.
  apply HQ; [exact H1|rewrite H2; exact Hin|exact H3].
Qed.

Lemma answer_msg1_3 n m1 e s g Q :
  s_idle s -> round s = 0 -> mode s = 0 -> zlen m1 = 34 -> byte_at m1 0 <= 3 ->
  have03 inst = true ->
  wp (Edhoc03.edhoc03_r_handle_msg1 m1 E4_MAX_MSG) (fun out s' => 0 < zlen out <= frag_max /\
    forall s1, s_sending out (frag_len out 0) s1 -> idle_buf (rbuf_of s1) ->
      same_core (set_round 1 (set_ctx03 (fst s') (set_mode 3 s))) s1 ->
      wp (converse n (send_wire out 0)) Q ((e, s1), snd s')) (R3 inst, g) ->
  wp (answer n m1) Q ((e, s), g).
Proof.
  intros [Hout Hin] Hr Hm Hlen Hb Hhave H. unfold answer. apply wp_bind, wp_on_server.
  unfold process_message, process_msg1.
  apply wp_bind, wp_ctx_get. change (sess (proc0 s)) with s. rewrite Hr. cbn [Z.eqb].
  apply wp_bind, wp_ctx_get. change (sess (proc0 s)) with s. rewrite Hm, Hlen. cbn [Z.eqb].
  change (34 =? 1 + Edhoc03.E3_X_PK + Edhoc03.E3_CONN_ID) with true.
  assert ((byte_at m1 0 <=? 3) = true) as -> by by apply Z.leb_le.
  cbn [andb]. apply wp_bind, wp_ctx_set, wp_bind, wp_ctx_get. fields_rlm. cbn [Z.eqb Pos.eqb].
  rewrite Hhave. apply wp_bind, wp_bind, wp_fail_when; [done|].
  apply wp_bind, wp_ctx_set, wp_or_failure_ctx03. fields_rlm.
  eapply wp_mono; [|exact H]. intros out [c g'] [Hl HQ].
  apply server_send; [exact Hl|exact Hout|]. intros s1 H1 H2 H3.
  apply HQ; [exact H1|rewrite H2; exact Hin|exact H3].
Qed.

Lemma answer_msg3_4 n m3 e s g Q :
  s_idle s -> round s = 1 -> mode s = 4 ->
  wp (Edhoc4.edhoc4_r_handle_msg3 m3 E4_MAX_MSG) (fun out s' => 0 < zlen out <= frag_max /\
    forall s1, s_sending out (frag_len out 0) s1 -> idle_buf (rbuf_of s1) ->
      same_core (set_round 2 (set_ctx (fst s') s)) s1 ->
      wp (converse n (send_wire out 0)) Q ((e, s1), snd s')) (ctx s, g) ->
  wp (answer n m3) Q ((e, s), g).
Proof.
  intros [Hout Hin] Hr Hm H. unfold answer. apply wp_bind, wp_on_server.
  unfold process_message, process_msg3.
  apply wp_bind, wp_ctx_get. change (sess (proc0 s)) with s. rewrite Hr. cbn [Z.eqb Pos.eqb].
  apply wp_bind, wp_ctx_get. change (sess (proc0 s)) with s. rewrite Hm. cbn [Z.eqb Pos.eqb].
  apply wp_bind, wp_or_failure_ctx. fields_rlm.
  eapply wp_mono; [|exact H]. intros out [c g'] [Hl HQ].
  apply server_send; [exact Hl|exact Hout|]. intros s1 H1 H2 H3.
  apply HQ; [exact H1|rewrite H2; exact Hin|exact H3].
Qed.

(** The keys handed to RADIUS. *)
Definition mppe_keys (key : bytes) : list (string * bytes) :=
  [("MS-MPPE-Recv-Key"%string, ztake 32 key); ("MS-MPPE-Send-Key"%string, sub key 32 32)].

Lemma wp_add_mppe_keys key p g (Q : unit -> st proc -> Prop) :
  Q tt ({| sess := sess p;
           request := request (with_code PW_EAP_SUCCESS p);
           reply := (reply p ++ [("MS-MPPE-Recv-Key"%string, ztake 32 key)]) ++
                    [("MS-MPPE-Send-Key"%string, sub key 32 32)] |}, g) ->
  wp (add_mppe_keys key) Q (p, g).
Proof. done. Qed.

Lemma answer_msg3_3 n m3 e s g Q :
  round s = 1 -> mode s = 3 ->
  wp (Edhoc03.edhoc03_r_handle_msg3 m3 E4_MAX_MSG) (fun _ s' => Edhoc03.done (fst s') <> 0 /\
      Q (mppe_keys (Edhoc03.msk (fst s'))) ((e, set_ctx03 (fst s') s), snd s')) (ctx03 s, g) ->
  wp (answer n m3) Q ((e, s), g).
Proof.
  intros Hr Hm H. unfold answer. apply wp_bind, wp_on_server.
  unfold process_message, process_msg3.
  apply wp_bind, wp_ctx_get. change (sess (proc0 s)) with s. rewrite Hr. cbn [Z.eqb Pos.eqb].
  apply wp_bind, wp_ctx_get. change (sess (proc0 s)) with s. rewrite Hm. cbn [Z.eqb Pos.eqb].
  apply wp_bind, wp_or_failure_ctx03. fields_rlm.
  eapply wp_mono; [|exact H]. intros out [c g'] [Hd HQ].
  apply wp_bind, wp_ctx_get. fields_rlm.
  apply wp_bind, wp_fail_when; [by apply Z.eqb_neq|]. by apply wp_add_mppe_keys.
Qed.

Lemma answer_ack n e s g (Q : list (string * bytes) -> st link -> Prop) :
  round s = 2 -> Edhoc4.done (ctx s) <> 0 ->
  Q (mppe_keys (Edhoc4.msk (ctx s))) ((e, s), g) ->
  wp (answer n []) Q ((e, s), g).
Proof.
  intros Hr Hd HQ. unfold answer. apply wp_bind, wp_on_server.
  unfold process_message, process_ack.
  apply wp_bind, wp_ctx_get. change (sess (proc0 s)) with s. rewrite Hr. cbn [Z.eqb Pos.eqb].
  apply wp_bind, wp_fail_when; [done|].
  apply wp_bind, wp_ctx_get. change (sess (proc0 s)) with s.
  apply wp_bind, wp_fail_when; [by apply Z.eqb_neq|]. by apply wp_add_mppe_keys.
Qed.

Lemma serve_empty n e s g Q :
  s_idle s -> wp (answer n []) Q ((e, s), g) -> wp (serve n [0]) Q ((e, s), g).
Proof.
  intros Hs H. unfold serve. apply wp_bind, wp_on_server, server_receive_empty; [exact Hs|].
  by apply answer_wp.
Qed.

End conversation.

(** ** The end-to-end results *)
Lemma fits_0 m k : 0 < zlen m -> zlen m - 997 <= 999 * Z.of_nat k -> fits m 0 k.
Proof. intros. unfold fits, frag_len, first_cap. cbn [Z.eqb]. lia. Qed.

(** The engine [run_handshake] starts with, and the start request of
    [mod_session_init]. *)
Definition engine4 (ue : Edhoc4.edhoc4_creds) (pk : bytes) : eng_t :=
  set_c4 (Edhoc4.edhoc4_init_initiator ue pk) (zero_eng 4).
Definition engine3 (m : Z) (ue : Edhoc03.edhoc03_creds) (pk : Edhoc03.edhoc03_peer) : eng_t :=
  set_c3 (Edhoc03.edhoc03_init_initiator m ue pk) (zero_eng m).

Lemma idle_engine4 ue pk : e_idle (engine4 ue pk).
Proof. split; by split. Qed.
Lemma idle_engine3 m ue pk : e_idle (engine3 m ue pk).
Proof. split; by split. Qed.
Lemma idle_session : s_idle new_session.
Proof. split; by split. Qed.

Section success.
Context `{CL : CryptoLaws}.
Variable talloc : Z -> bool.
Hypothesis Htalloc : forall n, talloc n = true.
Variable inst : rlm_eap_edhoc_t.

Definition keys_agree (out : list (string * bytes)) (s' : st (eng_t * edhoc_session_t)) : Prop :=
  let key := EapPeer.msk (fst (fst s')) in out = mppe_keys key /\ zlen key = 64.

(** *** Method 4 *)
Section method4.
Variable ue : Edhoc4.edhoc4_creds.
Hypothesis Hue : Edhoc4Facts.creds_ok ue.
Hypothesis Haaa : Edhoc4Facts.creds_ok (server inst).
Hypothesis Hpub : ue_pub inst = Edhoc4.kem_pk ue.

(** Message 2 has reached the engine. *)
Definition exchanged4 (m2 : bytes) (e : eng_t) (s : edhoc_session_t) : Prop :=
  e_idle e /\ s_idle s /\ classical e = false /\ step e = 1 /\ mode s = 4 /\ round s = 1 /\
  Edhoc4Facts.sent2 ue (server inst) (c4 e) (ctx s) m2 /\ zlen m2 = 6000.

Lemma exchange4_first n g Q :
  (10 <= n)%nat ->
  (forall m2 e s g' n', (n - 10 <= n')%nat -> exchanged4 m2 e s ->
     wp (react talloc inst n' m2) Q ((e, s), g')) ->
  wp (converse talloc inst n [1]) Q ((engine4 ue (Edhoc4.kem_pk (server inst)), new_session), g).
Proof.
  intros Hn HQ. assert (frag_max = 8192) as Hfm by done. destruct n as [|n]; [lia|].
  apply converse_start; [apply idle_engine4|]. intros e1 He1 (Ecl & _ & Ec4 & Est & _).
  apply react_start; [exact He1|exact Est|]. rewrite Ecl, Ec4.
  change (classical (engine4 _ _)) with false. cbn iota.
  eapply wp_mono; [|exact (Edhoc4Facts.step1 ue (server inst) Haaa g)].
  intros m1 [i1 g1] [S1 L1]. cbn [fst snd] in *. split; [lia|].
  intros e2 Se2 Ie2 (Ecl2 & _ & Ec42 & Est2 & _).
  apply (deliver_up talloc inst Htalloc 2 m1);
    [lia|lia|exact Se2|exact Ie2|apply idle_session|apply idle_session|apply fits_0; lia|lia|].
  intros e3 s3 n3 Hn3 (Ecl3 & _ & Ec43 & Est3 & _) (_ & _ & Hm3 & Hr3) Ie3 Is3.
  apply (answer_msg1_4 talloc inst Htalloc); [exact Is3|by rewrite Hr3|by rewrite Hm3|lia|].
  unfold R4. rewrite Hpub.
  eapply wp_mono; [|exact (Edhoc4Facts.step2 ue (server inst) Hue Haaa i1 m1 g1 S1)].
  intros m2 [r1 g2] [S2 L2]. cbn [fst snd] in *. split; [lia|].
  intros s4 Ss4 Is4 (Ec4s & _ & Hm4 & Hr4).
  apply (deliver_down talloc inst Htalloc 6 m2);
    [lia|lia|exact Ss4|exact Is4|apply Ie3|apply Ie3|apply fits_0; lia|lia|].
  intros e5 s5 n5 Hn5 (Ecl5 & _ & Ec45 & Est5 & _) (Ec5s & _ & Hm5 & Hr5) Ie5 Is5.
  apply HQ; [lia|]. unfold exchanged4. rewrite Ec45, Ec43, Ec42, Ec5s, Ec4s.
  rewrite Ecl5, Ecl3, Ecl2, Est5, Est3, Est2, Hm5, Hm4, Hr5, Hr4.
  cbn [classical c4 step ctx mode round set_step set_c4 set_round set_ctx]. by rewrite Ecl.
Qed.

Lemma exchange4_second n m2 e s g :
  (6 <= n)%nat -> exchanged4 m2 e s -> wp (react talloc inst n m2) keys_agree ((e, s), g).
Proof.
  intros Hn (Ie & Is & Ecl & Est & Hm & Hr & S2 & L2). assert (frag_max = 8192) as Hfm by done.
  apply react_msg2; [exact Ie|exact Est|]. rewrite Ecl.
  eapply wp_mono; [|exact (Edhoc4Facts.step3 ue (server inst) Hue Haaa _ _ m2 g S2)].
  intros m3 [i2 g3] [S3 L3]. cbn [fst snd] in *. split; [lia|].
  intros e6 Se6 Ie6 (_ & _ & Ec46 & Est6 & _).
  apply (deliver_up talloc inst Htalloc 4 m3);
    [lia|lia|exact Se6|exact Ie6|apply Is|apply Is|apply fits_0; lia|lia|].
  intros e7 s7 n7 Hn7 (_ & _ & Ec47 & Est7 & _) (Ec7s & _ & Hm7 & Hr7) Ie7 Is7.
  apply (answer_msg3_4 talloc inst Htalloc); [exact Is7|by rewrite Hr7|by rewrite Hm7|].
  rewrite Ec7s.
  eapply wp_mono; [|exact (Edhoc4Facts.step4 ue Hue i2 _ m3 g3 S3)].
  intros m4 [r2 g4] [S4 L4]. cbn [fst snd] in *. split; [lia|].
  intros s8 Ss8 Is8 (Ec8s & _ & Hm8 & Hr8).
  apply (deliver_down talloc inst Htalloc 1 m4);
    [lia|lia|exact Ss8|exact Is8|apply Ie7|apply Ie7|apply fits_0; lia|lia|].
  intros e9 s9 n9 Hn9 (_ & _ & Ec49 & Est9 & _) (Ec9s & _ & Hm9 & Hr9) Ie9 Is9.
  apply react_msg4; [exact Ie9|by rewrite Est9, Est7, Est6|].
  rewrite Ec49, Ec47, Ec46. cbn [c4 set_step set_c4].
  eapply wp_mono; [|exact (Edhoc4Facts.step5 i2 r2 m4 g4 S4)].
  intros [] [i3 g5] (_ & Ekey & Lkey & _) e10 Ie10 Emsk. cbn [fst snd] in *.
  apply serve_empty; [exact Is9|]. apply answer_ack; [by rewrite Hr9, Hr8| |].
  - rewrite Ec9s, Ec8s. cbn [ctx set_round set_ctx].
    destruct S4 as (_ & _ & _ & _ & _ & _ & _ & ->). done.
  - unfold keys_agree. cbn [fst snd]. rewrite Emsk, Ec9s, Ec8s. cbn [ctx set_round set_ctx].
    by rewrite <-Ekey.
Qed.
End method4.

(** *** Methods 0 to 3 *)
Lemma converse3_wp m ue n g :
  Edhoc03.edhoc03_method_valid m = true -> have03 inst = true ->
  Edhoc03Facts.creds_ok ue -> Edhoc03Facts.creds_ok (server03 inst) ->
  ue03_pub inst = Edhoc03.peer_of ue -> (2 <= n)%nat ->
  wp (converse talloc inst n [1]) keys_agree
     ((engine3 m ue (Edhoc03.peer_of (server03 inst)), new_session), g).
Proof.
  intros Hv Hhave Hue Hsrv Hpub Hn. assert (frag_max = 8192) as Hfm by done.
  pose proof (conj (Edhoc03Facts.pt_len_le (Edhoc03.method_resp_auth m)) (Edhoc03Facts.pt_len_nonneg (Edhoc03.method_resp_auth m))).
  pose proof (conj (Edhoc03Facts.pt_len_le (Edhoc03.method_init_auth m)) (Edhoc03Facts.pt_len_nonneg (Edhoc03.method_init_auth m))).
  assert (Hm : m <= 3) by (unfold Edhoc03.edhoc03_method_valid in Hv; lia).
  destruct n as [|n]; [lia|].
  apply converse_start; [apply idle_engine3|]. intros e1 He1 (Ecl & Ec3 & _ & Est & _).
  apply react_start; [exact He1|exact Est|]. rewrite Ecl, Ec3.
  change (classical (engine3 _ _ _)) with (m <=? 3) in *.
  assert ((m <=? 3) = true) as Hcl by lia. rewrite Hcl in *.
  eapply wp_mono; [|exact (Edhoc03Facts.e3_step1 m ue (server03 inst) Hv g E4_MAX_MSG ltac:(done))].
  intros m1 [i1 g1] (S1 & L1 & B1). cbn [fst snd] in *. split; [lia|].
  intros e2 Se2 Ie2 (Ecl2 & Ec32 & _ & Est2 & _).
  apply (deliver_up talloc inst Htalloc 0 m1);
    [lia|lia|exact Se2|exact Ie2|apply idle_session|apply idle_session|apply fits_0; lia|lia|].
  intros e3 s3 n3 Hn3 (Ecl3 & Ec33 & _ & Est3 & _) (_ & _ & Hm3 & Hr3) Ie3 Is3.
  apply (answer_msg1_3 talloc inst Htalloc);
    [exact Is3|by rewrite Hr3|by rewrite Hm3|exact L1|lia|exact Hhave|].
  unfold R3. rewrite Hpub.
  eapply wp_mono; [|exact (Edhoc03Facts.e3_step2 m ue (server03 inst) Hv Hsrv i1 m1 g1 E4_MAX_MSG
    ltac:(done) S1)].
  intros m2 [r1 g2] [S2 L2]. cbn [fst snd] in *. split; [lia|].
  intros s4 Ss4 Is4 (_ & Ec4s & Hm4 & Hr4).
  apply (deliver_down talloc inst Htalloc 0 m2);
    [lia|lia|exact Ss4|exact Is4|apply Ie3|apply Ie3|apply fits_0; lia|lia|].
  intros e5 s5 n5 Hn5 (Ecl5 & Ec35 & _ & Est5 & _) (_ & Ec5s & Hm5 & Hr5) Ie5 Is5.
  apply react_msg2; [exact Ie5|by rewrite Est5, Est3, Est2|].
  rewrite Ecl5, Ecl3, Ecl2, Ec35, Ec33, Ec32. cbn [classical c3 set_step set_c3]. rewrite Ecl.
  eapply wp_mono; [|exact (Edhoc03Facts.e3_step3 m ue (server03 inst) Hue Hsrv i1 r1 m2 g2
    E4_MAX_MSG ltac:(done) S2)].
  intros m3 [i2 g3] [S3 L3]. cbn [fst snd] in *. split; [lia|].
  intros e6 Se6 Ie6 (_ & _ & _ & _ & Emsk).
  apply (deliver_up talloc inst Htalloc 0 m3);
    [lia|lia|exact Se6|exact Ie6|apply Is5|apply Is5|apply fits_0; lia|lia|].
  intros e7 s7 n7 Hn7 (_ & _ & _ & _ & Emsk7) (_ & Ec7s & Hm7 & Hr7) Ie7 Is7.
  apply answer_msg3_3; [by rewrite Hr7, Hr5, Hr4|by rewrite Hm7, Hm5, Hm4|].
  rewrite Ec7s, Ec5s, Ec4s. cbn [ctx03 set_round set_ctx03].
  eapply wp_mono; [|exact (Edhoc03Facts.e3_step4 m ue (server03 inst) Hue i2 r1 m3 g3 E4_MAX_MSG S3)].
  intros m4 [r2 g4] (_ & Ekey & Lkey & _ & _ & _ & _ & _ & _ & Hd). cbn [fst snd] in *.
  rewrite Hd. split; [done|]. unfold keys_agree. cbn [fst snd]. rewrite Emsk7, Emsk.
  change (EapPeer.msk (set_step 2 (set_msk (Edhoc03.msk i2) (set_c3 i2 e5)))) with (Edhoc03.msk i2).
  by rewrite <-Ekey.
Qed.
End success.

(** C6: end to end, method 4: a peer and a module that hold credentials made by
    [edhoc4_gen_creds] and each other's public keys reach EAP-Success from the
    start request of [mod_session_init], for any randomness, within 16 responses
    (3 for message 1, 6 to acknowledge message 2, 5 for message 3, 1 to acknowledge
    message 4 and the closing one); the MPPE keys given to RADIUS are the two halves of the
    64-byte MSK the peer holds. *)
Theorem method4_conversation_succeeds `{CL : CryptoLaws} talloc inst idu ida ga gb sa sb ue size q s0 q0 n g :
  (forall k, talloc k = true) ->
  zlen idu = Edhoc4.E4_ID_CRED -> zlen ida = Edhoc4.E4_ID_CRED ->
  Edhoc4.edhoc4_gen_creds 0 (Some idu) (tt, ga) = (Ok ue, sa) ->
  Edhoc4.edhoc4_gen_creds 0 (Some ida) (tt, gb) = (Ok (server inst), sb) ->
  ue_pub inst = Edhoc4.kem_pk ue ->
  mod_session_init talloc size None q = (Ok tt, (Some s0, q0)) -> (16 <= n)%nat ->
  exists e s g',
    converse talloc inst n (type_data q0) ((engine4 ue (Edhoc4.kem_pk (server inst)), s0), g) =
      (Ok (mppe_keys (EapPeer.msk e)), ((e, s), g')) /\
    zlen (EapPeer.msk e) = 64.
Proof.
  intros Ht Hu Ha Eu Ea Hpub Ei Hn. unfold mod_session_init in Ei. rewrite !Ht in Ei.
  cbn in Ei. simplify_eq. cbn [type_data].
  pose proof (Edhoc4Facts.gen_creds_ok _ _ _ _ _ Hu Eu) as Hue.
  pose proof (Edhoc4Facts.gen_creds_ok _ _ _ _ _ Ha Ea) as Haaa.
  destruct (wp_run _ _ _ (exchange4_first talloc Ht inst ue Hue Haaa Hpub n g keys_agree
    ltac:(lia) (fun m2 e s g' n' Hn' H => exchange4_second talloc Ht inst ue Hue Haaa n' m2 e s g'
      ltac:(lia) H))) as (out & [[e s] g'] & E & -> & Hl).
  by exists e, s, g'.
Qed.

(** C33: end to end, methods 0 to 3: with credentials made by [edhoc03_gen_creds]
    and both public keys pinned, two responses of the peer are enough to reach
    EAP-Success, for each method and any randomness, and the MPPE keys are the two
    halves of the 64-byte MSK the peer holds. *)
Theorem classical_conversation_succeeds `{CL : CryptoLaws} talloc inst m idu ids ga gb sa sb ue size q s0 q0 n g :
  (forall k, talloc k = true) -> 0 <= m <= 3 -> have03 inst = true ->
  zlen idu = Edhoc03.E3_ID_CRED -> zlen ids = Edhoc03.E3_ID_CRED ->
  Edhoc03.edhoc03_gen_creds 0 (Some idu) (tt, ga) = (Ok ue, sa) ->
  Edhoc03.edhoc03_gen_creds 0 (Some ids) (tt, gb) = (Ok (server03 inst), sb) ->
  ue03_pub inst = Edhoc03.peer_of ue ->
  mod_session_init talloc size None q = (Ok tt, (Some s0, q0)) -> (2 <= n)%nat ->
  exists e s g',
    converse talloc inst n (type_data q0)
      ((engine3 m ue (Edhoc03.peer_of (server03 inst)), s0), g) =
      (Ok (mppe_keys (EapPeer.msk e)), ((e, s), g')) /\
    zlen (EapPeer.msk e) = 64.
Proof.
  intros Ht Hm Hh Hu Hs Eu Es Hpub Ei Hn. unfold mod_session_init in Ei. rewrite !Ht in Ei.
  cbn in Ei. simplify_eq. cbn [type_data].
  pose proof (Edhoc03Facts.e3_gen_creds_ok _ _ _ _ _ Hu Eu) as Hue.
  pose proof (Edhoc03Facts.e3_gen_creds_ok _ _ _ _ _ Hs Es) as Hsrv.
  assert (Hv : Edhoc03.edhoc03_method_valid m = true).
  { unfold Edhoc03.edhoc03_method_valid. apply andb_true_iff. lia. }
  destruct (wp_run _ _ _ (converse3_wp talloc Ht inst m ue n g Hv Hh Hue Hsrv Hpub Hn))
    as (out & [[e s] g'] & E & -> & Hl).
  by exists e, s, g'.
Qed.

Lemma method4_conversation_succeeds_witness :
  exists e s g',
    converse (C := toy_crypto) (fun _ => true) ToyServer.inst 16 [1]
      ((engine4 Edhoc4Facts.ToyCreds.ue (Edhoc4.kem_pk (server ToyServer.inst)), new_session), 3) =
      (Ok (mppe_keys (EapPeer.msk e)), ((e, s), g')) /\
    zlen (EapPeer.msk e) = 64.
Proof.
  apply (method4_conversation_succeeds (CL := toy_laws) (fun _ => true) ToyServer.inst
    [0; 0; 1] [0; 0; 2] 1 2 (snd (Edhoc4Facts.ToyCreds.run_creds 1))
    (snd (Edhoc4Facts.ToyCreds.run_creds 2)) Edhoc4Facts.ToyCreds.ue 0 (packet 0 []) new_session
    (packet PW_EAP_REQUEST [1]) 16 3); [done|done|done|vm_compute; reflexivity..|lia].
Defined.

Lemma classical_conversation_succeeds_witness :
  exists e s g',
    converse (C := toy_crypto) (fun _ => true) ToyServer.inst 2 [1]
      ((engine3 1 Edhoc03Facts.ToyCreds.ue (Edhoc03.peer_of (server03 ToyServer.inst)),
        new_session), 3) =
      (Ok (mppe_keys (EapPeer.msk e)), ((e, s), g')) /\
    zlen (EapPeer.msk e) = 64.
Proof.
  apply (classical_conversation_succeeds (CL := toy_laws) (fun _ => true) ToyServer.inst 1
    [0; 0; 1] [0; 0; 2] 1 2 (snd (Edhoc03Facts.ToyCreds.run_creds 1))
    (snd (Edhoc03Facts.ToyCreds.run_creds 2)) Edhoc03Facts.ToyCreds.ue 0 (packet 0 []) new_session
    (packet PW_EAP_REQUEST [1]) 2 3);
    [done|lia|reflexivity|done|done|vm_compute; reflexivity..|lia].
Defined.
