(* ===== verification/Fragments.v ===== *)
(** * Fragments: a message survives the two implementations of fragmentation

    The wires the engine's [eng_queue_outgoing] and [eng_send_fragment] produce,
    fed one after the other to the module's [edhoc_consume_incoming]. *)
From stdpp Require Import base numbers list option strings.
From Stdlib Require Import ZArith Lia.
From S2P Require Import Prelude Crypto Hkdf Files Frag RlmEapEdhoc RlmFacts EapPeer PeerFacts Conversation.
From S2P Require Edhoc4.

(** The wires still to send, at most [n]. *)
Fixpoint drain (n : nat) (e : eng_t) : list bytes :=
  match n with
  | O => []
  | S n =>
      if e_out_pos e <? e_out_len e then
        match eng_send_fragment e with
        | (Ok w, e') => w :: drain n e'
        | _ => []
        end
      else []
  end.

(** All the wires of the message in [e_out]. *)
Definition wires (which : Z) (n : nat) (e : eng_t) : list bytes :=
  match eng_queue_outgoing which e with
  | (Ok w, e') => w :: drain n e'
  | _ => []
  end.

(** Feed them to the module: the message must be complete with the last wire. *)
Fixpoint feed (ws : list bytes) (s : edhoc_session_t) : option (bytes * edhoc_session_t) :=
  match ws with
  | [] => None
  | w :: ws =>
      match edhoc_consume_incoming (Some w) s with
      | (Ok (m, need_ack), s') =>
          if need_ack : bool then feed ws s' else if ws is [] then Some (m, s') else None
      | _ => None
      end
  end.

Section roundtrip.
Variable m : bytes.
Hypothesis Hm : 0 < zlen m <= frag_max.

Lemma consume_wire pos s :
  0 <= pos < zlen m -> received m pos (rbuf_of s) ->
  let pos' := pos + frag_len m pos in
  exists s', edhoc_consume_incoming (Some (send_wire m pos)) s =
    (Ok (if pos' <? zlen m then ([], true) else (m, false)), s') /\ same_core s s' /\
    received m (if pos' <? zlen m then pos' else 0) (rbuf_of s').
Proof.
  intros Hpos Hin pos'. rewrite consume_refines by apply Hin.
  destruct (reassemble_step Edhoc4.E4_ERR_PARSE Edhoc4.E4_ERR_BUF m pos (rbuf_of s) Hm Hpos Hin)
    as (b & E & Hb). rewrite E. fold pos' in Hb |- *.
  destruct (put_rbuf_core b s) as (Hc & Hrb & _).
  exists (put_rbuf b s). rewrite Hrb. by destruct (pos' <? zlen m).
Qed.

Lemma feed_drain k : forall pos e s n,
  0 <= pos < zlen m -> e_sending m (pos + frag_len m pos) e -> received m pos (rbuf_of s) ->
  fits m pos k -> (k <= n)%nat ->
  exists s', feed (send_wire m pos :: drain n e) s = Some (m, s') /\ same_core s s' /\
             idle_buf (rbuf_of s').
Proof.
  induction k as [k IH] using lt_wf_ind. intros pos e s n Hpos He Hin Hk Hn.
  destruct (consume_wire pos s Hpos Hin) as (s1 & E & Hc & Hin1). cbn [feed]. rewrite E.
  destruct (Z.ltb_spec (pos + frag_len m pos) (zlen m)) as [Hmore|Hlast].
  - destruct (fits_next m pos k Hpos Hk Hmore) as (Hfp & k' & -> & Hk').
    destruct n as [|n]; [lia|]. cbn [drain].
    destruct (eng_pending_sending _ _ _ He Hmore) as (Hp & Hl & Hp'). rewrite Hl, Hp'.
    destruct (Z.ltb_spec (pos + frag_len m pos) (zlen m)); [|lia].
    assert (Hok : eng_out_ok e) by (apply (eng_out_sending m (pos + frag_len m pos)); [lia..|done]).
    destruct (eng_send_wire e Hok) as [mf Es]; [left; lia|]. rewrite Es, Hp, Hp'.
    destruct (eng_after_next m (pos + frag_len m pos) e) as (H1 & _ & _); [lia|lia|done|].
    destruct (IH k' ltac:(lia) (pos + frag_len m pos) (set_msg_frags mf (eng_after e)) s1 n)
      as (s2 & E2 & Hc2 & Hi2); [lia|exact H1|exact Hin1|exact Hk'|lia|].
    exists s2. split; [exact E2|]. split; [by eapply same_core_trans|done].
  - assert (drain n e = []) as ->.
    { apply (sending_done m) in He; [|lia]. destruct n; [done|]. cbn [drain].
      by rewrite (idle_not_sending _ _ _ He). }
    exists s1. split_and!; done || apply Hin1.
Qed.
End roundtrip.

(** C24: whatever message of 1 to 8192 bytes the engine has in its output buffer,
    [eng_queue_outgoing] and at most eight calls of [eng_send_fragment] cut it into
    wires from which the module's [edhoc_consume_incoming], starting idle, gets
    exactly that message, with the last wire and no sooner; it is idle again after
    it, and its handshake state is untouched. *)
Theorem fragments_roundtrip m which e s :
  0 < zlen m <= frag_max ->
  zlen (e_out e) = frag_max -> ztake (zlen m) (e_out e) = m ->
  e_out_len e = zlen m -> e_out_pos e = 0 ->
  zlen (in_buf s) = frag_max -> in_len s = 0 ->
  exists s', feed (wires which 8 e) s = Some (m, s') /\ same_core s s' /\ in_len s' = 0.
Proof.
  intros Hm Hb Ht Hl Hp Hib Hil. assert (frag_max = 8192) as Hfm by done.
  assert (Hs : e_sending m 0 e).
  { split; [done|]. by destruct (Z.ltb_spec 0 (zlen m)); [|lia]. }
  destruct (eng_pending_sending m 0 e Hs ltac:(lia)) as (Hpe & _ & _).
  destruct (eng_after_next m 0 e ltac:(lia) ltac:(lia) Hs) as (H1 & _ & _).
  unfold wires.
  destruct (eng_queue_wire which e (eng_out_sending m 0 e ltac:(lia) ltac:(lia) Hs))
    as (mb & mf & ->). rewrite Hpe.
  assert (set_out_pos 0 e = e) as -> by (rewrite <-Hp at 1; by destruct e).
  destruct (feed_drain m Hm 8 0 (set_msg_frags mf (set_msg_bytes mb
    (set_cur_out_msg which (eng_after e)))) s 8) as (s' & E & Hc & [_ Hi]);
    [lia|exact H1|split; [exact Hib|exact Hil]|apply fits_0; lia|lia|].
  by exists s'.
Qed.

Lemma fragments_roundtrip_witness :
  let m := zreplicate 2354 7 in
  let e := set_out_len 2354 (set_out (m ++ zreplicate 5838 9) (zero_eng 4)) in
  exists s', feed (wires 1 8 e) new_session = Some (m, s') /\
    same_core new_session s' /\ in_len s' = 0.
Proof.
  intros m e.
  apply (fragments_roundtrip m 1 e new_session); [split; vm_compute; [done|discriminate]|..];
    vm_compute; reflexivity.
Defined.
