(* ===== verification/Rfc1321.v ===== *)
(** * Rfc1321: the MD5 of RFC 1321 and the HMAC of RFC 2104

    Written from the two documents and not from the relay's code, which Md5 shows
    to compute them.  The auxiliary functions are truth tables on bits, the 64
    operations are given by their index, and the constants are the integer parts
    of [2^32 |sin i|], from the power series of the sine and the cosine. *)
From stdpp Require Import base numbers list option.
From Stdlib Require Import ZArith Lia.
From S2P Require Import Prelude.

(** ** Section 2: words and bytes, low-order byte first *)
Definition word (x : Z) : Z := x mod 2 ^ 32.

Fixpoint le_bytes (n : nat) (x : Z) : bytes :=
  match n with
  | O => []
  | S n => x mod 256 :: le_bytes n (x / 256)
  end.
Fixpoint le_value (b : bytes) : Z :=
  match b with
  | [] => 0
  | x :: b => x + 256 * le_value b
  end.

(** [X <<< s]: the bits that leave at the top come back at the bottom. *)
Definition rotl (x s : Z) : Z := (x * 2 ^ s) mod 2 ^ 32 + x / 2 ^ (32 - s).

(** The integer whose bit [i] is [f i], for [i < n]. *)
Fixpoint of_bits (n : nat) (f : Z -> bool) : Z :=
  match n with
  | O => 0
  | S n => of_bits n f + Z.b2z (f (Z.of_nat n)) * 2 ^ Z.of_nat n
  end.

(** ** Section 3.1 and 3.2: padding, and the length in bits modulo 2^64 *)
Definition rfc1321_pad (m : bytes) : bytes :=
  m ++ [0x80] ++ zreplicate ((55 - zlen m) mod 64) 0 ++ le_bytes 8 (8 * zlen m).

(** The message in blocks of 64 bytes; a last part shorter than a block is dropped. *)
Fixpoint blocks64 (n : nat) (data : bytes) : list bytes :=
  match n with
  | O => []
  | S n => if zlen data <? 64 then [] else ztake 64 data :: blocks64 n (zdrop 64 data)
  end.

(** ** Section 3.4: the 64 operations *)

(** F, G, H and I, bit by bit. *)
Definition aux (round : nat) (x y z : bool) : bool :=
  match round with
  | 0%nat => if x then y else z
  | 1%nat => if z then x else y
  | 2%nat => xorb x (xorb y z)
  | _ => xorb y (x || negb z)
  end.
Definition bitwise (round : nat) (x y z : Z) : Z :=
  of_bits 32 (fun i => aux round (Z.testbit x i) (Z.testbit y i) (Z.testbit z i)).

(** The word of the block an operation adds, and its rotation. *)
Definition word_index (round j : nat) : nat :=
  match round with
  | 0%nat => j
  | 1%nat => (1 + 5 * j) mod 16
  | 2%nat => (5 + 3 * j) mod 16
  | _ => (7 * j) mod 16
  end.
Definition rotation (round j : nat) : Z :=
  nth (j mod 4) (nth round [[7; 12; 17; 22]; [5; 9; 14; 20]; [4; 11; 16; 23]; [6; 10; 15; 21]] []) 0.

(** Fixed point numbers with 96 binary places.  [series n 2 one] is
    [1 - 1/3! + 1/5! - ...], the sine of 1, and [series n 1 one] is its cosine; the sines of
    2, 3, ... follow by [sin (k + 2) = 2 cos 1 sin (k + 1) - sin k]. *)
Definition one : Z := 2 ^ 96.
Fixpoint series (n : nat) (j t : Z) : Z :=
  match n with
  | O => 0
  | S n => t - series n (j + 2) (t / (j * (j + 1)))
  end.
Definition sin1 : Z := series 30 2 one.
Definition cos1 : Z := series 30 1 one.
Fixpoint sines (k : nat) (s s' : Z) : list Z :=
  match k with
  | O => []
  | S k => s' :: sines k s' (Z.shiftr (2 * cos1 * s') 96 - s)
  end.

(** [T\[i + 1\]] of the document: the integer part of [2^32 |sin (i + 1)|]. *)
Definition T (i : nat) : Z := nth i (map (fun s => Z.shiftr (2 ^ 32 * Z.abs s) 96) (sines 64 0 sin1)) 0.

(** [a = b + ((a + F(b,c,d) + X\[k\] + T\[i\]) <<< s)] for operation [i]. *)
Definition next_word (X : nat -> Z) (i : nat) (a b c d : Z) : Z :=
  let round := (i / 16)%nat in
  let j := (i mod 16)%nat in
  word (b + rotl (word (a + bitwise round b c d + X (word_index round j) + T i)) (rotation round j)).

(** The registers in the order in which the next operation takes them. *)
Definition registers : Type := Z * Z * Z * Z.
Definition operation (X : nat -> Z) (r : registers) (i : nat) : registers :=
  let '(a, b, c, d) := r in (d, next_word X i a b c d, b, c).

Definition block_word (block : bytes) (k : nat) : Z :=
  le_value (map (fun j => byte_at block (4 * Z.of_nat k + j)) [0; 1; 2; 3]).

Definition compress (r : registers) (block : bytes) : registers :=
  let '(a, b, c, d) := r in
  let '(a', b', c', d') := fold_left (operation (block_word block)) (seq 0 64) r in
  (word (a + a'), word (b + b'), word (c + c'), word (d + d')).

(** ** Section 3.3 and 3.5: the initial registers, the digest *)
Definition initial : registers :=
  (le_value [0x01; 0x23; 0x45; 0x67], le_value [0x89; 0xab; 0xcd; 0xef],
   le_value [0xfe; 0xdc; 0xba; 0x98], le_value [0x76; 0x54; 0x32; 0x10]).

Definition digest (r : registers) : bytes :=
  let '(a, b, c, d) := r in le_bytes 4 a ++ le_bytes 4 b ++ le_bytes 4 c ++ le_bytes 4 d.

Definition rfc1321 (m : bytes) : bytes :=
  let p := rfc1321_pad m in digest (fold_left compress (blocks64 (length p) p) initial).

(** ** RFC 2104 with MD5 *)
Definition rfc2104 (key data : bytes) : bytes :=
  let key := if 64 <? zlen key then rfc1321 key else key in
  let block := key ++ zreplicate (64 - zlen key) 0 in
  rfc1321 (map (Z.lxor 0x5c) block ++ rfc1321 (map (Z.lxor 0x36) block ++ data)).

(** ** Lemmas *)

(** The rounding of these numbers does not reach [T]: its error is a few thousand units of
    [one], and one of [2^40] units would leave all 64 integer parts as they are. *)
Lemma T_margin : Forall (fun s => forall e, Z.abs e <= 2 ^ 40 ->
    Z.shiftr (2 ^ 32 * (Z.abs s + e)) 96 = Z.shiftr (2 ^ 32 * Z.abs s) 96) (sines 64 0 sin1).
Proof.
  apply List.Forall_forall. intros s Hs e He.
  assert (H : forallb (fun s => let t := Z.shiftr (2 ^ 32 * Z.abs s) 96 in
      (t * one <=? 2 ^ 32 * (Z.abs s - 2 ^ 40)) && (2 ^ 32 * (Z.abs s + 2 ^ 40) <? (t + 1) * one))
      (sines 64 0 sin1) = true) by (vm_compute; reflexivity).
  rewrite forallb_forall in H. specialize (H s Hs). cbv zeta in H. apply andb_true_iff in H as [H1%Z.leb_le H2%Z.ltb_lt].
  revert H1 H2. generalize (Z.abs s). intros u. generalize (Z.shiftr (2 ^ 32 * u) 96). intros t H1 H2. change one with (2 ^ 96) in *.
  rewrite Z.shiftr_div_pow2 by lia. symmetry. apply (Z.div_unique _ _ _ (2 ^ 32 * (u + e) - t * 2 ^ 96)); lia.
Qed.

Lemma length_le_bytes n : forall x, length (le_bytes n x) = n.
Proof. induction n as [|n IH]; intros x; cbn; [done|]. by rewrite IH. Qed.
Lemma bytes_ok_le_bytes n : forall x, bytes_ok (le_bytes n x).
Proof. induction n as [|n IH]; intros x; constructor; [apply Z.mod_pos_bound; lia|apply IH]. Qed.

Lemma zlen_digest r : zlen (digest r) = 16.
Proof. by destruct r as [[[a b] c] d]. Qed.
Lemma bytes_ok_digest r : bytes_ok (digest r).
Proof. destruct r as [[[a b] c] d]. repeat apply Forall_app_2; apply bytes_ok_le_bytes. Qed.

Lemma zlen_rfc1321 m : zlen (rfc1321 m) = 16.
Proof. apply zlen_digest. Qed.
Lemma bytes_ok_rfc1321 m : bytes_ok (rfc1321 m).
Proof. apply bytes_ok_digest. Qed.
#[export] Hint Rewrite zlen_rfc1321 : zlen.

Lemma zlen_rfc1321_pad m : zlen (rfc1321_pad m) mod 64 = 0.
Proof.
  unfold rfc1321_pad. rewrite !zlen_app, zlen_zreplicate. change (zlen (le_bytes 8 _)) with 8.
  change (zlen [0x80]) with 1. assert (0 <= (55 - zlen m) mod 64 < 64) by (apply Z.mod_pos_bound; lia).
  rewrite Z.max_r by lia. Z.div_mod_to_equations. lia.
Qed.

(** The constants in the table of the document's appendix. *)
Definition T_table : list Z := [
  0xd76aa478; 0xe8c7b756; 0x242070db; 0xc1bdceee; 0xf57c0faf; 0x4787c62a; 0xa8304613; 0xfd469501;
  0x698098d8; 0x8b44f7af; 0xffff5bb1; 0x895cd7be; 0x6b901122; 0xfd987193; 0xa679438e; 0x49b40821;
  0xf61e2562; 0xc040b340; 0x265e5a51; 0xe9b6c7aa; 0xd62f105d; 0x02441453; 0xd8a1e681; 0xe7d3fbc8;
  0x21e1cde6; 0xc33707d6; 0xf4d50d87; 0x455a14ed; 0xa9e3e905; 0xfcefa3f8; 0x676f02d9; 0x8d2a4c8a;
  0xfffa3942; 0x8771f681; 0x6d9d6122; 0xfde5380c; 0xa4beea44; 0x4bdecfa9; 0xf6bb4b60; 0xbebfbc70;
  0x289b7ec6; 0xeaa127fa; 0xd4ef3085; 0x04881d05; 0xd9d4d039; 0xe6db99e5; 0x1fa27cf8; 0xc4ac5665;
  0xf4292244; 0x432aff97; 0xab9423a7; 0xfc93a039; 0x655b59c3; 0x8f0ccc92; 0xffeff47d; 0x85845dd1;
  0x6fa87e4f; 0xfe2ce6e0; 0xa3014314; 0x4e0811a1; 0xf7537e82; 0xbd3af235; 0x2ad7d2bb; 0xeb86d391].
Lemma T_nth i : T i = nth i T_table 0.
Proof.
  unfold T. assert (map (fun s => Z.shiftr (2 ^ 32 * Z.abs s) 96) (sines 64 0 sin1) = T_table) as ->; [|done].
  vm_compute. reflexivity.
Qed.

(** The bits of [of_bits]. *)
Lemma of_bits_range n f : 0 <= of_bits n f < 2 ^ Z.of_nat n.
Proof.
  induction n as [|n IH]; cbn [of_bits]; [cbn; lia|]. rewrite Nat2Z.inj_succ, Z.pow_succ_r by lia.
  destruct (f _); cbn [Z.b2z]; lia.
Qed.
Lemma of_bits_testbit n f i : 0 <= i < Z.of_nat n -> Z.testbit (of_bits n f) i = f i.
Proof.
  induction n as [|n IH]; intros Hi; cbn [of_bits]; [lia|]. pose proof (of_bits_range n f) as Hr.
  destruct (decide (i = Z.of_nat n)) as [->|Hne].
  - rewrite Z.testbit_eqb by lia. rewrite Z.div_add, Z.div_small by lia. rewrite Z.add_0_l.
    by destruct (f _).
  - rewrite <-IH by lia. rewrite <-(Z.mod_pow2_bits_low _ (Z.of_nat n)) by lia.
    rewrite Z.mod_add, Z.mod_small by lia. done.
Qed.
(** A word is given by its 32 bits. *)
Lemma word_of_bits x f : 0 <= x < 2 ^ 32 -> (forall i, 0 <= i < 32 -> Z.testbit x i = f i) -> x = of_bits 32 f.
Proof.
  intros Hx H. pose proof (of_bits_range 32 f) as Hr. apply Z.bits_inj'. intros i Hi.
  destruct (decide (i < 32)).
  - rewrite of_bits_testbit by lia. apply H. lia.
  - rewrite <-(Z.mod_small x (2 ^ 32)), <-(Z.mod_small (of_bits 32 f) (2 ^ 32)) by (exact Hr || exact Hx).
    by rewrite !Z.mod_pow2_bits_high by lia.
Qed.
