(* ===== verification/Md5.v ===== *)
(** * Md5: the MD5 and HMAC-MD5 of the UPF relay, open5gs/src/upf/eap-relay.c

    The 64 lines of [md5_transform] are data, run in order.  Each is shown to be the
    operation of RFC 1321 with its index, so that the compression functions agree, and the
    streaming implementation ([md5_init], [md5_update], [md5_final]) to compute the
    digest of Rfc1321 for any way its input is cut in pieces; [hmac_md5] is RFC 2104's
    construction on it. *)
From stdpp Require Import base numbers list option.
From Stdlib Require Import ZArith Lia.
From S2P Require Import Prelude Rfc1321.

(** ** The compression function: 32-bit words *)
Definition md5_rotl (x n : Z) : Z := Z.lor (u32 (Z.shiftl x n)) (Z.shiftr x (32 - n)).

Definition not32 (x : Z) : Z := u32 (Z.lnot x).
Definition md5_f (x y z : Z) : Z := Z.lor (Z.land x y) (Z.land (not32 x) z).
Definition md5_g (x y z : Z) : Z := Z.lor (Z.land x z) (Z.land y (not32 z)).
Definition md5_h (x y z : Z) : Z := Z.lxor (Z.lxor x y) z.
Definition md5_i (x y z : Z) : Z := Z.lxor y (Z.lor x (not32 z)).

(** [MD5_STEP]: the new value of [a]. *)
Definition md5_step (f : Z -> Z -> Z -> Z) (a b c d x t s : Z) : Z :=
  let a := u32 (a + u32 (u32 (f b c d + x) + t)) in
  let a := md5_rotl a s in
  u32 (a + b).

Definition word_at (block : bytes) (i : Z) : Z :=
  rdle32 (byte_at block (i * 4 + 0)) (byte_at block (i * 4 + 1))
         (byte_at block (i * 4 + 2)) (byte_at block (i * 4 + 3)).

(** [state\[i\]]. *)
Definition reg (state : list Z) (i : nat) : Z := nth i state 0.

(** The registers [a], [b], [c] and [d], and the orders in which [MD5_STEP] gets them. *)
Definition regs : Type := Z * Z * Z * Z.
Inductive order := abcd | dabc | cdab | bcda.

(** One line [MD5_STEP(f, ..., m\[k\], t, s)]. *)
Record step_line := STEP { fn : Z -> Z -> Z -> Z; args : order; k_of : nat; t_of : Z; s_of : Z }.

(** The line changes the register it names first. *)
Definition run_step (m : Z -> Z) (r : regs) (l : step_line) : regs :=
  let '(a, b, c, d) := r in
  let x := m (Z.of_nat (k_of l)) in
  let step p q u v := md5_step (fn l) p q u v x (t_of l) (s_of l) in
  match args l with
  | abcd => (step a b c d, b, c, d)
  | dabc => (a, b, c, step d a b c)
  | cdab => (a, b, step c d a b, d)
  | bcda => (a, step b c d a, c, d)
  end.

Definition md5_steps : list step_line := [
  STEP md5_f abcd 0 0xd76aa478 7; STEP md5_f dabc 1 0xe8c7b756 12;
  STEP md5_f cdab 2 0x242070db 17; STEP md5_f bcda 3 0xc1bdceee 22;
  STEP md5_f abcd 4 0xf57c0faf 7; STEP md5_f dabc 5 0x4787c62a 12;
  STEP md5_f cdab 6 0xa8304613 17; STEP md5_f bcda 7 0xfd469501 22;
  STEP md5_f abcd 8 0x698098d8 7; STEP md5_f dabc 9 0x8b44f7af 12;
  STEP md5_f cdab 10 0xffff5bb1 17; STEP md5_f bcda 11 0x895cd7be 22;
  STEP md5_f abcd 12 0x6b901122 7; STEP md5_f dabc 13 0xfd987193 12;
  STEP md5_f cdab 14 0xa679438e 17; STEP md5_f bcda 15 0x49b40821 22;
  STEP md5_g abcd 1 0xf61e2562 5; STEP md5_g dabc 6 0xc040b340 9;
  STEP md5_g cdab 11 0x265e5a51 14; STEP md5_g bcda 0 0xe9b6c7aa 20;
  STEP md5_g abcd 5 0xd62f105d 5; STEP md5_g dabc 10 0x02441453 9;
  STEP md5_g cdab 15 0xd8a1e681 14; STEP md5_g bcda 4 0xe7d3fbc8 20;
  STEP md5_g abcd 9 0x21e1cde6 5; STEP md5_g dabc 14 0xc33707d6 9;
  STEP md5_g cdab 3 0xf4d50d87 14; STEP md5_g bcda 8 0x455a14ed 20;
  STEP md5_g abcd 13 0xa9e3e905 5; STEP md5_g dabc 2 0xfcefa3f8 9;
  STEP md5_g cdab 7 0x676f02d9 14; STEP md5_g bcda 12 0x8d2a4c8a 20;
  STEP md5_h abcd 5 0xfffa3942 4; STEP md5_h dabc 8 0x8771f681 11;
  STEP md5_h cdab 11 0x6d9d6122 16; STEP md5_h bcda 14 0xfde5380c 23;
  STEP md5_h abcd 1 0xa4beea44 4; STEP md5_h dabc 4 0x4bdecfa9 11;
  STEP md5_h cdab 7 0xf6bb4b60 16; STEP md5_h bcda 10 0xbebfbc70 23;
  STEP md5_h abcd 13 0x289b7ec6 4; STEP md5_h dabc 0 0xeaa127fa 11;
  STEP md5_h cdab 3 0xd4ef3085 16; STEP md5_h bcda 6 0x04881d05 23;
  STEP md5_h abcd 9 0xd9d4d039 4; STEP md5_h dabc 12 0xe6db99e5 11;
  STEP md5_h cdab 15 0x1fa27cf8 16; STEP md5_h bcda 2 0xc4ac5665 23;
  STEP md5_i abcd 0 0xf4292244 6; STEP md5_i dabc 7 0x432aff97 10;
  STEP md5_i cdab 14 0xab9423a7 15; STEP md5_i bcda 5 0xfc93a039 21;
  STEP md5_i abcd 12 0x655b59c3 6; STEP md5_i dabc 3 0x8f0ccc92 10;
  STEP md5_i cdab 10 0xffeff47d 15; STEP md5_i bcda 1 0x85845dd1 21;
  STEP md5_i abcd 8 0x6fa87e4f 6; STEP md5_i dabc 15 0xfe2ce6e0 10;
  STEP md5_i cdab 6 0xa3014314 15; STEP md5_i bcda 13 0x4e0811a1 21;
  STEP md5_i abcd 4 0xf7537e82 6; STEP md5_i dabc 11 0xbd3af235 10;
  STEP md5_i cdab 2 0x2ad7d2bb 15; STEP md5_i bcda 9 0xeb86d391 21].

Definition md5_transform (state : list Z) (block : bytes) : list Z :=
  let '(a, b, c, d) := fold_left (run_step (word_at block)) md5_steps (reg state 0, reg state 1, reg state 2, reg state 3) in
  [u32 (reg state 0 + a); u32 (reg state 1 + b); u32 (reg state 2 + c); u32 (reg state 3 + d)].

(** ** The streaming interface *)
Record md5_ctx_t := {
  state : list Z;
  bit_len : Z;
  buffer : bytes;
  buffer_len : Z
}.

(** [buffer] is not initialised by [md5_init]; it is read only where written. *)
Definition md5_init (ctx : md5_ctx_t) : md5_ctx_t := {|
  state := [0x67452301; 0xefcdab89; 0x98badcfe; 0x10325476];
  bit_len := 0; buffer := buffer ctx; buffer_len := 0 |}.

(** The [while] loop over whole blocks: the state and the bytes left. *)
Fixpoint md5_blocks (n : nat) (st : list Z) (data : bytes) : list Z * bytes :=
  match n with
  | O => (st, data)
  | S n => if 63 <? zlen data
           then md5_blocks n (md5_transform st (ztake 64 data)) (zdrop 64 data)
           else (st, data)
  end.

Definition md5_update (ctx : md5_ctx_t) (data : bytes) : md5_ctx_t :=
  let len := zlen data in
  if len =? 0 then ctx
  else
    let bits := u64 (bit_len ctx + u64 (len * 8)) in
    let space := 64 - buffer_len ctx in
    if (0 <? buffer_len ctx) && (len <? space) then
      {| state := state ctx; bit_len := bits;
         buffer := splice (buffer ctx) (buffer_len ctx) data;
         buffer_len := buffer_len ctx + len |}
    else
      let '(st, buf, rest) :=
        if 0 <? buffer_len ctx then
          let buf := splice (buffer ctx) (buffer_len ctx) (ztake space data) in
          (md5_transform (state ctx) buf, buf, zdrop space data)
        else (state ctx, buffer ctx, data) in
      let '(st, rest) := md5_blocks (length rest) st rest in
      if 0 <? zlen rest then
        {| state := st; bit_len := bits; buffer := splice buf 0 rest; buffer_len := zlen rest |}
      else {| state := st; bit_len := bits; buffer := buf; buffer_len := 0 |}.

Definition le64 (x : Z) : bytes :=
  map (fun i => u8 (Z.shiftr x (8 * i))) [0; 1; 2; 3; 4; 5; 6; 7].

Definition set_bit_len (v : Z) (ctx : md5_ctx_t) : md5_ctx_t :=
  {| state := state ctx; bit_len := v; buffer := buffer ctx; buffer_len := buffer_len ctx |}.

(** [out\[i*4\]] to [out\[i*4+3\]]. *)
Definition out_word (v : Z) : bytes :=
  [u8 (Z.land v 0xff); u8 (Z.land (Z.shiftr v 8) 0xff);
   u8 (Z.land (Z.shiftr v 16) 0xff); u8 (Z.land (Z.shiftr v 24) 0xff)].

Definition md5_final (ctx : md5_ctx_t) : bytes :=
  let bits := bit_len ctx in
  let pad := 0x80 :: zreplicate 127 0 in
  let pad_len := if buffer_len ctx <? 56 then 56 - buffer_len ctx else 120 - buffer_len ctx in
  let ctx := md5_update ctx (ztake pad_len pad) in
  let ctx := md5_update (set_bit_len bits ctx) (le64 bits) in
  flat_map out_word (state (set_bit_len bits ctx)).

(** A context on the stack, before [md5_init]. *)
Definition stack_ctx : md5_ctx_t :=
  {| state := [0; 0; 0; 0]; bit_len := 0; buffer := zreplicate 64 0; buffer_len := 0 |}.

Definition md5_hash (data : bytes) : bytes :=
  md5_final (md5_update (md5_init stack_ctx) data).

(** [memset(k, pad, 64)] and [k\[i\] ^= key\[i\]]. *)
Definition xor_pad (pad : Z) (key : bytes) : bytes :=
  map (fun b => Z.lxor pad b) key ++ zreplicate (64 - zlen key) pad.

Definition hmac_md5 (key data : bytes) : bytes :=
  let key := if 64 <? zlen key then md5_hash key else key in
  let k_ipad := xor_pad 0x36 key in
  let k_opad := xor_pad 0x5c key in
  let ctx := md5_update (md5_init stack_ctx) k_ipad in
  let tk := md5_final (md5_update ctx data) in
  let ctx := md5_update (md5_init stack_ctx) k_opad in
  md5_final (md5_update ctx tk).

(** ** The compression function is RFC 1321's *)

Definition word32 (x : Z) : Prop := 0 <= x < 4294967296.
(** The four registers as [state] keeps them. *)
Definition state_of (r : registers) : list Z := let '(a, b, c, d) := r in [a; b; c; d].

Lemma word_range x : word32 (word x).
Proof. apply Z.mod_pos_bound. lia. Qed.
Lemma not32_testbit x i : 0 <= i < 32 -> Z.testbit (not32 x) i = negb (Z.testbit x i).
Proof.
  intros Hi. unfold not32, u32. change 4294967296 with (2 ^ 32). rewrite Z.mod_pow2_bits_low by lia.
  apply Z.lnot_spec. lia.
Qed.

Definition code_aux (round : nat) : Z -> Z -> Z -> Z :=
  match round with 0%nat => md5_f | 1%nat => md5_g | 2%nat => md5_h | _ => md5_i end.

Lemma code_aux_testbit r x y z i : 0 <= i < 32 ->
  Z.testbit (code_aux r x y z) i = aux r (Z.testbit x i) (Z.testbit y i) (Z.testbit z i).
Proof.
  intros Hi. destruct r as [|[|[|r]]]; cbn [code_aux aux]; unfold md5_f, md5_g, md5_h, md5_i;
    rewrite ?Z.lor_spec, ?Z.lxor_spec, ?Z.lor_spec, ?Z.land_spec, ?not32_testbit by lia;
    by destruct (Z.testbit x i), (Z.testbit y i), (Z.testbit z i).
Qed.
(** Modulo 2^32 they agree on any arguments, so [bitwise] may replace them in a sum. *)
Lemma code_aux_word r x y z : word (code_aux r x y z) = bitwise r x y z.
Proof.
  apply word_of_bits; [apply word_range|]. intros i Hi. unfold word.
  rewrite Z.mod_pow2_bits_low by lia. by apply code_aux_testbit.
Qed.

(** The bits shifted out and the bits shifted in do not overlap. *)
Lemma md5_rotl_eq x s : word32 x -> 0 < s < 32 -> md5_rotl x s = rotl x s.
Proof.
  intros Hx Hs. unfold md5_rotl, rotl, u32. rewrite Z.shiftl_mul_pow2, Z.shiftr_div_pow2 by lia.
  change 4294967296 with (2 ^ 32). rewrite <-Z.add_lor_land.
  replace (Z.land _ _) with 0; [lia|]. symmetry. apply Z.bits_inj'. intros i Hi. rewrite Z.bits_0, Z.land_spec.
  destruct (decide (i < s)) as [Hlt|Hge].
  - rewrite Z.mod_pow2_bits_low by lia. by rewrite Z.mul_pow2_bits_low by lia.
  - rewrite <-Z.shiftr_div_pow2, Z.shiftr_spec by lia. rewrite (Z.testbit_eqb x) by lia.
    rewrite (Z.div_small x); [by rewrite andb_false_r|]. unfold word32 in Hx.
    pose proof (Z.pow_le_mono_r 2 32 (i + (32 - s)) ltac:(lia) ltac:(lia)). lia.
Qed.

Lemma md5_step_eq r a b c d x t s : 0 < s < 32 ->
  md5_step (code_aux r) a b c d x t s = word (b + rotl (word (a + bitwise r b c d + x + t)) s).
Proof.
  intros Hs. unfold md5_step. rewrite <-code_aux_word.
  assert (E : u32 (a + u32 (u32 (code_aux r b c d + x) + t)) = word (a + word (code_aux r b c d) + x + t)).
  { unfold u32, word. change 4294967296 with (2 ^ 32). rewrite Z.add_mod_idemp_r by lia.
    replace (a + ((code_aux r b c d + x) mod 2 ^ 32 + t)) with ((code_aux r b c d + x) mod 2 ^ 32 + (a + t)) by lia.
    rewrite Z.add_mod_idemp_l by lia.
    replace (code_aux r b c d + x + (a + t)) with (code_aux r b c d + (a + x + t)) by lia.
    replace (a + code_aux r b c d mod 2 ^ 32 + x + t) with (code_aux r b c d mod 2 ^ 32 + (a + x + t)) by lia.
    by rewrite Z.add_mod_idemp_l by lia. }
  rewrite E, md5_rotl_eq by (done || apply word_range). unfold u32, word. f_equal. lia.
Qed.

Lemma word_at_eq block k : word_at block (Z.of_nat k) = block_word block k.
Proof.
  unfold word_at, block_word, rdle32, rd32. cbn [map le_value].
  replace (Z.of_nat k * 4) with (4 * Z.of_nat k) by lia. lia.
Qed.

(** Line [i] of the code, and the registers in the order in which it takes them. *)
Definition line_of (i : nat) : step_line :=
  STEP (code_aux (i / 16)) (nth (i mod 4) [abcd; dabc; cdab; bcda] abcd)
    (word_index (i / 16) (i mod 16)) (nth i T_table 0) (rotation (i / 16) (i mod 16)).
Definition view (i : nat) (r : registers) : registers :=
  let '(a, b, c, d) := r in nth (i mod 4) [(a, b, c, d); (d, a, b, c); (c, d, a, b); (b, c, d, a)] r.

Lemma md5_steps_eq : md5_steps = map line_of (seq 0 64).
Proof. reflexivity. Qed.

Lemma rotation_range i : (i < 64)%nat -> 0 < rotation (i / 16) (i mod 16) < 32.
Proof.
  intros Hi. assert (H : forallb (fun i => (0 <? rotation (i / 16) (i mod 16)) && (rotation (i / 16) (i mod 16) <? 32))
    (seq 0 64) = true) by reflexivity.
  rewrite forallb_forall in H. specialize (H i ltac:(apply in_seq; lia)). lia.
Qed.

(** A line of the code is an operation of RFC 1321. *)
Lemma run_step_eq block i r : (i < 64)%nat ->
  view (S i) (run_step (word_at block) r (line_of i)) = operation (block_word block) (view i r) i.
Proof.
  intros Hi. destruct r as [[[a b] c] d]. unfold view, run_step, line_of. cbn [fn args k_of t_of s_of].
  assert (E : forall p q u v, md5_step (code_aux (i / 16)) p q u v
      (word_at block (Z.of_nat (word_index (i / 16) (i mod 16)))) (nth i T_table 0) (rotation (i / 16) (i mod 16))
    = next_word (block_word block) i p q u v).
  { intros p q u v. rewrite md5_step_eq by (apply rotation_range, Hi). rewrite word_at_eq, <-T_nth. reflexivity. }
  pose proof (Nat.mod_upper_bound i 4 ltac:(lia)) as Hm.
  replace (S i mod 4)%nat with ((i mod 4 + 1) mod 4)%nat by (rewrite Nat.Div0.add_mod_idemp_l; f_equal; lia).
  destruct (i mod 4)%nat as [|[|[|[|n]]]]; [..|lia]; cbn; by rewrite E.
Qed.

Lemma run_steps_eq block n : forall i r, (i + n <= 64)%nat ->
  view (i + n) (fold_left (run_step (word_at block)) (map line_of (seq i n)) r) =
  fold_left (operation (block_word block)) (seq i n) (view i r).
Proof.
  induction n as [|n IH]; intros i r Hn; [by rewrite Nat.add_0_r|]. cbn [seq map fold_left].
  rewrite <-run_step_eq by lia. rewrite <-IH by lia. by rewrite Nat.add_succ_comm.
Qed.

Lemma md5_transform_eq r block : md5_transform (state_of r) block = state_of (compress r block).
Proof.
  destruct r as [[[a b] c] d]. pose proof (run_steps_eq block 64 0 (a, b, c, d) ltac:(lia)) as H.
  rewrite <-md5_steps_eq in H. unfold md5_transform, compress, reg. cbn [state_of nth].
  change (view 0 (a, b, c, d)) with (a, b, c, d) in H. rewrite <-H.
  by destruct (fold_left _ md5_steps _) as [[[a' b'] c'] d'].
Qed.

#[local] Opaque md5_transform compress.

Lemma fold_left_cons {A B} (f : A -> B -> A) a b l :
  fold_left f (b :: l) a = fold_left f l (f a b).
Proof. reflexivity. Qed.

Lemma fold_transform_eq l : forall r, fold_left md5_transform l (state_of r) = state_of (fold_left compress l r).
Proof. induction l as [|b l IH]; intros r; [reflexivity|]. rewrite !fold_left_cons, md5_transform_eq. apply IH. Qed.

(** The bytes of a word and of the bit count. *)
Lemma out_word_eq v : out_word v = le_bytes 4 v.
Proof.
  unfold out_word, le_bytes, u8. change 0xff with (Z.ones 8). rewrite !Z.land_ones by lia. change (2 ^ 8) with 256.
  rewrite !Z.shiftr_div_pow2, !Z.mod_mod, !Z.div_div by lia. reflexivity.
Qed.
Lemma le64_eq x : le64 (u64 x) = le_bytes 8 x.
Proof.
  unfold le64, u64, u8. cbn [map le_bytes Z.mul Pos.mul]. rewrite !Z.shiftr_div_pow2, !Z.div_div by lia.
  change 18446744073709551616 with (2 ^ 64). change 256 with (2 ^ 8).
  assert (E : forall k, 0 <= k <= 56 -> (x mod 2 ^ 64 / 2 ^ k) mod 2 ^ 8 = (x / 2 ^ k) mod 2 ^ 8).
  { intros k Hk. apply Z.bits_inj'. intros i Hi. destruct (decide (i < 8)).
    - rewrite !Z.mod_pow2_bits_low, !Z.div_pow2_bits, Z.mod_pow2_bits_low by lia. done.
    - by rewrite !Z.mod_pow2_bits_high by lia. }
  rewrite !E by lia. rewrite Z.div_1_r. reflexivity.
Qed.

(** The whole function, with the code's compression. *)
Lemma rfc1321_eq m : let p := rfc1321_pad m in
  flat_map out_word (fold_left md5_transform (blocks64 (length p) p)
    [0x67452301; 0xefcdab89; 0x98badcfe; 0x10325476]) = rfc1321 m.
Proof.
  intros p. change [_; _; _; _] with (state_of initial). rewrite fold_transform_eq. unfold rfc1321. fold p.
  destruct (fold_left compress _ _) as [[[a b] c] d]. cbn [state_of flat_map digest].
  by rewrite !out_word_eq, app_nil_r.
Qed.

Lemma length_zdrop64 (data : bytes) :
  64 <= zlen data -> (length (zdrop 64 data) < length data)%nat.
Proof. intros H. unfold zdrop. rewrite length_drop. unfold zlen in H. lia. Qed.

Lemma md5_blocks_S n st data :
  md5_blocks (S n) st data =
  if 63 <? zlen data then md5_blocks n (md5_transform st (ztake 64 data)) (zdrop 64 data)
  else (st, data).
Proof. reflexivity. Qed.

(** The loop is a fold over the blocks, whatever fuel beyond the length. *)
Lemma md5_blocks_fold n : forall st data, (length data <= n)%nat ->
  md5_blocks n st data =
  (fold_left md5_transform (blocks64 n data) st, zdrop (64 * (zlen data / 64)) data).
Proof.
  induction n as [|n IH]; intros st data Hn; [destruct data; [done|cbn in Hn; lia]|].
  rewrite md5_blocks_S. cbn [blocks64]. pose proof (zlen_nonneg data).
  destruct (Z.ltb_spec 63 (zlen data)), (Z.ltb_spec (zlen data) 64);
    [exfalso; lia| | |exfalso; lia].
  - pose proof (length_zdrop64 data ltac:(lia)). rewrite IH by lia.
    rewrite fold_left_cons. apply f_equal2; [reflexivity|].
    assert (E : zlen (zdrop 64 data) = zlen data - 64) by (rewrite zlen_zdrop; lia). rewrite E.
    rewrite zdrop_zdrop; [|Z.div_mod_to_equations; lia..].
    apply (f_equal (fun k => zdrop k data)). Z.div_mod_to_equations. lia.
  - rewrite Z.div_small by lia. by rewrite zdrop_nonpos.
Qed.

Lemma blocks64_fuel n : forall k data, (length data <= n)%nat -> (length data <= k)%nat ->
  blocks64 n data = blocks64 k data.
Proof.
  induction n as [|n IH]; intros k data Hn Hk.
  { destruct data; [by destruct k|cbn in Hn; lia]. }
  destruct k as [|k]; [destruct data; [done|cbn in Hk; lia]|]. cbn [blocks64].
  destruct (Z.ltb_spec (zlen data) 64); [done|]. f_equal.
  pose proof (length_zdrop64 data ltac:(lia)). apply IH; lia.
Qed.

(** The state after all whole blocks of [m], and the bytes after them. *)
Definition absorb (st : list Z) (m : bytes) : list Z * bytes := md5_blocks (length m) st m.

Lemma md5_blocks_fuel n st data : (length data <= n)%nat -> md5_blocks n st data = absorb st data.
Proof.
  intros H. unfold absorb. rewrite !md5_blocks_fold by lia.
  by rewrite (blocks64_fuel n (length data) data) by lia.
Qed.

Lemma absorb_short st m : zlen m < 64 -> absorb st m = (st, m).
Proof.
  intros H. unfold absorb. destruct m as [|x m]; [done|]. cbn [length]. rewrite md5_blocks_S.
  destruct (Z.ltb_spec 63 (zlen (x :: m))); [lia|done].
Qed.

Lemma absorb_block st b m :
  zlen b = 64 -> absorb st (b ++ m) = absorb (md5_transform st b) m.
Proof.
  intros Hb. unfold absorb at 1. destruct (length (b ++ m)) as [|n] eqn:El.
  { rewrite length_app in El. unfold zlen in Hb. lia. }
  rewrite md5_blocks_S, zlen_app. pose proof (zlen_nonneg m).
  destruct (Z.ltb_spec 63 (zlen b + zlen m)); [|lia].
  rewrite ztake_app_exact, zdrop_app_exact by done. apply md5_blocks_fuel.
  rewrite length_app in El. unfold zlen in Hb. lia.
Qed.

(** Absorbing in two parts. *)
Lemma absorb_app n : forall st a b, (length a <= n)%nat ->
  absorb st (a ++ b) = let '(st', r) := absorb st a in absorb st' (r ++ b).
Proof.
  induction n as [|n IH]; intros st a b Hn.
  { destruct a; [done|cbn in Hn; lia]. }
  destruct (decide (zlen a < 64)).
  - by rewrite (absorb_short st a).
  - pose proof (length_zdrop64 a ltac:(lia)) as Hl. pose proof (ztake_zdrop 64 a) as Ea.
    assert (Hx : zlen (ztake 64 a) = 64) by (rewrite zlen_ztake; lia).
    revert Ea Hx Hl. generalize (ztake 64 a), (zdrop 64 a). intros x y <- Hx Hl.
    rewrite <-app_assoc, !(absorb_block _ x) by done. apply IH. lia.
Qed.

Lemma absorb_rest st m : zlen (snd (absorb st m)) = zlen m mod 64.
Proof.
  unfold absorb. rewrite md5_blocks_fold by lia. cbn [snd]. rewrite zlen_zdrop.
  pose proof (zlen_nonneg m). Z.div_mod_to_equations. lia.
Qed.

(** ** The context represents the bytes hashed so far *)
Definition md5_iv : list Z := [0x67452301; 0xefcdab89; 0x98badcfe; 0x10325476].

Record hashed (m : bytes) (ctx : md5_ctx_t) : Prop := {
  h_absorb : absorb md5_iv m = (state ctx, ztake (buffer_len ctx) (buffer ctx));
  h_buffer : zlen (buffer ctx) = 64;
  h_len : 0 <= buffer_len ctx < 64
}.

Lemma hashed_init ctx : zlen (buffer ctx) = 64 -> hashed [] (md5_init ctx).
Proof. intros H. by split. Qed.

Lemma hashed_set_bit_len m v ctx : hashed m ctx -> hashed m (set_bit_len v ctx).
Proof. by intros []. Qed.

Lemma hashed_buffer_len m ctx : hashed m ctx -> buffer_len ctx = zlen m mod 64.
Proof.
  intros [Ha Hb Hl]. rewrite <-(absorb_rest md5_iv m), Ha. cbn [snd]. rewrite zlen_ztake. lia.
Qed.

(** The length in bits, modulo [2^64]. *)
Lemma bit_len_update ctx d n :
  bit_len ctx = u64 (8 * n) -> bit_len (md5_update ctx d) = u64 (8 * (n + zlen d)).
Proof.
  intros H. unfold md5_update. destruct (Z.eqb_spec (zlen d) 0) as [->|_]; [by rewrite Z.add_0_r|].
  assert (E : u64 (bit_len ctx + u64 (zlen d * 8)) = u64 (8 * (n + zlen d))).
  { rewrite H. unfold u64. rewrite <-Z.add_mod by lia. f_equal. lia. }
  destruct (_ && _); [exact E|]. destruct (0 <? buffer_len ctx);
    destruct (md5_blocks _ _ _) as [? ?]; by destruct (_ <? _).
Qed.

(** The end of [md5_update]: whole blocks, then the rest is kept. *)
Lemma hashed_tail m bits buf st d :
  absorb md5_iv m = absorb st d -> zlen buf = 64 ->
  hashed m (let '(st, rest) := md5_blocks (length d) st d in
            if 0 <? zlen rest then
              {| state := st; bit_len := bits; buffer := splice buf 0 rest; buffer_len := zlen rest |}
            else {| state := st; bit_len := bits; buffer := buf; buffer_len := 0 |}).
Proof.
  intros Ha Hb. rewrite md5_blocks_fuel by lia. pose proof (absorb_rest st d) as Hr.
  destruct (absorb st d) as [st' rest]. cbn [snd] in Hr.
  assert (0 <= zlen rest < 64) by (rewrite Hr; apply Z.mod_pos_bound; lia).
  destruct (Z.ltb_spec 0 (zlen rest)); split; cbn [state buffer buffer_len bit_len];
    try done; try lia.
  - pose proof (ztake_splice buf rest 0 ltac:(lia) ltac:(lia)) as Hs.
    rewrite Z.add_0_l in Hs. rewrite Hs. exact Ha.
  - rewrite zlen_splice by lia. done.
  - rewrite Ha, (zlen_0_nil rest) by lia. done.
Qed.

Lemma hashed_update m d ctx : hashed m ctx -> hashed (m ++ d) (md5_update ctx d).
Proof.
  intros [Ha Hb Hl]. pose proof (absorb_app (length m) md5_iv m d ltac:(lia)) as Happ.
  rewrite Ha in Happ. unfold md5_update. pose proof (zlen_nonneg d).
  destruct (Z.eqb_spec (zlen d) 0) as [H0|H0].
  { apply zlen_0_nil in H0 as ->. rewrite app_nil_r. by split. }
  destruct (Z.ltb_spec 0 (buffer_len ctx)) as [Hpos|Hz]; cbn [andb].
  - destruct (Z.ltb_spec (zlen d) (64 - buffer_len ctx)) as [Hsmall|Hbig].
    + split; cbn [state buffer buffer_len bit_len]; [|by rewrite zlen_splice; lia|lia].
      rewrite ztake_splice by lia. rewrite Happ. apply absorb_short.
      rewrite zlen_app, zlen_ztake. lia.
    + set (space := 64 - buffer_len ctx) in *.
      assert (Ht : zlen (ztake space d) = space) by (rewrite zlen_ztake; lia).
      set (buf := splice (buffer ctx) (buffer_len ctx) (ztake space d)).
      assert (Hblk : zlen buf = 64) by (unfold buf; rewrite zlen_splice; lia).
      assert (Hbuf : buf = ztake (buffer_len ctx) (buffer ctx) ++ ztake space d).
      { rewrite <-ztake_splice by lia. symmetry. apply ztake_all. fold buf. lia. }
      apply hashed_tail; [|exact Hblk].
      rewrite Happ, <-(absorb_block _ buf) by exact Hblk. rewrite Hbuf, <-app_assoc.
      by rewrite ztake_zdrop.
  - assert (buffer_len ctx = 0) as Hz0 by lia. rewrite Hz0 in Happ.
    apply hashed_tail; [exact Happ|exact Hb].
Qed.

Lemma zlen_le64 x : zlen (le64 x) = 8.
Proof. reflexivity. Qed.

(** The padding [md5_final] feeds is RFC 1321's. *)
Lemma final_padding (m : bytes) :
  let n := zlen m mod 64 in
  ztake (if n <? 56 then 56 - n else 120 - n) (0x80 :: zreplicate 127 0) =
  0x80 :: zreplicate ((55 - zlen m) mod 64) 0.
Proof.
  intros n. pose proof (zlen_nonneg m).
  assert ((if n <? 56 then 56 - n else 120 - n) = 1 + (55 - zlen m) mod 64) as ->.
  { unfold n. destruct (Z.ltb_spec (zlen m mod 64) 56); Z.div_mod_to_equations; lia. }
  assert (0 <= (55 - zlen m) mod 64 < 64) by (apply Z.mod_pos_bound; lia).
  unfold ztake, zreplicate. rewrite Z2Nat.inj_add by lia. change (Z.to_nat 1) with 1%nat.
  cbn [Nat.add take]. rewrite take_replicate. do 2 f_equal. lia.
Qed.

Lemma hashed_final m ctx :
  hashed m ctx -> bit_len ctx = u64 (8 * zlen m) -> md5_final ctx = rfc1321 m.
Proof.
  intros H Hbits. unfold md5_final. rewrite Hbits, (hashed_buffer_len m ctx H), final_padding, <-rfc1321_eq.
  set (bits := u64 (8 * zlen m)).
  pose proof (hashed_update _ (0x80 :: zreplicate ((55 - zlen m) mod 64) 0) _ H) as H1.
  pose proof (hashed_update _ (le64 bits) _ (hashed_set_bit_len _ bits _ H1)) as H2.
  assert (Hp : (m ++ 0x80 :: zreplicate ((55 - zlen m) mod 64) 0) ++ le64 bits = rfc1321_pad m)
    by (unfold rfc1321_pad, bits; by rewrite le64_eq, <-app_assoc).
  rewrite Hp in H2. pose proof (h_absorb _ _ H2) as Ha. unfold absorb in Ha.
  rewrite md5_blocks_fold in Ha by lia. injection Ha as Ha _.
  change (flat_map out_word (state (set_bit_len bits ?c))) with (flat_map out_word (state c)).
  cbn [state set_bit_len]. by rewrite <-Ha.
Qed.

(** One context fed in two parts, as [hmac_md5] and [radius_verify_response] do. *)
Lemma md5_two_parts a b :
  md5_final (md5_update (md5_update (md5_init stack_ctx) a) b) = rfc1321 (a ++ b).
Proof.
  apply hashed_final.
  - by apply hashed_update, (hashed_update []), hashed_init.
  - rewrite zlen_app, (bit_len_update _ b (zlen a)); [done|]. by apply (bit_len_update _ a 0).
Qed.

Lemma md5_hash_eq m : md5_hash m = rfc1321 m.
Proof.
  apply hashed_final.
  - by apply (hashed_update []), hashed_init.
  - by apply (bit_len_update _ m 0).
Qed.

Lemma xor_pad_eq pad key :
  xor_pad pad key = map (Z.lxor pad) (key ++ zreplicate (64 - zlen key) 0).
Proof.
  unfold xor_pad, zreplicate. rewrite map_app. f_equal.
  induction (Z.to_nat (64 - zlen key)) as [|n IH]; [done|]. cbn. by rewrite IH, Z.lxor_0_r.
Qed.

Lemma hmac_md5_eq key data : hmac_md5 key data = rfc2104 key data.
Proof.
  unfold hmac_md5, rfc2104. rewrite md5_hash_eq. by rewrite !md5_two_parts, !xor_pad_eq.
Qed.

Lemma zlen_hmac_md5 key data : zlen (hmac_md5 key data) = 16.
Proof. rewrite hmac_md5_eq. apply zlen_rfc1321. Qed.
#[export] Hint Rewrite zlen_hmac_md5 : zlen.

(** C25: MD5 and HMAC.  For every input and every way of feeding it in two pieces, as the
    callers do, the streaming MD5 of the relay gives the digest of RFC 1321 as the document
    defines it: padding with the bit length modulo 2^64, truth tables for F, G, H and I, word
    and rotation of each of the 64 operations by its index, and constants 2^32 |sin i|.  The digest
    has 16 bytes, and [hmac_md5] is RFC 2104's construction on it for keys of any length. *)
Theorem md5_rfc1321 a b key data :
  md5_hash (a ++ b) = rfc1321 (a ++ b) /\
  md5_final (md5_update (md5_update (md5_init stack_ctx) a) b) = rfc1321 (a ++ b) /\
  zlen (md5_hash (a ++ b)) = 16 /\
  hmac_md5 key data = rfc2104 key data.
Proof.
  rewrite md5_hash_eq, md5_two_parts. split_and!; [done|done|apply zlen_rfc1321|apply hmac_md5_eq].
Qed.

(** The relay's HMAC is RFC 2104's construction over RFC 1321's MD5, for keys
    of any length (a key over 64 bytes is hashed first). *)
Theorem hmac_md5_rfc2104 key data : hmac_md5 key data = rfc2104 key data.
Proof. apply hmac_md5_eq. Qed.

(** The test suites of RFC 1321 and RFC 2202. *)
Example md5_abc :
  md5_hash [0x61; 0x62; 0x63] =
  [0x90; 0x01; 0x50; 0x98; 0x3c; 0xd2; 0x4f; 0xb0;
   0xd6; 0x96; 0x3f; 0x7d; 0x28; 0xe1; 0x7f; 0x72].
Proof. vm_compute. reflexivity. Qed.
Example md5_56 :
  md5_hash (zreplicate 56 0x61) =
  [0x3b; 0x0c; 0x8a; 0xc7; 0x03; 0xf8; 0x28; 0xb0;
   0x4c; 0x6c; 0x19; 0x70; 0x06; 0xd1; 0x72; 0x18].
Proof. vm_compute. reflexivity. Qed.
Example hmac_md5_case1 :
  hmac_md5 (zreplicate 16 0x0b) [0x48; 0x69; 0x20; 0x54; 0x68; 0x65; 0x72; 0x65] =
  [0x92; 0x94; 0x72; 0x7a; 0x36; 0x38; 0xbb; 0x1c;
   0x13; 0xf4; 0x8e; 0xf8; 0x15; 0x8b; 0xfc; 0x9d].
Proof. vm_compute. reflexivity. Qed.
