(* ===== verification/RadiusAttr.v ===== *)
(** * RadiusAttr: RADIUS attributes as data

    The two RADIUS clients of the repository (open5gs/src/upf/eap-relay.c and
    benchmark/e2e_radius_bench.c) write and scan the same type-length-value
    encoding with loops of their own.  This file holds the abstract packet both
    are compared with: a list of attributes and its encoding, and the reading
    lemmas the loops' proofs share. *)
From stdpp Require Import base numbers list option.
From Stdlib Require Import ZArith Lia.
From S2P Require Import Prelude.

Definition attr : Type := Z * bytes.

Definition encode_attr (a : attr) : bytes := [fst a; zlen (snd a) + 2] ++ snd a.
Definition encode_attrs (l : list attr) : bytes := flat_map encode_attr l.

Definition attr_ok (a : attr) : Prop := 0 <= zlen (snd a) <= 253.

(** The concatenated values of the attributes of one type. *)
Definition values (t : Z) (l : list attr) : bytes :=
  flat_map (fun a : attr => if fst a =? t then snd a else []) l.

(** A long value, cut in attributes of at most 253 bytes. *)
Fixpoint cut (n : nat) (t : Z) (v : bytes) : list attr :=
  match n with
  | O => []
  | S n => if zlen v =? 0 then [] else (t, ztake 253 v) :: cut n t (zdrop 253 v)
  end.
Definition attrs_of (t : Z) (v : bytes) : list attr := cut (length v) t v.

(** The packet of RFC 2865: code, identifier, length, authenticator, attributes. *)
Definition packet (code id : Z) (auth body : bytes) : bytes :=
  [code; id] ++ be16 (20 + zlen body) ++ auth ++ body.

Definition no_type (t : Z) (l : list attr) : Prop := Forall (fun a => fst a <> t) l.
Definition has_type (t : Z) (l : list attr) : bool := existsb (fun a => fst a =? t) l.

(** ** Lemmas *)
Lemma has_type_none t l : no_type t l <-> has_type t l = false.
Proof.
  unfold no_type, has_type. induction l as [|a l IH]; [done|]. cbn [existsb].
  rewrite Forall_cons_iff, IH, orb_false_iff, Z.eqb_neq. done.
Qed.
Lemma has_type_app t l k : has_type t (l ++ k) = has_type t l || has_type t k.
Proof. apply existsb_app. Qed.

Lemma zlen_packet code id auth body : zlen auth = 16 -> zlen (packet code id auth body) = 20 + zlen body.
Proof. intros H. unfold packet. rewrite !zlen_app, zlen_be16, H. change (zlen [code; id]) with 2. lia. Qed.
Lemma packet_body code id auth body : zlen auth = 16 -> zdrop 20 (packet code id auth body) = body.
Proof.
  intros H. unfold packet. rewrite (app_assoc (be16 _)), (app_assoc [code; id]).
  apply zdrop_app_exact. rewrite !zlen_app, H. done.
Qed.
Lemma packet_auth code id auth body : zlen auth = 16 -> sub (packet code id auth body) 4 16 = auth.
Proof.
  intros H. unfold packet. rewrite (app_assoc [code; id]), sub_app_r by done.
  by apply sub_app_exact.
Qed.
Lemma packet_length_field code id auth body :
  20 + zlen body < 65536 ->
  let p := packet code id auth body in rd16 (byte_at p 2) (byte_at p 3) = 20 + zlen body.
Proof. intros H. apply rd16_be16. pose proof (zlen_nonneg body). lia. Qed.
(** Any packet whose length field agrees with it is of that form. *)
Lemma packet_inv p :
  bytes_ok p -> 20 <= zlen p -> rd16 (byte_at p 2) (byte_at p 3) = zlen p ->
  p = packet (byte_at p 0) (byte_at p 1) (sub p 4 16) (zdrop 20 p).
Proof.
  intros Hok Hl Hlen. unfold packet. rewrite zlen_zdrop.
  replace (20 + Z.max 0 (zlen p - Z.max 0 20)) with (zlen p) by lia. rewrite <-Hlen.
  rewrite be16_rd16 by by apply byte_at_ok. rewrite <-(zdrop_nonpos 0 p) at 1 by done.
  do 4 (rewrite zdrop_step by lia; cbn [Z.add Pos.add Pos.succ]; cbn [app]; f_equal).
  rewrite <-(ztake_zdrop 16 (zdrop 4 p)) at 1. unfold sub. by rewrite zdrop_zdrop.
Qed.
Lemma packet_splice_auth code id auth auth' body :
  zlen auth = 16 -> zlen auth' = 16 ->
  splice (packet code id auth body) 4 auth' = packet code id auth' body.
Proof.
  intros H H'. unfold packet. rewrite (app_assoc [code; id]).
  rewrite splice_mid by (rewrite ?H, ?H'; done). by rewrite <-app_assoc.
Qed.

Lemma zlen_encode_attr a : zlen (encode_attr a) = 2 + zlen (snd a).
Proof. unfold encode_attr. rewrite zlen_app. done. Qed.
Lemma encode_attrs_app l k : encode_attrs (l ++ k) = encode_attrs l ++ encode_attrs k.
Proof. apply flat_map_app. Qed.
Lemma encode_attrs_cons a l : encode_attrs (a :: l) = encode_attr a ++ encode_attrs l.
Proof. reflexivity. Qed.
Lemma zlen_encode_cons a l : zlen (encode_attrs (a :: l)) = 2 + zlen (snd a) + zlen (encode_attrs l).
Proof. rewrite encode_attrs_cons, zlen_app, zlen_encode_attr. done. Qed.
#[export] Hint Rewrite zlen_encode_attr zlen_encode_cons : zlen.

Lemma zlen_encode_length l : 2 * Z.of_nat (length l) <= zlen (encode_attrs l).
Proof.
  induction l as [|a l IH]; [done|]. rewrite zlen_encode_cons. pose proof (zlen_nonneg (snd a)).
  cbn [length]. lia.
Qed.

Lemma values_app t l k : values t (l ++ k) = values t l ++ values t k.
Proof. apply flat_map_app. Qed.
Lemma values_cons_eq t v l : values t ((t, v) :: l) = v ++ values t l.
Proof. unfold values. cbn [flat_map fst snd]. by rewrite Z.eqb_refl. Qed.
Lemma values_cons_ne t u v l : u <> t -> values t ((u, v) :: l) = values t l.
Proof.
  intros H. unfold values. cbn [flat_map fst snd].
  by destruct (Z.eqb_spec u t).
Qed.

(** Reading the attribute that starts after [pre]. *)
Section reading.
Variables (pre : bytes) (a : attr) (rest : bytes).
Let pkt : bytes := pre ++ encode_attr a ++ rest.

Lemma byte_at_app l k i : i = zlen l -> byte_at (l ++ k) i = byte_at k 0.
Proof.
  intros ->. unfold byte_at, zlen. rewrite Nat2Z.id. change (Z.to_nat 0) with 0%nat.
  rewrite app_nth2 by lia. by rewrite Nat.sub_diag.
Qed.
Lemma read_type : byte_at pkt (zlen pre) = fst a.
Proof. unfold pkt. by rewrite byte_at_app. Qed.
Lemma read_length : byte_at pkt (zlen pre + 1) = zlen (snd a) + 2.
Proof.
  unfold pkt, encode_attr. change ([fst a; zlen (snd a) + 2] ++ snd a) with
    ([fst a] ++ [zlen (snd a) + 2] ++ snd a). rewrite <-!app_assoc, app_assoc.
  by rewrite byte_at_app by (rewrite zlen_app; done).
Qed.
Lemma read_value : sub pkt (zlen pre + 2) (zlen (snd a)) = snd a.
Proof.
  unfold pkt, encode_attr. rewrite <-!app_assoc.
  rewrite sub_app_r by lia. replace (zlen pre + 2 - zlen pre) with 2 by lia.
  rewrite sub_app_r by done. change (2 - zlen [fst a; zlen (snd a) + 2]) with 0.
  by apply sub_app_exact.
Qed.
End reading.

(** The cut pieces are attributes whose values make up the whole. *)
Lemma zlen_zdrop253 (v : bytes) : 0 < zlen v -> (length (zdrop 253 v) < length v)%nat.
Proof. intros H. unfold zdrop. rewrite length_drop. unfold zlen in H. lia. Qed.

Lemma cut_ok n t : forall v, (length v <= n)%nat ->
  Forall attr_ok (cut n t v) /\ values t (cut n t v) = v /\
  (forall u, u <> t -> values u (cut n t v) = []) /\
  Forall (fun a => fst a = t) (cut n t v).
Proof.
  induction n as [|n IH]; intros v Hn; [destruct v; [by split_and!|cbn in Hn; lia]|].
  cbn [cut]. destruct (Z.eqb_spec (zlen v) 0) as [H0|H0].
  { apply zlen_0_nil in H0 as ->. by split_and!. }
  pose proof (zlen_nonneg v). pose proof (zlen_zdrop253 v ltac:(lia)).
  destruct (IH (zdrop 253 v) ltac:(lia)) as (K1 & K2 & K3 & K4). split_and!.
  - constructor; [|done]. unfold attr_ok. cbn [snd]. rewrite zlen_ztake. lia.
  - rewrite values_cons_eq, K2. apply ztake_zdrop.
  - intros u Hu. rewrite values_cons_ne by done. by apply K3.
  - by constructor.
Qed.

Lemma attrs_of_ok t v : Forall attr_ok (attrs_of t v).
Proof. by apply cut_ok. Qed.
Lemma values_attrs_of t v : values t (attrs_of t v) = v.
Proof. by apply cut_ok. Qed.
Lemma values_attrs_of_ne t u v : u <> t -> values u (attrs_of t v) = [].
Proof. by apply cut_ok. Qed.
Lemma attrs_of_nil t : attrs_of t [] = [].
Proof. reflexivity. Qed.
Lemma attrs_of_one t v : 0 < zlen v <= 253 -> attrs_of t v = [(t, v)].
Proof.
  intros H. unfold attrs_of. destruct v as [|x v]; [change (zlen (@nil Z)) with 0 in H; lia|]. cbn [length cut].
  destruct (Z.eqb_spec (zlen (x :: v)) 0); [lia|]. rewrite ztake_all, zdrop_all by lia.
  f_equal. by destruct (length v).
Qed.

(** ** The scan the two clients' loops perform

    [scan n pkt len pos l] reads attributes from [pos] while two bytes are left:
    [Some l] is the list read, [None] a bad length byte. *)
Fixpoint scan (n : nat) (pkt : bytes) (len pos : Z) : option (list attr) :=
  match n with
  | O => Some []
  | S n =>
      if pos + 2 <=? len then
        let t := byte_at pkt pos in
        let l := byte_at pkt (pos + 1) in
        if (l <? 2) || (len <? pos + l) then None
        else cons (t, sub pkt (pos + 2) (l - 2)) <$> scan n pkt len (pos + l)
      else Some []
  end.

Lemma scan_encoded l d : forall n pre rest,
  (length l < n)%nat -> 0 <= d <= 1 ->
  scan n (pre ++ encode_attrs l ++ rest) (zlen pre + zlen (encode_attrs l) + d) (zlen pre) = Some l.
Proof.
  induction l as [|a l IH]; intros n pre rest Hn Hd; (destruct n as [|n]; [cbn in Hn; lia|]);
    cbn [scan].
  { change (zlen (encode_attrs [])) with 0.
    by destruct (Z.leb_spec (zlen pre + 2) (zlen pre + 0 + d)); [lia|]. }
  rewrite zlen_encode_cons. pose proof (zlen_nonneg (snd a)). pose proof (zlen_nonneg (encode_attrs l)).
  specialize (IH n (pre ++ encode_attr a) rest ltac:(cbn in Hn; lia) Hd).
  rewrite zlen_app, zlen_encode_attr, <-app_assoc in IH.
  rewrite encode_attrs_cons, <-app_assoc, read_type, read_length.
  replace (zlen pre + (zlen (snd a) + 2)) with (zlen pre + (2 + zlen (snd a))) by lia.
  replace (zlen pre + (2 + zlen (snd a) + zlen (encode_attrs l)))
    with (zlen pre + (2 + zlen (snd a)) + zlen (encode_attrs l)) by lia.
  rewrite IH, Z.add_simpl_r, read_value.
  destruct (Z.leb_spec (zlen pre + 2) (zlen pre + (2 + zlen (snd a)) + zlen (encode_attrs l) + d)); [|lia].
  destruct (Z.ltb_spec (zlen (snd a) + 2) 2); [lia|].
  destruct (Z.ltb_spec (zlen pre + (2 + zlen (snd a)) + zlen (encode_attrs l) + d)
    (zlen pre + (2 + zlen (snd a)))); [lia|]. by destruct a.
Qed.

(** All the attributes of a packet, up to one byte after them. *)
Lemma scan_packet code id auth l tail :
  zlen auth = 16 -> zlen tail <= 1 ->
  let p := packet code id auth (encode_attrs l ++ tail) in
  scan (Z.to_nat (zlen p)) p (zlen p) 20 = Some l.
Proof.
  intros Ha Ht p. pose proof (zlen_packet code id auth (encode_attrs l ++ tail) Ha) as Hl.
  fold p in Hl. rewrite zlen_app in Hl. pose proof (zlen_encode_length l). pose proof (zlen_nonneg tail).
  set (pre := [code; id] ++ be16 (20 + zlen (encode_attrs l ++ tail)) ++ auth).
  assert (Hpre : zlen pre = 20) by (unfold pre; rewrite !zlen_app, zlen_be16, Ha; done).
  pose proof (scan_encoded l (zlen tail) (Z.to_nat (zlen p)) pre tail ltac:(lia) ltac:(lia)) as E.
  rewrite Hpre in E.
  replace (20 + zlen (encode_attrs l) + zlen tail) with (zlen p) in E by lia.
  unfold p at 2, packet. unfold pre in E. by rewrite <-!app_assoc in E.
Qed.

(** What a scan accepts is an encoding, up to one trailing byte. *)
Lemma scan_sound n : forall pkt len pos l,
  (Z.to_nat (len - pos) <= 2 * n)%nat -> 0 <= pos <= len -> len <= zlen pkt ->
  scan n pkt len pos = Some l ->
  exists tail, sub pkt pos (len - pos) = encode_attrs l ++ tail /\ zlen tail <= 1.
Proof.
  induction n as [|n IH]; intros pkt len pos l Hn Hpos Hlen; cbn [scan].
  { intros [= <-]. exists []. assert (pos = len) as -> by lia.
    unfold sub. by rewrite ztake_nonpos by lia. }
  destruct (Z.leb_spec (pos + 2) len) as [Hmore|Hend].
  2: { intros [= <-]. exists (sub pkt pos (len - pos)). split; [done|]. rewrite zlen_sub. lia. }
  set (t := byte_at pkt pos). set (al := byte_at pkt (pos + 1)).
  destruct (Z.ltb_spec al 2); [done|]. destruct (Z.ltb_spec len (pos + al)); [done|]. cbn [orb].
  destruct (scan n pkt len (pos + al)) as [l'|] eqn:E; [|done]. intros [= <-].
  destruct (IH pkt len (pos + al) l' ltac:(lia) ltac:(lia) Hlen E) as (tail & Es & Ht).
  exists tail. split; [|done]. rewrite encode_attrs_cons, <-app_assoc, <-Es.
  assert (Hv : zlen (sub pkt (pos + 2) (al - 2)) = al - 2) by (rewrite zlen_sub; lia).
  unfold encode_attr. cbn [fst snd]. rewrite Hv. replace (al - 2 + 2) with al by lia.
  assert (H2 : sub pkt pos 2 = [t; al]).
  { unfold sub, ztake, zdrop, t, al, byte_at. rewrite Z2Nat.inj_add by lia.
    change (Z.to_nat 2) with 2%nat. change (Z.to_nat 1) with 1%nat.
    assert (Hl : (Z.to_nat pos + 1 < length pkt)%nat) by (unfold zlen in *; lia).
    clear -Hl. generalize (Z.to_nat pos), Hl. clear. intros k. revert pkt.
    induction k as [|k IH]; intros [|x pkt] H; cbn in H; try lia.
    - destruct pkt as [|y pkt]; cbn in H; [lia|done].
    - cbn. apply IH. lia. }
  unfold sub in *. rewrite <-H2. replace (len - pos) with (2 + (al - 2) + (len - (pos + al))) by lia.
  rewrite !ztake_add by lia. rewrite !zdrop_zdrop by lia.
  replace (pos + (2 + (al - 2))) with (pos + al) by lia.
  replace (2 + (al - 2) + (len - (pos + al))) with (len - pos) by lia.
  by rewrite <-app_assoc.
Qed.

(** ** Receivers that keep what they could read before a malformed attribute *)
Fixpoint scan_prefix (n : nat) (pkt : bytes) (len pos : Z) : list attr :=
  match n with
  | O => []
  | S n =>
      if pos + 2 <=? len then
        let t := byte_at pkt pos in
        let l := byte_at pkt (pos + 1) in
        if (l <? 2) || (len <? pos + l) then []
        else (t, sub pkt (pos + 2) (l - 2)) :: scan_prefix n pkt len (pos + l)
      else []
  end.
Lemma scan_prefix_all n : forall pkt len pos l,
  scan n pkt len pos = Some l -> scan_prefix n pkt len pos = l.
Proof.
  induction n as [|n IH]; intros pkt len pos l; cbn [scan scan_prefix]; [by intros [= <-]|].
  destruct (pos + 2 <=? len); [|by intros [= <-]]. destruct (_ || _); [done|].
  destruct (scan n _ _ _) as [l'|] eqn:E; [|done]. intros [= <-]. f_equal. by apply IH.
Qed.
Lemma scan_prefix_size n : forall pkt len pos,
  0 <= pos -> len <= zlen pkt ->
  pos + zlen (encode_attrs (scan_prefix n pkt len pos)) <= Z.max pos len /\
  (bytes_ok pkt -> Forall attr_ok (scan_prefix n pkt len pos)).
Proof.
  induction n as [|n IH]; intros pkt len pos Hp Hl; cbn [scan_prefix].
  { change (zlen (encode_attrs [])) with 0. split; [lia|by constructor]. }
  destruct (Z.leb_spec (pos + 2) len);
    [|change (zlen (encode_attrs [])) with 0; split; [lia|by constructor]].
  set (al := byte_at pkt (pos + 1)).
  destruct ((al <? 2) || (len <? pos + al)) eqn:Ec.
  { change (zlen (encode_attrs [])) with 0. split; [lia|by constructor]. }
  apply orb_false_iff in Ec as [H1%Z.ltb_ge H2%Z.ltb_ge].
  destruct (IH pkt len (pos + al) ltac:(lia) Hl) as [IH1 IH2].
  rewrite zlen_encode_cons. cbn [snd]. rewrite zlen_sub. split; [lia|].
  intros Hok. constructor; [|by apply IH2]. unfold attr_ok. cbn [snd]. rewrite zlen_sub.
  pose proof (byte_at_ok pkt (pos + 1) Hok) as Hb. fold al in Hb. unfold is_byte in Hb. lia.
Qed.
Lemma bytes_ok_scan_prefix n : forall pkt len pos,
  bytes_ok pkt -> Forall (fun a : attr => bytes_ok (snd a)) (scan_prefix n pkt len pos).
Proof.
  induction n as [|n IH]; intros pkt len pos Hok; cbn [scan_prefix]; [constructor|].
  destruct (pos + 2 <=? len); [|constructor]. destruct (_ || _); [constructor|].
  constructor; [by apply bytes_ok_sub|by apply IH].
Qed.
Lemma bytes_ok_values t l : Forall (fun a : attr => bytes_ok (snd a)) l -> bytes_ok (values t l).
Proof.
  induction 1 as [|a l Ha _ IH]; [constructor|]. unfold values in *. cbn [flat_map].
  apply Forall_app. split; [|exact IH]. destruct (fst a =? t); [exact Ha|constructor].
Qed.
(** The value of the last attribute of a type. *)
Fixpoint last_value (t : Z) (l : list attr) (d : bytes) : bytes :=
  match l with
  | [] => d
  | a :: l => last_value t l (if fst a =? t then snd a else d)
  end.
Lemma zlen_last_value t l : forall d,
  Forall attr_ok l -> zlen d <= 253 -> zlen (last_value t l d) <= 253.
Proof.
  induction l as [|a l IH]; intros d Hl Hd; [exact Hd|]. apply Forall_cons_iff in Hl as [Ha Hl].
  cbn [last_value]. apply IH; [done|]. destruct (fst a =? t); [apply Ha|exact Hd].
Qed.
Lemma zlen_values t l : zlen (values t l) <= zlen (encode_attrs l).
Proof.
  induction l as [|[u v] l IH]; [done|]. rewrite zlen_encode_cons. cbn [snd].
  unfold values in *. cbn [flat_map fst snd]. zlen_pos.
  destruct (u =? t); rewrite zlen_app; [lia|]. change (zlen (@nil Z)) with 0. lia.
Qed.
