(* ===== verification/EapRelay.v ===== *)
(** * EapRelay: the RADIUS relay beside the UPF, open5gs/src/upf/eap-relay.c

    A UDP service on the loopback: the SMF sends it an EAP message with the user
    name and the RADIUS State; it makes an Access-Request of them, checks and
    parses the answer, and replies with the result, State and EAP message.  The
    environment (variables, sockets, the libc generator) is a parameter. *)
From stdpp Require Import base numbers list option strings.
From Stdlib Require Import ZArith Lia Ascii.
From S2P Require Import Prelude Md5.
Local Open Scope c_scope.

Definition EAP_RELAY_MAGIC_REQ : Z := 0xE5E5DEAD.
Definition EAP_RELAY_MAGIC_RESP : Z := 0xE5E5BEEF.
Definition EAP_RELAY_VERSION : Z := 1.
Definition EAP_RELAY_DEFAULT_ADDR : string := "127.0.0.1".
Definition EAP_RELAY_DEFAULT_PORT : Z := 3870.

Definition EAP_RELAY_RESULT_ACCEPT : Z := 0.
Definition EAP_RELAY_RESULT_REJECT : Z := 1.
Definition EAP_RELAY_RESULT_CHALLENGE : Z := 2.
Definition EAP_RELAY_RESULT_ERROR : Z := 3.

Definition RADIUS_CODE_ACCESS_REQUEST : Z := 1.
Definition RADIUS_CODE_ACCESS_ACCEPT : Z := 2.
Definition RADIUS_CODE_ACCESS_REJECT : Z := 3.
Definition RADIUS_CODE_ACCESS_CHALLENGE : Z := 11.

Definition RADIUS_ATTR_USER_NAME : Z := 1.
Definition RADIUS_ATTR_SERVICE_TYPE : Z := 6.
Definition RADIUS_ATTR_STATE : Z := 24.
Definition RADIUS_ATTR_NAS_PORT_TYPE : Z := 61.
Definition RADIUS_ATTR_EAP_MESSAGE : Z := 79.
Definition RADIUS_ATTR_MESSAGE_AUTHENTICATOR : Z := 80.

Definition RADIUS_SERVICE_FRAMED_USER : Z := 2.
Definition RADIUS_NAS_PORT_VIRTUAL : Z := 5.

Definition RADIUS_HEADER_LEN : Z := 20.
Definition RADIUS_MAX_PACKET_LEN : Z := 4096.
Definition RADIUS_MAX_ATTR_VALUE : Z := 253.

(** ** The environment *)

(** [getenv], the UDP calls, and libc's [srand] and [rand].  [deliver addr port
    req] is [None] when [sendto] fails, [Some None] when [recvfrom] does (for
    instance on the two-second timeout), else the datagram received. *)
Class Env := {
  getenv : string -> option string;
  can_socket : bool;
  can_bind : string -> Z -> bool;
  can_thread : bool;
  inet_pton : string -> bool;
  deliver : string -> Z -> bytes -> option (option bytes);
  rand_state : Type;
  srand : rand_state;
  rand : rand_state -> Z * rand_state
}.

(** A variable that is unset or empty gives way to the default. *)
Definition env_or (v : option string) (d : string) : string :=
  match v with Some (String _ _ as s) => s | _ => d end.

(** [strtol(v, &end, 10)]: the value and the rest of the string. *)
Definition is_space (c : Ascii.ascii) : bool :=
  let n := ascii_Z c in (n =? 32) || ((9 <=? n) && (n <=? 13)).
Definition digit (c : Ascii.ascii) : option Z :=
  let n := ascii_Z c in if (48 <=? n) && (n <=? 57) then Some (n - 48) else None.
Fixpoint skip_space (s : string) : string :=
  match s with
  | String c s' => if is_space c then skip_space s' else s
  | EmptyString => s
  end.
Fixpoint digits (acc : Z) (s : string) : Z * string :=
  match s with
  | String c s' => match digit c with Some d => digits (10 * acc + d) s' | None => (acc, s) end
  | EmptyString => (acc, s)
  end.
Definition strtol10 (v : string) : Z * string :=
  let after_sign (neg : bool) (s : string) :=
    match s with
    | String c _ => match digit c with
                    | Some _ => let '(n, rest) := digits 0 s in ((if neg then - n else n), rest)
                    | None => (0, v)
                    end
    | EmptyString => (0, v)
    end in
  match skip_space v with
  | String "-"%char s => after_sign true s
  | String "+"%char s => after_sign false s
  | s => after_sign false s
  end.

Definition get_port_from_env `{E : Env} (name : string) (default_port : Z) : Z :=
  match getenv name with
  | None | Some EmptyString => default_port
  | Some v =>
      let '(p, rest) := strtol10 v in
      if negb (bool_decide (rest = EmptyString)) || (p <? 1) || (65535 <? p)
      then default_port else u16 p
  end.

(** ** Building the Access-Request

    A buffer under construction is the list of the bytes written so far: every
    write is at [pos], its length. *)
Record relay_state `{E : Env} := {
  g_radius_identifier : Z;
  seeded : option rand_state      (* libc's generator once seeded *)
}.

Definition radius_random_bytes `{E : Env} (n : nat) (g : relay_state) : bytes * relay_state :=
  let fix draw n r :=
    match n with
    | O => ([], r)
    | S n => let '(v, r) := rand r in
             let '(bs, r) := draw n r in (Z.land v 0xff :: bs, r)
    end in
  let '(bs, r) := draw n (match seeded g with Some r => r | None => srand end) in
  (bs, {| g_radius_identifier := g_radius_identifier g; seeded := Some r |}).

(** [None] is [-1]. *)
Fixpoint append_loop (n : nat) (buf : bytes) (cap type : Z) (data : bytes) : option bytes :=
  match n with
  | O => Some buf
  | S n =>
      if 0 <? zlen data then
        let chunk := if RADIUS_MAX_ATTR_VALUE <? zlen data then RADIUS_MAX_ATTR_VALUE
                     else zlen data in
        if cap <? zlen buf + 2 + chunk then None
        else append_loop n (buf ++ [type; u8 (2 + chunk)] ++ ztake chunk data) cap type
               (zdrop chunk data)
      else Some buf
  end.
Definition radius_append_attr (buf : bytes) (cap type : Z) (data : bytes) : option bytes :=
  append_loop (length data) buf cap type data.

Definition radius_append_u16_attr (buf : bytes) (cap type value : Z) : option bytes :=
  radius_append_attr buf cap type [u8 (Z.land (Z.shiftr value 8) 0xff); u8 (Z.land value 0xff)].

Definition radius_build_request `{E : Env} (username : bytes) (state : option bytes) (eap : bytes)
    (secret : bytes) (req_cap : Z) (g : relay_state) : option bytes * relay_state :=
  if RADIUS_MAX_ATTR_VALUE <? zlen username then (None, g)
  else if req_cap <? RADIUS_HEADER_LEN + 2 + zlen username + 2 + 2 + zlen eap + 18 then (None, g)
  else
    let id := u8 (g_radius_identifier g + 1) in
    let g := {| g_radius_identifier := id; seeded := seeded g |} in
    let '(auth, g) := radius_random_bytes 16 g in
    let req := [RADIUS_CODE_ACCESS_REQUEST; id; 0; 0] ++ auth in
    let out :=
      req ← radius_append_attr req req_cap RADIUS_ATTR_USER_NAME username;
      req ← radius_append_u16_attr req req_cap RADIUS_ATTR_SERVICE_TYPE RADIUS_SERVICE_FRAMED_USER;
      req ← radius_append_u16_attr req req_cap RADIUS_ATTR_NAS_PORT_TYPE RADIUS_NAS_PORT_VIRTUAL;
      req ← (match state with
             | Some st => if 0 <? zlen st then radius_append_attr req req_cap RADIUS_ATTR_STATE st
                          else Some req
             | None => Some req
             end);
      req ← radius_append_attr req req_cap RADIUS_ATTR_EAP_MESSAGE eap;
      let ma_pos := zlen req + 2 in
      if req_cap <? zlen req + 18 then None
      else
        let req := req ++ [RADIUS_ATTR_MESSAGE_AUTHENTICATOR; 18] ++ zreplicate 16 0 in
        if RADIUS_MAX_PACKET_LEN <? zlen req then None
        else
          let req := splice req 2 (be16 (u16 (zlen req))) in
          Some (splice req ma_pos (hmac_md5 secret req)) in
    (out, g).

(** ** Parsing the response *)
Fixpoint parse_loop (n : nat) (resp : bytes) (packet_len pos : Z) (state_cap eap_cap : Z)
    (state eap : bytes) : option (bytes * bytes) :=
  match n with
  | O => Some (state, eap)
  | S n =>
      if pos + 2 <=? packet_len then
        let type := byte_at resp pos in
        let alen := byte_at resp (pos + 1) in
        if (alen <? 2) || (packet_len <? pos + alen) then None
        else
          let data := sub resp (pos + 2) (alen - 2) in
          if type =? RADIUS_ATTR_STATE then
            if state_cap <? zlen state + zlen data then None
            else parse_loop n resp packet_len (pos + alen) state_cap eap_cap (state ++ data) eap
          else if type =? RADIUS_ATTR_EAP_MESSAGE then
            if eap_cap <? zlen eap + zlen data then None
            else parse_loop n resp packet_len (pos + alen) state_cap eap_cap state (eap ++ data)
          else parse_loop n resp packet_len (pos + alen) state_cap eap_cap state eap
      else Some (state, eap)
  end.

(** The result, State and EAP message, or [None] for [-1]. *)
Definition radius_parse_response (resp : bytes) (state_cap eap_cap : Z)
    : option (Z * bytes * bytes) :=
  if zlen resp <? RADIUS_HEADER_LEN then None
  else
    let code := byte_at resp 0 in
    let packet_len := rd16 (byte_at resp 2) (byte_at resp 3) in
    if (zlen resp <? packet_len) || (packet_len <? RADIUS_HEADER_LEN) then None
    else
      '(state, eap) ← parse_loop (Z.to_nat packet_len) resp packet_len RADIUS_HEADER_LEN
                        state_cap eap_cap [] [];
      if code =? RADIUS_CODE_ACCESS_ACCEPT then Some (EAP_RELAY_RESULT_ACCEPT, state, eap)
      else if code =? RADIUS_CODE_ACCESS_REJECT then Some (EAP_RELAY_RESULT_REJECT, state, eap)
      else if code =? RADIUS_CODE_ACCESS_CHALLENGE
           then Some (EAP_RELAY_RESULT_CHALLENGE, state, eap)
      else None.

(** ** Checking its authenticity *)

(** The scan for EAP-Message and Message-Authenticator; [ma_off] is [-1] until
    one is found. *)
Fixpoint verify_loop (n : nat) (tmp : bytes) (packet_len pos : Z) (has_eap : bool) (ma_off : Z)
    : option (bool * Z) :=
  match n with
  | O => Some (has_eap, ma_off)
  | S n =>
      if pos + 2 <=? packet_len then
        let type := byte_at tmp pos in
        let alen := byte_at tmp (pos + 1) in
        if (alen <? 2) || (packet_len <? pos + alen) then None
        else
          let has_eap := has_eap || (type =? RADIUS_ATTR_EAP_MESSAGE) in
          if type =? RADIUS_ATTR_MESSAGE_AUTHENTICATOR then
            if negb (alen =? 18) then None
            else if 0 <=? ma_off then None
            else verify_loop n tmp packet_len (pos + alen) has_eap (pos + 2)
          else verify_loop n tmp packet_len (pos + alen) has_eap ma_off
      else Some (has_eap, ma_off)
  end.

Definition radius_verify_response (req resp secret : bytes) : bool :=
  if (zlen req <? RADIUS_HEADER_LEN) || (zlen resp <? RADIUS_HEADER_LEN) then false
  else if negb (byte_at resp 1 =? byte_at req 1) then false
  else
    let packet_len := rd16 (byte_at resp 2) (byte_at resp 3) in
    if (packet_len <? RADIUS_HEADER_LEN) || (zlen resp <? packet_len) ||
       (RADIUS_MAX_PACKET_LEN <? packet_len) then false
    else
      let tmp := splice (ztake packet_len resp) 4 (sub req 4 16) in
      match verify_loop (Z.to_nat packet_len) tmp packet_len RADIUS_HEADER_LEN false (-1) with
      | None => false
      | Some (has_eap, ma_off) =>
          if has_eap && (ma_off <? 0) then false
          else if (0 <=? ma_off) &&
                  negb (bool_decide (sub tmp ma_off 16 =
                    hmac_md5 secret (splice tmp ma_off (zreplicate 16 0)))) then false
          else
            let digest := md5_final (md5_update (md5_update (md5_init stack_ctx) tmp) secret) in
            bool_decide (digest = sub resp 4 16)
      end.

(** ** The exchange with the RADIUS server *)
Definition radius_exchange `{E : Env} (username : bytes) (state : option bytes) (eap : bytes)
    (state_cap eap_cap : Z) (g : relay_state) : option (Z * bytes * bytes) * relay_state :=
  let radius_addr :=
    match getenv "OPEN5GS_RADIUS_ADDR" with
    | Some (String _ _ as a) => a
    | _ => env_or (getenv "OPEN5GS_RADIUS_SERVER") "127.0.0.1"
    end in
  let secret := str (env_or (getenv "OPEN5GS_RADIUS_SECRET") "testing123") in
  let radius_port := get_port_from_env "OPEN5GS_RADIUS_PORT" 1812 in
  let '(req, g) := radius_build_request username state eap secret 8192 g in
  (req ← req;
   if negb can_socket then None
   else if negb (inet_pton radius_addr) then None
   else
     rcv ← deliver radius_addr radius_port req;
     resp ← rcv;
     let resp := ztake 8192 resp in
     if negb (radius_verify_response req resp secret) then None
     else radius_parse_response resp state_cap eap_cap, g).

(** ** The service *)

(** [write_response] into the 8192 bytes of [resp]. *)
Definition write_response (result : Z) (state eap : option bytes) (state_len eap_len : Z)
    : res bytes :=
  let out := be32 EAP_RELAY_MAGIC_RESP ++ [EAP_RELAY_VERSION; result] ++
             be16 state_len ++ be16 eap_len ++
             (if state_len =? 0 then [] else default [] (ztake state_len <$> state)) ++
             (if eap_len =? 0 then [] else default [] (ztake eap_len <$> eap)) in
  if 8192 <? zlen out then Fault else Ok out.

Definition error_response : res bytes := write_response EAP_RELAY_RESULT_ERROR None None 0 0.

(** The bytes of a buffer up to its first NUL. *)
Fixpoint c_string (l : bytes) : bytes :=
  match l with
  | [] => []
  | b :: l => if b =? 0 then [] else b :: c_string l
  end.

(** [buf] is the whole receive array, whose first [len] bytes are the datagram. *)
Definition process_req `{E : Env} (buf : bytes) (len : Z) (g : relay_state) : res bytes * relay_state :=
  if len <? 10 then (error_response, g)
  else if negb (rd32 (byte_at buf 0) (byte_at buf 1) (byte_at buf 2) (byte_at buf 3)
                =? EAP_RELAY_MAGIC_REQ) then (error_response, g)
  else
    let version := byte_at buf 4 in
    let uname_len := byte_at buf 6 in
    let state_len := rd16 (byte_at buf 7) (byte_at buf 8) in
    let eap_len := rd16 (byte_at buf 9) (byte_at buf 10) in
    let pos := 11 in
    if negb (version =? EAP_RELAY_VERSION) then (error_response, g)
    else
      let need := pos + uname_len + state_len + eap_len in
      if len <? need then (error_response, g)
      else
        let username := c_string (sub buf pos uname_len ++ zreplicate (256 - uname_len) 0) in
        let pos := pos + uname_len in
        let state := sub buf pos state_len in
        let pos := pos + state_len in
        let eap := sub buf pos eap_len in
        match radius_exchange username (Some state) eap 2048 8192 g with
        | (None, g) => (error_response, g)
        | (Some (result, rstate, reap), g) =>
            (write_response result
               (if 0 <? zlen rstate then Some rstate else None)
               (if 0 <? zlen reap then Some reap else None)
               (u16 (zlen rstate)) (u16 (zlen reap)), g)
        end.

(** One datagram through the loop of [relay_main]: [recvfrom] writes it, cut to
    the array, over what was there before. *)
Definition recv_into (buf dgram : bytes) : bytes * Z :=
  let d := ztake 8192 dgram in (splice buf 0 d, zlen d).
Definition relay_step `{E : Env} (buf dgram : bytes) (g : relay_state) : res bytes * (bytes * relay_state) :=
  let '(buf, n) := recv_into buf dgram in
  let '(resp, g) := process_req buf n g in (resp, (buf, g)).

(** Starting and stopping; [None] is the descriptor [-1]. *)
Record service := { g_sock : option unit; g_running : bool }.

Definition upf_eap_relay_start `{E : Env} (s : service) : bool * service :=
  if g_running s then (true, s)
  else
    let bind_addr := env_or (getenv "OPEN5GS_EAP_RELAY_ADDR") EAP_RELAY_DEFAULT_ADDR in
    let bind_port := get_port_from_env "OPEN5GS_EAP_RELAY_PORT" EAP_RELAY_DEFAULT_PORT in
    if negb can_socket then (false, {| g_sock := None; g_running := g_running s |})
    else if negb (inet_pton bind_addr) then (false, {| g_sock := None; g_running := g_running s |})
    else if negb (can_bind bind_addr bind_port)
         then (false, {| g_sock := None; g_running := g_running s |})
    else if negb can_thread then (false, {| g_sock := None; g_running := false |})
    else (true, {| g_sock := Some tt; g_running := true |}).

Definition upf_eap_relay_stop (s : service) : service :=
  if g_running s then {| g_sock := None; g_running := false |} else s.
