(* ===== verification/RelayFacts.v ===== *)
(** * RelayFacts: correctness of the RADIUS relay

    The attribute loops against RadiusAttr's [scan] and encoding; the packet
    [radius_build_request] makes; what [radius_verify_response] guarantees; the
    answer of a server that follows RFC 2865 and RFC 3579 is accepted and read
    back; the service never overruns its buffers. *)
From stdpp Require Import base numbers list option strings.
From Stdlib Require Import ZArith Lia.
From S2P Require Import Prelude Md5 RadiusAttr EapRelay.

(** ** Writing attributes *)
Lemma append_loop_cut n : forall buf cap t data,
  (length data <= n)%nat -> zlen buf <= cap ->
  append_loop n buf cap t data =
  let out := buf ++ encode_attrs (cut n t data) in
  if zlen out <=? cap then Some out else None.
Proof.
  induction n as [|n IH]; intros buf cap t data Hn Hb.
  { cbn. rewrite app_nil_r. by destruct (Z.leb_spec (zlen buf) cap); [|lia]. }
  cbn [append_loop cut]. pose proof (zlen_nonneg data).
  destruct (Z.ltb_spec 0 (zlen data)), (Z.eqb_spec (zlen data) 0); try lia.
  2: { cbn. rewrite app_nil_r. by destruct (Z.leb_spec (zlen buf) cap); [|lia]. }
  change RADIUS_MAX_ATTR_VALUE with 253.
  set (chunk := if 253 <? zlen data then 253 else zlen data).
  assert (Hc : chunk = Z.min 253 (zlen data))
    by (unfold chunk; destruct (Z.ltb_spec 253 (zlen data)); lia).
  assert (Ht : ztake chunk data = ztake 253 data).
  { rewrite Hc. destruct (Z.leb_spec (zlen data) 253); [|by rewrite Z.min_l by lia].
    by rewrite !ztake_all by lia. }
  assert (Hd : zdrop chunk data = zdrop 253 data).
  { rewrite Hc. destruct (Z.leb_spec (zlen data) 253); [|by rewrite Z.min_l by lia].
    by rewrite !zdrop_all by lia. }
  rewrite Ht, Hd. assert (zlen (ztake 253 data) = chunk) as Hl by (rewrite zlen_ztake; lia).
  assert (He : encode_attr (t, ztake 253 data) = [t; u8 (2 + chunk)] ++ ztake 253 data).
  { unfold encode_attr. cbn [fst snd]. rewrite Hl, u8_small by (unfold is_byte; lia).
    by rewrite Z.add_comm. }
  rewrite encode_attrs_cons, He. pose proof (zlen_nonneg (encode_attrs (cut n t (zdrop 253 data)))).
  destruct (Z.ltb_spec cap (zlen buf + 2 + chunk)) as [Hover|Hfit].
  - cbv zeta. rewrite !zlen_app, Hl. change (zlen [t; u8 (2 + chunk)]) with 2.
    by destruct (Z.leb_spec (zlen buf + (2 + chunk + zlen (encode_attrs (cut n t (zdrop 253 data))))) cap); [lia|].
  - pose proof (zlen_zdrop253 data ltac:(lia)).
    rewrite IH; [|lia|rewrite !zlen_app, Hl; change (zlen [t; u8 (2 + chunk)]) with 2; lia].
    cbv zeta. by rewrite <-!app_assoc.
Qed.

Lemma append_attr_eq buf cap t data :
  zlen buf <= cap ->
  radius_append_attr buf cap t data =
  let out := buf ++ encode_attrs (attrs_of t data) in
  if zlen out <=? cap then Some out else None.
Proof. intros. by apply append_loop_cut. Qed.

(** Several attributes one after the other: only the final size counts. *)
Lemma append_attr_bind {A} buf cap t data (k : bytes -> option A) :
  zlen buf <= cap ->
  (radius_append_attr buf cap t data ≫= k) =
  let out := buf ++ encode_attrs (attrs_of t data) in if zlen out <=? cap then k out else None.
Proof. intros. rewrite append_attr_eq by done. cbv zeta. by destruct (_ <=? _). Qed.

(** ** Reading attributes: the loops are folds over [scan] *)
Fixpoint vfold (l : list attr) (pos : Z) (has_eap : bool) (ma_off : Z) : option (bool * Z) :=
  match l with
  | [] => Some (has_eap, ma_off)
  | a :: l =>
      let has_eap := has_eap || (fst a =? RADIUS_ATTR_EAP_MESSAGE) in
      let next := pos + (zlen (snd a) + 2) in
      if fst a =? RADIUS_ATTR_MESSAGE_AUTHENTICATOR then
        if negb (zlen (snd a) + 2 =? 18) then None
        else if 0 <=? ma_off then None
        else vfold l next has_eap (pos + 2)
      else vfold l next has_eap ma_off
  end.

Lemma verify_loop_scan n : forall pkt len pos has off,
  0 <= pos -> len <= zlen pkt ->
  verify_loop n pkt len pos has off = (l ← scan n pkt len pos; vfold l pos has off).
Proof.
  induction n as [|n IH]; intros pkt len pos has off Hpos Hlen; [done|].
  cbn [verify_loop scan]. destruct (Z.leb_spec (pos + 2) len); [|done].
  set (t := byte_at pkt pos). set (al := byte_at pkt (pos + 1)).
  destruct (Z.ltb_spec al 2); [done|]. destruct (Z.ltb_spec len (pos + al)); [done|]. cbn [orb].
  rewrite !IH by lia.
  assert (Hv : zlen (sub pkt (pos + 2) (al - 2)) + 2 = al) by (rewrite zlen_sub; lia).
  destruct (scan n pkt len (pos + al)) as [l'|]; cbn; rewrite ?Hv; [done|].
  by repeat case_match.
Qed.

(** The values of one type outgrow their buffer as soon as they do in the end. *)
Definition parsed (l : list attr) (state_cap eap_cap : Z) (state eap : bytes) : option (bytes * bytes) :=
  let state := state ++ values RADIUS_ATTR_STATE l in
  let eap := eap ++ values RADIUS_ATTR_EAP_MESSAGE l in
  if (zlen state <=? state_cap) && (zlen eap <=? eap_cap) then Some (state, eap) else None.

Lemma parse_loop_scan n : forall resp len pos scap ecap st eap,
  0 <= pos -> len <= zlen resp -> zlen st <= scap -> zlen eap <= ecap ->
  parse_loop n resp len pos scap ecap st eap =
  (l ← scan n resp len pos; parsed l scap ecap st eap).
Proof.
  assert (Hnil : forall scap ecap st eap, zlen st <= scap -> zlen eap <= ecap ->
    Some (st, eap) = parsed [] scap ecap st eap).
  { intros. unfold parsed. cbn. rewrite !app_nil_r.
    by destruct (Z.leb_spec (zlen st) scap), (Z.leb_spec (zlen eap) ecap); try lia. }
  induction n as [|n IH]; intros resp len pos scap ecap st eap Hpos Hlen Hs He.
  { cbn. by rewrite (Hnil scap ecap). }
  cbn [parse_loop scan]. destruct (Z.leb_spec (pos + 2) len); [|cbn; by rewrite (Hnil scap ecap)].
  set (t := byte_at resp pos). set (al := byte_at resp (pos + 1)).
  destruct (Z.ltb_spec al 2); [done|]. destruct (Z.ltb_spec len (pos + al)); [done|]. cbn [orb].
  set (v := sub resp (pos + 2) (al - 2)).
  assert (Hfin : forall a b c d scap ecap, scap < zlen a \/ ecap < zlen b ->
    (if (zlen (a ++ c) <=? scap) && (zlen (b ++ d) <=? ecap)
     then Some (a ++ c, b ++ d) else @None (bytes * bytes)) = None).
  { intros a b c d scap' ecap' H'. rewrite !zlen_app. pose proof (zlen_nonneg c). pose proof (zlen_nonneg d).
    destruct (Z.leb_spec (zlen a + zlen c) scap'), (Z.leb_spec (zlen b + zlen d) ecap'); try done; lia. }
  destruct (Z.eqb_spec t RADIUS_ATTR_STATE) as [->|Hns];
    [|destruct (Z.eqb_spec t RADIUS_ATTR_EAP_MESSAGE) as [->|Hne]].
  - destruct (Z.ltb_spec scap (zlen st + zlen v)); [|rewrite IH by (rewrite ?zlen_app; lia)];
      (destruct (scan n resp len (pos + al)) as [l'|]; [|done]); cbn [fmap option_fmap option_map mbind option_bind];
      unfold parsed; rewrite values_cons_eq, values_cons_ne by done; rewrite !app_assoc; [|done].
    by rewrite Hfin by (left; rewrite zlen_app; lia).
  - destruct (Z.ltb_spec ecap (zlen eap + zlen v)); [|rewrite IH by (rewrite ?zlen_app; lia)];
      (destruct (scan n resp len (pos + al)) as [l'|]; [|done]); cbn [fmap option_fmap option_map mbind option_bind];
      unfold parsed; rewrite values_cons_eq, values_cons_ne by done; rewrite !app_assoc; [|done].
    by rewrite Hfin by (right; rewrite zlen_app; lia).
  - rewrite IH by lia. destruct (scan n resp len (pos + al)) as [l'|]; [|done]. cbn.
    unfold parsed. by rewrite !values_cons_ne by done.
Qed.
