(* ===== verification/RelayAuth.v ===== *)
(** * RelayAuth: what an answer of the RADIUS server must prove to be accepted

    [radius_verify_response] accepts exactly the packets that RFC 2865's Response
    Authenticator and RFC 3579's Message-Authenticator make authentic for the
    request; [radius_parse_response] then reads exactly their attributes. *)
From stdpp Require Import base numbers list option strings.
From Stdlib Require Import ZArith Lia.
From S2P Require Import Prelude Rfc1321 Md5 RadiusAttr EapRelay RelayFacts.

(** ** The specification *)

(** The Message-Authenticator of RFC 3579, over the packet with the request's
    authenticator in place and sixteen zero bytes for the value. *)
Definition message_authenticator (secret ra : bytes) (code id : Z) (l1 l2 : list attr)
    (tail : bytes) : bytes :=
  rfc2104 secret (packet code id ra
    (encode_attrs (l1 ++ (RADIUS_ATTR_MESSAGE_AUTHENTICATOR, zreplicate 16 0) :: l2) ++ tail)).

(** One correct Message-Authenticator; or none, in a packet without EAP. *)
Definition message_authenticated (secret ra : bytes) (code id : Z) (l : list attr)
    (tail : bytes) : Prop :=
  (no_type RADIUS_ATTR_MESSAGE_AUTHENTICATOR l /\ no_type RADIUS_ATTR_EAP_MESSAGE l) \/
  exists l1 ma l2,
    l = l1 ++ (RADIUS_ATTR_MESSAGE_AUTHENTICATOR, ma) :: l2 /\
    no_type RADIUS_ATTR_MESSAGE_AUTHENTICATOR l1 /\
    no_type RADIUS_ATTR_MESSAGE_AUTHENTICATOR l2 /\
    ma = message_authenticator secret ra code id l1 l2 tail.

(** [resp] carries the attributes [l] (and at most one byte after them), as the
    answer with code [code] to the request with identifier [id] and authenticator
    [ra] by one who knows [secret]. *)
Definition authentic (secret ra : bytes) (id code : Z) (l : list attr) (resp : bytes) : Prop :=
  exists tail, let body := encode_attrs l ++ tail in
    zlen tail <= 1 /\ 20 + zlen body <= RADIUS_MAX_PACKET_LEN /\ 20 + zlen body <= zlen resp /\
    ztake (20 + zlen body) resp =
      packet code id (rfc1321 (packet code id ra body ++ secret)) body /\
    message_authenticated secret ra code id l tail.

(** ** The fold over the attributes *)
Lemma vfold_none l : forall pos has off,
  no_type RADIUS_ATTR_MESSAGE_AUTHENTICATOR l ->
  vfold l pos has off = Some (has || has_type RADIUS_ATTR_EAP_MESSAGE l, off).
Proof.
  induction l as [|a l IH]; intros pos has off H; cbn; [by rewrite orb_false_r|].
  apply Forall_cons_iff in H as [Ha H]. apply Z.eqb_neq in Ha. rewrite Ha, IH by done.
  by rewrite orb_assoc.
Qed.

Lemma vfold_app l1 : forall l2 pos has off,
  no_type RADIUS_ATTR_MESSAGE_AUTHENTICATOR l1 ->
  vfold (l1 ++ l2) pos has off =
  vfold l2 (pos + zlen (encode_attrs l1)) (has || has_type RADIUS_ATTR_EAP_MESSAGE l1) off.
Proof.
  induction l1 as [|a l1 IH]; intros l2 pos has off H; cbn [vfold app].
  { change (has_type RADIUS_ATTR_EAP_MESSAGE []) with false. change (zlen (encode_attrs [])) with 0.
    by rewrite orb_false_r, Z.add_0_r. }
  apply Forall_cons_iff in H as [Ha H]. apply Z.eqb_neq in Ha. rewrite Ha, IH by done.
  rewrite zlen_encode_cons. f_equal; [lia|]. cbn. by rewrite orb_assoc.
Qed.

Lemma vfold_one l1 ma l2 pos has off :
  no_type RADIUS_ATTR_MESSAGE_AUTHENTICATOR l1 -> no_type RADIUS_ATTR_MESSAGE_AUTHENTICATOR l2 ->
  zlen ma = 16 -> off < 0 ->
  vfold (l1 ++ (RADIUS_ATTR_MESSAGE_AUTHENTICATOR, ma) :: l2) pos has off =
  Some (has || has_type RADIUS_ATTR_EAP_MESSAGE (l1 ++ l2), pos + zlen (encode_attrs l1) + 2).
Proof.
  intros H1 H2 Hma Hoff. rewrite vfold_app by done. cbn [vfold fst snd]. rewrite Hma.
  rewrite Z.eqb_refl. destruct (Z.leb_spec 0 off); [lia|]. cbn [negb Z.add Z.eqb Pos.add Pos.eqb].
  rewrite vfold_none by done. rewrite has_type_app.
  do 2 f_equal. by destruct has, (has_type _ l1), (has_type _ l2).
Qed.

(** What the fold accepts has at most one Message-Authenticator. *)
Lemma vfold_inv l : forall pos has off h o,
  0 <= pos -> vfold l pos has off = Some (h, o) ->
  no_type RADIUS_ATTR_MESSAGE_AUTHENTICATOR l \/
  off < 0 /\ exists l1 ma l2, l = l1 ++ (RADIUS_ATTR_MESSAGE_AUTHENTICATOR, ma) :: l2 /\
    no_type RADIUS_ATTR_MESSAGE_AUTHENTICATOR l1 /\
    no_type RADIUS_ATTR_MESSAGE_AUTHENTICATOR l2 /\ zlen ma = 16.
Proof.
  induction l as [|[t v] l IH]; intros pos has off h o Hpos; [by left; constructor|]. cbn [vfold fst snd].
  pose proof (zlen_nonneg v). destruct (Z.eqb_spec t RADIUS_ATTR_MESSAGE_AUTHENTICATOR) as [->|Ht].
  - destruct (Z.eqb_spec (zlen v + 2) 18); [|done]. cbn [negb].
    destruct (Z.leb_spec 0 off); [done|]. intros E%IH; [|lia].
    right. split; [lia|]. destruct E as [Hn|[? _]]; [|lia].
    exists [], v, l. refine (conj eq_refl (conj _ (conj Hn _))); [constructor|lia].
  - intros E%IH; [|lia]. destruct E as [Hn|(Ho & l1 & ma & l2 & -> & H1 & H2 & Hm)].
    + left. by constructor.
    + right. split; [done|]. exists ((t, v) :: l1), ma, l2. refine (conj eq_refl (conj _ (conj H2 Hm))). by constructor.
Qed.

(** ** The attributes of a packet *)
Lemma scan_packet_complete code id auth l tail :
  zlen auth = 16 -> zlen tail <= 1 ->
  let p := packet code id auth (encode_attrs l ++ tail) in
  scan (Z.to_nat (zlen p)) p (zlen p) RADIUS_HEADER_LEN = Some l.
Proof. apply scan_packet. Qed.

Lemma scan_packet_sound code id auth body l :
  zlen auth = 16 ->
  let p := packet code id auth body in
  scan (Z.to_nat (zlen p)) p (zlen p) RADIUS_HEADER_LEN = Some l ->
  exists tail, body = encode_attrs l ++ tail /\ zlen tail <= 1.
Proof.
  intros Ha p. pose proof (zlen_packet code id auth body Ha : zlen p = _) as Hl. intros E.
  pose proof (zlen_nonneg body). change RADIUS_HEADER_LEN with 20 in E.
  destruct (scan_sound (Z.to_nat (zlen p)) p (zlen p) 20 l ltac:(lia) ltac:(lia) ltac:(lia) E) as (tail & Es & Ht).
  exists tail. split; [|done]. rewrite <-Es. unfold sub, p. rewrite packet_body by done.
  rewrite ztake_all; [done|]. change (packet code id auth body) with p. lia.
Qed.

(** ** The check *)

(** Its last part, on the attributes found. *)
Definition check_attrs (secret : bytes) (code id : Z) (ra body auth : bytes) (l : list attr) : bool :=
  let p := packet code id ra body in
  match vfold l RADIUS_HEADER_LEN false (-1) with
  | None => false
  | Some (has_eap, ma_off) =>
      if has_eap && (ma_off <? 0) then false
      else if (0 <=? ma_off) &&
              negb (bool_decide (sub p ma_off 16 =
                rfc2104 secret (splice p ma_off (zreplicate 16 0)))) then false
      else bool_decide (rfc1321 (p ++ secret) = auth)
  end.

Lemma verify_response_eq req resp secret code auth body :
  20 <= zlen req -> 20 + zlen body <= RADIUS_MAX_PACKET_LEN -> 20 + zlen body <= zlen resp ->
  zlen auth = 16 ->
  ztake (20 + zlen body) resp = packet code (byte_at req 1) auth body ->
  let p := packet code (byte_at req 1) (sub req 4 16) body in
  radius_verify_response req resp secret =
  match scan (Z.to_nat (zlen p)) p (zlen p) RADIUS_HEADER_LEN with
  | Some l => check_attrs secret code (byte_at req 1) (sub req 4 16) body auth l
  | None => false
  end.
Proof.
  intros Hq Hmax Hr Ha E p. change RADIUS_MAX_PACKET_LEN with 4096 in *.
  set (id := byte_at req 1) in *. pose proof (zlen_nonneg body).
  assert (Hra : zlen (sub req 4 16) = 16) by (rewrite zlen_sub; lia).
  assert (Hp : zlen p = 20 + zlen body) by by apply zlen_packet.
  assert (Hb : forall i, 0 <= i < 20 -> byte_at resp i = byte_at (packet code id auth body) i).
  { intros i Hi. rewrite <-E. symmetry. apply byte_at_ztake. lia. }
  assert (Hlen : rd16 (byte_at resp 2) (byte_at resp 3) = 20 + zlen body).
  { rewrite !Hb by lia. apply packet_length_field. lia. }
  assert (Hauth : sub resp 4 16 = auth).
  { rewrite <-(packet_auth code id auth body Ha), <-E. unfold sub.
    replace (20 + zlen body) with (4 + (16 + zlen body)) by lia.
    rewrite zdrop_ztake, ztake_ztake by lia. f_equal. lia. }
  unfold radius_verify_response. change RADIUS_HEADER_LEN with 20.
  change RADIUS_MAX_PACKET_LEN with 4096. rewrite Hlen, Hauth, E.
  destruct (Z.ltb_spec (zlen req) 20), (Z.ltb_spec (zlen resp) 20); try lia. cbn [orb].
  assert (Hid : byte_at resp 1 = id) by (rewrite Hb by lia; done). rewrite Hid, Z.eqb_refl. cbn [negb].
  destruct (Z.ltb_spec (20 + zlen body) 20); [lia|]. destruct (Z.ltb_spec (zlen resp) (20 + zlen body)); [lia|].
  destruct (Z.ltb_spec 4096 (20 + zlen body)); [lia|]. cbn [orb].
  rewrite packet_splice_auth by done. fold p. rewrite <-Hp.
  rewrite verify_loop_scan by lia.
  destruct (scan (Z.to_nat (zlen p)) p (zlen p) 20) as [l|]; [|done]. cbn [mbind option_bind].
  unfold check_attrs. fold p. change RADIUS_HEADER_LEN with 20.
  destruct (vfold l 20 false (-1)) as [[h o]|]; [|done].
  by rewrite hmac_md5_eq, md5_two_parts.
Qed.

(** With one Message-Authenticator: the bytes compared. *)
Lemma check_attrs_one secret code id ra tail auth l l1 ma l2 :
  zlen ra = 16 -> l = l1 ++ (RADIUS_ATTR_MESSAGE_AUTHENTICATOR, ma) :: l2 ->
  no_type RADIUS_ATTR_MESSAGE_AUTHENTICATOR l1 ->
  no_type RADIUS_ATTR_MESSAGE_AUTHENTICATOR l2 -> zlen ma = 16 ->
  check_attrs secret code id ra (encode_attrs l ++ tail) auth l =
  bool_decide (ma = message_authenticator secret ra code id l1 l2 tail) &&
  bool_decide (rfc1321 (packet code id ra (encode_attrs l ++ tail) ++ secret) = auth).
Proof.
  intros Hra El H1 H2 Hma. set (p := packet code id ra (encode_attrs l ++ tail)).
  set (d := rfc1321 (p ++ secret)).
  unfold check_attrs. fold p. fold d.
  rewrite El at 1. rewrite vfold_one by done.
  pose proof (zlen_nonneg (encode_attrs l1)). change RADIUS_HEADER_LEN with 20.
  set (off := 20 + zlen (encode_attrs l1) + 2).
  destruct (Z.ltb_spec off 0), (Z.leb_spec 0 off); try lia. rewrite andb_false_r. cbn [andb].
  set (pre := [code; id] ++ be16 (20 + zlen (encode_attrs l ++ tail)) ++ ra ++ encode_attrs l1 ++
    [RADIUS_ATTR_MESSAGE_AUTHENTICATOR; 18]).
  assert (Hpre : off = zlen pre).
  { unfold pre. rewrite !zlen_app, zlen_be16, Hra. unfold off.
    change (zlen [code; id]) with 2. change (zlen [RADIUS_ATTR_MESSAGE_AUTHENTICATOR; 18]) with 2. lia. }
  assert (Hbody : forall x, zlen x = 16 ->
    encode_attrs (l1 ++ (RADIUS_ATTR_MESSAGE_AUTHENTICATOR, x) :: l2) =
    encode_attrs l1 ++ [RADIUS_ATTR_MESSAGE_AUTHENTICATOR; 18] ++ x ++ encode_attrs l2).
  { intros x Hx. rewrite encode_attrs_app, encode_attrs_cons. unfold encode_attr. cbn [fst snd].
    by rewrite Hx. }
  assert (Hp : p = pre ++ ma ++ encode_attrs l2 ++ tail).
  { unfold p, packet, pre. rewrite El at 2. rewrite Hbody by done. by rewrite <-!app_assoc. }
  assert (Hz : splice p off (zreplicate 16 0) =
    packet code id ra (encode_attrs (l1 ++ (RADIUS_ATTR_MESSAGE_AUTHENTICATOR, zreplicate 16 0) :: l2) ++ tail)).
  { rewrite Hp, splice_mid by first [exact Hpre | by rewrite Hma]. unfold packet, pre. rewrite Hbody by done.
    rewrite <-!app_assoc. do 3 f_equal. rewrite El, Hbody by done.
    rewrite !zlen_app, Hma. change (zlen (zreplicate 16 0)) with 16. lia. }
  rewrite Hz. fold (message_authenticator secret ra code id l1 l2 tail).
  assert (sub p off 16 = ma) as ->.
  { rewrite Hp, sub_app_r by lia. apply sub_app_exact; lia. }
  by destruct (bool_decide (ma = _)).
Qed.

Lemma check_attrs_spec secret code id ra tail auth l :
  zlen ra = 16 ->
  check_attrs secret code id ra (encode_attrs l ++ tail) auth l = true <->
  auth = rfc1321 (packet code id ra (encode_attrs l ++ tail) ++ secret) /\
  message_authenticated secret ra code id l tail.
Proof.
  intros Hra. pose proof (check_attrs_one secret code id ra tail auth l) as Hone.
  set (p := packet code id ra (encode_attrs l ++ tail)) in *. set (d := rfc1321 (p ++ secret)) in *.
  split.
  - intros E. assert (Hv : exists r, vfold l 20 false (-1) = Some r).
    { unfold check_attrs in E. change RADIUS_HEADER_LEN with 20 in E.
      destruct (vfold l 20 false (-1)); [by eexists|done]. }
    destruct Hv as [[h o] Hv]. destruct (vfold_inv l 20 false (-1) h o ltac:(lia) Hv)
      as [Hn|(_ & l1 & ma & l2 & El & H1 & H2 & Hma)].
    + unfold check_attrs in E. rewrite vfold_none in E by done. fold p in E. fold d in E.
      cbn [orb andb Z.ltb Z.leb Z.compare] in E. rewrite andb_true_r in E.
      destruct (has_type RADIUS_ATTR_EAP_MESSAGE l) eqn:He; [done|].
      split; [symmetry; by apply bool_decide_eq_true in E|]. left. split; [done|by apply has_type_none].
    + rewrite (Hone l1 ma l2 Hra El H1 H2 Hma) in E. apply andb_true_iff in E as [E1 E2].
      apply bool_decide_eq_true in E1, E2. split; [done|]. right. by exists l1, ma, l2.
  - intros [-> [[Hn He]|(l1 & ma & l2 & El & H1 & H2 & Hma)]].
    + unfold check_attrs. rewrite vfold_none by done. fold p. fold d.
      apply has_type_none in He. rewrite He. cbn. by apply bool_decide_eq_true.
    + rewrite (Hone l1 ma l2 Hra El H1 H2) by (rewrite Hma; apply zlen_rfc1321).
      apply andb_true_iff. by split; apply bool_decide_eq_true.
Qed.

(** What is accepted is a packet, up to bytes after its end. *)
Lemma verify_response_packet req resp secret :
  20 <= zlen req -> bytes_ok resp -> radius_verify_response req resp secret = true ->
  exists code auth body, 20 + zlen body <= RADIUS_MAX_PACKET_LEN /\ 20 + zlen body <= zlen resp /\
    zlen auth = 16 /\ ztake (20 + zlen body) resp = packet code (byte_at req 1) auth body.
Proof.
  intros Hq Hok. unfold radius_verify_response. change RADIUS_HEADER_LEN with 20.
  change RADIUS_MAX_PACKET_LEN with 4096.
  destruct (Z.ltb_spec (zlen req) 20), (Z.ltb_spec (zlen resp) 20); try done. cbn [orb].
  destruct (Z.eqb_spec (byte_at resp 1) (byte_at req 1)) as [Hid|]; [|done]. cbn [negb].
  set (len := rd16 (byte_at resp 2) (byte_at resp 3)).
  destruct (Z.ltb_spec len 20), (Z.ltb_spec (zlen resp) len), (Z.ltb_spec 4096 len); try done.
  intros _. assert (Hl : zlen (ztake len resp) = len) by (rewrite zlen_ztake; lia).
  exists (byte_at resp 0), (sub (ztake len resp) 4 16), (zdrop 20 (ztake len resp)).
  rewrite zlen_zdrop, zlen_sub, Hl. split_and!; [lia..|].
  replace (20 + Z.max 0 (len - Z.max 0 20)) with len by lia.
  rewrite (packet_inv (ztake len resp)) at 1; rewrite ?byte_at_ztake by lia.
  - by rewrite Hid.
  - by apply bytes_ok_ztake.
  - lia.
  - by rewrite Hl.
Qed.

Lemma verify_iff req resp secret :
  20 <= zlen req -> bytes_ok resp ->
  radius_verify_response req resp secret = true <->
  exists code l, authentic secret (sub req 4 16) (byte_at req 1) code l resp.
Proof.
  intros Hq Hok. assert (Hra : zlen (sub req 4 16) = 16) by (rewrite zlen_sub; lia). split.
  - intros E. destruct (verify_response_packet _ _ _ Hq Hok E)
      as (code & auth & body & Hmax & Hr & Ha & Ep).
    rewrite (verify_response_eq req resp secret code auth body Hq Hmax Hr Ha Ep) in E.
    destruct (scan _ _ _ _) as [l|] eqn:El; [|done].
    apply scan_packet_sound in El as (tail & -> & Ht); [|done].
    apply check_attrs_spec in E as [-> Hm]; [|done].
    exists code, l, tail. by split_and!.
  - intros (code & l & tail & Ht & Hmax & Hr & Ep & Hm).
    rewrite (verify_response_eq _ _ _ _ _ _ Hq Hmax Hr (zlen_rfc1321 _) Ep).
    rewrite scan_packet_complete by done. by apply check_attrs_spec.
Qed.

(** C7: the relay accepts an answer exactly when it is authentic for the request:
    same identifier, a length field within the datagram and within 4096 bytes, well
    formed attributes, the Response Authenticator MD5(code, id, length, request
    authenticator, attributes, secret), at most one Message-Authenticator, which is
    the HMAC-MD5 over the packet with the request's authenticator, and one at least
    when there is an EAP-Message. *)
Theorem radius_verify_response_iff req resp secret :
  20 <= zlen req -> bytes_ok resp ->
  radius_verify_response req resp secret = true <->
  exists code l, authentic secret (sub req 4 16) (byte_at req 1) code l resp.
Proof. apply verify_iff. Qed.

(** ** Reading the accepted packet *)
Lemma scan_ztake n : forall resp len pos,
  0 <= pos -> scan n (ztake len resp) len pos = scan n resp len pos.
Proof.
  induction n as [|n IH]; intros resp len pos Hpos; [done|]. cbn [scan].
  destruct (Z.leb_spec (pos + 2) len); [|done]. rewrite !byte_at_ztake by lia.
  set (al := byte_at resp (pos + 1)).
  destruct (Z.ltb_spec al 2); [done|]. destruct (Z.ltb_spec len (pos + al)); [done|]. cbn [orb].
  rewrite IH by lia. do 3 f_equal. unfold sub.
  replace len with (pos + 2 + (len - (pos + 2))) by lia. rewrite zdrop_ztake, ztake_ztake by lia.
  f_equal. lia.
Qed.

(** The result for each code that ends a round. *)
Definition result_of (code : Z) : option Z :=
  if code =? RADIUS_CODE_ACCESS_ACCEPT then Some EAP_RELAY_RESULT_ACCEPT
  else if code =? RADIUS_CODE_ACCESS_REJECT then Some EAP_RELAY_RESULT_REJECT
  else if code =? RADIUS_CODE_ACCESS_CHALLENGE then Some EAP_RELAY_RESULT_CHALLENGE
  else None.

(** The packet as data: its result, State and EAP message, if the buffers hold
    them. *)
Definition read_packet (code : Z) (l : list attr) (state_cap eap_cap : Z)
    : option (Z * bytes * bytes) :=
  '(state, eap) ← parsed l state_cap eap_cap [] [];
  r ← result_of code; Some (r, state, eap).

Lemma parse_response_eq resp code id auth l tail scap ecap :
  zlen auth = 16 -> zlen tail <= 1 -> 0 <= scap -> 0 <= ecap ->
  let body := encode_attrs l ++ tail in
  20 + zlen body < 65536 -> 20 + zlen body <= zlen resp ->
  ztake (20 + zlen body) resp = packet code id auth body ->
  radius_parse_response resp scap ecap = read_packet code l scap ecap.
Proof.
  intros Ha Ht Hs He body Hmax Hr E. pose proof (zlen_nonneg body).
  set (p := packet code id auth body) in *.
  assert (Hp : zlen p = 20 + zlen body) by by apply zlen_packet.
  assert (Hb : forall i, 0 <= i < 20 -> byte_at resp i = byte_at p i).
  { intros i Hi. rewrite <-E. symmetry. apply byte_at_ztake. lia. }
  assert (Hlen : rd16 (byte_at resp 2) (byte_at resp 3) = 20 + zlen body).
  { rewrite !Hb by lia. by apply packet_length_field. }
  unfold radius_parse_response. change RADIUS_HEADER_LEN with 20. rewrite Hlen.
  destruct (Z.ltb_spec (zlen resp) 20); [lia|].
  destruct (Z.ltb_spec (zlen resp) (20 + zlen body)); [lia|].
  destruct (Z.ltb_spec (20 + zlen body) 20); [lia|]. cbn [orb].
  assert (Hcode : byte_at resp 0 = code) by (rewrite Hb by lia; done).
  rewrite parse_loop_scan by (try change (zlen (@nil Z)) with 0; lia).
  rewrite <-scan_ztake, E, <-Hp by lia.
  pose proof (scan_packet_complete code id auth l tail Ha Ht) as Es.
  change RADIUS_HEADER_LEN with 20 in Es. fold body in Es. fold p in Es. cbv zeta in Es.
  rewrite Es. cbn [mbind option_bind]. unfold read_packet.
  destruct (parsed l scap ecap [] []) as [[st e]|]; [|done]. cbn [mbind option_bind].
  unfold result_of. rewrite Hcode. by repeat case_match.
Qed.

Lemma parse_authentic secret ra id code l resp scap ecap :
  authentic secret ra id code l resp -> 0 <= scap -> 0 <= ecap ->
  radius_parse_response resp scap ecap = read_packet code l scap ecap.
Proof.
  intros (tail & Ht & Hmax & Hr & E & _) Hs He. change RADIUS_MAX_PACKET_LEN with 4096 in Hmax.
  eapply parse_response_eq; [apply zlen_rfc1321|exact Ht|done|done|lia|exact Hr|exact E].
Qed.

Lemma read_packet_some code l scap ecap r st e :
  read_packet code l scap ecap = Some (r, st, e) <->
  result_of code = Some r /\ st = values RADIUS_ATTR_STATE l /\
  e = values RADIUS_ATTR_EAP_MESSAGE l /\ zlen st <= scap /\ zlen e <= ecap.
Proof.
  unfold read_packet, parsed. cbn [app].
  destruct (Z.leb_spec (zlen (values RADIUS_ATTR_STATE l)) scap);
  destruct (Z.leb_spec (zlen (values RADIUS_ATTR_EAP_MESSAGE l)) ecap);
    cbn [andb mbind option_bind]; (destruct (result_of code) as [r'|]; cbn [mbind option_bind]);
    (split; [try done; intros [= <- <- <-]; by split_and!|]);
    intros (E & -> & -> & ? & ?); try lia; by simplify_eq.
Qed.

(** ** A server's signature *)

(** The reply of a server that knows [secret]: the attributes, a
    Message-Authenticator after them, the Response Authenticator. *)
Definition sign_reply (secret req : bytes) (code : Z) (attrs : list attr) : bytes :=
  let id := byte_at req 1 in
  let ra := sub req 4 16 in
  let l := attrs ++ [(RADIUS_ATTR_MESSAGE_AUTHENTICATOR,
                      message_authenticator secret ra code id attrs [] [])] in
  packet code id (rfc1321 (packet code id ra (encode_attrs l) ++ secret)) (encode_attrs l).
Definition reply_attrs (secret req : bytes) (code : Z) (attrs : list attr) : list attr :=
  attrs ++ [(RADIUS_ATTR_MESSAGE_AUTHENTICATOR,
             message_authenticator secret (sub req 4 16) code (byte_at req 1) attrs [] [])].

Lemma zlen_message_authenticator secret ra code id l1 l2 tail :
  zlen (message_authenticator secret ra code id l1 l2 tail) = 16.
Proof. apply zlen_rfc1321. Qed.

Lemma zlen_sign_reply secret req code attrs :
  zlen (sign_reply secret req code attrs) = 38 + zlen (encode_attrs attrs).
Proof.
  unfold sign_reply. rewrite zlen_packet by apply zlen_rfc1321.
  rewrite encode_attrs_app, zlen_app, zlen_encode_cons. cbn [snd].
  rewrite zlen_message_authenticator. change (zlen (encode_attrs [])) with 0. lia.
Qed.

Lemma sign_reply_authentic secret req code attrs n :
  no_type RADIUS_ATTR_MESSAGE_AUTHENTICATOR attrs ->
  38 + zlen (encode_attrs attrs) <= RADIUS_MAX_PACKET_LEN -> RADIUS_MAX_PACKET_LEN <= n ->
  authentic secret (sub req 4 16) (byte_at req 1) code (reply_attrs secret req code attrs)
    (ztake n (sign_reply secret req code attrs)).
Proof.
  intros Hn Hmax Hcap. pose proof (zlen_sign_reply secret req code attrs) as Hz.
  rewrite (ztake_all n) by lia. exists []. rewrite app_nil_r.
  unfold sign_reply in *. fold (reply_attrs secret req code attrs) in *.
  rewrite zlen_packet in Hz by apply zlen_rfc1321.
  rewrite zlen_packet by apply zlen_rfc1321. split_and!; [done|lia|lia| |].
  - apply ztake_all. by rewrite zlen_packet by apply zlen_rfc1321.
  - right. exists attrs, (message_authenticator secret (sub req 4 16) code (byte_at req 1) attrs [] []), [].
    refine (conj eq_refl (conj Hn (conj _ eq_refl))). constructor.
Qed.

Lemma values_reply_attrs t secret req code attrs :
  t <> RADIUS_ATTR_MESSAGE_AUTHENTICATOR ->
  values t (reply_attrs secret req code attrs) = values t attrs.
Proof.
  intros Ht. unfold reply_attrs. rewrite values_app, values_cons_ne by done. apply app_nil_r.
Qed.

Module ToyReply.
Definition secret : bytes := [0x74; 0x65; 0x73; 0x74].
Definition req : bytes := [1; 7; 0; 20; 1; 2; 3; 4; 5; 6; 7; 8; 9; 10; 11; 12; 13; 14; 15; 16].
Definition resp : bytes := sign_reply secret req 11 [(24, [0x5a]); (79, [1; 2; 0; 4])].
End ToyReply.

Lemma radius_verify_response_iff_witness :
  exists code l, authentic ToyReply.secret (sub ToyReply.req 4 16) (byte_at ToyReply.req 1) code l
    ToyReply.resp.
Proof.
  assert (Hok : bytes_ok ToyReply.resp) by (apply (bool_decide_unpack _); vm_compute; exact I).
  apply (proj1 (radius_verify_response_iff ToyReply.req ToyReply.resp ToyReply.secret ltac:(done) Hok)).
  vm_compute. reflexivity.
Defined.
