(* ===== verification/RelayClient.v ===== *)
(** * RelayClient: the exchange with the RADIUS server and the relay's service

    The Access-Request as data, the exchange as a relation between the server's
    datagram and the result, and the bounds of the service around it. *)
From stdpp Require Import base numbers list option strings.
From Stdlib Require Import ZArith Lia.
From S2P Require Import Prelude Rfc1321 Md5 RadiusAttr EapRelay RelayFacts RelayAuth.

Section client.
Context `{E : Env}.

(** ** The request *)
Definition request_attrs (username state eap : bytes) : list attr :=
  attrs_of RADIUS_ATTR_USER_NAME username ++
  [(RADIUS_ATTR_SERVICE_TYPE, [0; 2]); (RADIUS_ATTR_NAS_PORT_TYPE, [0; 5])] ++
  attrs_of RADIUS_ATTR_STATE state ++ attrs_of RADIUS_ATTR_EAP_MESSAGE eap.

(** The packet around attributes, with its Message-Authenticator last. *)
Definition signed_request (secret : bytes) (id : Z) (auth : bytes) (l : list attr) : bytes :=
  let ma := rfc2104 secret (packet RADIUS_CODE_ACCESS_REQUEST id auth
    (encode_attrs (l ++ [(RADIUS_ATTR_MESSAGE_AUTHENTICATOR, zreplicate 16 0)]))) in
  packet RADIUS_CODE_ACCESS_REQUEST id auth
    (encode_attrs (l ++ [(RADIUS_ATTR_MESSAGE_AUTHENTICATOR, ma)])).

Lemma random_bytes_spec n : forall g,
  zlen (fst (radius_random_bytes n g)) = Z.of_nat n /\ bytes_ok (fst (radius_random_bytes n g)) /\
  g_radius_identifier (snd (radius_random_bytes n g)) = g_radius_identifier g.
Proof.
  intros g. unfold radius_random_bytes.
  set (draw := fix draw (n : nat) (r : rand_state) : bytes * rand_state := _).
  assert (H : forall r, zlen (fst (draw n r)) = Z.of_nat n /\ bytes_ok (fst (draw n r))).
  { induction n as [|n IH]; intros r; cbn [draw]; [by split|].
    destruct (rand r) as [v r']. specialize (IH r'). destruct (draw n r') as [bs r''].
    destruct IH as [H1 H2]. cbn [fst] in *. rewrite zlen_cons, H1. split; [lia|].
    constructor; [|done]. unfold is_byte. change 0xff with (Z.ones 8).
    rewrite Z.land_ones by lia. apply Z.mod_pos_bound. lia. }
  specialize (H (match seeded g with Some r => r | None => srand end)).
  destruct (draw n _) as [bs r]. cbn in *. tauto.
Qed.

(** Append attributes and go on, if they fit. *)
Definition put {A} (buf : bytes) (cap : Z) (l : list attr) (k : bytes -> option A) : option A :=
  let out := buf ++ encode_attrs l in if zlen out <=? cap then k out else None.

Lemma put_nil {A} buf cap (k : bytes -> option A) : zlen buf <= cap -> put buf cap [] k = k buf.
Proof.
  intros H. unfold put. change (encode_attrs []) with (@nil Z). rewrite app_nil_r.
  by destruct (Z.leb_spec (zlen buf) cap); [|lia].
Qed.
Lemma put_put {A} buf cap l1 l2 (f k : bytes -> option A) :
  (forall b, zlen b <= cap -> f b = put b cap l2 k) ->
  put buf cap l1 f = put buf cap (l1 ++ l2) k.
Proof.
  intros H. unfold put at 1 2. rewrite encode_attrs_app, app_assoc.
  destruct (Z.leb_spec (zlen (buf ++ encode_attrs l1)) cap) as [Hle|Hgt]; [by rewrite H|].
  rewrite zlen_app. pose proof (zlen_nonneg (encode_attrs l2)).
  by destruct (Z.leb_spec (zlen (buf ++ encode_attrs l1) + zlen (encode_attrs l2)) cap); [lia|].
Qed.

Lemma append_attr_put {A} buf cap t data (k : bytes -> option A) :
  zlen buf <= cap -> (radius_append_attr buf cap t data ≫= k) = put buf cap (attrs_of t data) k.
Proof. apply append_attr_bind. Qed.
Lemma append_u16_put {A} buf cap t v (k : bytes -> option A) :
  zlen buf <= cap -> 0 <= v < 256 ->
  (radius_append_u16_attr buf cap t v ≫= k) = put buf cap [(t, [0; v])] k.
Proof.
  intros Hb Hv. unfold radius_append_u16_attr. rewrite append_attr_put by done.
  assert (Z.shiftr v 8 = 0) as ->.
  { rewrite Z.shiftr_div_pow2 by lia. by apply Z.div_small. }
  assert (Z.land v 0xff = v) as ->.
  { change 0xff with (Z.ones 8). rewrite Z.land_ones by lia. by apply Z.mod_small. }
  rewrite (u8_small v) by done. by rewrite attrs_of_one.
Qed.
Lemma append_state_put {A} buf cap state (k : bytes -> option A) :
  zlen buf <= cap ->
  ((match state with
    | Some st => if 0 <? zlen st then radius_append_attr buf cap RADIUS_ATTR_STATE st else Some buf
    | None => Some buf
    end) ≫= k) = put buf cap (attrs_of RADIUS_ATTR_STATE (default [] state)) k.
Proof.
  intros Hb. destruct state as [st|]; cbn [default from_option]; [|by rewrite put_nil].
  destruct (Z.ltb_spec 0 (zlen st)); [by apply append_attr_put|].
  assert (st = []) as -> by (apply zlen_0_nil; pose proof (zlen_nonneg st); lia).
  by rewrite put_nil.
Qed.

(** The whole chain of [radius_build_request]. *)
Lemma append_request {A} hd cap username state eap (k : bytes -> option A) :
  zlen hd <= cap ->
  (req ← radius_append_attr hd cap RADIUS_ATTR_USER_NAME username;
   req ← radius_append_u16_attr req cap RADIUS_ATTR_SERVICE_TYPE RADIUS_SERVICE_FRAMED_USER;
   req ← radius_append_u16_attr req cap RADIUS_ATTR_NAS_PORT_TYPE RADIUS_NAS_PORT_VIRTUAL;
   req ← (match state with
          | Some st => if 0 <? zlen st then radius_append_attr req cap RADIUS_ATTR_STATE st
                       else Some req
          | None => Some req
          end);
   req ← radius_append_attr req cap RADIUS_ATTR_EAP_MESSAGE eap;
   k req) = put hd cap (request_attrs username (default [] state) eap) k.
Proof.
  intros Hh. rewrite append_attr_put by done. apply put_put. intros b1 H1.
  rewrite append_u16_put by done.
  change [(RADIUS_ATTR_SERVICE_TYPE, [0; 2]); (RADIUS_ATTR_NAS_PORT_TYPE, [0; 5])] with
    ([(RADIUS_ATTR_SERVICE_TYPE, [0; 2])] ++ [(RADIUS_ATTR_NAS_PORT_TYPE, [0; 5])]).
  rewrite <-!app_assoc. apply put_put. intros b2 H2. rewrite append_u16_put by done.
  apply put_put. intros b3 H3. rewrite append_state_put by done.
  apply put_put. intros b4 H4. by apply append_attr_put.
Qed.

(** The end of it: length field and Message-Authenticator written in place. *)
Lemma sign_in_place secret id auth l :
  zlen auth = 16 -> 38 + zlen (encode_attrs l) <= RADIUS_MAX_PACKET_LEN ->
  let req := ([RADIUS_CODE_ACCESS_REQUEST; id; 0; 0] ++ auth) ++ encode_attrs l in
  let out := req ++ [RADIUS_ATTR_MESSAGE_AUTHENTICATOR; 18] ++ zreplicate 16 0 in
  let out := splice out 2 (be16 (u16 (zlen out))) in
  splice out (zlen req + 2) (hmac_md5 secret out) = signed_request secret id auth l.
Proof.
  intros Ha Hl req. change RADIUS_MAX_PACKET_LEN with 4096 in Hl.
  pose proof (zlen_nonneg (encode_attrs l)) as Hl0.
  set (total := 38 + zlen (encode_attrs l)) in *.
  assert (Hreq : zlen req = 20 + zlen (encode_attrs l)).
  { unfold req. rewrite !zlen_app, Ha. done. }
  set (tl := fun ma : bytes => [RADIUS_ATTR_MESSAGE_AUTHENTICATOR; 18] ++ ma).
  assert (Hp : forall ma, zlen ma = 16 ->
    packet RADIUS_CODE_ACCESS_REQUEST id auth
      (encode_attrs (l ++ [(RADIUS_ATTR_MESSAGE_AUTHENTICATOR, ma)])) =
    [RADIUS_CODE_ACCESS_REQUEST; id] ++ be16 total ++ auth ++ encode_attrs l ++ tl ma).
  { intros ma Hma. unfold packet. rewrite encode_attrs_app, encode_attrs_cons.
    unfold encode_attr. cbn [fst snd]. rewrite Hma. change (encode_attrs []) with (@nil Z).
    rewrite app_nil_r. change (_ ++ ma) with (tl ma). rewrite zlen_app.
    assert (zlen (tl ma) = 18) as -> by (unfold tl; rewrite zlen_app, Hma; done).
    do 3 f_equal. unfold total. lia. }
  intros out. assert (Hout : zlen out = total).
  { unfold out. rewrite zlen_app, Hreq. change (zlen (tl (zreplicate 16 0))) with 18. unfold total. lia. }
  assert (Hz : splice out 2 (be16 (u16 (zlen out))) = packet RADIUS_CODE_ACCESS_REQUEST id auth
    (encode_attrs (l ++ [(RADIUS_ATTR_MESSAGE_AUTHENTICATOR, zreplicate 16 0)]))).
  { rewrite Hout, u16_small by lia. rewrite Hp by done. unfold out, req.
    change ([RADIUS_CODE_ACCESS_REQUEST; id; 0; 0] ++ auth) with
      ([RADIUS_CODE_ACCESS_REQUEST; id] ++ [0; 0] ++ auth).
    rewrite <-!app_assoc. by rewrite splice_mid. }
  cbv zeta. rewrite Hz, hmac_md5_eq. unfold signed_request. set (ma := rfc2104 secret _).
  assert (Hma : zlen ma = 16) by apply zlen_rfc1321. rewrite !Hp by done. unfold tl.
  set (pre := [RADIUS_CODE_ACCESS_REQUEST; id] ++ be16 total ++ auth ++ encode_attrs l ++
    [RADIUS_ATTR_MESSAGE_AUTHENTICATOR; 18]).
  transitivity (splice (pre ++ zreplicate 16 0 ++ []) (zlen pre) ma).
  - f_equal; [unfold pre; by rewrite <-!app_assoc|]. rewrite Hreq. unfold pre.
    rewrite !zlen_app, Ha, zlen_be16. change (zlen [RADIUS_CODE_ACCESS_REQUEST; id]) with 2.
    change (zlen [RADIUS_ATTR_MESSAGE_AUTHENTICATOR; 18]) with 2. lia.
  - rewrite splice_mid by (rewrite ?Hma; done). unfold pre. rewrite app_nil_r. by rewrite <-!app_assoc.
Qed.

Definition request_len (username state eap : bytes) : Z :=
  20 + zlen (encode_attrs (request_attrs username state eap)) + 18.

Lemma zlen_attrs_of_ge t v : zlen v <= zlen (encode_attrs (attrs_of t v)).
Proof.
  assert (H : forall n v, (length v <= n)%nat -> zlen v <= zlen (encode_attrs (cut n t v))).
  { clear v. induction n as [|n IH]; intros v Hn.
    - destruct v; [done|cbn in Hn; lia].
    - cbn [cut]. destruct (Z.eqb_spec (zlen v) 0) as [->|]; [by apply zlen_nonneg|].
      pose proof (zlen_nonneg v). pose proof (zlen_zdrop253 v ltac:(lia)).
      rewrite zlen_encode_cons. cbn [snd]. rewrite <-(ztake_zdrop 253 v) at 1. rewrite zlen_app.
      pose proof (IH (zdrop 253 v) ltac:(lia)). lia. }
  by apply H.
Qed.

Lemma request_len_ge username state eap :
  46 + zlen username + zlen state + zlen eap <= request_len username state eap.
Proof.
  unfold request_len, request_attrs. rewrite !encode_attrs_app, !zlen_app.
  change (zlen (encode_attrs [(RADIUS_ATTR_SERVICE_TYPE, _); _])) with 8.
  pose proof (zlen_attrs_of_ge RADIUS_ATTR_USER_NAME username).
  pose proof (zlen_attrs_of_ge RADIUS_ATTR_STATE state).
  pose proof (zlen_attrs_of_ge RADIUS_ATTR_EAP_MESSAGE eap). lia.
Qed.

Lemma build_request_eq username state eap secret cap g :
  zlen username <= RADIUS_MAX_ATTR_VALUE -> RADIUS_MAX_PACKET_LEN <= cap ->
  let id := u8 (g_radius_identifier g + 1) in
  let '(auth, g') := radius_random_bytes 16 {| g_radius_identifier := id; seeded := seeded g |} in
  fst (radius_build_request username state eap secret cap g) =
  if request_len username (default [] state) eap <=? RADIUS_MAX_PACKET_LEN
  then Some (signed_request secret id auth (request_attrs username (default [] state) eap))
  else None.
Proof.
  intros Hu Hcap id. unfold radius_build_request. fold id.
  change RADIUS_MAX_ATTR_VALUE with 253 in *. change RADIUS_HEADER_LEN with 20.
  set (g0 := {| g_radius_identifier := id; seeded := seeded g |}).
  pose proof (random_bytes_spec 16 g0) as (Ha & _ & _).
  destruct (radius_random_bytes 16 g0) as [auth g']. cbn [fst] in Ha.
  set (st := default [] state).
  pose proof (request_len_ge username st eap) as Hge. change RADIUS_MAX_PACKET_LEN with 4096 in *. pose proof (zlen_nonneg st).
  destruct (Z.ltb_spec 253 (zlen username)); [lia|].
  destruct (Z.ltb_spec cap (20 + 2 + zlen username + 2 + 2 + zlen eap + 18)) as [Hov|Hfit].
  { cbn [fst]. by destruct (Z.leb_spec (request_len username st eap) 4096); [lia|]. }
  cbn [fst]. assert (Hhd : zlen ([RADIUS_CODE_ACCESS_REQUEST; id; 0; 0] ++ auth) = 20)
    by (rewrite zlen_app, Ha; done).
  rewrite append_request by lia. fold st. unfold put. cbv zeta.
  set (l := request_attrs username st eap). set (req := (_ ++ auth) ++ encode_attrs l).
  assert (Hreq : zlen req = 20 + zlen (encode_attrs l)) by (unfold req; rewrite zlen_app, Hhd; done).
  assert (Hout : zlen (req ++ [RADIUS_ATTR_MESSAGE_AUTHENTICATOR; 18] ++ zreplicate 16 0) =
    request_len username st eap) by (rewrite zlen_app, Hreq; done).
  assert (Hlen : request_len username st eap = 38 + zlen (encode_attrs l)) by (unfold request_len; fold l; lia).
  rewrite Hout, Hreq.
  destruct (Z.leb_spec (request_len username st eap) 4096) as [Hle|Hgt].
  - destruct (Z.leb_spec (20 + zlen (encode_attrs l)) cap); [|lia].
    destruct (Z.ltb_spec cap (20 + zlen (encode_attrs l) + 18)); [lia|].
    destruct (Z.ltb_spec 4096 (request_len username st eap)); [lia|]. f_equal.
    rewrite <-Hout, <-Hreq. apply sign_in_place; [done|]. rewrite <-Hlen. exact Hle.
  - by repeat case_match; try lia.
Qed.

Lemma build_request_id username state eap secret cap g req g' :
  radius_build_request username state eap secret cap g = (Some req, g') ->
  g_radius_identifier g' = u8 (g_radius_identifier g + 1).
Proof.
  unfold radius_build_request. destruct (_ <? _); [done|]. destruct (_ <? _); [done|].
  set (g0 := {| g_radius_identifier := u8 (g_radius_identifier g + 1); seeded := seeded g |}).
  pose proof (random_bytes_spec 16 g0) as (_ & _ & Hid).
  destruct (radius_random_bytes 16 g0) as [auth g1]. by intros [= _ <-].
Qed.

(** ** What the server reads *)
Lemma values_request t username state eap :
  values t (request_attrs username state eap) =
  values t (attrs_of RADIUS_ATTR_USER_NAME username) ++
  values t [(RADIUS_ATTR_SERVICE_TYPE, [0; 2]); (RADIUS_ATTR_NAS_PORT_TYPE, [0; 5])] ++
  values t (attrs_of RADIUS_ATTR_STATE state) ++ values t (attrs_of RADIUS_ATTR_EAP_MESSAGE eap).
Proof. unfold request_attrs. by rewrite !values_app. Qed.

Lemma request_attrs_types username state eap t :
  Forall (fun a => fst a <> t) (attrs_of RADIUS_ATTR_USER_NAME username) ->
  t <> RADIUS_ATTR_SERVICE_TYPE -> t <> RADIUS_ATTR_NAS_PORT_TYPE ->
  Forall (fun a => fst a <> t) (attrs_of RADIUS_ATTR_STATE state) ->
  Forall (fun a => fst a <> t) (attrs_of RADIUS_ATTR_EAP_MESSAGE eap) ->
  no_type t (request_attrs username state eap).
Proof.
  intros HU HS HN HT HE. unfold no_type, request_attrs. rewrite !Forall_app. split_and!; [done| |done|done].
  repeat constructor; by apply not_eq_sym.
Qed.

Lemma attrs_of_type t u v : t <> u -> Forall (fun a => fst a <> t) (attrs_of u v).
Proof.
  intros Hn. eapply Forall_impl; [by apply (cut_ok (length v) u v)|].
  intros a Ha. cbn in Ha. congruence.
Qed.

(** The request as its receiver sees it. *)
Definition request_read (secret : bytes) (id : Z) (username state eap req : bytes) : Prop :=
  exists auth l, zlen auth = 16 /\ bytes_ok auth /\
    req = packet RADIUS_CODE_ACCESS_REQUEST id auth (encode_attrs l) /\
    scan (Z.to_nat (zlen req)) req (zlen req) RADIUS_HEADER_LEN = Some l /\
    values RADIUS_ATTR_USER_NAME l = username /\ values RADIUS_ATTR_STATE l = state /\
    values RADIUS_ATTR_EAP_MESSAGE l = eap /\ Forall attr_ok l /\
    message_authenticated secret auth RADIUS_CODE_ACCESS_REQUEST id l [].

Lemma signed_request_read secret id auth username state eap :
  zlen auth = 16 -> bytes_ok auth ->
  request_read secret id username state eap
    (signed_request secret id auth (request_attrs username state eap)).
Proof.
  intros Ha Hok. unfold signed_request.
  set (l := request_attrs username state eap).
  set (ma := rfc2104 secret _). set (l' := l ++ [(RADIUS_ATTR_MESSAGE_AUTHENTICATOR, ma)]).
  assert (Hma : zlen ma = 16) by apply zlen_rfc1321.
  assert (Hv : forall t, t <> RADIUS_ATTR_MESSAGE_AUTHENTICATOR -> values t l' = values t l).
  { intros t Ht. unfold l'. rewrite values_app, values_cons_ne by done. apply app_nil_r. }
  assert (H80 : no_type RADIUS_ATTR_MESSAGE_AUTHENTICATOR l)
    by by apply request_attrs_types; [apply attrs_of_type| | |apply attrs_of_type|apply attrs_of_type].
  exists auth, l'. split_and!; [done|done|done| | | | | |].
  - pose proof (scan_packet_complete RADIUS_CODE_ACCESS_REQUEST id auth l' [] Ha ltac:(done)) as Es.
    by rewrite app_nil_r in Es.
  - rewrite Hv by done. unfold l. rewrite values_request, values_attrs_of.
    rewrite !values_attrs_of_ne by done. apply app_nil_r.
  - rewrite Hv by done. unfold l. rewrite values_request, values_attrs_of.
    rewrite !values_attrs_of_ne by done. apply app_nil_r.
  - rewrite Hv by done. unfold l. rewrite values_request, values_attrs_of.
    by rewrite !values_attrs_of_ne by done.
  - unfold l', l, request_attrs. rewrite !Forall_app. split_and!; try apply attrs_of_ok.
    + by repeat constructor.
    + repeat constructor; cbn [snd]; lia.
  - right. exists l, ma, []. refine (conj eq_refl (conj H80 (conj _ _))); [constructor|].
    unfold message_authenticator. by rewrite app_nil_r.
Qed.

(** Building the request; the property below restates it. *)
Lemma request_read_built username state eap secret g :
  let id := u8 (g_radius_identifier g + 1) in
  let fits := (zlen username <=? RADIUS_MAX_ATTR_VALUE) &&
              (request_len username (default [] state) eap <=? RADIUS_MAX_PACKET_LEN) in
  match radius_build_request username state eap secret 8192 g with
  | (Some req, g') => fits = true /\ g_radius_identifier g' = id /\
      zlen req = request_len username (default [] state) eap /\
      request_read secret id username (default [] state) eap req
  | (None, _) => fits = false
  end.
Proof.
  intros id fits. destruct (Z.leb_spec (zlen username) RADIUS_MAX_ATTR_VALUE) as [Hu|Hu].
  2: { unfold radius_build_request. by rewrite (proj2 (Z.ltb_lt _ _) Hu). }
  pose proof (build_request_eq username state eap secret 8192 g Hu ltac:(done)) as Hb.
  cbv zeta in Hb.
  pose proof (build_request_id username state eap secret 8192 g) as Hid.
  set (g0 := {| g_radius_identifier := u8 (g_radius_identifier g + 1); seeded := seeded g |}) in *.
  pose proof (random_bytes_spec 16 g0) as (Ha & Hok & _).
  destruct (radius_random_bytes 16 g0) as [auth g1]. cbn [fst] in Ha, Hok.
  destruct (radius_build_request username state eap secret 8192 g) as [out g']. cbn [fst] in Hb.
  assert (fits = (request_len username (default [] state) eap <=? RADIUS_MAX_PACKET_LEN)) as ->.
  { done. }
  revert Hid. rewrite Hb.
  destruct (request_len username (default [] state) eap <=? RADIUS_MAX_PACKET_LEN); intros Hid; [|done].
  split_and!; [done|by eapply Hid| |by apply signed_request_read].
  unfold signed_request. rewrite zlen_packet, encode_attrs_app, zlen_app, zlen_encode_cons by done.
  cbn [snd]. rewrite (zlen_rfc1321 _ : zlen (rfc2104 _ _) = 16). unfold request_len.
  change (zlen (encode_attrs [])) with 0. lia.
Qed.

(** C30: an Access-Request is built exactly when the user name fits one attribute and
    the packet 4096 bytes; a server that scans it finds the user name, State and
    EAP message it was built from, each attribute within 253 bytes, a fresh
    identifier, and a Message-Authenticator correct under the shared secret. *)
Theorem radius_build_request_spec username state eap secret g :
  let id := u8 (g_radius_identifier g + 1) in
  let fits := (zlen username <=? RADIUS_MAX_ATTR_VALUE) &&
              (request_len username (default [] state) eap <=? RADIUS_MAX_PACKET_LEN) in
  match radius_build_request username state eap secret 8192 g with
  | (Some req, g') => fits = true /\ g_radius_identifier g' = id /\
      zlen req = request_len username (default [] state) eap /\
      request_read secret id username (default [] state) eap req
  | (None, _) => fits = false
  end.
Proof. apply request_read_built. Qed.
End client.
