(* ===== verification/RelayService.v ===== *)
(** * RelayService: the relay as its two neighbours see it

    [radius_exchange] against the specification of the packets; the answer of
    [process_req] as a function of the datagram alone; the bounds of every reply;
    the service's life cycle. *)
From stdpp Require Import base numbers list option strings.
From Stdlib Require Import ZArith Lia Ascii.
From S2P Require Import Prelude Md5 RadiusAttr EapRelay RelayFacts RelayAuth RelayClient.

Section service.
Context `{E : Env}.

(** Datagrams carry bytes. *)
Definition deliver_ok : Prop :=
  forall addr port req resp, deliver addr port req = Some (Some resp) -> bytes_ok resp.

(** ** The exchange *)
Definition relay_secret : bytes := str (env_or (getenv "OPEN5GS_RADIUS_SECRET") "testing123").
Definition relay_server : string :=
  match getenv "OPEN5GS_RADIUS_ADDR" with
  | Some (String _ _ as a) => a
  | _ => env_or (getenv "OPEN5GS_RADIUS_SERVER") "127.0.0.1"
  end.
Definition relay_server_port : Z := get_port_from_env "OPEN5GS_RADIUS_PORT" 1812.

(** [resp] authentically answers [req] with these contents. *)
Definition answered (req resp : bytes) (r : Z) (st e : bytes) : Prop :=
  exists code l, authentic relay_secret (sub req 4 16) (byte_at req 1) code l (ztake 8192 resp) /\
    result_of code = Some r /\
    st = values RADIUS_ATTR_STATE l /\ e = values RADIUS_ATTR_EAP_MESSAGE l.

Lemma built_long username state eap secret cap g req g' :
  radius_build_request username state eap secret cap g = (Some req, g') ->
  RADIUS_MAX_PACKET_LEN <= cap -> 20 <= zlen req.
Proof.
  intros Hb Hcap. assert (Hu : zlen username <= RADIUS_MAX_ATTR_VALUE).
  { unfold radius_build_request in Hb.
    by destruct (Z.ltb_spec RADIUS_MAX_ATTR_VALUE (zlen username)). }
  pose proof (build_request_eq username state eap secret cap g Hu Hcap) as He. cbv zeta in He.
  set (g0 := {| g_radius_identifier := u8 (g_radius_identifier g + 1); seeded := seeded g |}) in *.
  pose proof (random_bytes_spec 16 g0) as (Ha & _ & _).
  destruct (radius_random_bytes 16 g0) as [auth g1]. cbn [fst] in Ha. rewrite Hb in He. cbn [fst] in He.
  destruct (_ <=? _); [|done]. injection He as ->. unfold signed_request.
  rewrite zlen_packet by done. zlen_pos. lia.
Qed.

Lemma exchange_iff username state eap scap ecap g r st e g' :
  deliver_ok -> 0 <= scap -> 0 <= ecap ->
  radius_exchange username state eap scap ecap g = (Some (r, st, e), g') <->
  exists req resp,
    radius_build_request username state eap relay_secret 8192 g = (Some req, g') /\
    can_socket = true /\ inet_pton relay_server = true /\
    deliver relay_server relay_server_port req = Some (Some resp) /\
    answered req resp r st e /\ zlen st <= scap /\ zlen e <= ecap.
Proof.
  intros Hd Hs He. unfold radius_exchange. fold relay_secret relay_server relay_server_port.
  destruct (radius_build_request username state eap relay_secret 8192 g) as [[req|] g1] eqn:Eb.
  2: { split; [done|]. intros (? & ? & ? & _). simplify_eq. }
  pose proof (built_long _ _ _ _ _ _ _ _ Eb ltac:(done)) as Hreq. cbn [mbind option_bind].
  assert (Hinner : forall resp, bytes_ok resp ->
    (if negb (radius_verify_response req (ztake 8192 resp) relay_secret) then None
     else radius_parse_response (ztake 8192 resp) scap ecap) = Some (r, st, e) <->
    answered req resp r st e /\ zlen st <= scap /\ zlen e <= ecap).
  { intros resp Hok. pose proof (verify_iff req (ztake 8192 resp) relay_secret Hreq
      (bytes_ok_ztake _ _ Hok)) as Hv.
    destruct (radius_verify_response req (ztake 8192 resp) relay_secret) eqn:Ev; cbn [negb].
    - destruct (proj1 Hv eq_refl) as (code & l & Hauth).
      rewrite (parse_authentic _ _ _ _ _ _ _ _ Hauth Hs He), read_packet_some. split.
      + intros (Hr & Hst & Hea & H1 & H2). split; [|done]. by exists code, l.
      + intros ((code' & l' & Hauth' & Hr & Hst & Hea) & H1 & H2).
        pose proof (parse_authentic _ _ _ _ _ _ scap ecap Hauth Hs He) as P1.
        rewrite (parse_authentic _ _ _ _ _ _ scap ecap Hauth' Hs He) in P1.
        apply read_packet_some. rewrite <-P1. by apply read_packet_some.
    - split; [done|]. intros ((code & l & Hauth & _) & _).
      assert (false = true) by (apply Hv; eauto). done. }
  split.
  - destruct can_socket; [|done]. destruct (inet_pton relay_server) eqn:Ei; [|done]. cbn [negb].
    destruct (deliver relay_server relay_server_port req) as [[resp|]|] eqn:Edl; [|done|done].
    cbn [mbind option_bind]. intros H. injection H as H1 <-. exists req, resp.
    apply Hinner in H1; [|by eapply Hd]. by destruct H1 as (? & ? & ?).
  - intros (req' & resp & Eb' & Hsock & Hin & Hdl & Hans). simplify_eq.
    rewrite Hsock, Hin, Hdl. cbn [negb mbind option_bind]. f_equal.
    apply Hinner; [by eapply Hd|done].
Qed.

(** C29: [radius_exchange] returns a result exactly when the Access-Request could be
    built and sent and the datagram received within the timeout is an authentic
    answer to it, with an Accept, Reject or Challenge code, whose State and EAP
    message are the ones returned and fit the caller's buffers. *)
Theorem radius_exchange_iff username state eap scap ecap g r st e g' :
  deliver_ok -> 0 <= scap -> 0 <= ecap ->
  radius_exchange username state eap scap ecap g = (Some (r, st, e), g') <->
  exists req resp,
    radius_build_request username state eap relay_secret 8192 g = (Some req, g') /\
    can_socket = true /\ inet_pton relay_server = true /\
    deliver relay_server relay_server_port req = Some (Some resp) /\
    answered req resp r st e /\ zlen st <= scap /\ zlen e <= ecap.
Proof. apply exchange_iff. Qed.

Lemma zlen_values_two t u l :
  t <> u -> zlen (values t l) + zlen (values u l) <= zlen (encode_attrs l).
Proof.
  intros Hn. induction l as [|[k v] l IH]; [done|]. rewrite zlen_encode_cons. cbn [snd].
  zlen_pos. destruct (Z.eqb_spec k t) as [->|Ht]; [|destruct (Z.eqb_spec k u) as [->|Hu]].
  - rewrite values_cons_eq, values_cons_ne, zlen_app by done. lia.
  - rewrite values_cons_eq, values_cons_ne, zlen_app by congruence. lia.
  - rewrite !values_cons_ne by done. lia.
Qed.

(** What an exchange returns fits one RADIUS packet, and its result one byte. *)
Lemma exchange_bounds username state eap scap ecap g r st e g' :
  deliver_ok -> 0 <= scap -> 0 <= ecap ->
  radius_exchange username state eap scap ecap g = (Some (r, st, e), g') ->
  0 <= r <= 2 /\ zlen st + zlen e <= 4076.
Proof.
  intros Hd Hs He (req & resp & _ & _ & _ & _ & (code & l & Ha & Hr & -> & ->) & _)%exchange_iff; [|done..].
  split.
  - unfold result_of in Hr. destruct (code =? _); [by injection Hr as <-|].
    destruct (code =? _); [by injection Hr as <-|]. destruct (code =? _); [by injection Hr as <-|done].
  - destruct Ha as (tail & _ & Hmax & _). rewrite zlen_app in Hmax.
    change RADIUS_MAX_PACKET_LEN with 4096 in Hmax.
    pose proof (zlen_values_two RADIUS_ATTR_STATE RADIUS_ATTR_EAP_MESSAGE l ltac:(done)).
    zlen_pos. lia.
Qed.

(** ** The service's answer as a function of the datagram *)

(** The user name, State and EAP message of a request datagram. *)
Definition relay_request (d : bytes) : option (bytes * bytes * bytes) :=
  let u := byte_at d 6 in
  let s := rd16 (byte_at d 7) (byte_at d 8) in
  let m := rd16 (byte_at d 9) (byte_at d 10) in
  if (11 <=? zlen d) &&
     (rd32 (byte_at d 0) (byte_at d 1) (byte_at d 2) (byte_at d 3) =? EAP_RELAY_MAGIC_REQ) &&
     (byte_at d 4 =? EAP_RELAY_VERSION) && (11 + u + s + m <=? zlen d)
  then Some (c_string (sub d 11 u), sub d (11 + u) s, sub d (11 + u + s) m)
  else None.

Definition relay_reply (result : Z) (st e : bytes) : bytes :=
  be32 EAP_RELAY_MAGIC_RESP ++ [EAP_RELAY_VERSION; result] ++
  be16 (zlen st) ++ be16 (zlen e) ++ st ++ e.

Definition relay_answer (d : bytes) (g : relay_state) : bytes * relay_state :=
  match relay_request d with
  | None => (relay_reply EAP_RELAY_RESULT_ERROR [] [], g)
  | Some (u, s, m) =>
      match radius_exchange u (Some s) m 2048 8192 g with
      | (Some (r, st, e), g) => (relay_reply r st e, g)
      | (None, g) => (relay_reply EAP_RELAY_RESULT_ERROR [] [], g)
      end
  end.

Lemma c_string_pad l n : 0 < n -> c_string (l ++ zreplicate n 0) = c_string l.
Proof.
  intros Hn. induction l as [|b l IH]; cbn.
  - unfold zreplicate. by destruct (Z.to_nat n) eqn:?; [lia|].
  - by rewrite IH.
Qed.

Lemma write_response_eq r st e :
  zlen st + zlen e <= 4076 ->
  write_response r (if 0 <? zlen st then Some st else None) (if 0 <? zlen e then Some e else None)
    (u16 (zlen st)) (u16 (zlen e)) = Ok (relay_reply r st e).
Proof.
  intros Hb. zlen_pos. unfold write_response. rewrite !u16_small by lia.
  assert (Hpart : forall v : bytes, zlen v <= 4076 ->
    (if zlen v =? 0 then [] else default [] (ztake (zlen v) <$> (if 0 <? zlen v then Some v else None))) = v).
  { intros v Hv. zlen_pos. destruct (Z.eqb_spec (zlen v) 0) as [Hz|Hz]; [by apply zlen_0_nil in Hz as ->|].
    destruct (Z.ltb_spec 0 (zlen v)); [|lia]. cbn. by apply ztake_all. }
  rewrite !Hpart by lia. fold (relay_reply r st e). destruct (Z.ltb_spec 8192 (zlen (relay_reply r st e))); [|done].
  unfold relay_reply in *. rewrite !zlen_app, !zlen_be16, zlen_be32 in *.
  change (zlen [EAP_RELAY_VERSION; r]) with 2 in *. lia.
Qed.

(** Reading below the datagram's length does not see the rest of the array. *)
Lemma sub_ztake (l : bytes) n off k : 0 <= off -> 0 <= k -> off + k <= n -> sub (ztake n l) off k = sub l off k.
Proof.
  intros. unfold sub. replace n with (off + (n - off)) by lia.
  rewrite zdrop_ztake, ztake_ztake by lia. f_equal. lia.
Qed.

Lemma process_req_answer buf len g :
  deliver_ok -> bytes_ok buf -> 0 <= len <= zlen buf ->
  process_req buf len g =
  (let '(out, g') := relay_answer (ztake len buf) g in (Ok out, g')).
Proof.
  intros Hd Hok Hlen. unfold process_req, relay_answer, relay_request.
  change error_response with (@Ok bytes (relay_reply EAP_RELAY_RESULT_ERROR [] [])).
  assert (Hz : zlen (ztake len buf) = len) by (rewrite zlen_ztake; lia). rewrite Hz.
  destruct (Z.ltb_spec len 10) as [Hs|Hs].
  { by destruct (Z.leb_spec 11 len); [lia|]. }
  rewrite !(byte_at_ztake buf len) by lia. destruct (rd32 _ _ _ _ =? _); cbn [negb andb];
    [|by rewrite andb_false_r].
  pose proof (byte_at_ok buf 6 Hok) as Hu. unfold is_byte in Hu.
  pose proof (rd16_range _ _ (byte_at_ok buf 7 Hok) (byte_at_ok buf 8 Hok)) as Hst.
  set (u := byte_at buf 6) in *. set (s := rd16 (byte_at buf 7) (byte_at buf 8)) in *.
  destruct (byte_at buf 4 =? EAP_RELAY_VERSION); cbn [negb andb]; [|by rewrite andb_false_r].
  destruct (Z.leb_spec 11 len) as [H11|H11].
  2: { pose proof (rd16_range _ _ (byte_at_ok buf 9 Hok) (byte_at_ok buf 10 Hok)).
       by destruct (Z.ltb_spec len (11 + u + s + rd16 (byte_at buf 9) (byte_at buf 10))); [|lia]. }
  rewrite !(byte_at_ztake buf len) by lia.
  pose proof (rd16_range _ _ (byte_at_ok buf 9 Hok) (byte_at_ok buf 10 Hok)) as Hm.
  set (m := rd16 (byte_at buf 9) (byte_at buf 10)) in *. cbn [andb].
  destruct (Z.ltb_spec len (11 + u + s + m)), (Z.leb_spec (11 + u + s + m) len); try lia; [done|].
  rewrite c_string_pad, !sub_ztake by lia.
  destruct (radius_exchange _ _ _ _ _ _) as [[[[r st] e]|] g'] eqn:Ex; [|done].
  apply exchange_bounds in Ex as [Hr Hb]; [|done..]. by rewrite write_response_eq.
Qed.

Lemma zlen_relay_answer d g :
  deliver_ok -> 10 <= zlen (fst (relay_answer d g)) <= 4086.
Proof.
  intros Hd. assert (Hl : forall r st e, zlen (relay_reply r st e) = 10 + zlen st + zlen e).
  { intros. unfold relay_reply. rewrite !zlen_app, !zlen_be16, zlen_be32.
    change (zlen [EAP_RELAY_VERSION; r]) with 2. lia. }
  unfold relay_answer. destruct (relay_request d) as [[[u s] m]|]; [|done].
  destruct (radius_exchange _ _ _ _ _ _) as [[[[r st] e]|] g'] eqn:Ex; [|done].
  apply exchange_bounds in Ex as [Hr Hb]; [|done..]. cbn [fst]. rewrite Hl. zlen_pos. lia.
Qed.

(** A datagram [d] over the array [buf]. *)
Lemma process_received buf d g :
  deliver_ok -> bytes_ok buf -> bytes_ok d -> zlen d <= zlen buf ->
  process_req (splice buf 0 d) (zlen d) g = (let '(out, g') := relay_answer d g in (Ok out, g')) /\
  bytes_ok (splice buf 0 d) /\ zlen (splice buf 0 d) = zlen buf.
Proof.
  intros Hd Hok Hdok Hb. pose proof (zlen_nonneg d).
  assert (Hok' : bytes_ok (splice buf 0 d)).
  { unfold splice. rewrite !Forall_app. split_and!; [by apply bytes_ok_ztake|done|by apply bytes_ok_zdrop]. }
  assert (Hl : zlen (splice buf 0 d) = zlen buf) by (rewrite zlen_splice; lia).
  refine (conj _ (conj Hok' Hl)). rewrite process_req_answer by (try done; lia).
  pose proof (ztake_splice buf d 0 ltac:(lia) ltac:(lia)) as Ht.
  rewrite (ztake_nonpos 0), Z.add_0_l in Ht by lia. by rewrite Ht.
Qed.

(** Whatever datagram arrives, and whatever an earlier one left in the receive
    array, the relay answers with a well formed reply of 10 to 4086 bytes, inside
    its 8192 byte array; the reply and the next state depend on the first 8192
    bytes of this datagram only. *)
Theorem relay_step_answers buf dgram g :
  deliver_ok -> bytes_ok buf -> bytes_ok dgram -> zlen buf = 8192 ->
  let '(out, g') := relay_answer (ztake 8192 dgram) g in
  exists buf', relay_step buf dgram g = (Ok out, (buf', g')) /\
    bytes_ok buf' /\ zlen buf' = 8192 /\ 10 <= zlen out <= 4086.
Proof.
  intros Hd Hok Hdok Hb. unfold relay_step, recv_into.
  assert (Hz : zlen (ztake 8192 dgram) <= zlen buf) by (rewrite zlen_ztake; lia).
  pose proof (bytes_ok_ztake 8192 _ Hdok) as Hdok'. revert Hz Hdok'.
  generalize (ztake 8192 dgram). intros d Hz Hdok'.
  destruct (process_received buf d g Hd Hok Hdok' Hz) as (-> & Hok' & Hl).
  pose proof (zlen_relay_answer d g Hd) as Hr. rewrite Hb in Hl.
  destruct (relay_answer d g) as [out g']. by exists (splice buf 0 d).
Qed.

(** ** Ports *)

(** A string of decimal digits and its value. *)
Fixpoint render (ds : list Z) : string :=
  match ds with
  | [] => EmptyString
  | d :: ds => String (Ascii.ascii_of_nat (Z.to_nat (48 + d))) (render ds)
  end.
Definition decimal (ds : list Z) : Z := fold_left (fun a d => 10 * a + d) ds 0.
Definition is_digit (d : Z) : Prop := 0 <= d < 10.

Lemma digit_render d : is_digit d ->
  let c := Ascii.ascii_of_nat (Z.to_nat (48 + d)) in
  digit c = Some d /\ is_space c = false /\ c <> "-"%char /\ c <> "+"%char.
Proof.
  intros H. assert (Hc : d = 0 \/ d = 1 \/ d = 2 \/ d = 3 \/ d = 4 \/ d = 5 \/ d = 6 \/ d = 7 \/
    d = 8 \/ d = 9) by (unfold is_digit in H; lia).
  by repeat destruct Hc as [->|Hc]; [..|subst d].
Qed.

Lemma digits_render ds : forall acc, Forall is_digit ds ->
  digits acc (render ds) = (fold_left (fun a d => 10 * a + d) ds acc, EmptyString).
Proof.
  induction ds as [|d ds IH]; intros acc H; [done|]. apply Forall_cons_iff in H as [Hd H].
  cbn [digits render]. destruct (digit_render d Hd) as [-> _]. by apply IH.
Qed.

Lemma strtol10_render ds : ds <> [] -> Forall is_digit ds ->
  strtol10 (render ds) = (decimal ds, EmptyString).
Proof.
  destruct ds as [|d ds]; [done|]. intros _ H. pose proof (Forall_inv H) as Hd.
  destruct (digit_render d Hd) as (Hdig & Hsp & Hm & Hp).
  pose proof (digits_render (d :: ds) 0 H) as Hv. fold (decimal (d :: ds)) in Hv.
  unfold strtol10. cbn [render skip_space] in *. rewrite Hsp. clear Hsp. revert Hdig Hm Hp Hv.
  generalize (render ds), (decimal (d :: ds)). intros r n.
  destruct (Ascii.ascii_of_nat (Z.to_nat (48 + d))) as [[] [] [] [] [] [] [] []];
    intros Hdig Hm Hp Hv; try done; cbv beta iota zeta; by rewrite Hdig, Hv.
Qed.

(** The port used is always a port: for a variable that holds decimal digits it
    is their value when that is between 1 and 65535, and the default otherwise; an
    unset, empty or malformed variable never gives anything out of range. *)
Theorem get_port_from_env_spec name d :
  1 <= d <= 65535 ->
  1 <= get_port_from_env name d <= 65535 /\
  (forall ds, ds <> [] -> Forall is_digit ds -> getenv name = Some (render ds) ->
    get_port_from_env name d =
    if (1 <=? decimal ds) && (decimal ds <=? 65535) then decimal ds else d).
Proof.
  intros Hd. split.
  - unfold get_port_from_env. destruct (getenv name) as [[|c v]|]; [done| |done].
    destruct (strtol10 (String c v)) as [p rest].
    destruct (negb _), (Z.ltb_spec p 1), (Z.ltb_spec 65535 p); try done. cbn [orb].
    rewrite u16_small; lia.
  - intros ds Hne Hds Hv. unfold get_port_from_env. rewrite Hv.
    pose proof (strtol10_render ds Hne Hds) as Hs. destruct ds as [|x ds]; [done|].
    cbn [render] in *. rewrite Hs. rewrite bool_decide_true by done. cbn [negb orb].
    generalize (decimal (x :: ds)). intros p.
    destruct (Z.leb_spec 1 p), (Z.leb_spec p 65535), (Z.ltb_spec p 1), (Z.ltb_spec 65535 p);
      try lia; try done. cbn [orb andb]. rewrite u16_small; lia.
Qed.

(** ** The life cycle *)
Inductive call := Start | Stop.
Definition run_call (c : call) (s : service) : service :=
  match c with Start => snd (upf_eap_relay_start s) | Stop => upf_eap_relay_stop s end.
Definition stopped : service := {| g_sock := None; g_running := false |}.

(** After any sequence of starts and stops, whatever failed in them, the service
    has its socket open exactly while its thread runs: no descriptor leaks and the
    thread never runs without one.  A start reports success exactly when the service
    runs afterwards, and a stop always leaves it stopped. *)
Theorem service_socket_invariant cs :
  let s := fold_right run_call stopped cs in
  (g_running s = true <-> g_sock s = Some tt) /\
  fst (upf_eap_relay_start s) = g_running (snd (upf_eap_relay_start s)) /\
  upf_eap_relay_stop s = stopped.
Proof.
  assert (Hs : forall s, g_running s = true <-> g_sock s = Some tt ->
    fst (upf_eap_relay_start s) = g_running (snd (upf_eap_relay_start s)) /\
    upf_eap_relay_stop s = stopped).
  { intros [sk []] H; [done|]. destruct sk as [[]|]; [discriminate (proj2 H eq_refl)|].
    unfold upf_eap_relay_start. split; [|done]. cbn [g_running]. by repeat destruct (negb _). }
  intros s. enough (H : g_running s = true <-> g_sock s = Some tt) by (split; [done|by apply Hs]).
  unfold s. clear s. induction cs as [|[] cs IH]; [done| |].
  - cbn [fold_right run_call]. revert IH. generalize (fold_right run_call stopped cs). intros [sk []] IH.
    + exact IH.
    + unfold upf_eap_relay_start. cbn [g_running]. by repeat destruct (negb _).
  - cbn [fold_right run_call]. by rewrite (proj2 (Hs _ IH)).
Qed.
End service.

(** ** A concrete environment: a server that signs a challenge *)
Module ToyRelay.
Definition serve (req : bytes) : bytes :=
  sign_reply (str "testing123") req RADIUS_CODE_ACCESS_CHALLENGE
    [(RADIUS_ATTR_STATE, [0x5a]); (RADIUS_ATTR_EAP_MESSAGE, [1; 2; 0; 4])].
#[local] Instance env : Env := {|
  getenv name := if String.eqb name "OPEN5GS_RADIUS_PORT" then Some "1645"%string else None;
  can_socket := true; can_bind _ _ := true; can_thread := true; inet_pton _ := true;
  deliver _ _ req := if bool_decide (bytes_ok (serve req)) then Some (Some (serve req)) else None;
  rand_state := Z; srand := 1;
  rand r := (r, (r * 1103515245 + 12345) mod 2147483648)
|}.
Definition g0 : relay_state := {| g_radius_identifier := 0; seeded := None |}.
Lemma env_ok : deliver_ok.
Proof.
  intros addr port req resp.
  change (deliver addr port req) with
    (if bool_decide (bytes_ok (serve req)) then Some (Some (serve req)) else None).
  destruct (bool_decide_reflect (bytes_ok (serve req))) as [H|]; intros [=]. by subst resp.
Qed.
Definition exchange : option (Z * bytes * bytes) * relay_state :=
  radius_exchange [0x61] None [2; 1; 0; 5; 1] 2048 8192 g0.
Lemma exchange_result : fst exchange = Some (2, [0x5a], [1; 2; 0; 4]).
Proof. vm_compute. reflexivity. Qed.
(** The datagram for user "a", no State, EAP response [2; 1; 0; 5; 1]. *)
Definition dgram : bytes :=
  be32 EAP_RELAY_MAGIC_REQ ++ [1; 0; 1; 0; 0; 0; 5; 0x61; 2; 1; 0; 5; 1].
End ToyRelay.

Lemma radius_exchange_iff_witness :
  exists req resp,
    radius_build_request (E := ToyRelay.env) [0x61] None [2; 1; 0; 5; 1]
      (relay_secret (E := ToyRelay.env)) 8192 ToyRelay.g0 = (Some req, snd ToyRelay.exchange) /\
    can_socket (Env := ToyRelay.env) = true /\
    inet_pton (Env := ToyRelay.env) (relay_server (E := ToyRelay.env)) = true /\
    deliver (Env := ToyRelay.env) (relay_server (E := ToyRelay.env))
      (relay_server_port (E := ToyRelay.env)) req = Some (Some resp) /\
    answered (E := ToyRelay.env) req resp 2 [0x5a] [1; 2; 0; 4] /\ zlen [0x5a] <= 2048 /\
    zlen [1; 2; 0; 4] <= 8192.
Proof.
  apply (proj1 (radius_exchange_iff (E := ToyRelay.env) [0x61] None [2; 1; 0; 5; 1] 2048 8192
    ToyRelay.g0 2 [0x5a] [1; 2; 0; 4] _ ToyRelay.env_ok ltac:(lia) ltac:(lia))).
  rewrite <-ToyRelay.exchange_result. apply surjective_pairing.
Defined.

Lemma relay_step_answers_witness :
  exists out g' buf',
    relay_step (E := ToyRelay.env) (zreplicate 8192 0) ToyRelay.dgram ToyRelay.g0 = (Ok out, (buf', g')) /\
    bytes_ok buf' /\ zlen buf' = 8192 /\ 10 <= zlen out <= 4086.
Proof.
  pose proof (relay_step_answers (E := ToyRelay.env) (zreplicate 8192 0) ToyRelay.dgram ToyRelay.g0
    ToyRelay.env_ok (bytes_ok_zreplicate 8192 0 ltac:(done))
    ltac:(apply (bool_decide_unpack _); vm_compute; exact I) (zlen_zreplicate 8192 0)) as H.
  destruct (relay_answer (E := ToyRelay.env) (ztake 8192 ToyRelay.dgram) ToyRelay.g0) as [out g'].
  destruct H as (buf' & H). by exists out, g', buf'.
Defined.

Lemma get_port_from_env_spec_witness :
  1 <= get_port_from_env (E := ToyRelay.env) "OPEN5GS_RADIUS_PORT" 1812 <= 65535 /\
  get_port_from_env (E := ToyRelay.env) "OPEN5GS_RADIUS_PORT" 1812 = 1645.
Proof.
  destruct (get_port_from_env_spec (E := ToyRelay.env) "OPEN5GS_RADIUS_PORT" 1812 ltac:(lia))
    as [H1 H2].
  split; [exact H1|].
  rewrite (H2 [1; 6; 4; 5] ltac:(done) ltac:(by repeat constructor) ltac:(reflexivity)).
  reflexivity.
Defined.

(** The relay evaluated on that datagram: a challenge with the server's State and
    EAP message. *)
Example relay_on_toy :
  fst (relay_answer (E := ToyRelay.env) ToyRelay.dgram ToyRelay.g0) =
  relay_reply 2 [0x5a] [1; 2; 0; 4].
Proof. vm_compute. reflexivity. Qed.
