(* ===== verification/Nas5gs.v ===== *)
(** * Nas5gs: the NAS messages that carry EAP, open5gs/lib/nas/5gs

    PDU Session Authentication Command, Complete and Result: the encoders of
    encoder.c and ies.c, the decoders of decoder.c, and their round trip.  The
    other 5GSM messages are not modelled; [Other] stands for them. *)
From stdpp Require Import base numbers list option strings.
From Stdlib Require Import ZArith Lia.
From S2P Require Import Prelude.
Local Open Scope c_scope.

Definition OGS_NAS_EXTENDED_PROTOCOL_DISCRIMINATOR_5GSM : Z := 0x2e.
Definition OGS_NAS_5GS_PDU_SESSION_AUTHENTICATION_COMMAND : Z := 197.
Definition OGS_NAS_5GS_PDU_SESSION_AUTHENTICATION_COMPLETE : Z := 198.
Definition OGS_NAS_5GS_PDU_SESSION_AUTHENTICATION_RESULT : Z := 199.
Definition RESULT_EAP_MESSAGE_TYPE : Z := 0x78.
Definition EXTENDED_PROTOCOL_CONFIGURATION_OPTIONS_TYPE : Z := 0x7B.

Definition OGS_MAX_SDU_LEN : Z := 32768.
Definition OGS_NAS_HEADROOM : Z := 16.

(** The header without its last byte, which the body's constructor determines. *)
Record gsm_header := {
  extended_protocol_discriminator : Z;
  pdu_session_identity : Z;
  procedure_transaction_identity : Z
}.

(** The optional fields are present when [Some]. *)
Inductive gsm_body :=
  | AuthCommand (eap_message : bytes) (epco : option bytes)
  | AuthComplete (eap_message : bytes) (epco : option bytes)
  | AuthResult (eap_message : option bytes) (epco : option bytes)
  | Other (message_type : Z) (rest : bytes).
Record gsm_message := { gsm_h : gsm_header; gsm_b : gsm_body }.

#[export] Instance gsm_body_eq_dec : EqDecision gsm_body.
Proof. solve_decision. Defined.

(** ** Encoding: [ogs_pkbuf_pull] makes room, [ogs_assert] aborts without *)

(** The state is what was written so far. *)
Definition pkbuf_write (bs : bytes) : M bytes unit := fun out =>
  if OGS_MAX_SDU_LEN - OGS_NAS_HEADROOM <? zlen out + zlen bs then (Fault, out)
  else (Ok tt, out ++ bs).

Definition ogs_nas_5gs_encode_optional_type (type : Z) : M bytes unit := pkbuf_write [type].

Definition ogs_nas_5gs_encode_eap_message (eap : bytes) : M bytes unit :=
  pkbuf_write (be16 (u16 (zlen eap)));;;
  pkbuf_write eap.
Definition ogs_nas_5gs_encode_extended_protocol_configuration_options (epco : bytes)
    : M bytes unit :=
  pkbuf_write (be16 (u16 (zlen epco)));;;
  pkbuf_write epco.

Definition encode_optional (type : Z) (enc : bytes -> M bytes unit) (v : option bytes)
    : M bytes unit :=
  match v with
  | None => ret tt
  | Some v => ogs_nas_5gs_encode_optional_type type;;; enc v
  end.
Definition encode_epco : option bytes -> M bytes unit :=
  encode_optional EXTENDED_PROTOCOL_CONFIGURATION_OPTIONS_TYPE
    ogs_nas_5gs_encode_extended_protocol_configuration_options.

Definition ogs_nas_5gs_encode_pdu_session_authentication_command (eap : bytes) (epco : option bytes)
    : M bytes unit :=
  ogs_nas_5gs_encode_eap_message eap;;;
  encode_epco epco.
Definition ogs_nas_5gs_encode_pdu_session_authentication_complete (eap : bytes) (epco : option bytes)
    : M bytes unit :=
  ogs_nas_5gs_encode_eap_message eap;;;
  encode_epco epco.
Definition ogs_nas_5gs_encode_pdu_session_authentication_result (eap epco : option bytes)
    : M bytes unit :=
  encode_optional RESULT_EAP_MESSAGE_TYPE ogs_nas_5gs_encode_eap_message eap;;;
  encode_epco epco.

Definition body_type (b : gsm_body) : Z :=
  match b with
  | AuthCommand _ _ => OGS_NAS_5GS_PDU_SESSION_AUTHENTICATION_COMMAND
  | AuthComplete _ _ => OGS_NAS_5GS_PDU_SESSION_AUTHENTICATION_COMPLETE
  | AuthResult _ _ => OGS_NAS_5GS_PDU_SESSION_AUTHENTICATION_RESULT
  | Other t _ => t
  end.

(** [None] is the null pointer; [alloc] tells whether [ogs_pkbuf_alloc] succeeds. *)
Definition ogs_nas_5gsm_encode (alloc : bool) (m : gsm_message) : res (option bytes) :=
  if negb alloc then Ok None
  else
    let h := gsm_h m in
    let write :=
      pkbuf_write [extended_protocol_discriminator h; pdu_session_identity h;
                   procedure_transaction_identity h; body_type (gsm_b m)];;;
      match gsm_b m with
      | AuthCommand eap epco => ogs_nas_5gs_encode_pdu_session_authentication_command eap epco
      | AuthComplete eap epco => ogs_nas_5gs_encode_pdu_session_authentication_complete eap epco
      | AuthResult eap epco => ogs_nas_5gs_encode_pdu_session_authentication_result eap epco
      | Other _ rest => pkbuf_write rest
      end in
    match write [] with
    | (Ok _, out) => Ok (Some out)
    | (Err rc, _) => Err rc
    | (Fault, _) => Fault
    end.

(** ** Decoding *)

(** A length-value field: the value and the bytes after it, or [None] for [-1]. *)
Definition ogs_nas_5gs_decode_eap_message (data : bytes) : option (bytes * bytes) :=
  if zlen data <? 2 then None
  else
    let length := rd16 (byte_at data 0) (byte_at data 1) in
    if zlen data <? length + 2 then None
    else Some (sub data 2 length, zdrop (length + 2) data).
Definition ogs_nas_5gs_decode_extended_protocol_configuration_options (data : bytes)
    : option (bytes * bytes) :=
  if zlen data <? 2 then None
  else
    let length := rd16 (byte_at data 0) (byte_at data 1) in
    if zlen data <? length + 2 then None
    else Some (sub data 2 length, zdrop (length + 2) data).

Definition ie_type (b : Z) : Z := if 0x80 <=? b then Z.land b 0xf0 else b.

(** The loops over optional fields: the fields found, or the error code. *)
Fixpoint decode_epco_loop (n : nat) (data : bytes) (epco : option bytes) : res (option bytes) :=
  match n, data with
  | S n, b :: data =>
      if ie_type b =? EXTENDED_PROTOCOL_CONFIGURATION_OPTIONS_TYPE then
        match ogs_nas_5gs_decode_extended_protocol_configuration_options data with
        | None => Err (-1)
        | Some (v, data) => decode_epco_loop n data (Some v)
        end
      else decode_epco_loop n data epco
  | _, _ => Ok epco
  end.

Fixpoint decode_result_loop (n : nat) (data : bytes) (eap epco : option bytes)
    : res (option bytes * option bytes) :=
  match n, data with
  | S n, b :: data =>
      if ie_type b =? RESULT_EAP_MESSAGE_TYPE then
        match ogs_nas_5gs_decode_eap_message data with
        | None => Err (-1)
        | Some (v, data) => decode_result_loop n data (Some v) epco
        end
      else if ie_type b =? EXTENDED_PROTOCOL_CONFIGURATION_OPTIONS_TYPE then
        match ogs_nas_5gs_decode_extended_protocol_configuration_options data with
        | None => Err (-1)
        | Some (v, data) => decode_result_loop n data eap (Some v)
        end
      else decode_result_loop n data eap epco
  | _, _ => Ok (eap, epco)
  end.

Definition res_map {A B} (f : A -> B) (r : res A) : res B :=
  match r with Ok a => Ok (f a) | Err rc => Err rc | Fault => Fault end.

Definition ogs_nas_5gs_decode_pdu_session_authentication_command (data : bytes) : res gsm_body :=
  match ogs_nas_5gs_decode_eap_message data with
  | None => Err (-1)
  | Some (eap, data) => res_map (AuthCommand eap) (decode_epco_loop (length data) data None)
  end.
Definition ogs_nas_5gs_decode_pdu_session_authentication_complete (data : bytes) : res gsm_body :=
  match ogs_nas_5gs_decode_eap_message data with
  | None => Err (-1)
  | Some (eap, data) => res_map (AuthComplete eap) (decode_epco_loop (length data) data None)
  end.
Definition ogs_nas_5gs_decode_pdu_session_authentication_result (data : bytes) : res gsm_body :=
  res_map (fun '(eap, epco) => AuthResult eap epco) (decode_result_loop (length data) data None None).

Definition ogs_nas_5gsm_decode (data : bytes) : res gsm_message :=
  if zlen data <? 4 then Err (-1)
  else
    let h := {| extended_protocol_discriminator := byte_at data 0;
                pdu_session_identity := byte_at data 1;
                procedure_transaction_identity := byte_at data 2 |} in
    let t := byte_at data 3 in
    let data := zdrop 4 data in
    res_map (fun b => {| gsm_h := h; gsm_b := b |})
      (if t =? OGS_NAS_5GS_PDU_SESSION_AUTHENTICATION_COMMAND
       then ogs_nas_5gs_decode_pdu_session_authentication_command data
       else if t =? OGS_NAS_5GS_PDU_SESSION_AUTHENTICATION_COMPLETE
       then ogs_nas_5gs_decode_pdu_session_authentication_complete data
       else if t =? OGS_NAS_5GS_PDU_SESSION_AUTHENTICATION_RESULT
       then ogs_nas_5gs_decode_pdu_session_authentication_result data
       else Ok (Other t data)).

(** ** Round trip *)
Definition opt_len (v : option bytes) : Z := match v with Some v => 3 + zlen v | None => 0 end.
Definition opt_bytes (t : Z) (v : option bytes) : bytes :=
  match v with Some v => t :: be16 (zlen v) ++ v | None => [] end.
Definition body_bytes (b : gsm_body) : bytes :=
  match b with
  | AuthCommand eap epco | AuthComplete eap epco =>
      be16 (zlen eap) ++ eap ++ opt_bytes EXTENDED_PROTOCOL_CONFIGURATION_OPTIONS_TYPE epco
  | AuthResult eap epco =>
      opt_bytes RESULT_EAP_MESSAGE_TYPE eap ++
      opt_bytes EXTENDED_PROTOCOL_CONFIGURATION_OPTIONS_TYPE epco
  | Other _ rest => rest
  end.
Definition message_bytes (m : gsm_message) : bytes :=
  [extended_protocol_discriminator (gsm_h m); pdu_session_identity (gsm_h m);
   procedure_transaction_identity (gsm_h m); body_type (gsm_b m)] ++ body_bytes (gsm_b m).

Lemma zlen_opt_bytes t v : zlen (opt_bytes t v) = opt_len v.
Proof. destruct v; [|done]. cbn [opt_bytes opt_len]. rewrite zlen_cons, zlen_app, zlen_be16. lia. Qed.

Lemma opt_len_nonneg v : 0 <= opt_len v.
Proof. rewrite <-(zlen_opt_bytes 0). apply zlen_nonneg. Qed.

(** Writing appends, when there is room: 32752 bytes in all. *)
Lemma write_ok bs out :
  zlen out + zlen bs <= 32752 -> pkbuf_write bs out = (Ok tt, out ++ bs).
Proof. intros H. unfold pkbuf_write. change (OGS_MAX_SDU_LEN - OGS_NAS_HEADROOM) with 32752. by rewrite (proj2 (Z.ltb_ge _ _) H). Qed.

Lemma write_bind bs (k : unit -> M bytes unit) out :
  zlen out + zlen bs <= 32752 -> bind (pkbuf_write bs) k out = k tt (out ++ bs).
Proof. intros H. unfold bind. by rewrite write_ok. Qed.

Lemma encode_eap_ok v out :
  zlen out + 2 + zlen v <= 32752 ->
  ogs_nas_5gs_encode_eap_message v out = (Ok tt, out ++ be16 (zlen v) ++ v).
Proof.
  intros H. pose proof (zlen_nonneg out). pose proof (zlen_nonneg v).
  unfold ogs_nas_5gs_encode_eap_message. rewrite u16_small by lia.
  rewrite write_bind by (rewrite zlen_be16; lia). rewrite write_ok by (rewrite zlen_app, zlen_be16; lia).
  by rewrite app_assoc.
Qed.

Lemma encode_optional_ok t v out :
  zlen out + opt_len v <= 32752 ->
  encode_optional t ogs_nas_5gs_encode_eap_message v out = (Ok tt, out ++ opt_bytes t v).
Proof.
  intros H. destruct v as [v|]; cbn [opt_len encode_optional opt_bytes] in *; [|by rewrite app_nil_r].
  pose proof (zlen_nonneg v). unfold ogs_nas_5gs_encode_optional_type.
  rewrite write_bind by (rewrite zlen_cons, zlen_nil; lia).
  rewrite encode_eap_ok by (rewrite zlen_app, zlen_cons, zlen_nil; lia).
  by rewrite <-app_assoc.
Qed.

Lemma encode_ok m :
  zlen (message_bytes m) <= 32752 ->
  ogs_nas_5gsm_encode true m = Ok (Some (message_bytes m)).
Proof.
  intros H. unfold message_bytes in *. rewrite zlen_app in H. change (zlen [_; _; _; _]) with 4 in H.
  unfold ogs_nas_5gsm_encode. cbn [negb]. set (hd := [_; _; _; _]) in *.
  assert (Hhd : zlen hd = 4) by done.
  pose proof (zlen_nonneg (body_bytes (gsm_b m))).
  rewrite write_bind by (rewrite zlen_nil; lia). rewrite app_nil_l.
  destruct (gsm_b m) as [eap epco|eap epco|eap epco|t rest]; cbn [body_bytes] in *;
    rewrite ?zlen_app, ?zlen_be16, ?zlen_opt_bytes in H.
  - unfold ogs_nas_5gs_encode_pdu_session_authentication_command, bind, encode_epco.
    pose proof (zlen_nonneg eap). pose proof (opt_len_nonneg epco).
    rewrite encode_eap_ok by lia. change ogs_nas_5gs_encode_extended_protocol_configuration_options
      with ogs_nas_5gs_encode_eap_message.
    rewrite encode_optional_ok by (rewrite !zlen_app, zlen_be16; lia). by rewrite <-!app_assoc.
  - unfold ogs_nas_5gs_encode_pdu_session_authentication_complete, bind, encode_epco.
    pose proof (zlen_nonneg eap). pose proof (opt_len_nonneg epco).
    rewrite encode_eap_ok by lia. change ogs_nas_5gs_encode_extended_protocol_configuration_options
      with ogs_nas_5gs_encode_eap_message.
    rewrite encode_optional_ok by (rewrite !zlen_app, zlen_be16; lia). by rewrite <-!app_assoc.
  - unfold ogs_nas_5gs_encode_pdu_session_authentication_result, bind, encode_epco.
    pose proof (opt_len_nonneg epco).
    rewrite encode_optional_ok by lia. change ogs_nas_5gs_encode_extended_protocol_configuration_options
      with ogs_nas_5gs_encode_eap_message.
    rewrite encode_optional_ok by (rewrite !zlen_app, zlen_opt_bytes; lia). by rewrite <-!app_assoc.
  - by rewrite write_ok by lia.
Qed.

Lemma decode_lv v rest :
  zlen v < 65536 -> ogs_nas_5gs_decode_eap_message (be16 (zlen v) ++ v ++ rest) = Some (v, rest).
Proof.
  intros H. pose proof (zlen_nonneg v). pose proof (zlen_nonneg rest).
  unfold ogs_nas_5gs_decode_eap_message. rewrite !zlen_app, zlen_be16.
  destruct (Z.ltb_spec (2 + (zlen v + zlen rest)) 2); [lia|].
  change (rd16 (byte_at (be16 (zlen v) ++ v ++ rest) 0) (byte_at (be16 (zlen v) ++ v ++ rest) 1))
    with (rd16 (u8 (zlen v / 256)) (u8 (zlen v))).
  rewrite rd16_be16 by lia. destruct (Z.ltb_spec (2 + (zlen v + zlen rest)) (zlen v + 2)); [lia|].
  f_equal. f_equal.
  - rewrite sub_app_r by (rewrite zlen_be16; lia). by apply sub_app_exact.
  - rewrite app_assoc. apply zdrop_app_exact. rewrite zlen_app, zlen_be16. lia.
Qed.

Lemma decode_epco_opt v :
  opt_len v < 65536 ->
  decode_epco_loop (length (opt_bytes EXTENDED_PROTOCOL_CONFIGURATION_OPTIONS_TYPE v))
    (opt_bytes EXTENDED_PROTOCOL_CONFIGURATION_OPTIONS_TYPE v) None = Ok v.
Proof.
  intros H. destruct v as [v|]; [|done]. cbn [opt_bytes length decode_epco_loop opt_len] in *.
  change (ie_type EXTENDED_PROTOCOL_CONFIGURATION_OPTIONS_TYPE =? _) with true. cbv iota.
  change ogs_nas_5gs_decode_extended_protocol_configuration_options with ogs_nas_5gs_decode_eap_message.
  pose proof (decode_lv v [] ltac:(lia)) as E. rewrite app_nil_r in E. rewrite E.
  by destruct (length _).
Qed.

Lemma decode_result_opts eap epco :
  opt_len eap < 65536 -> opt_len epco < 65536 ->
  let data := body_bytes (AuthResult eap epco) in
  decode_result_loop (length data) data None None = Ok (eap, epco).
Proof.
  intros He Hp. cbn [body_bytes]. cbv zeta.
  assert (Hepco : forall n e, (length (opt_bytes EXTENDED_PROTOCOL_CONFIGURATION_OPTIONS_TYPE epco) <= n)%nat ->
    decode_result_loop n (opt_bytes EXTENDED_PROTOCOL_CONFIGURATION_OPTIONS_TYPE epco) e None = Ok (e, epco)).
  { intros n e Hn. destruct epco as [v|]; [|by destruct n]. cbn [opt_bytes opt_len length] in *.
    destruct n as [|n]; [lia|]. cbn [decode_result_loop].
    change (ie_type EXTENDED_PROTOCOL_CONFIGURATION_OPTIONS_TYPE =? RESULT_EAP_MESSAGE_TYPE) with false.
    change (ie_type EXTENDED_PROTOCOL_CONFIGURATION_OPTIONS_TYPE =? _) with true. cbv iota.
    change ogs_nas_5gs_decode_extended_protocol_configuration_options with ogs_nas_5gs_decode_eap_message.
    pose proof (decode_lv v [] ltac:(lia)) as E. rewrite app_nil_r in E. rewrite E. by destruct n. }
  destruct eap as [v|]; [|by apply Hepco]. cbn [opt_bytes opt_len app length decode_result_loop] in *.
  change (ie_type RESULT_EAP_MESSAGE_TYPE =? RESULT_EAP_MESSAGE_TYPE) with true. cbv iota.
  rewrite <-app_assoc, decode_lv by lia. apply Hepco. rewrite !length_app. lia.
Qed.

(** C27: what the encoder makes of a PDU Session Authentication Command, Complete or
    Result that fits the buffer, the decoder reads back as the same message: header,
    EAP message (also an empty one), and the optional fields exactly where they
    were present. *)
Theorem gsm_roundtrip m :
  zlen (message_bytes m) <= OGS_MAX_SDU_LEN - OGS_NAS_HEADROOM ->
  match gsm_b m with Other _ _ => False | _ => True end ->
  exists out, ogs_nas_5gsm_encode true m = Ok (Some out) /\ ogs_nas_5gsm_decode out = Ok m.
Proof.
  intros H Hb. exists (message_bytes m). split; [by apply encode_ok|].
  change (OGS_MAX_SDU_LEN - OGS_NAS_HEADROOM) with 32752 in H.
  unfold message_bytes in H. rewrite zlen_app in H. change (zlen [_; _; _; _]) with 4 in H.
  unfold ogs_nas_5gsm_decode, message_bytes. rewrite zlen_app. change (zlen [_; _; _; _]) with 4.
  pose proof (zlen_nonneg (body_bytes (gsm_b m))).
  destruct (Z.ltb_spec (4 + zlen (body_bytes (gsm_b m))) 4); [lia|].
  destruct m as [[d p t] b]. cbn [gsm_h gsm_b] in *.
  rewrite zdrop_app_exact by done.
  change (byte_at ([d; p; t; body_type b] ++ body_bytes b) 3) with (body_type b).
  destruct b as [eap epco|eap epco|eap epco|]; [| | |done];
    cbn [body_bytes] in H; rewrite ?zlen_app, ?zlen_be16, ?zlen_opt_bytes in H.
  - change (body_type _ =? _) with true. cbv iota.
    unfold ogs_nas_5gs_decode_pdu_session_authentication_command. cbn [body_bytes].
    pose proof (zlen_nonneg eap). pose proof (opt_len_nonneg epco).
    rewrite decode_lv, decode_epco_opt by lia. reflexivity.
  - change (body_type _ =? OGS_NAS_5GS_PDU_SESSION_AUTHENTICATION_COMMAND) with false.
    change (body_type _ =? _) with true. cbv iota.
    unfold ogs_nas_5gs_decode_pdu_session_authentication_complete. cbn [body_bytes].
    pose proof (zlen_nonneg eap). pose proof (opt_len_nonneg epco).
    rewrite decode_lv, decode_epco_opt by lia. reflexivity.
  - change (body_type _ =? OGS_NAS_5GS_PDU_SESSION_AUTHENTICATION_COMMAND) with false.
    change (body_type _ =? OGS_NAS_5GS_PDU_SESSION_AUTHENTICATION_COMPLETE) with false.
    change (body_type _ =? _) with true. cbv iota.
    pose proof (opt_len_nonneg epco).
    pose proof (opt_len_nonneg eap).
    unfold ogs_nas_5gs_decode_pdu_session_authentication_result.
    by rewrite decode_result_opts by lia.
Qed.

Lemma gsm_roundtrip_witness :
  let m := {| gsm_h := {| extended_protocol_discriminator := 0x2e; pdu_session_identity := 1;
                          procedure_transaction_identity := 0 |};
              gsm_b := AuthResult (Some [3; 9; 0; 4]) None |} in
  exists out, ogs_nas_5gsm_encode true m = Ok (Some out) /\ ogs_nas_5gsm_decode out = Ok m.
Proof.
  apply (gsm_roundtrip {| gsm_h := {| extended_protocol_discriminator := 0x2e;
    pdu_session_identity := 1; procedure_transaction_identity := 0 |};
    gsm_b := AuthResult (Some [3; 9; 0; 4]) None |}); [by vm_compute|exact I].
Defined.
