(* ===== verification/SmfSecAuth.v ===== *)
(** * SmfSecAuth: secondary authentication in the SMF

    open5gs/src/smf/radius-client.c (the datagram to the relay and its answer),
    gsm-build.c (the two NAS messages sent) and gsm-sm.c (the session's
    secondary-authentication state and the events that move it). *)
From stdpp Require Import base numbers list option strings.
From Stdlib Require Import ZArith Lia.
From S2P Require Import Prelude EapRelay Nas5gs.
Local Open Scope c_scope.

Module RadiusClient.
Definition EAP_RELAY_MAGIC_REQ : Z := 0xE5E5DEAD.
Definition EAP_RELAY_MAGIC_RESP : Z := 0xE5E5BEEF.
Definition EAP_RELAY_VERSION : Z := 1.
Definition EAP_RELAY_DEFAULT_ADDR : string := "127.0.0.1".
Definition EAP_RELAY_DEFAULT_PORT : Z := 3870.
Definition EAP_RELAY_MAX_USER_LEN : Z := 255.
Definition EAP_RELAY_MAX_STATE_LEN : Z := 2048.
Definition EAP_RELAY_MAX_EAP_LEN : Z := 8192.

(** The file has its own copy of the relay's function. *)
Definition get_port_from_env `{E : Env} (name : string) (default_port : Z) : Z :=
  match getenv name with
  | None | Some EmptyString => default_port
  | Some v =>
      let '(p, rest) := strtol10 v in
      if negb (bool_decide (rest = EmptyString)) || (p <? 1) || (65535 <? p)
      then default_port else u16 p
  end.

Definition OGS_ERROR : Z := -1.

(** The datagram received, [None] when there was none within two seconds. *)
Definition read_response (resp : option bytes) (out_state_cap out_eap_cap : Z)
    : res (Z * bytes * bytes) :=
  match resp with
  | None => Err OGS_ERROR
  | Some resp =>
      let resp := ztake 16384 resp in
      if zlen resp <? 10 then Err OGS_ERROR
      else if negb (rd32 (byte_at resp 0) (byte_at resp 1) (byte_at resp 2) (byte_at resp 3)
                    =? EAP_RELAY_MAGIC_RESP) then Err OGS_ERROR
      else if negb (byte_at resp 4 =? EAP_RELAY_VERSION) then Err OGS_ERROR
      else
        let out_result := byte_at resp 5 in
        let out_state_len := rd16 (byte_at resp 6) (byte_at resp 7) in
        let out_eap_len := rd16 (byte_at resp 8) (byte_at resp 9) in
        let pos := 10 in
        if zlen resp <? pos + out_state_len + out_eap_len then Err OGS_ERROR
        else if (out_state_cap <? out_state_len) || (out_eap_cap <? out_eap_len)
        then Err OGS_ERROR
        else Ok (out_result, sub resp pos out_state_len,
                 sub resp (pos + out_state_len) out_eap_len)
  end.

(** [Ok] is [OGS_OK] with the result, the State and the EAP message written to the
    out parameters; the request is assembled in 16384 bytes. *)
Definition smf_eap_relay_exchange `{E : Env} (username state eap : bytes)
    (out_state_cap out_eap_cap : Z) : res (Z * bytes * bytes) :=
  let relay_addr := env_or (getenv "OPEN5GS_EAP_RELAY_ADDR") EAP_RELAY_DEFAULT_ADDR in
  let relay_port := get_port_from_env "OPEN5GS_EAP_RELAY_PORT" EAP_RELAY_DEFAULT_PORT in
  if EAP_RELAY_MAX_USER_LEN <? zlen username then Err OGS_ERROR
  else
    let uname_len := u8 (zlen username) in
    if (EAP_RELAY_MAX_STATE_LEN <? zlen state) || (EAP_RELAY_MAX_EAP_LEN <? zlen eap)
    then Err OGS_ERROR
    else if negb can_socket then Err OGS_ERROR
    else if negb (inet_pton relay_addr) then Err OGS_ERROR
    else
      let req := be32 EAP_RELAY_MAGIC_REQ ++ [EAP_RELAY_VERSION; 0; uname_len] ++
                 be16 (u16 (zlen state)) ++ be16 (u16 (zlen eap)) ++
                 ztake uname_len username ++ state ++ eap in
      if 16384 <? zlen req then Fault
      else
        match deliver relay_addr relay_port req with
        | None => Err OGS_ERROR
        | Some resp => read_response resp out_state_cap out_eap_cap
        end.
End RadiusClient.

Module SecAuth.
Definition SMF_EAP_RELAY_RESULT_ACCEPT : Z := 0.
Definition SMF_EAP_RELAY_RESULT_REJECT : Z := 1.
Definition SMF_EAP_RELAY_RESULT_CHALLENGE : Z := 2.
Definition SMF_EAP_RELAY_RESULT_ERROR : Z := 3.
Definition SMF_SEC_AUTH_EAP_MAX : Z := 8192.
Definition SMF_SEC_AUTH_STATE_MAX : Z := 4096.
Definition OGS_MAX_IMSI_BCD_LEN : Z := 15.
Definition UINT16_MAX : Z := 65535.

(** The part of [smf_sess_t] and [smf_ue_t] in play: the State is kept as the
    first [state_len] bytes of its array.  [t_start] tells whether the one-shot
    timer is running, [queue] counts its events not yet handled, [n1] collects the
    messages given to the AMF. *)
Record smf_sess_t := {
  supi : bytes;
  psi : Z;
  pti : Z;
  in_progress : bool;
  eap_id : Z;
  state : bytes;
  t_start : bool;
  queue : nat;
  n1 : list bytes
}.
Definition eta_sess (s : smf_sess_t) : smf_sess_t := {|
  supi := supi s; psi := psi s; pti := pti s; in_progress := in_progress s; eap_id := eap_id s;
  state := state s; t_start := t_start s; queue := queue s; n1 := n1 s |}.
Definition set_in_progress (v : bool) s : smf_sess_t := ltac:(derive_set eta_sess in_progress v s).
Definition set_eap_id (v : Z) s : smf_sess_t := ltac:(derive_set eta_sess eap_id v s).
Definition set_state (v : bytes) s : smf_sess_t := ltac:(derive_set eta_sess state v s).
Definition set_t_start (v : bool) s : smf_sess_t := ltac:(derive_set eta_sess t_start v s).
Definition set_queue (v : nat) s : smf_sess_t := ltac:(derive_set eta_sess queue v s).
Definition set_n1 (v : list bytes) s : smf_sess_t := ltac:(derive_set eta_sess n1 v s).

Section secauth.
Context `{E : Env}.
(** Whether the packet buffers are to be had. *)
Variable alloc : bool.

(** [ogs_assert] *)
Definition ogs_assert (b : bool) : M smf_sess_t unit := if b then ret tt else crash.

Definition gsm_header_of (s : smf_sess_t) : gsm_header := {|
  extended_protocol_discriminator := OGS_NAS_EXTENDED_PROTOCOL_DISCRIMINATOR_5GSM;
  pdu_session_identity := psi s;
  procedure_transaction_identity := pti s |}.

Definition gsm_build_pdu_session_authentication_command (eap : bytes)
    : M smf_sess_t (option bytes) := fun s =>
  if negb (0 <? zlen eap) then (Fault, s)
  else (ogs_nas_5gsm_encode alloc {| gsm_h := gsm_header_of s; gsm_b := AuthCommand eap None |}, s).

Definition gsm_build_pdu_session_authentication_result (eap : option bytes)
    : M smf_sess_t (option bytes) := fun s =>
  let eap := match eap with Some v => if 0 <? zlen v then Some v else None | None => None end in
  (ogs_nas_5gsm_encode alloc {| gsm_h := gsm_header_of s; gsm_b := AuthResult eap None |}, s).

Definition smf_namf_comm_send_n1_n2_message_transfer (n1smbuf : bytes) : M smf_sess_t unit :=
  modify (fun s => set_n1 (n1 s ++ [n1smbuf]) s).

Definition smf_send_secondary_auth_command (eap : bytes) : M smf_sess_t unit :=
  ogs_assert ((0 <? zlen eap) && (zlen eap <=? UINT16_MAX));;;
  let! n1smbuf := gsm_build_pdu_session_authentication_command eap in
  match n1smbuf with
  | None => ret tt
  | Some b => smf_namf_comm_send_n1_n2_message_transfer b
  end.

Definition smf_send_secondary_auth_result (eap : option bytes) : M smf_sess_t unit :=
  ogs_assert (zlen (default [] eap) <=? UINT16_MAX);;;
  let! n1smbuf := gsm_build_pdu_session_authentication_result eap in
  match n1smbuf with
  | None => ret tt
  | Some b => smf_namf_comm_send_n1_n2_message_transfer b
  end.

(** The end of a procedure. *)
Definition finish (eap : option bytes) : M smf_sess_t unit :=
  smf_send_secondary_auth_result eap;;;
  modify (set_in_progress false);;;
  modify (set_state []).

Definition smf_sec_auth_relay_and_deliver (eap_in : bytes) : M smf_sess_t unit :=
  let! st := gets state in
  let! name := gets supi in
  match RadiusClient.smf_eap_relay_exchange name st eap_in
          SMF_SEC_AUTH_STATE_MAX SMF_SEC_AUTH_EAP_MAX with
  | Fault => crash
  | Err _ => finish None
  | Ok (out_result, out_state, out_eap) =>
      if SMF_SEC_AUTH_STATE_MAX <? zlen out_state then finish None
      else
        modify (set_state out_state);;;
        if out_result =? SMF_EAP_RELAY_RESULT_CHALLENGE then
          if zlen out_eap =? 0 then finish None
          else smf_send_secondary_auth_command out_eap
        else if out_result =? SMF_EAP_RELAY_RESULT_ACCEPT then finish (Some out_eap)
        else if out_result =? SMF_EAP_RELAY_RESULT_REJECT then finish (Some out_eap)
        else finish None
  end.

(** The EAP-Response/Identity that starts the conversation, in an array of 26
    bytes. *)
Definition eap_identity (s : smf_sess_t) : bytes :=
  let cap := 5 + OGS_MAX_IMSI_BCD_LEN + 6 in
  let id_len := if cap - 5 <? zlen (supi s) then cap - 5 else zlen (supi s) in
  let eap_total := u16 (5 + id_len) in
  [2; eap_id s; u8 (Z.shiftr eap_total 8); u8 (Z.land eap_total 0xff); 1] ++ ztake id_len (supi s).

Definition smf_start_secondary_auth : M smf_sess_t unit :=
  let! busy := gets in_progress in
  if busy then ret tt
  else
    modify (set_in_progress true);;;
    modify (set_state []);;;
    modify (set_eap_id 1);;;
    let! eap := gets eap_identity in
    smf_sec_auth_relay_and_deliver eap.

Definition smf_handle_secondary_auth_complete (eap_message : bytes) : M smf_sess_t unit :=
  if zlen eap_message =? 0 then finish None
  else smf_sec_auth_relay_and_deliver eap_message.

(** The three events of [smf_gsm_state_operational] that concern secondary
    authentication, and the timer's expiry. *)
Inductive event :=
  | SetupResponse            (* PDU_RES_SETUP_RSP, handled without error *)
  | TimerExpiry              (* smf_timer_sec_auth_start: posts the event *)
  | SecAuthStart             (* SMF_TIMER_SEC_AUTH_START taken from the queue *)
  | AuthenticationComplete (eap_message : bytes).

Definition smf_gsm_state_operational (e : event) : M smf_sess_t unit :=
  match e with
  | SetupResponse => modify (fun s => if in_progress s then s else set_t_start true s)
  | TimerExpiry => modify (fun s =>
      if t_start s then set_queue (S (queue s)) (set_t_start false s) else s)
  | SecAuthStart =>
      let! q := gets queue in
      match q with
      | O => ret tt
      | S q => modify (set_queue q);;; smf_start_secondary_auth
      end
  | AuthenticationComplete eap => smf_handle_secondary_auth_complete eap
  end.
End secauth.
End SecAuth.
