(* ===== verification/SmfFacts.v ===== *)
(** * SmfFacts: the SMF against its specification, and the chain to the server

    [smf_eap_relay_exchange] composed with the UPF's relay is the relay's RADIUS
    exchange; the session's event handlers refine a two-state conversation. *)
From stdpp Require Import base numbers list option strings.
From Stdlib Require Import ZArith Lia.
From S2P Require Import Prelude Md5 RadiusAttr EapRelay RelayFacts RelayAuth RelayClient.
From S2P Require Import RelayService Nas5gs SmfSecAuth.
Import RadiusClient SecAuth.

(** ** The two ends of the relay protocol *)
Lemma zlen_relay_reply r st e : zlen (relay_reply r st e) = 10 + zlen st + zlen e.
Proof.
  unfold relay_reply. rewrite !zlen_app, !zlen_be16, zlen_be32.
  change (zlen [EapRelay.EAP_RELAY_VERSION; r]) with 2. lia.
Qed.

(** The request datagram. *)
Definition relay_datagram (username state eap : bytes) : bytes :=
  be32 RadiusClient.EAP_RELAY_MAGIC_REQ ++
  [RadiusClient.EAP_RELAY_VERSION; 0; zlen username] ++
  be16 (zlen state) ++ be16 (zlen eap) ++ username ++ state ++ eap.

Lemma zlen_relay_datagram u s m : zlen (relay_datagram u s m) = 11 + zlen u + zlen s + zlen m.
Proof.
  unfold relay_datagram. rewrite !zlen_app, !zlen_be16, zlen_be32.
  change (zlen [RadiusClient.EAP_RELAY_VERSION; 0; zlen u]) with 3. lia.
Qed.

Lemma c_string_clean u : Forall (fun b => b <> 0) u -> c_string u = u.
Proof.
  induction 1 as [|b u Hb _ IH]; [done|]. cbn. apply Z.eqb_neq in Hb. by rewrite Hb, IH.
Qed.

(** The relay reads back what the SMF wrote, if it got it whole. *)
Lemma relay_request_datagram u s m :
  zlen u < 256 -> zlen s < 65536 -> zlen m < 65536 -> Forall (fun b => b <> 0) u ->
  relay_request (relay_datagram u s m) = Some (u, s, m).
Proof.
  intros Hu Hs Hm Hz. zlen_pos. unfold relay_request. rewrite zlen_relay_datagram.
  set (d := relay_datagram u s m).
  change (byte_at d 6) with (zlen u).
  change (rd32 (byte_at d 0) (byte_at d 1) (byte_at d 2) (byte_at d 3)) with EapRelay.EAP_RELAY_MAGIC_REQ.
  change (byte_at d 4) with EapRelay.EAP_RELAY_VERSION.
  change (rd16 (byte_at d 7) (byte_at d 8)) with (rd16 (u8 (zlen s / 256)) (u8 (zlen s))).
  change (rd16 (byte_at d 9) (byte_at d 10)) with (rd16 (u8 (zlen m / 256)) (u8 (zlen m))).
  rewrite !rd16_be16 by lia. rewrite !Z.eqb_refl.
  destruct (Z.leb_spec 11 (11 + zlen u + zlen s + zlen m)); [|lia].
  destruct (Z.leb_spec (11 + zlen u + zlen s + zlen m) (11 + zlen u + zlen s + zlen m)); [|lia].
  cbn [andb]. set (hd := be32 RadiusClient.EAP_RELAY_MAGIC_REQ ++
    [RadiusClient.EAP_RELAY_VERSION; 0; zlen u] ++ be16 (zlen s) ++ be16 (zlen m)).
  assert (Hhd : zlen hd = 11) by reflexivity.
  assert (Hd : d = hd ++ u ++ s ++ m) by (unfold d, relay_datagram, hd; by rewrite <-!app_assoc).
  rewrite Hd. rewrite (sub_mid hd u (s ++ m)), c_string_clean by done.
  rewrite (app_assoc hd), (sub_mid (hd ++ u) s m), (app_assoc (hd ++ u)), (sub_end _ m)
    by (rewrite ?zlen_app; lia). done.
Qed.

(** A datagram cut at the relay's 8192 bytes is refused. *)
Lemma relay_request_cut u s m :
  zlen u < 256 -> zlen s < 65536 -> zlen m < 65536 -> 8192 < zlen (relay_datagram u s m) ->
  relay_request (ztake 8192 (relay_datagram u s m)) = None.
Proof.
  intros Hu Hs Hm Hl. pose proof (zlen_relay_datagram u s m) as Hz. rewrite Hz in Hl.
  zlen_pos. unfold relay_request. set (d := relay_datagram u s m) in *.
  assert (Hl' : zlen (ztake 8192 d) = 8192) by (rewrite zlen_ztake; lia). rewrite Hl'.
  rewrite !byte_at_ztake by lia. change (byte_at d 6) with (zlen u).
  change (rd16 (byte_at d 7) (byte_at d 8)) with (rd16 (u8 (zlen s / 256)) (u8 (zlen s))).
  change (rd16 (byte_at d 9) (byte_at d 10)) with (rd16 (u8 (zlen m / 256)) (u8 (zlen m))).
  rewrite !rd16_be16 by lia.
  destruct (Z.leb_spec (11 + zlen u + zlen s + zlen m) 8192); [lia|]. by rewrite !andb_false_r.
Qed.

(** The SMF reads back what the relay wrote. *)
Lemma read_relay_reply r st e scap ecap :
  zlen st <= scap -> zlen e <= ecap -> zlen st + zlen e <= 4076 ->
  read_response (Some (relay_reply r st e)) scap ecap = Ok (r, st, e).
Proof.
  intros Hs He Hl. zlen_pos. pose proof (zlen_relay_reply r st e) as Hz. unfold read_response.
  rewrite ztake_all by lia. rewrite Hz. set (p := relay_reply r st e) in *.
  change (rd32 (byte_at p 0) (byte_at p 1) (byte_at p 2) (byte_at p 3)) with RadiusClient.EAP_RELAY_MAGIC_RESP.
  change (byte_at p 4) with RadiusClient.EAP_RELAY_VERSION. change (byte_at p 5) with r.
  change (rd16 (byte_at p 6) (byte_at p 7)) with (rd16 (u8 (zlen st / 256)) (u8 (zlen st))).
  change (rd16 (byte_at p 8) (byte_at p 9)) with (rd16 (u8 (zlen e / 256)) (u8 (zlen e))).
  rewrite !rd16_be16 by lia. rewrite !Z.eqb_refl. cbn [negb].
  destruct (Z.ltb_spec (10 + zlen st + zlen e) 10); [lia|].
  destruct (Z.ltb_spec (10 + zlen st + zlen e) (10 + zlen st + zlen e)); [lia|].
  destruct (Z.ltb_spec scap (zlen st)), (Z.ltb_spec ecap (zlen e)); try lia. cbn [orb].
  set (hd := be32 EapRelay.EAP_RELAY_MAGIC_RESP ++ [EapRelay.EAP_RELAY_VERSION; r] ++
    be16 (zlen st) ++ be16 (zlen e)).
  assert (Hhd : zlen hd = 10) by reflexivity.
  assert (Hp : p = hd ++ st ++ e) by (unfold p, relay_reply, hd; by rewrite <-!app_assoc).
  rewrite Hp, (sub_mid hd st e), (app_assoc hd), (sub_end _ e) by (rewrite ?zlen_app; lia). done.
Qed.

Section smf.
Context `{Es : Env}.

Definition relay_addr : string := env_or (getenv "OPEN5GS_EAP_RELAY_ADDR") RadiusClient.EAP_RELAY_DEFAULT_ADDR.
Definition relay_port : Z :=
  RadiusClient.get_port_from_env "OPEN5GS_EAP_RELAY_PORT" RadiusClient.EAP_RELAY_DEFAULT_PORT.

(** The exchange, for arguments within the limits. *)
Lemma smf_exchange_eq u s m scap ecap :
  zlen u <= 255 -> zlen s <= 2048 -> zlen m <= 8192 ->
  can_socket = true -> inet_pton relay_addr = true ->
  smf_eap_relay_exchange u s m scap ecap =
  match deliver relay_addr relay_port (relay_datagram u s m) with
  | Some resp => read_response resp scap ecap
  | None => Err OGS_ERROR
  end.
Proof.
  intros Hu Hs Hm Hsock Hin. zlen_pos. unfold smf_eap_relay_exchange. fold relay_addr relay_port.
  rewrite Hsock, Hin. change EAP_RELAY_MAX_USER_LEN with 255. change EAP_RELAY_MAX_STATE_LEN with 2048.
  change EAP_RELAY_MAX_EAP_LEN with 8192.
  destruct (Z.ltb_spec 255 (zlen u)); [lia|]. destruct (Z.ltb_spec 2048 (zlen s)); [lia|].
  destruct (Z.ltb_spec 8192 (zlen m)); [lia|]. cbn [orb negb].
  rewrite u8_small by (unfold is_byte; lia). rewrite !u16_small by lia. rewrite (ztake_all _ u) by lia.
  fold (relay_datagram u s m). rewrite zlen_relay_datagram.
  destruct (Z.ltb_spec 16384 (11 + zlen u + zlen s + zlen m)); [lia|].
  reflexivity.
Qed.

Lemma read_response_bounds resp scap ecap r st e :
  read_response resp scap ecap = Ok (r, st, e) ->
  zlen st <= Z.max 0 scap /\ zlen e <= Z.max 0 ecap.
Proof.
  destruct resp as [resp|]; [|done]. unfold read_response. generalize (ztake 16384 resp). clear resp.
  intros p. destruct (_ <? _); [done|]. destruct (negb _); [done|]. destruct (negb _); [done|].
  generalize (rd16 (byte_at p 6) (byte_at p 7)), (rd16 (byte_at p 8) (byte_at p 9)). intros a b.
  destruct (_ <? _); [done|]. destruct (Z.ltb_spec scap a), (Z.ltb_spec ecap b); try done.
  intros [= <- <- <-]. rewrite !zlen_sub. lia.
Qed.

Lemma smf_exchange_bounds u s m scap ecap r st e :
  smf_eap_relay_exchange u s m scap ecap = Ok (r, st, e) ->
  zlen st <= Z.max 0 scap /\ zlen e <= Z.max 0 ecap.
Proof.
  unfold smf_eap_relay_exchange. destruct (_ <? _); [done|]. destruct (_ || _); [done|].
  destruct (negb can_socket); [done|]. destruct (negb _); [done|]. destruct (_ <? _); [done|].
  destruct (deliver _ _ _) as [resp|]; [|done]. apply read_response_bounds.
Qed.

Lemma read_response_no_fault resp scap ecap : read_response resp scap ecap <> Fault.
Proof. destruct resp as [resp|]; [|done]. unfold read_response. by repeat case_match. Qed.

Lemma smf_exchange_no_fault u s m scap ecap : smf_eap_relay_exchange u s m scap ecap <> Fault.
Proof.
  unfold smf_eap_relay_exchange. destruct (Z.ltb_spec EAP_RELAY_MAX_USER_LEN (zlen u)) as [|Hu]; [done|].
  destruct (Z.ltb_spec EAP_RELAY_MAX_STATE_LEN (zlen s)) as [|Hs],
    (Z.ltb_spec EAP_RELAY_MAX_EAP_LEN (zlen m)) as [|Hm]; try done. cbn [orb].
  destruct (negb can_socket); [done|]. destruct (negb _); [done|].
  change EAP_RELAY_MAX_USER_LEN with 255 in Hu. change EAP_RELAY_MAX_STATE_LEN with 2048 in Hs.
  change EAP_RELAY_MAX_EAP_LEN with 8192 in Hm.
  set (req := be32 _ ++ _). assert (Hl : zlen req <= 11 + 255 + 2048 + 8192).
  { unfold req. rewrite !zlen_app, !zlen_be16, zlen_be32, zlen_ztake.
    change (zlen [RadiusClient.EAP_RELAY_VERSION; 0; u8 (zlen u)]) with 3. lia. }
  destruct (Z.ltb_spec 16384 (zlen req)); [lia|].
  destruct (deliver _ _ _); [apply read_response_no_fault|done].
Qed.
End smf.

(** ** The chain SMF - UPF - RADIUS server *)
Section chain.
Context (Es Eu : Env) (g : relay_state (E := Eu)).

(** The SMF's datagrams reach the relay [Eu], which is in state [g]. *)
Definition linked : Prop :=
  can_socket (Env := Es) = true /\ inet_pton (Env := Es) (relay_addr (Es := Es)) = true /\
  forall req, deliver (Env := Es) (relay_addr (Es := Es)) (relay_port (Es := Es)) req =
    Some (Some (fst (relay_answer (E := Eu) (ztake 8192 req) g))).

Lemma chain_eq u s m :
  linked -> deliver_ok (E := Eu) ->
  zlen u <= 255 -> zlen s <= 2048 -> zlen m <= 8192 -> Forall (fun b => b <> 0) u ->
  smf_eap_relay_exchange (E := Es) u s m SMF_SEC_AUTH_STATE_MAX SMF_SEC_AUTH_EAP_MAX =
  Ok (match (if 11 + zlen u + zlen s + zlen m <=? 8192
             then fst (radius_exchange (E := Eu) u (Some s) m 2048 8192 g) else None) with
      | Some (r, st, e) => (r, st, e)
      | None => (SMF_EAP_RELAY_RESULT_ERROR, [], [])
      end).
Proof.
  intros (Hsock & Hin & Hlink) Hd Hu Hs Hm Hz. zlen_pos.
  rewrite (smf_exchange_eq (Es := Es)) by done. rewrite Hlink. unfold relay_answer.
  destruct (Z.leb_spec (11 + zlen u + zlen s + zlen m) 8192).
  - rewrite ztake_all by (rewrite zlen_relay_datagram; lia).
    rewrite relay_request_datagram by (try done; lia).
    destruct (radius_exchange u (Some s) m 2048 8192 g) as [[[[r st] e]|] g'] eqn:Ex; cbn [fst].
    + pose proof (exchange_bounds (E := Eu) u (Some s) m 2048 8192 g r st e g' Hd ltac:(lia) ltac:(lia) Ex) as [_ Hl].
      zlen_pos. apply read_relay_reply; unfold SMF_SEC_AUTH_STATE_MAX, SMF_SEC_AUTH_EAP_MAX; lia.
    + by apply read_relay_reply.
  - rewrite relay_request_cut by (rewrite ?zlen_relay_datagram; lia). by apply read_relay_reply.
Qed.


End chain.

(** ** A concrete chain: the SMF before the relay of RelayService *)
Module ToyChain.
#[local] Instance env : Env := {|
  getenv _ := None; can_socket := true; can_bind _ _ := true; can_thread := true;
  inet_pton _ := true;
  deliver _ _ req :=
    Some (Some (fst (relay_answer (E := ToyRelay.env) (ztake 8192 req) ToyRelay.g0)));
  rand_state := Z; srand := 1; rand r := (r, r + 1)
|}.
Lemma env_linked : linked env ToyRelay.env ToyRelay.g0.
Proof. split; [reflexivity|split; [reflexivity|]]. intros req. reflexivity. Qed.
Definition user : bytes := str "imsi-1".
Definition msg : bytes := [2; 1; 0; 5; 1].
Definition request : option bytes :=
  fst (radius_build_request (E := ToyRelay.env) user (Some []) msg
    (relay_secret (E := ToyRelay.env)) 8192 ToyRelay.g0).
Definition req : bytes := Eval vm_compute in default [] request.
Lemma request_eq : request = Some req.
Proof. vm_compute. reflexivity. Qed.
Lemma user_clean : Forall (fun b => b <> 0) user.
Proof. by repeat constructor. Qed.
Definition attrs : list attr :=
  [(RADIUS_ATTR_STATE, [0x5a]); (RADIUS_ATTR_EAP_MESSAGE, [1; 2; 0; 4])].
Lemma served : deliver (Env := ToyRelay.env) "127.0.0.1" 1645 req =
  Some (Some (sign_reply (relay_secret (E := ToyRelay.env)) req 11 attrs)).
Proof. vm_compute. reflexivity. Qed.
End ToyChain.


