(* ===== verification/SmfSession.v ===== *)
(** * SmfSession: the SMF's handlers refine a two-state conversation

    The specification keeps one value per session, [Idle] or [Running st] with the
    server's State, and answers each message of the UE with one NAS message.  The
    handlers of gsm-sm.c, with their flags, timer and event queue, implement it. *)
From stdpp Require Import base numbers list option strings.
From Stdlib Require Import ZArith Lia.
From S2P Require Import Prelude EapRelay Nas5gs SmfSecAuth SmfFacts.
Import SecAuth.

(** ** The specification *)
Inductive conv := Idle | Running (st : bytes).
(** What the relay says to a message. *)
Inductive verdict := Next (st eap : bytes) | Final (eap : option bytes).

(** The State of a session, the timer armed and the start events pending. *)
Record spec_state := { armed : bool; pending : nat; conversation : conv }.

Definition nonempty (eap : option bytes) : option bytes :=
  match eap with Some v => if 0 <? zlen v then Some v else None | None => None end.
Definition follow (v : verdict) : conv * list gsm_body :=
  match v with
  | Next st eap => (Running st, [AuthCommand eap None])
  | Final eap => (Idle, [AuthResult (nonempty eap) None])
  end.

(** [ask st m] is the relay's verdict on message [m] under State [st]; [None] is a
    message of the UE outside a conversation. *)
Definition spec_event (ask : bytes -> bytes -> verdict) (identity : bytes) (e : event) (a : spec_state)
    : option (spec_state * list gsm_body) :=
  let become (c : conv * list gsm_body) a :=
    ({| armed := armed a; pending := pending a; conversation := fst c |}, snd c) in
  match e with
  | SetupResponse =>
      Some (match conversation a with
            | Idle => {| armed := true; pending := pending a; conversation := Idle |}
            | _ => a
            end, [])
  | TimerExpiry =>
      Some (if armed a then {| armed := false; pending := S (pending a); conversation := conversation a |}
            else a, [])
  | SecAuthStart =>
      match pending a, conversation a with
      | O, _ => Some (a, [])
      | S n, Idle => Some (become (follow (ask [] identity))
                            {| armed := armed a; pending := n; conversation := Idle |})
      | S n, Running st => Some ({| armed := armed a; pending := n; conversation := Running st |}, [])
      end
  | AuthenticationComplete m =>
      match conversation a with
      | Idle => None
      | Running st =>
          Some (become (if zlen m =? 0 then follow (Final None) else follow (ask st m)) a)
      end
  end.

Fixpoint spec_run ask identity (es : list event) (a : spec_state) : option (spec_state * list gsm_body) :=
  match es with
  | [] => Some (a, [])
  | e :: es =>
      '(a, out) ← spec_event ask identity e a;
      '(a, outs) ← spec_run ask identity es a;
      Some (a, out ++ outs)
  end.

Section session.
Context `{E : Env}.

Definition verdict_of (x : res (Z * bytes * bytes)) : verdict :=
  match x with
  | Ok (r, st, e) =>
      if r =? SMF_EAP_RELAY_RESULT_CHALLENGE then if zlen e =? 0 then Final None else Next st e
      else if r =? SMF_EAP_RELAY_RESULT_ACCEPT then Final (Some e)
      else if r =? SMF_EAP_RELAY_RESULT_REJECT then Final (Some e)
      else Final None
  | _ => Final None
  end.
Definition relay (u st m : bytes) : verdict :=
  verdict_of (RadiusClient.smf_eap_relay_exchange u st m SMF_SEC_AUTH_STATE_MAX SMF_SEC_AUTH_EAP_MAX).

(** The session as the specification sees it. *)
Definition view (s : smf_sess_t) : spec_state := {|
  armed := t_start s; pending := queue s;
  conversation := if in_progress s then Running (state s) else Idle |}.
Definition n1_bytes (s : smf_sess_t) (b : gsm_body) : bytes :=
  message_bytes {| gsm_h := gsm_header_of s; gsm_b := b |}.

(** The EAP response that starts a conversation: the user name, cut to 21 bytes. *)
Definition identity_response (u : bytes) : bytes :=
  let id := ztake 21 u in [2; 1] ++ be16 (5 + zlen id) ++ [1] ++ id.

(** Same subscriber and session, so the same names on the air. *)
Definition same_session (s s' : smf_sess_t) : Prop := supi s' = supi s /\ psi s' = psi s /\ pti s' = pti s.

Lemma same_trans s1 s2 s3 : same_session s1 s2 -> same_session s2 s3 -> same_session s1 s3.
Proof. unfold same_session. intuition congruence. Qed.

Lemma n1_bytes_same s s' b : same_session s s' -> n1_bytes s' b = n1_bytes s b.
Proof. intros (_ & Hp & Ht). unfold n1_bytes, gsm_header_of. by rewrite Hp, Ht. Qed.

(** ** The sends *)
Definition sent (b : gsm_body) (s : smf_sess_t) : smf_sess_t := set_n1 (n1 s ++ [n1_bytes s b]) s.

Lemma encode_fits s b :
  zlen (body_bytes b) <= 8200 ->
  ogs_nas_5gsm_encode true {| gsm_h := gsm_header_of s; gsm_b := b |} = Ok (Some (n1_bytes s b)).
Proof.
  intros H. apply encode_ok. unfold message_bytes. rewrite zlen_app.
  change (zlen [_; _; _; _]) with 4. cbn [gsm_b]. lia.
Qed.

Lemma send_command_run eap s :
  0 < zlen eap <= 8192 ->
  smf_send_secondary_auth_command true eap s = (Ok tt, sent (AuthCommand eap None) s).
Proof.
  intros H. unfold smf_send_secondary_auth_command, ogs_assert.
  destruct (Z.ltb_spec 0 (zlen eap)) as [H0|]; [|lia].
  change UINT16_MAX with 65535. destruct (Z.leb_spec (zlen eap) 65535); [|lia]. cbn [andb].
  unfold bind at 1. cbn [ret]. unfold bind, gsm_build_pdu_session_authentication_command.
  rewrite (proj2 (Z.ltb_lt _ _) H0). cbn [negb].
  rewrite encode_fits; [done|]. cbn [body_bytes opt_bytes]. rewrite !zlen_app, zlen_be16, zlen_nil. lia.
Qed.

Lemma send_result_run eap s :
  zlen (default [] eap) <= 8192 ->
  smf_send_secondary_auth_result true eap s = (Ok tt, sent (AuthResult (nonempty eap) None) s).
Proof.
  intros H. unfold smf_send_secondary_auth_result, ogs_assert. change UINT16_MAX with 65535.
  destruct (Z.leb_spec (zlen (default [] eap)) 65535); [|lia].
  unfold bind at 1. cbn [ret]. unfold bind, gsm_build_pdu_session_authentication_result.
  fold (nonempty eap). rewrite encode_fits; [done|]. cbn [body_bytes opt_bytes].
  rewrite app_nil_r, zlen_opt_bytes. unfold nonempty. destruct eap as [v|]; [|cbn; lia].
  change (default [] (Some v)) with v in H. destruct (0 <? zlen v); cbn [opt_len]; lia.
Qed.

(** The end of a conversation, whatever was stored before. *)
Definition finished (eap : option bytes) (s : smf_sess_t) : smf_sess_t :=
  set_state [] (set_in_progress false (sent (AuthResult (nonempty eap) None) s)).

Lemma finish_run eap s :
  zlen (default [] eap) <= 8192 -> finish true eap s = (Ok tt, finished eap s).
Proof. intros H. unfold finish. unfold bind at 1. by rewrite send_result_run. Qed.

(** ** The handlers *)
Definition followed (v : verdict) (s : smf_sess_t) : smf_sess_t :=
  match v with
  | Next st e => sent (AuthCommand e None) (set_state st s)
  | Final e => finished e s
  end.

Lemma relay_and_deliver_run m s :
  smf_sec_auth_relay_and_deliver true m s = (Ok tt, followed (relay (supi s) (state s) m) s).
Proof.
  unfold smf_sec_auth_relay_and_deliver, relay. unfold bind at 1, gets at 1. unfold bind at 1, gets at 1.
  destruct (RadiusClient.smf_eap_relay_exchange _ _ _ _ _) as [[[r st] e]|rc|] eqn:Ex.
  - apply smf_exchange_bounds in Ex as [Hst He].
    change SMF_SEC_AUTH_STATE_MAX with 4096 in *. change SMF_SEC_AUTH_EAP_MAX with 8192 in *.
    destruct (Z.ltb_spec 4096 (zlen st)); [lia|]. unfold bind at 1, modify at 1. cbn [verdict_of].
    destruct (r =? SMF_EAP_RELAY_RESULT_CHALLENGE).
    + destruct (Z.eqb_spec (zlen e) 0); [by apply finish_run|]. pose proof (zlen_nonneg e).
      by rewrite send_command_run by lia.
    + destruct (r =? SMF_EAP_RELAY_RESULT_ACCEPT); [by rewrite finish_run by (cbn; lia)|].
      destruct (r =? SMF_EAP_RELAY_RESULT_REJECT); [by rewrite finish_run by (cbn; lia)|].
      by apply finish_run.
  - by apply finish_run.
  - by apply smf_exchange_no_fault in Ex.
Qed.

Lemma eap_identity_eq s : eap_id s = 1 -> eap_identity s = identity_response (supi s).
Proof.
  intros Hid. unfold eap_identity, identity_response, OGS_MAX_IMSI_BCD_LEN. rewrite Hid.
  change (5 + 15 + 6 - 5) with 21. zlen_pos.
  set (n := if 21 <? zlen (supi s) then 21 else zlen (supi s)).
  assert (Hn : n = Z.min 21 (zlen (supi s))) by (unfold n; destruct (Z.ltb_spec 21 (zlen (supi s))); lia).
  assert (ztake n (supi s) = ztake 21 (supi s)) as ->.
  { rewrite Hn. destruct (Z.leb_spec (zlen (supi s)) 21); [|by rewrite Z.min_l by lia].
    by rewrite !ztake_all by lia. }
  assert (zlen (ztake 21 (supi s)) = n) as -> by (rewrite zlen_ztake; lia).
  rewrite u16_small by lia. unfold be16.
  rewrite Z.shiftr_div_pow2 by lia. change (2 ^ 8) with 256.
  change 0xff with (Z.ones 8). rewrite Z.land_ones by lia. change (2 ^ 8) with 256.
  unfold u8. by rewrite Z.mod_mod.
Qed.

(** What a handler does to the view: nothing but the conversation. *)
Lemma followed_view v s q :
  (in_progress s = true \/ exists e, v = Final e) ->
  view (followed v (set_queue q s)) =
    {| armed := t_start s; pending := q; conversation := fst (follow v) |} /\
  n1 (followed v (set_queue q s)) = n1 s ++ map (n1_bytes s) (snd (follow v)) /\
  same_session s (followed v (set_queue q s)).
Proof.
  intros H. destruct v as [st e|e]; cbn.
  - destruct H as [H|[? H]]; [|done]. unfold view. cbn. by rewrite H.
  - by split_and!.
Qed.

Lemma set_queue_same s : set_queue (queue s) s = s.
Proof. by destruct s. Qed.

(** One event. *)
Lemma event_refines e s a outs :
  spec_event (relay (supi s)) (identity_response (supi s)) e (view s) = Some (a, outs) ->
  exists s', smf_gsm_state_operational true e s = (Ok tt, s') /\ view s' = a /\
    n1 s' = n1 s ++ map (n1_bytes s) outs /\ same_session s s'.
Proof.
  destruct e as [| | |m]; cbn [spec_event smf_gsm_state_operational].
  - intros [= <- <-]. exists (if in_progress s then s else set_t_start true s). unfold modify, view.
    cbn [map]. rewrite app_nil_r. by destruct s as [? ? ? [] ? ? ? ? ?].
  - intros [= <- <-]. exists (if t_start s then set_queue (S (queue s)) (set_t_start false s) else s).
    unfold modify, view. cbn [map armed]. rewrite app_nil_r. by destruct s as [? ? ? [] ? ? [] ? ?].
  - unfold bind at 1, gets at 1. cbn [view pending conversation].
    destruct (queue s) as [|q] eqn:Hq.
    { intros [= <- <-]. exists s. cbn [map]. by rewrite app_nil_r. }
    unfold bind at 1, modify at 1, smf_start_secondary_auth. unfold bind at 1, gets at 1.
    cbn [in_progress set_queue]. destruct (in_progress s) eqn:Hp.
    { intros [= <- <-]. exists (set_queue q s). unfold view. cbn [map]. rewrite app_nil_r. cbn. by rewrite Hp. }
    intros [= <- <-].
    set (s1 := set_eap_id 1 (set_state [] (set_in_progress true s))).
    exists (followed (relay (supi s) [] (identity_response (supi s))) (set_queue q s1)).
    destruct (followed_view (relay (supi s) [] (identity_response (supi s))) s1 q ltac:(by left))
      as (Hv & Hn & Hs). split_and!; [|exact Hv|exact Hn|by apply Hs..].
    unfold bind at 1, modify at 1. unfold bind at 1, modify at 1. unfold bind at 1, modify at 1.
    unfold bind at 1, gets at 1. rewrite relay_and_deliver_run. by rewrite eap_identity_eq.
  - cbn [view conversation]. destruct (in_progress s) eqn:Hp; [|done]. cbn [armed pending].
    unfold smf_handle_secondary_auth_complete. destruct (zlen m =? 0).
    + intros [= <- <-]. exists (finished None s). rewrite finish_run by done.
      destruct (followed_view (Final None) s (queue s) ltac:(by left)) as (Hv & Hn & Hs).
      rewrite set_queue_same in *. by split_and!.
    + intros [= <- <-]. rewrite relay_and_deliver_run. eexists. split; [done|].
      destruct (followed_view (relay (supi s) (state s) m) s (queue s) ltac:(by left)) as (Hv & Hn & Hs).
      rewrite set_queue_same in *. by split_and!.
Qed.

(** ** Runs *)
Fixpoint run (es : list event) (s : smf_sess_t) : res unit * smf_sess_t :=
  match es with
  | [] => (Ok tt, s)
  | e :: es => match smf_gsm_state_operational true e s with
               | (Ok _, s) => run es s
               | r => r
               end
  end.

Lemma run_refines es : forall s a outs,
  spec_run (relay (supi s)) (identity_response (supi s)) es (view s) = Some (a, outs) ->
  exists s', run es s = (Ok tt, s') /\ view s' = a /\
    n1 s' = n1 s ++ map (n1_bytes s) outs /\ same_session s s'.
Proof.
  induction es as [|e es IH]; intros s a outs; cbn [spec_run run].
  { intros [= <- <-]. exists s. cbn [map]. by rewrite app_nil_r. }
  destruct (spec_event _ _ e (view s)) as [[a1 o1]|] eqn:E1; [|done]. cbn [mbind option_bind].
  apply event_refines in E1 as (s1 & -> & Hv & Hn & Hs).
  destruct (spec_run _ _ es a1) as [[a2 o2]|] eqn:E2; [|done]. cbn [mbind option_bind].
  intros [= <- <-]. pose proof Hs as (Hsupi & _). rewrite <-Hsupi, <-Hv in E2.
  destruct (IH s1 _ _ E2) as (s2 & Hr & Hv2 & Hn2 & Hs2). exists s2. split_and!; [done|done| |by apply (same_trans _ s1)].
  rewrite Hn2, Hn, map_app, <-app_assoc. do 2 f_equal. apply map_ext. intros b. by apply n1_bytes_same.
Qed.


(** What the UE is told at the end comes from the relay: a Result that carries an
    EAP message is sent only on the relay's verdict ACCEPT or REJECT. *)
Lemma final_some x e :
  verdict_of x = Final (Some e) ->
  exists r st, x = Ok (r, st, e) /\
    (r = SMF_EAP_RELAY_RESULT_ACCEPT \/ r = SMF_EAP_RELAY_RESULT_REJECT).
Proof.
  destruct x as [[[r st] e']| |]; [|done..]. cbn.
  destruct (Z.eqb_spec r SMF_EAP_RELAY_RESULT_CHALLENGE); [by destruct (_ =? 0)|].
  destruct (Z.eqb_spec r SMF_EAP_RELAY_RESULT_ACCEPT); [intros [= ->]; eauto|].
  destruct (Z.eqb_spec r SMF_EAP_RELAY_RESULT_REJECT); [intros [= ->]; eauto|done].
Qed.

(** Every call of the handler answers a message of the UE with exactly one NAS
    message of at most 8200 bytes, in whatever state the session is: a Command with
    the server's EAP message while the relay says CHALLENGE; otherwise a Result,
    with an EAP message only when the relay said ACCEPT or REJECT, after which no
    conversation is in progress and no State is kept. *)
Theorem complete_answered m s :
  exists s' b, smf_handle_secondary_auth_complete true m s = (Ok tt, s') /\
    n1 s' = n1 s ++ [n1_bytes s b] /\ zlen (body_bytes b) <= 8200 /\
    match b with
    | AuthCommand e None => exists st,
        RadiusClient.smf_eap_relay_exchange (supi s) (state s) m SMF_SEC_AUTH_STATE_MAX
          SMF_SEC_AUTH_EAP_MAX = Ok (SMF_EAP_RELAY_RESULT_CHALLENGE, st, e) /\
        state s' = st /\ in_progress s' = in_progress s
    | AuthResult eap None => in_progress s' = false /\ state s' = [] /\
        forall e, eap = Some e -> exists r st,
          RadiusClient.smf_eap_relay_exchange (supi s) (state s) m SMF_SEC_AUTH_STATE_MAX
            SMF_SEC_AUTH_EAP_MAX = Ok (r, st, e) /\
          (r = SMF_EAP_RELAY_RESULT_ACCEPT \/ r = SMF_EAP_RELAY_RESULT_REJECT)
    | _ => False
    end.
Proof.
  unfold smf_handle_secondary_auth_complete. destruct (zlen m =? 0).
  { rewrite finish_run by done. exists (finished None s), (AuthResult None None). by split_and!. }
  rewrite relay_and_deliver_run. unfold relay.
  destruct (RadiusClient.smf_eap_relay_exchange _ _ _ _ _) as [[[r st] e]|rc|] eqn:Ex.
  2, 3: exists (finished None s), (AuthResult None None); by split_and!.
  apply smf_exchange_bounds in Ex as Hb. change SMF_SEC_AUTH_EAP_MAX with 8192 in Hb.
  destruct (verdict_of (Ok (r, st, e))) as [st' e'|eap] eqn:Ev; eexists; eexists; (split; [done|]); (split; [done|]).
  - assert (r = SMF_EAP_RELAY_RESULT_CHALLENGE /\ st' = st /\ e' = e) as (-> & -> & ->).
    { cbn in Ev. repeat case_match; try done. simplify_eq.
      by match goal with H : (_ =? _) = true |- _ => apply Z.eqb_eq in H end. }
    split; [|by exists st]. cbn [body_bytes opt_bytes]. rewrite !zlen_app, zlen_be16, zlen_nil. lia.
  - destruct eap as [e'|]; [|by split_and!].
    apply final_some in Ev as (r' & st' & [= <- <- <-] & Hr). split.
    + cbn [body_bytes opt_bytes]. rewrite app_nil_r, zlen_opt_bytes. unfold nonempty.
      destruct (0 <? zlen e); cbn [opt_len]; lia.
    + split_and!; [done|done|]. intros e'. unfold nonempty. destruct (0 <? zlen e); [|done].
      intros [= <-]. eauto.
Qed.

(** A message of the UE outside any conversation is relayed all the same: on a
    CHALLENGE the UE gets a Command and the session keeps the State, yet it is not
    marked in progress, so that the next start event abandons the conversation. *)
Theorem unsolicited_complete m s st e :
  in_progress s = false -> m <> [] -> e <> [] ->
  RadiusClient.smf_eap_relay_exchange (supi s) (state s) m SMF_SEC_AUTH_STATE_MAX
    SMF_SEC_AUTH_EAP_MAX = Ok (SMF_EAP_RELAY_RESULT_CHALLENGE, st, e) ->
  exists s', smf_handle_secondary_auth_complete true m s = (Ok tt, s') /\
    n1 s' = n1 s ++ [n1_bytes s (AuthCommand e None)] /\
    in_progress s' = false /\ state s' = st.
Proof.
  intros Hp Hm He Ex. unfold smf_handle_secondary_auth_complete.
  destruct (Z.eqb_spec (zlen m) 0) as [H0|_]; [by apply zlen_0_nil in H0|].
  rewrite relay_and_deliver_run. unfold relay. rewrite Ex. cbn [verdict_of].
  change (SMF_EAP_RELAY_RESULT_CHALLENGE =? SMF_EAP_RELAY_RESULT_CHALLENGE) with true. cbv iota.
  destruct (Z.eqb_spec (zlen e) 0) as [H0|_]; [by apply zlen_0_nil in H0|].
  by exists (followed (Next st e) s).
Qed.

(** The EAP response that starts a conversation fits its 26 byte array and is a
    well formed Response/Identity: its length field is its length, and it carries
    the user name, whole when it has at most 21 bytes. *)
Theorem eap_identity_wf s :
  eap_id s = 1 ->
  let id := ztake 21 (supi s) in
  eap_identity s = [2; 1] ++ be16 (5 + zlen id) ++ [1] ++ id /\
  zlen (eap_identity s) = 5 + zlen id /\ zlen (eap_identity s) <= 26 /\
  (zlen (supi s) <= 21 -> id = supi s).
Proof.
  intros Hid id. rewrite eap_identity_eq by done. unfold identity_response. fold id.
  assert (Hl : zlen id <= 21) by (unfold id; rewrite zlen_ztake; lia).
  assert (Hz : zlen ([2; 1] ++ be16 (5 + zlen id) ++ [1] ++ id) = 5 + zlen id).
  { rewrite !zlen_app, zlen_be16. change (zlen [2; 1]) with 2. change (zlen [1]) with 1. lia. }
  rewrite Hz. split_and!; [done|done|lia|]. intros H. by apply ztake_all.
Qed.
End session.

(** ** A session on the concrete chain *)
Module ToySession.
Definition s0 : smf_sess_t := {|
  supi := ToyChain.user; psi := 1; pti := 0; in_progress := false; eap_id := 1; state := [];
  t_start := false; queue := 0; n1 := [] |}.
Definition events : list event :=
  [SetupResponse; SetupResponse; TimerExpiry; SecAuthStart; AuthenticationComplete ToyChain.msg;
   AuthenticationComplete []].
End ToySession.


Lemma unsolicited_complete_witness :
  exists s', smf_handle_secondary_auth_complete (E := ToyChain.env) true ToyChain.msg ToySession.s0 =
      (Ok tt, s') /\
    n1 s' = n1 ToySession.s0 ++ [n1_bytes ToySession.s0 (AuthCommand [1; 2; 0; 4] None)] /\
    in_progress s' = false /\ state s' = [0x5a].
Proof.
  apply (unsolicited_complete (E := ToyChain.env) ToyChain.msg ToySession.s0 [0x5a] [1; 2; 0; 4]);
    [done|done|done|vm_compute; reflexivity].
Defined.

Lemma eap_identity_wf_witness :
  let id := ztake 21 (supi ToySession.s0) in
  eap_identity ToySession.s0 = [2; 1] ++ be16 (5 + zlen id) ++ [1] ++ id /\
  zlen (eap_identity ToySession.s0) = 5 + zlen id /\ zlen (eap_identity ToySession.s0) <= 26 /\
  (zlen (supi ToySession.s0) <= 21 -> id = supi ToySession.s0).
Proof. apply (eap_identity_wf ToySession.s0). reflexivity. Defined.
