(* ===== verification/NamfTransfer.v ===== *)
(** * NamfTransfer: N1 messages from the SMF through the AMF to the UE

    open5gs/src/smf/namf-build.c makes an N1N2MessageTransfer of a NAS message;
    amf/namf-handler.c takes it apart and, for a message without an N2 container,
    sends it on in a DL NAS transport (amf/nas-path.c, amf/gmm-build.c).  The HTTP
    and JSON layers in between hand the request over unchanged; the transfers with
    an N2 container, NAS security and NGAP are parameters. *)
From stdpp Require Import base gmap numbers list option strings.
From Stdlib Require Import ZArith Lia.
From S2P Require Import Prelude Nas5gs.
Local Open Scope c_scope.

Definition SMF_UE_REQUESTED_PDU_SESSION_ESTABLISHMENT : Z := 1.
Definition SMF_NETWORK_REQUESTED_PDU_SESSION_MODIFICATION : Z := 2.
Definition SMF_NETWORK_REQUESTED_QOS_FLOW_MODIFICATION : Z := 3.
Definition SMF_NETWORK_REQUESTED_PDU_SESSION_RELEASE : Z := 4.
Definition SMF_NETWORK_TRIGGERED_SERVICE_REQUEST : Z := 5.
Definition SMF_ERROR_INDICATON_RECEIVED_FROM_5G_AN : Z := 6.
Definition SMF_NETWORK_REQUESTED_SECONDARY_AUTHENTICATION : Z := 7.

Definition OGS_OK : Z := 0.
Definition OGS_ERROR : Z := -1.
Definition OGS_NOTFOUND : Z := -5.
Definition OGS_SBI_HTTP_STATUS_OK : Z := 200.
Definition OGS_NAS_PAYLOAD_CONTAINER_N1_SM_INFORMATION : Z := 1.

(** ** The SMF's request *)
Record smf_n1_n2_message_transfer_param_t := {
  param_state : Z;
  n1smbuf : option bytes;
  n2smbuf : option bytes;
  n1n2_failure_txf_notif_uri : bool;
  param_skip_ind : bool
}.

Inductive ngap_ie_type := PDU_RES_SETUP_REQ | PDU_RES_MOD_REQ | PDU_RES_REL_CMD | NULL_ie.

(** The request as the AMF finds it.  A container is [Some None] when it is present
    without its content. *)
Record transfer_req := {
  req_supi : option bytes;
  req_pdu_session_id : option Z;
  n1_message_container : option (option bytes);
  n2_info_container : option (option (ngap_ie_type * option bytes));
  req_notif_uri : bool;
  req_skip_ind : bool
}.

(** [None] is [ogs_assert_if_reached]. *)
Definition n2_type (state : Z) : option ngap_ie_type :=
  if (state =? SMF_UE_REQUESTED_PDU_SESSION_ESTABLISHMENT) ||
     (state =? SMF_NETWORK_TRIGGERED_SERVICE_REQUEST) then Some PDU_RES_SETUP_REQ
  else if (state =? SMF_NETWORK_REQUESTED_PDU_SESSION_MODIFICATION) ||
          (state =? SMF_NETWORK_REQUESTED_QOS_FLOW_MODIFICATION) then Some PDU_RES_MOD_REQ
  else if (state =? SMF_NETWORK_REQUESTED_PDU_SESSION_RELEASE) ||
          (state =? SMF_ERROR_INDICATON_RECEIVED_FROM_5G_AN) then Some PDU_RES_REL_CMD
  else None.

Definition smf_namf_comm_build_n1_n2_message_transfer (supi : bytes) (psi : Z)
    (param : smf_n1_n2_message_transfer_param_t) : res transfer_req :=
  let req n2 := {|
    req_supi := Some supi; req_pdu_session_id := Some psi;
    n1_message_container := Some <$> n1smbuf param; n2_info_container := n2;
    req_notif_uri := n1n2_failure_txf_notif_uri param; req_skip_ind := param_skip_ind param |} in
  if param_state param =? 0 then Fault
  else
    match n1smbuf param, n2smbuf param with
    | None, None => Fault
    | _, None => Ok (req None)
    | _, Some n2 =>
        match n2_type (param_state param) with
        | Some t => Ok (req (Some (Some (t, Some n2))))
        | None => Fault
        end
    end.

(** The parameters of smf_send_secondary_auth_command and _result in gsm-sm.c. *)
Definition secondary_auth_param (n1 : bytes) : smf_n1_n2_message_transfer_param_t := {|
  param_state := SMF_NETWORK_REQUESTED_SECONDARY_AUTHENTICATION; n1smbuf := Some n1;
  n2smbuf := None; n1n2_failure_txf_notif_uri := false; param_skip_ind := false |}.

(** ** The AMF *)
Record dl_nas_transport := {
  payload_container_type : Z;
  payload_container : bytes;
  pdu_session_id : Z;
  gmm_cause : option Z;
  back_off_timer_value : option Z
}.

(** A session's RAN context, if it has one; the sessions of each UE by their
    identity; and what was sent to the RAN. *)
Record amf_sess_t := { ran_ue : option Z }.
Record amf_t := {
  sessions : gmap bytes (gmap Z amf_sess_t);
  downlink : list dl_nas_transport
}.

(** NAS security and NGAP: [None] a null buffer, and the return value of the send. *)
Class Ran := {
  nas_5gs_security_encode : dl_nas_transport -> option bytes;
  nas_5gs_send_to_downlink_nas_transport : Z -> bytes -> Z
}.

Definition gmm_build_dl_nas_transport (psi type : Z) (payload : bytes) (cause backoff_time : Z)
    : dl_nas_transport := {|
  payload_container_type := type;
  payload_container := payload;
  pdu_session_id := psi;
  gmm_cause := if cause =? 0 then None else Some cause;
  back_off_timer_value := if 2 <=? backoff_time then Some (backoff_time / 2) else None |}.

Section amf.
Context `{R : Ran}.

Definition amf_assert (b : bool) : M amf_t unit := if b then ret tt else crash.

Definition nas_5gs_send_dl_nas_transport (sess : amf_sess_t) (psi type : Z) (payload : bytes)
    (cause backoff_time : Z) : M amf_t Z :=
  match ran_ue sess with
  | None => ret OGS_NOTFOUND
  | Some ran =>
      amf_assert (negb (type =? 0));;;
      let dl := gmm_build_dl_nas_transport psi type payload cause backoff_time in
      match nas_5gs_security_encode dl with
      | None => ret OGS_ERROR
      | Some gmmbuf =>
          let rv := nas_5gs_send_to_downlink_nas_transport ran gmmbuf in
          modify (fun a => {| sessions := sessions a;
                              downlink := downlink a ++ (if rv =? OGS_OK then [dl] else []) |});;;
          ret rv
      end
  end.

Definition nas_5gs_send_gsm_reject (sess : amf_sess_t) (psi type : Z) (payload : bytes) : M amf_t Z :=
  match ran_ue sess with
  | None => ret OGS_NOTFOUND
  | Some _ =>
      amf_assert (negb (type =? 0));;;
      nas_5gs_send_dl_nas_transport sess psi type payload 0 0
  end.

Definition amf_sess_remove (supi : bytes) (psi : Z) : M amf_t unit :=
  modify (fun a => {| sessions := alter (delete psi) supi (sessions a); downlink := downlink a |}).

(** [case OpenAPI_ngap_ie_type_NULL] *)
Definition handle_n1_only (supi : bytes) (psi : Z) (sess : amf_sess_t) (n1buf : option bytes)
    : M amf_t unit :=
  match n1buf with
  | None => fail OGS_ERROR
  | Some n1buf =>
      if (3 <? zlen n1buf) &&
         ((byte_at n1buf 3 =? OGS_NAS_5GS_PDU_SESSION_AUTHENTICATION_COMMAND) ||
          (byte_at n1buf 3 =? OGS_NAS_5GS_PDU_SESSION_AUTHENTICATION_RESULT))
      then
        let! r := nas_5gs_send_dl_nas_transport sess psi
                    OGS_NAS_PAYLOAD_CONTAINER_N1_SM_INFORMATION n1buf 0 0 in
        amf_assert (negb (r =? OGS_ERROR))
      else
        let! r := nas_5gs_send_gsm_reject sess psi
                    OGS_NAS_PAYLOAD_CONTAINER_N1_SM_INFORMATION n1buf in
        amf_assert (negb (r =? OGS_ERROR));;;
        amf_sess_remove supi psi
  end.

(** The cases with an N2 container, which return a response or an error. *)
Variable handle_n2 : ngap_ie_type -> transfer_req -> M amf_t Z.

(** The status of the response, or [OGS_ERROR] without one. *)
Definition amf_namf_comm_handle_n1_n2_message_transfer (req : transfer_req) : M amf_t Z :=
  match req_pdu_session_id req with
  | None => fail OGS_ERROR
  | Some psi =>
  match req_supi req with
  | None => fail OGS_ERROR
  | Some supi =>
  let! a := gets id in
  match sessions a !! supi with
  | None => fail OGS_ERROR
  | Some ue =>
  match ue !! psi with
  | None => fail OGS_ERROR
  | Some sess =>
  match n1_message_container req, n2_info_container req with
  | Some None, _ => fail OGS_ERROR
  | _, Some None => fail OGS_ERROR
  | _, Some (Some (_, None)) => fail OGS_ERROR
  | n1, Some (Some (NULL_ie, Some _)) | n1, None =>
      handle_n1_only supi psi sess (default None n1);;;
      ret OGS_SBI_HTTP_STATUS_OK
  | _, Some (Some (t, Some _)) => handle_n2 t req
  end
  end
  end
  end
  end.
End amf.
