(* ===== verification/NamfFacts.v ===== *)
(** * NamfFacts: the SMF's conversation reaches the UE

    Every message of a secondary authentication is one the AMF forwards: joined
    to SmfSession, what the SMF sends arrives as DL NAS transports in order, and
    the AMF keeps the session.  Any other message without an N2 container is a
    rejected establishment, which removes it. *)
From stdpp Require Import base gmap numbers list option strings.
From Stdlib Require Import ZArith Lia.
From S2P Require Import Prelude EapRelay RelayService Nas5gs SmfSecAuth SmfFacts SmfSession NamfTransfer.
Import SecAuth.
Local Open Scope c_scope.

(** ** One message *)
Section one.
Context `{R : Ran} (handle_n2 : ngap_ie_type -> transfer_req -> M amf_t Z).

Definition session_of (supi : bytes) (psi : Z) (a : amf_t) : option amf_sess_t :=
  sessions a !! supi ≫= (.!! psi).

(** The bytes the AMF recognises. *)
Definition is_auth_n1 (m : bytes) : Prop :=
  3 < zlen m /\ (byte_at m 3 = OGS_NAS_5GS_PDU_SESSION_AUTHENTICATION_COMMAND \/
                 byte_at m 3 = OGS_NAS_5GS_PDU_SESSION_AUTHENTICATION_RESULT).

Definition transport (psi : Z) (m : bytes) : dl_nas_transport :=
  gmm_build_dl_nas_transport psi OGS_NAS_PAYLOAD_CONTAINER_N1_SM_INFORMATION m 0 0.

(** NAS security and NGAP accept the transport of [m] to [ran]. *)
Definition ran_takes (ran psi : Z) (m : bytes) : Prop :=
  exists g, nas_5gs_security_encode (transport psi m) = Some g /\
            nas_5gs_send_to_downlink_nas_transport ran g = OGS_OK.

Definition sent_down (l : list dl_nas_transport) (a : amf_t) : amf_t :=
  {| sessions := sessions a; downlink := downlink a ++ l |}.

Definition transfer_one (supi : bytes) (psi : Z) (m : bytes) : M amf_t Z :=
  match smf_namf_comm_build_n1_n2_message_transfer supi psi (secondary_auth_param m) with
  | Ok req => amf_namf_comm_handle_n1_n2_message_transfer handle_n2 req
  | _ => crash
  end.

(** From the SMF's parameters to the AMF's N1-only case. *)
Lemma transfer_one_eq supi psi m sess a :
  session_of supi psi a = Some sess ->
  transfer_one supi psi m a =
  (handle_n1_only supi psi sess (Some m);;; ret OGS_SBI_HTTP_STATUS_OK) a.
Proof.
  unfold session_of. intros Hs. unfold transfer_one.
  assert (smf_namf_comm_build_n1_n2_message_transfer supi psi (secondary_auth_param m) = Ok {|
    req_supi := Some supi; req_pdu_session_id := Some psi; n1_message_container := Some (Some m);
    n2_info_container := None; req_notif_uri := false; req_skip_ind := false |}) as -> by done.
  unfold amf_namf_comm_handle_n1_n2_message_transfer.
  cbn [req_pdu_session_id req_supi n1_message_container n2_info_container default].
  unfold bind at 1, gets, id. destruct (sessions a !! supi) as [ue|]; [|done].
  cbn in Hs. by rewrite Hs.
Qed.

Lemma auth_n1_true m : is_auth_n1 m ->
  (3 <? zlen m) && ((byte_at m 3 =? OGS_NAS_5GS_PDU_SESSION_AUTHENTICATION_COMMAND) ||
                    (byte_at m 3 =? OGS_NAS_5GS_PDU_SESSION_AUTHENTICATION_RESULT)) = true.
Proof.
  intros [Hl Ht]. rewrite (proj2 (Z.ltb_lt _ _) Hl). by destruct Ht as [-> | ->].
Qed.

Lemma transfer_auth supi psi m sess a :
  session_of supi psi a = Some sess -> is_auth_n1 m ->
  (forall ran, ran_ue sess = Some ran -> ran_takes ran psi m) ->
  transfer_one supi psi m a =
  (Ok OGS_SBI_HTTP_STATUS_OK,
   match ran_ue sess with Some _ => sent_down [transport psi m] a | None => a end).
Proof.
  intros Hs Hm Hr. rewrite (transfer_one_eq supi psi m sess a Hs). unfold handle_n1_only.
  rewrite (auth_n1_true m Hm). unfold nas_5gs_send_dl_nas_transport.
  destruct (ran_ue sess) as [ran|] eqn:Er; [|done].
  destruct (Hr ran eq_refl) as (g & Hg & Hsend). unfold transport in Hg.
  unfold bind, amf_assert. cbn [Z.eqb negb ret]. rewrite Hg. unfold modify. rewrite Hsend. done.
Qed.
End one.

(** ** A whole conversation *)
Section conversations.
Context `{E : Env} `{R : Ran} (handle_n2 : ngap_ie_type -> transfer_req -> M amf_t Z).

Fixpoint transfer_all (supi : bytes) (psi : Z) (ms : list bytes) : M amf_t (list Z) :=
  match ms with
  | [] => ret []
  | m :: ms =>
      let! st := transfer_one handle_n2 supi psi m in
      let! sts := transfer_all supi psi ms in
      ret (st :: sts)
  end.

Lemma transfer_all_auth supi psi ms : forall sess a,
  session_of supi psi a = Some sess -> Forall is_auth_n1 ms ->
  (forall ran m, ran_ue sess = Some ran -> m ∈ ms -> ran_takes ran psi m) ->
  transfer_all supi psi ms a =
  (Ok (repeat OGS_SBI_HTTP_STATUS_OK (length ms)),
   match ran_ue sess with Some _ => sent_down (map (transport psi) ms) a | None => a end).
Proof.
  induction ms as [|m ms IH]; intros sess a Hs Hm Hr; cbn [transfer_all].
  { destruct (ran_ue sess); [|done]. unfold sent_down. cbn [map]. rewrite app_nil_r. by destruct a. }
  inversion Hm as [|? ? Hm1 Hm2]; subst. unfold bind at 1.
  rewrite (transfer_auth handle_n2 supi psi m sess a Hs Hm1) by (intros ran Hran; apply Hr; [done|left]).
  set (a1 := match ran_ue sess with Some _ => _ | None => _ end).
  assert (Hs1 : session_of supi psi a1 = Some sess) by (unfold a1; by destruct (ran_ue sess)).
  unfold bind. rewrite (IH sess a1 Hs1 Hm2) by (intros ran m' Hran Hin; apply Hr; [done|by right]).
  unfold a1. destruct (ran_ue sess); [|done]. unfold sent_down. cbn [map sessions downlink].
  by rewrite <-app_assoc.
Qed.

(** The specification only sends Commands and Results. *)
Definition is_auth_body (b : gsm_body) : Prop :=
  match b with AuthCommand _ _ | AuthResult _ _ => True | _ => False end.

Lemma follow_auth v : Forall is_auth_body (snd (follow v)).
Proof. destruct v; by repeat constructor. Qed.

Lemma spec_event_auth ask idr e a a' outs :
  spec_event ask idr e a = Some (a', outs) -> Forall is_auth_body outs.
Proof.
  destruct e; cbn [spec_event]; [by intros [= _ <-]..| |].
  - destruct (pending a), (conversation a); intros [= _ <-]; try constructor. apply follow_auth.
  - destruct (conversation a); [done|]. intros [= _ <-]. destruct (_ =? 0);
      [apply (follow_auth (Final None))|apply follow_auth].
Qed.

Lemma spec_run_auth ask idr es : forall a a' outs,
  spec_run ask idr es a = Some (a', outs) -> Forall is_auth_body outs.
Proof.
  induction es as [|e es IH]; intros a a' outs; cbn [spec_run]; [by intros [= _ <-]|].
  destruct (spec_event _ _ e a) as [[a1 o1]|] eqn:E1; [|done]. cbn [mbind option_bind].
  destruct (spec_run _ _ es a1) as [[a2 o2]|] eqn:E2; [|done]. cbn [mbind option_bind].
  intros [= _ <-]. apply Forall_app. split; [by eapply spec_event_auth|by eapply IH].
Qed.

Lemma n1_bytes_auth s b : is_auth_body b -> is_auth_n1 (n1_bytes s b).
Proof.
  intros Hb. unfold is_auth_n1, n1_bytes, message_bytes. rewrite zlen_app.
  change (zlen [_; _; _; _]) with 4. pose proof (zlen_nonneg (body_bytes b)). cbn [gsm_b].
  split; [lia|]. destruct b; try done; [by left|by right].
Qed.

(** C28: whatever events a session of the SMF goes through, each message of its
    secondary authentication is accepted by the AMF with status 200 and forwarded
    to the UE unchanged, in order, in a DL NAS transport of that PDU session without
    a cause, and the AMF keeps the session; when the UE has no RAN context the AMF
    still answers 200 and the messages are lost. *)
Theorem secauth_delivered es s a outs amf sess :
  spec_run (relay (supi s)) (identity_response (supi s)) es (view s) = Some (a, outs) ->
  session_of (supi s) (psi s) amf = Some sess ->
  (forall ran b, ran_ue sess = Some ran -> b ∈ outs -> ran_takes ran (psi s) (n1_bytes s b)) ->
  exists s' amf' ms, run es s = (Ok tt, s') /\ n1 s' = n1 s ++ ms /\ ms = map (n1_bytes s) outs /\
    transfer_all (supi s) (psi s) ms amf =
      (Ok (repeat OGS_SBI_HTTP_STATUS_OK (length ms)), amf') /\
    sessions amf' = sessions amf /\
    downlink amf' = downlink amf ++
      match ran_ue sess with Some _ => map (transport (psi s)) ms | None => [] end.
Proof.
  intros Hspec Hs Hr. pose proof (spec_run_auth _ _ _ _ _ _ Hspec) as Hauth.
  destruct (run_refines es s a outs Hspec) as (s' & Hrun & _ & Hn & _).
  exists s', (match ran_ue sess with
              | Some _ => sent_down (map (transport (psi s)) (map (n1_bytes s) outs)) amf
              | None => amf
              end), (map (n1_bytes s) outs).
  do 3 (split; [done|]). split; [|by destruct (ran_ue sess); rewrite ?app_nil_r].
  apply transfer_all_auth; [done| |].
  - apply Forall_map. eapply Forall_impl; [exact Hauth|]. intros b. apply n1_bytes_auth.
  - intros ran m Hran (b & -> & Hb)%list_elem_of_fmap. by apply Hr.
Qed.
End conversations.

(** Any other message without an N2 container ends the session at the AMF. *)
Lemma other_n1_removes `{R : Ran} handle_n2 supi psi m sess a ran :
  session_of supi psi a = Some sess -> ran_ue sess = Some ran -> ran_takes ran psi m ->
  ~ is_auth_n1 m ->
  exists a', transfer_one handle_n2 supi psi m a = (Ok OGS_SBI_HTTP_STATUS_OK, a') /\
    session_of supi psi a' = None /\ downlink a' = downlink a ++ [transport psi m].
Proof.
  intros Hs Hran (g & Hg & Hsend) Hm. unfold transport in Hg.
  rewrite (transfer_one_eq handle_n2 supi psi m sess a Hs). unfold handle_n1_only.
  assert ((3 <? zlen m) && ((byte_at m 3 =? OGS_NAS_5GS_PDU_SESSION_AUTHENTICATION_COMMAND) ||
    (byte_at m 3 =? OGS_NAS_5GS_PDU_SESSION_AUTHENTICATION_RESULT)) = false) as ->.
  { apply not_true_iff_false. intros H. apply Hm. apply andb_true_iff in H as [H1 H2].
    apply orb_true_iff in H2. rewrite !Z.eqb_eq in H2. split; [by apply Z.ltb_lt|done]. }
  unfold nas_5gs_send_gsm_reject. rewrite Hran. unfold nas_5gs_send_dl_nas_transport. rewrite Hran.
  unfold bind, amf_assert. cbn [Z.eqb negb ret]. rewrite Hg. unfold modify. rewrite Hsend.
  eexists. split; [done|]. unfold session_of. cbn [sessions downlink]. split; [|done].
  rewrite lookup_alter_eq. destruct (sessions a !! supi) as [ue|]; [|done]. cbn.
  apply lookup_delete_eq.
Qed.

Module ToyAmf.
#[export] Instance ran : Ran := {|
  nas_5gs_security_encode := fun dl => Some (pdu_session_id dl :: payload_container dl);
  nas_5gs_send_to_downlink_nas_transport := fun _ _ => OGS_OK |}.
Definition start : amf_t := {|
  sessions := {[ ToyChain.user := {[ 1 := {| ran_ue := Some 7 |} ]} ]}; downlink := [] |}.
Definition outs : list gsm_body :=
  [AuthCommand [1; 2; 0; 4] None; AuthCommand [1; 2; 0; 4] None; AuthResult None None].
End ToyAmf.

Lemma secauth_delivered_witness :
  exists s' amf' ms,
    run (E := ToyChain.env) ToySession.events ToySession.s0 = (Ok tt, s') /\
    n1 s' = n1 ToySession.s0 ++ ms /\ ms = map (n1_bytes ToySession.s0) ToyAmf.outs /\
    transfer_all (R := ToyAmf.ran) (fun _ _ => fail OGS_ERROR) ToyChain.user 1 ms ToyAmf.start =
      (Ok (repeat OGS_SBI_HTTP_STATUS_OK (length ms)), amf') /\
    sessions amf' = sessions ToyAmf.start /\
    downlink amf' = [] ++ map (transport 1) ms.
Proof.
  apply (secauth_delivered (E := ToyChain.env) (R := ToyAmf.ran) (fun _ _ => fail OGS_ERROR)
    ToySession.events ToySession.s0
    {| armed := false; pending := 0; conversation := Idle |} ToyAmf.outs ToyAmf.start
    {| ran_ue := Some 7 |}).
  - vm_compute. reflexivity.
  - vm_compute. reflexivity.
  - intros ran b _ _. eexists. split; reflexivity.
Defined.
