(* ===== verification/BenchRadius.v ===== *)
(** * BenchRadius: the RADIUS client of benchmark/e2e_radius_bench.c

    Packet assembly and parsing, the exchange with emulated loss, and one full
    handshake around the EAP engine of EapPeer.  Not modelled: the clock and the
    durations computed from it, and [main] (options, statistics, CSV). *)
From stdpp Require Import base numbers list option strings.
From Stdlib Require Import ZArith Lia.
From S2P Require Import Prelude Crypto Files Frag EapPeer.
Local Open Scope c_scope.

Definition RAD_ACCESS_REQUEST : Z := 1.
Definition RAD_ACCESS_ACCEPT : Z := 2.
Definition RAD_ACCESS_REJECT : Z := 3.
Definition RAD_ACCESS_CHALLENGE : Z := 11.
Definition RAD_ATTR_USER_NAME : Z := 1.
Definition RAD_ATTR_NAS_IP_ADDRESS : Z := 4.
Definition RAD_ATTR_NAS_PORT : Z := 5.
Definition RAD_ATTR_STATE : Z := 24.
Definition RAD_ATTR_EAP_MESSAGE : Z := 79.
Definition RAD_ATTR_MESSAGE_AUTH : Z := 80.
Definition EAP_CODE_REQUEST : Z := 1.
Definition EAP_CODE_RESPONSE : Z := 2.
Definition EAP_TYPE_IDENTITY : Z := 1.
Definition EAP_TYPE_EDHOC : Z := 56.
Definition RAD_MAX_PKT : Z := 4096.
Definition EAP_CHUNK : Z := 253.

(** The defaults of the configuration; [main] can replace them. *)
Record config := {
  g_secret : bytes;
  g_creddir : string;
  g_identity : bytes;
  g_max_retx : nat
}.

(** OpenSSL's HMAC with MD5: 16 bytes. *)
Class OpenSSL := { HMAC_md5 : bytes -> bytes -> bytes }.
Class OpenSSLLaws (O : OpenSSL) : Prop :=
  { zlen_HMAC_md5 key data : zlen (HMAC_md5 key data) = 16 }.

(** The socket and libc's generator.  [drop] is the emulated loss of one datagram,
    [send] whether the datagram could be sent, [recv] what arrived within two
    seconds, if more than nothing did. *)
Class Net := {
  net : Type;
  rand_byte : net -> Z * net;
  drop : net -> bool * net;
  net_connect : bool;
  net_send : bytes -> net -> bool * net;
  net_recv : net -> option bytes * net
}.

(** ** Packet assembly: [buf] is what was written so far *)
Definition put_attr (buf : bytes) (type : Z) (val : bytes) : res bytes :=
  let out := buf ++ [type; u8 (zlen val + 2)] ++ val in
  if RAD_MAX_PKT <? zlen out then Fault else Ok out.

Definition res_bind {A B} (r : res A) (k : A -> res B) : res B :=
  match r with Ok a => k a | Err rc => Err rc | Fault => Fault end.
Notation "'do' x <- r ; k" := (res_bind r (fun x => k))
  (at level 10, x name, r at level 100, k at level 200) : c_scope.

(** The [do ... while] loop: at least one EAP-Message. *)
Fixpoint put_eap (n : nat) (buf eap : bytes) : res bytes :=
  match n with
  | O => Ok buf
  | S n =>
      let chunk := if EAP_CHUNK <? zlen eap then EAP_CHUNK else zlen eap in
      do buf <- put_attr buf RAD_ATTR_EAP_MESSAGE (ztake chunk eap);
      let eap := zdrop chunk eap in
      if 0 <? zlen eap then put_eap n buf eap else Ok buf
  end.

Section bench.
Context `{SSL : OpenSSL} (cfg : config).

Definition build_access_request (id : Z) (auth eap : bytes) (state : option bytes) : res bytes :=
  do attrs <- put_attr [] RAD_ATTR_USER_NAME (g_identity cfg);
  do attrs <- put_attr attrs RAD_ATTR_NAS_IP_ADDRESS [127; 0; 0; 1];
  do attrs <- put_attr attrs RAD_ATTR_NAS_PORT [0; 0; 0; 1];
  do attrs <- (match state with
               | Some st => if zlen st =? 0 then Ok attrs else put_attr attrs RAD_ATTR_STATE st
               | None => Ok attrs
               end);
  do attrs <- put_eap (S (length eap)) attrs eap;
  let ma_off_in_attrs := zlen attrs in
  do attrs <- put_attr attrs RAD_ATTR_MESSAGE_AUTH (zreplicate 16 0);
  let plen := 20 + zlen attrs in
  let pkt := [RAD_ACCESS_REQUEST; id; u8 (Z.shiftr plen 8); u8 (Z.land plen 0xff)] ++ auth ++ attrs in
  if RAD_MAX_PKT <? zlen pkt then Fault
  else Ok (splice pkt (20 + ma_off_in_attrs + 2) (HMAC_md5 (g_secret cfg) pkt)).

(** ** Parsing: the EAP payload and State written to the caller's arrays *)
Fixpoint parse_reply_loop (n : nat) (pkt : bytes) (pos : Z) (eap state : bytes)
    : res (bytes * bytes) :=
  match n with
  | O => Ok (eap, state)
  | S n =>
      if pos + 2 <=? zlen pkt then
        let t := byte_at pkt pos in
        let l := byte_at pkt (pos + 1) in
        if (l <? 2) || (zlen pkt <? pos + l) then Ok (eap, state)
        else
          let v := sub pkt (pos + 2) (l - 2) in
          if t =? RAD_ATTR_EAP_MESSAGE then
            if RAD_MAX_PKT <? zlen eap + zlen v then Fault
            else parse_reply_loop n pkt (pos + l) (eap ++ v) state
          else if t =? RAD_ATTR_STATE then
            if 256 <? zlen v then Fault
            else parse_reply_loop n pkt (pos + l) eap v
          else parse_reply_loop n pkt (pos + l) eap state
      else Ok (eap, state)
  end.

(** The code, EAP payload and State. *)
Definition parse_reply (pkt : bytes) : res (Z * bytes * bytes) :=
  if zlen pkt <? 20 then Err (-1)
  else
    do es <- parse_reply_loop (length pkt) pkt 20 [] [];
    Ok (byte_at pkt 0, fst es, snd es).

(** ** One exchange *)
Context `{W : Net}.

(** The result also counts the retransmissions. *)
Fixpoint rad_exchange_loop (tries : nat) (req : bytes) (retx : Z) (w : net)
    : res bytes * (Z * net) :=
  match tries with
  | O => (Err (-1), (retx, w))
  | S tries =>
      let '(drop_out, w) := drop w in
      if drop_out : bool then rad_exchange_loop tries req (retx + 1) w
      else
        let '(sent, w) := net_send req w in
        if negb sent then (Err (-1), (retx, w))
        else
          let '(got, w) := net_recv w in
          match got with
          | Some resp =>
              let '(drop_in, w) := drop w in
              if negb drop_in then (Ok (ztake RAD_MAX_PKT resp), (retx, w))
              else rad_exchange_loop tries req (retx + 1) w
          | None => rad_exchange_loop tries req (retx + 1) w
          end
  end.
Definition rad_exchange (req : bytes) (retx : Z) (w : net) : res bytes * (Z * net) :=
  rad_exchange_loop (S (g_max_retx cfg)) req retx w.

(** ** One handshake *)
Record result_t := {
  ok : Z;
  radius_rt : Z;
  eap_rt : Z;
  access_req : Z;
  access_chal : Z;
  access_accept : Z;
  access_reject : Z;
  retx : Z;
  r_msg_bytes : list Z;
  r_msg_frags : list Z
}.
Definition zero_result : result_t := {|
  ok := 0; radius_rt := 0; eap_rt := 0; access_req := 0; access_chal := 0; access_accept := 0;
  access_reject := 0; retx := 0; r_msg_bytes := zreplicate 5 0; r_msg_frags := zreplicate 5 0 |}.
Definition count_request (r : result_t) : result_t := {|
  ok := ok r; radius_rt := radius_rt r + 1; eap_rt := eap_rt r + 1; access_req := access_req r + 1;
  access_chal := access_chal r; access_accept := access_accept r;
  access_reject := access_reject r; retx := retx r;
  r_msg_bytes := r_msg_bytes r; r_msg_frags := r_msg_frags r |}.
Definition count_reply (code : Z) (r : result_t) : result_t := {|
  ok := ok r; radius_rt := radius_rt r; eap_rt := eap_rt r; access_req := access_req r;
  access_chal := access_chal r + (if code =? RAD_ACCESS_CHALLENGE then 1 else 0);
  access_accept := access_accept r + (if code =? RAD_ACCESS_ACCEPT then 1 else 0);
  access_reject := access_reject r + (if code =? RAD_ACCESS_REJECT then 1 else 0);
  retx := retx r; r_msg_bytes := r_msg_bytes r; r_msg_frags := r_msg_frags r |}.

(** [eap] around a payload: code 2, identifier, length, type. *)
Definition eap_response (id type : Z) (data : bytes) : res bytes :=
  let len := 5 + zlen data in
  if RAD_MAX_PKT <? len then Fault
  else Ok ([EAP_CODE_RESPONSE; id; u8 (Z.shiftr len 8); u8 (Z.land len 0xff); type] ++ data).

Fixpoint rand_bytes (n : nat) (w : net) : bytes * net :=
  match n with
  | O => ([], w)
  | S n => let '(b, w) := rand_byte w in
           let '(bs, w) := rand_bytes n w in (u8 b :: bs, w)
  end.

Context `{C : Crypto}.

(** The handshake's variables: the engine, libsodium's randomness, the result so
    far, the RADIUS identifier and State, the retransmission counter, the network. *)
Record bench := {
  b_eng : st eng_t;
  b_result : result_t;
  rad_id : Z;
  b_state : bytes;
  g_retx : Z;
  b_net : net
}.

(** Send one EAP response and wait for the reply. *)
Definition send_eap (id : Z) (eap : bytes) (b : bench) : res bytes * bench :=
  let '(auth, w) := rand_bytes 16 (b_net b) in
  match build_access_request id auth eap (Some (b_state b)) with
  | Fault => (Fault, b)
  | Err rc => (Err rc, b)
  | Ok req =>
      let '(resp, (rx, w)) := rad_exchange req (g_retx b) w in
      (resp, {| b_eng := b_eng b; b_result := count_request (b_result b); rad_id := id;
                b_state := b_state b; g_retx := rx; b_net := w |})
  end.

(** How the loop over replies ends: [Stopped] is one of the early [return -1], and
    the fields otherwise are [e.done] and [e.failed]. *)
Inductive ending := Stopped | Ended (done failed : bool).

Definition set_b_result (r : result_t) (b : bench) : bench := {|
  b_eng := b_eng b; b_result := r; rad_id := rad_id b; b_state := b_state b;
  g_retx := g_retx b; b_net := b_net b |}.

(** One round of the loop on a challenge: the next reply, or the end. *)
Definition on_challenge (reap rstate : bytes) (b : bench) : (res bytes * bench) + (ending * bench) :=
  let st := if zlen rstate =? 0 then b_state b else rstate in
  if (zlen reap <? 5) || negb (byte_at reap 0 =? EAP_CODE_REQUEST) then inr (Stopped, b)
  else if negb (byte_at reap 4 =? EAP_TYPE_EDHOC) then inr (Stopped, b)
  else
    match eng_react (Some (zdrop 5 reap)) (b_eng b) with
    | (Fault, _) => inl (Fault, b)
    | (Err _, s) =>
        inr (Ended false true, {| b_eng := s; b_result := b_result b; rad_id := rad_id b;
                                  b_state := st; g_retx := g_retx b; b_net := b_net b |})
    | (Ok wire, s) =>
        match eap_response (byte_at reap 1) EAP_TYPE_EDHOC wire with
        | Ok eap =>
            inl (send_eap (u8 (rad_id b + 1)) eap
                   {| b_eng := s; b_result := b_result b; rad_id := rad_id b; b_state := st;
                      g_retx := g_retx b; b_net := b_net b |})
        | _ => inl (Fault, b)
        end
    end.

(** The [for (;;)] loop from a reply on; [None] when the fuel runs out, since the
    code sets no limit on the number of challenges. *)
Fixpoint handshake_loop (n : nat) (resp : bytes) (b : bench) : option (res ending * bench) :=
  match n with
  | O => None
  | S n =>
      match parse_reply resp with
      | Fault => Some (Fault, b)
      | Err _ => Some (Ok Stopped, b)
      | Ok (code, reap, rstate) =>
          let b := set_b_result (count_reply code (b_result b)) b in
          if code =? RAD_ACCESS_ACCEPT then Some (Ok (Ended true false), b)
          else if code =? RAD_ACCESS_REJECT then Some (Ok (Ended false true), b)
          else if negb (code =? RAD_ACCESS_CHALLENGE) then Some (Ok Stopped, b)
          else
            match on_challenge reap rstate b with
            | inr (e, b) => Some (Ok e, b)
            | inl (Ok resp, b) => handshake_loop n resp b
            | inl (Err _, b) => Some (Ok Stopped, b)
            | inl (Fault, b) => Some (Fault, b)
            end
      end
  end.

Definition finish_handshake (e : ending) (b : bench) : Z * result_t :=
  match e with
  | Stopped => (-1, b_result b)
  | Ended done failed =>
      let r := b_result b in
      let e := fst (b_eng b) in
      let good := done && negb failed in
      ((if good then 0 else -1),
       {| ok := if good then 1 else 0; radius_rt := radius_rt r; eap_rt := eap_rt r;
          access_req := access_req r; access_chal := access_chal r;
          access_accept := access_accept r; access_reject := access_reject r;
          retx := g_retx b; r_msg_bytes := EapPeer.msg_bytes e; r_msg_frags := EapPeer.msg_frags e |})
  end.

(** The return value, the result and the engine that is left. *)
Definition run_handshake (fuel : nat) (m : Z) (fs : filesystem) (rg : rng) (w : net)
    : option (res (Z * result_t) * bench) :=
  let '(rc, e) := load_creds (g_creddir cfg) fs (zero_eng m) in
  let b0 := {| b_eng := (e, rg); b_result := zero_result; rad_id := 0; b_state := []; g_retx := 0;
               b_net := w |} in
  if negb (rc =? 0) then Some (Ok (-1, zero_result), b0)
  else if negb net_connect then Some (Ok (-1, zero_result), b0)
  else
    let '(id, w) := rand_byte w in
    match eap_response 1 EAP_TYPE_IDENTITY (g_identity cfg) with
    | Fault => Some (Fault, b0)
    | Err _ => Some (Fault, b0)
    | Ok eap =>
        let b := {| b_eng := (e, rg); b_result := zero_result; rad_id := u8 id; b_state := [];
                    g_retx := 0; b_net := w |} in
        match send_eap (u8 id) eap b with
        | (Fault, b) => Some (Fault, b)
        | (Err _, b) => Some (Ok (-1, b_result b), b)
        | (Ok resp, b) =>
            r ← handshake_loop fuel resp b;
            match r with
            | (Ok e, b) => Some (Ok (finish_handshake e b), b)
            | (Err rc, b) => Some (Err rc, b)
            | (Fault, b) => Some (Fault, b)
            end
        end
    end.
End bench.

Definition method_name (m : Z) : string :=
  match m with
  | 0 => "SIG/SIG"
  | 1 => "SIG/STAT"
  | 2 => "STAT/SIG"
  | 3 => "STAT/STAT"
  | 4 => "SIGMA-XWING-PQC"
  | _ => "?"
  end.
