(* ===== verification/BenchFacts.v ===== *)
(** * BenchFacts: the benchmark's RADIUS client

    What a server reads in its requests, what it reads in a reply, that neither
    overruns an array, and the counters of a handshake over any network. *)
From stdpp Require Import base numbers list option strings.
From Stdlib Require Import ZArith Lia.
From S2P Require Import Prelude Crypto Files Frag RadiusAttr EapPeer PeerFacts BenchRadius.

(** ** Assembly *)
Lemma put_attr_eq buf t v :
  zlen v <= 253 ->
  put_attr buf t v =
  if zlen (buf ++ encode_attr (t, v)) <=? RAD_MAX_PKT then Ok (buf ++ encode_attr (t, v)) else Fault.
Proof.
  intros Hv. pose proof (zlen_nonneg v). unfold put_attr, encode_attr. cbn [fst snd].
  rewrite u8_small by (unfold is_byte; lia). set (out := buf ++ _).
  destruct (Z.ltb_spec RAD_MAX_PKT (zlen out)), (Z.leb_spec (zlen out) RAD_MAX_PKT); try done; lia.
Qed.

(** Writing a list of attributes: only the final size counts. *)
Definition puts (buf : bytes) (l : list attr) : res bytes :=
  if zlen (buf ++ encode_attrs l) <=? RAD_MAX_PKT then Ok (buf ++ encode_attrs l) else Fault.

Lemma puts_then {A} buf l1 l2 (f k : bytes -> res A) :
  (forall b, f b = res_bind (puts b l2) k) ->
  res_bind (puts buf l1) f = res_bind (puts buf (l1 ++ l2)) k.
Proof.
  intros H. unfold puts at 1 2. rewrite encode_attrs_app, app_assoc.
  destruct (Z.leb_spec (zlen (buf ++ encode_attrs l1)) RAD_MAX_PKT) as [Hle|Hgt]; cbn [res_bind].
  { by rewrite H. }
  rewrite zlen_app. pose proof (zlen_nonneg (encode_attrs l2)).
  by destruct (Z.leb_spec (zlen (buf ++ encode_attrs l1) + zlen (encode_attrs l2)) RAD_MAX_PKT); [lia|].
Qed.
Lemma res_bind_ret {A} (r : res A) : res_bind r Ok = r.
Proof. by destruct r. Qed.

Lemma put_attr_puts b t v : zlen v <= 253 -> put_attr b t v = puts b [(t, v)].
Proof.
  intros Hv. rewrite put_attr_eq by done. unfold puts. rewrite encode_attrs_cons.
  change (encode_attrs []) with (@nil Z). by rewrite app_nil_r.
Qed.

(** The EAP message in pieces; an empty one still takes an attribute. *)
Definition eap_attrs (eap : bytes) : list attr :=
  if zlen eap =? 0 then [(RAD_ATTR_EAP_MESSAGE, [])] else attrs_of RAD_ATTR_EAP_MESSAGE eap.

Lemma put_eap_cut n : forall b eap,
  0 < zlen eap -> (length eap <= n)%nat ->
  put_eap n b eap = puts b (cut n RAD_ATTR_EAP_MESSAGE eap).
Proof.
  induction n as [|n IH]; intros b eap Hp Hn; [unfold zlen in Hp; lia|]. cbn [put_eap cut].
  destruct (Z.eqb_spec (zlen eap) 0); [lia|]. change EAP_CHUNK with 253.
  set (chunk := if 253 <? zlen eap then 253 else zlen eap).
  assert (Hc : ztake chunk eap = ztake 253 eap /\ zdrop chunk eap = zdrop 253 eap).
  { unfold chunk. destruct (Z.ltb_spec 253 (zlen eap)); [done|].
    by rewrite !ztake_all, !zdrop_all by lia. }
  destruct Hc as [-> ->]. pose proof (zlen_zdrop253 eap Hp) as Hd.
  rewrite put_attr_puts by (rewrite zlen_ztake; lia).
  destruct (Z.ltb_spec 0 (zlen (zdrop 253 eap))) as [Hmore|Hlast].
  - etransitivity; [|apply res_bind_ret].
    apply (puts_then b [(RAD_ATTR_EAP_MESSAGE, ztake 253 eap)]
      (cut n RAD_ATTR_EAP_MESSAGE (zdrop 253 eap))).
    intros b'. rewrite res_bind_ret. apply IH; [done|lia].
  - assert (zdrop 253 eap = []) as -> by (apply zlen_0_nil; pose proof (zlen_nonneg (zdrop 253 eap)); lia).
    assert (cut n RAD_ATTR_EAP_MESSAGE [] = []) as -> by by destruct n.
    by destruct (puts b _).
Qed.

Lemma put_eap_eq b eap : put_eap (S (length eap)) b eap = puts b (eap_attrs eap).
Proof.
  unfold eap_attrs. destruct (Z.eqb_spec (zlen eap) 0) as [H0|Hn].
  - apply zlen_0_nil in H0 as ->. cbn [put_eap length].
    change (ztake _ []) with (@nil Z). rewrite put_attr_puts by done. by destruct (puts b _).
  - pose proof (zlen_nonneg eap). rewrite put_eap_cut by lia. unfold attrs_of.
    assert (Hcut : forall n v, (length v <= n)%nat -> cut (S n) RAD_ATTR_EAP_MESSAGE v = cut n RAD_ATTR_EAP_MESSAGE v).
    { induction n as [|n IH]; intros v Hv; [by destruct v; [|cbn in Hv; lia]|].
      change (cut (S (S n)) RAD_ATTR_EAP_MESSAGE v) with
        (if zlen v =? 0 then [] else (RAD_ATTR_EAP_MESSAGE, ztake 253 v) :: cut (S n) RAD_ATTR_EAP_MESSAGE (zdrop 253 v)).
      change (cut (S n) RAD_ATTR_EAP_MESSAGE v) with
        (if zlen v =? 0 then [] else (RAD_ATTR_EAP_MESSAGE, ztake 253 v) :: cut n RAD_ATTR_EAP_MESSAGE (zdrop 253 v)).
      destruct (Z.eqb_spec (zlen v) 0); [done|]. pose proof (zlen_nonneg v).
      pose proof (zlen_zdrop253 v ltac:(lia)). by rewrite IH by lia. }
    by rewrite Hcut.
Qed.

Section requests.
Context `{SSL : OpenSSL} (cfg : config).

Definition bench_attrs (eap st : bytes) : list attr :=
  [(RAD_ATTR_USER_NAME, g_identity cfg); (RAD_ATTR_NAS_IP_ADDRESS, [127; 0; 0; 1]);
   (RAD_ATTR_NAS_PORT, [0; 0; 0; 1])] ++
  (if zlen st =? 0 then [] else [(RAD_ATTR_STATE, st)]) ++ eap_attrs eap.

(** The packet around attributes, the Message-Authenticator last. *)
Definition bench_packet (id : Z) (auth : bytes) (l : list attr) : bytes :=
  let mac := HMAC_md5 (g_secret cfg) (packet RAD_ACCESS_REQUEST id auth
    (encode_attrs (l ++ [(RAD_ATTR_MESSAGE_AUTH, zreplicate 16 0)]))) in
  packet RAD_ACCESS_REQUEST id auth (encode_attrs (l ++ [(RAD_ATTR_MESSAGE_AUTH, mac)])).

Lemma be16_shift x : 0 <= x < 65536 -> [u8 (Z.shiftr x 8); u8 (Z.land x 0xff)] = be16 x.
Proof.
  intros H. unfold be16. rewrite Z.shiftr_div_pow2 by lia. change 0xff with (Z.ones 8).
  rewrite Z.land_ones by lia. change (2 ^ 8) with 256. unfold u8. by rewrite Z.mod_mod.
Qed.

(** All but the last attribute. *)
Lemma put_bench_attrs (eap st : bytes) (k : bytes -> res bytes) :
  zlen (g_identity cfg) <= 253 -> zlen st <= 253 ->
  res_bind (put_attr [] RAD_ATTR_USER_NAME (g_identity cfg)) (fun attrs =>
  res_bind (put_attr attrs RAD_ATTR_NAS_IP_ADDRESS [127; 0; 0; 1]) (fun attrs =>
  res_bind (put_attr attrs RAD_ATTR_NAS_PORT [0; 0; 0; 1]) (fun attrs =>
  res_bind (if zlen st =? 0 then Ok attrs else put_attr attrs RAD_ATTR_STATE st) (fun attrs =>
  res_bind (put_eap (S (length eap)) attrs eap) k)))) =
  res_bind (puts [] (bench_attrs eap st)) k.
Proof.
  intros Hi Hs.
  change (bench_attrs eap st) with
    ([(RAD_ATTR_USER_NAME, g_identity cfg)] ++ [(RAD_ATTR_NAS_IP_ADDRESS, [127; 0; 0; 1])] ++
     [(RAD_ATTR_NAS_PORT, [0; 0; 0; 1])] ++
     (if zlen st =? 0 then [] else [(RAD_ATTR_STATE, st)]) ++ eap_attrs eap).
  rewrite put_attr_puts by done. apply puts_then. intros b1.
  rewrite put_attr_puts by done. apply puts_then. intros b2.
  rewrite put_attr_puts by done. apply puts_then. intros b3.
  destruct (zlen st =? 0); [cbn [res_bind app]; by rewrite put_eap_eq|].
  rewrite put_attr_puts by done. apply puts_then. intros b4. by rewrite put_eap_eq.
Qed.

(** The digest written over its placeholder. *)
Lemma sign_bench_packet `{!OpenSSLLaws SSL} id auth l :
  zlen auth = 16 -> 38 + zlen (encode_attrs l) < 65536 ->
  let attrs := encode_attrs l ++ encode_attr (RAD_ATTR_MESSAGE_AUTH, zreplicate 16 0) in
  let plen := 20 + zlen attrs in
  let pkt := [RAD_ACCESS_REQUEST; id; u8 (Z.shiftr plen 8); u8 (Z.land plen 0xff)] ++ auth ++ attrs in
  zlen pkt = 38 + zlen (encode_attrs l) /\
  splice pkt (20 + zlen (encode_attrs l) + 2) (HMAC_md5 (g_secret cfg) pkt) = bench_packet id auth l.
Proof.
  intros Ha Hl attrs plen pkt. pose proof (zlen_nonneg (encode_attrs l)).
  assert (Hat : zlen attrs = 18 + zlen (encode_attrs l)).
  { unfold attrs. rewrite zlen_app, zlen_encode_attr. change (zlen (snd _)) with 16. lia. }
  assert (Henc : forall x, encode_attrs (l ++ [(RAD_ATTR_MESSAGE_AUTH, x)]) =
    encode_attrs l ++ encode_attr (RAD_ATTR_MESSAGE_AUTH, x)).
  { intros x. rewrite encode_attrs_app, encode_attrs_cons. change (encode_attrs []) with (@nil Z).
    by rewrite app_nil_r. }
  assert (Hpkt : pkt = packet RAD_ACCESS_REQUEST id auth
    (encode_attrs (l ++ [(RAD_ATTR_MESSAGE_AUTH, zreplicate 16 0)]))).
  { unfold packet. rewrite Henc. fold attrs. fold plen. rewrite <-be16_shift by (unfold plen; lia).
    reflexivity. }
  split; [rewrite Hpkt, zlen_packet, Henc by done; fold attrs; lia|].
  unfold bench_packet. rewrite <-Hpkt. set (mac := HMAC_md5 _ pkt).
  assert (Hmac : zlen mac = 16) by apply zlen_HMAC_md5.
  unfold packet. rewrite Henc.
  assert (zlen (encode_attrs l ++ encode_attr (RAD_ATTR_MESSAGE_AUTH, mac)) = zlen attrs) as ->.
  { rewrite Hat, zlen_app, zlen_encode_attr. cbn [snd]. lia. }
  fold plen. rewrite <-be16_shift by (unfold plen; lia).
  set (pre := [RAD_ACCESS_REQUEST; id; u8 (Z.shiftr plen 8); u8 (Z.land plen 255)] ++ auth ++
    encode_attrs l ++ [RAD_ATTR_MESSAGE_AUTH; 18]).
  transitivity (splice (pre ++ zreplicate 16 0 ++ []) (zlen pre) mac).
  - f_equal.
    + unfold pkt, attrs, pre, encode_attr. cbn [fst snd]. rewrite app_nil_r.
      change (zlen (zreplicate 16 0) + 2) with 18. by rewrite <-!app_assoc.
    + unfold pre. rewrite !zlen_app, Ha. change (zlen [_; _; _; _]) with 4.
      change (zlen [RAD_ATTR_MESSAGE_AUTH; 18]) with 2. lia.
  - rewrite splice_mid by (rewrite ?Hmac; done). unfold pre, encode_attr. cbn [fst snd].
    rewrite Hmac, app_nil_r. change (16 + 2) with 18. by rewrite <-!app_assoc.
Qed.

(** The request, or an overrun of the 4096 byte arrays. *)
Lemma build_access_request_eq `{!OpenSSLLaws SSL} id auth eap st :
  zlen (g_identity cfg) <= 253 -> zlen st <= 253 -> zlen auth = 16 ->
  build_access_request cfg id auth eap (Some st) =
  if 38 + zlen (encode_attrs (bench_attrs eap st)) <=? RAD_MAX_PKT
  then Ok (bench_packet id auth (bench_attrs eap st)) else Fault.
Proof.
  intros Hi Hs Ha. unfold build_access_request.
  etransitivity; [by apply put_bench_attrs|].
  set (l := bench_attrs eap st). pose proof (zlen_nonneg (encode_attrs l)).
  unfold puts. rewrite app_nil_l. change RAD_MAX_PKT with 4096.
  destruct (Z.leb_spec (zlen (encode_attrs l)) 4096) as [H1|H1]; cbn [res_bind].
  2: { by destruct (Z.leb_spec (38 + zlen (encode_attrs l)) 4096); [lia|]. }
  rewrite put_attr_eq by done. change RAD_MAX_PKT with 4096.
  assert (Hz : zlen (encode_attrs l ++ encode_attr (RAD_ATTR_MESSAGE_AUTH, zreplicate 16 0)) =
    18 + zlen (encode_attrs l)).
  { rewrite zlen_app, zlen_encode_attr. change (zlen (snd _)) with 16. lia. }
  destruct (Z.leb_spec (zlen (encode_attrs l ++ encode_attr (RAD_ATTR_MESSAGE_AUTH, zreplicate 16 0)))
    4096); cbn [res_bind].
  2: { by destruct (Z.leb_spec (38 + zlen (encode_attrs l)) 4096); [lia|]. }
  cbv zeta. destruct (sign_bench_packet id auth l Ha ltac:(lia)) as [-> ->].
  by destruct (Z.ltb_spec 4096 (38 + zlen (encode_attrs l))),
    (Z.leb_spec (38 + zlen (encode_attrs l)) 4096); try lia.
Qed.

Lemma bench_attrs_ok eap st :
  zlen (g_identity cfg) <= 253 -> zlen st <= 253 -> Forall attr_ok (bench_attrs eap st).
Proof.
  intros Hi Hs. zlen_pos. unfold bench_attrs. rewrite !Forall_app. unfold attr_ok. split_and!.
  - repeat (apply Forall_cons_2; [cbn [snd]; done|]). constructor.
  - destruct (zlen st =? 0); [constructor|]. by apply Forall_cons_2.
  - unfold eap_attrs. destruct (zlen eap =? 0); [by apply Forall_cons_2|apply attrs_of_ok].
Qed.

Lemma values_eap_attrs eap : values RAD_ATTR_EAP_MESSAGE (eap_attrs eap) = eap.
Proof.
  unfold eap_attrs. destruct (Z.eqb_spec (zlen eap) 0) as [H|_]; [by apply zlen_0_nil in H as ->|].
  apply values_attrs_of.
Qed.
Lemma values_eap_attrs_ne t eap : t <> RAD_ATTR_EAP_MESSAGE -> values t (eap_attrs eap) = [].
Proof.
  intros H. unfold eap_attrs. destruct (zlen eap =? 0); [by rewrite values_cons_ne|].
  by apply values_attrs_of_ne.
Qed.

Lemma values_bench eap st :
  values RAD_ATTR_USER_NAME (bench_attrs eap st) = g_identity cfg /\
  values RAD_ATTR_STATE (bench_attrs eap st) = st /\
  values RAD_ATTR_EAP_MESSAGE (bench_attrs eap st) = eap.
Proof.
  set (st_attrs := if zlen st =? 0 then [] else [(RAD_ATTR_STATE, st)]).
  assert (Hst : values RAD_ATTR_STATE st_attrs = st /\
    forall t, t <> RAD_ATTR_STATE -> values t st_attrs = []).
  { unfold st_attrs. destruct (Z.eqb_spec (zlen st) 0) as [H|_]; [by apply zlen_0_nil in H as ->|].
    rewrite values_cons_eq, app_nil_r. split; [done|]. intros t Ht. by rewrite values_cons_ne. }
  destruct Hst as [Hst Hne]. unfold bench_attrs. fold st_attrs.
  rewrite !values_app, Hst, values_eap_attrs, !values_eap_attrs_ne, !Hne by done.
  set (fixed := [_; _; _]). change (values RAD_ATTR_USER_NAME fixed) with (g_identity cfg ++ []).
  change (values RAD_ATTR_STATE fixed) with (@nil Z).
  change (values RAD_ATTR_EAP_MESSAGE fixed) with (@nil Z). by rewrite !app_nil_r.
Qed.

(** The request as its receiver sees it. *)
Definition bench_read (id : Z) (auth eap st pkt : bytes) : Prop :=
  exists l mac,
    pkt = packet RAD_ACCESS_REQUEST id auth (encode_attrs (l ++ [(RAD_ATTR_MESSAGE_AUTH, mac)])) /\
    scan (Z.to_nat (zlen pkt)) pkt (zlen pkt) 20 = Some (l ++ [(RAD_ATTR_MESSAGE_AUTH, mac)]) /\
    values RAD_ATTR_USER_NAME l = g_identity cfg /\ values RAD_ATTR_STATE l = st /\
    values RAD_ATTR_EAP_MESSAGE l = eap /\ Forall attr_ok l /\
    mac = HMAC_md5 (g_secret cfg) (packet RAD_ACCESS_REQUEST id auth
      (encode_attrs (l ++ [(RAD_ATTR_MESSAGE_AUTH, zreplicate 16 0)]))).

(** For an identity and State that fit one attribute, the benchmark's
    Access-Request is built exactly when it fits its 4096 byte arrays, and a server
    that scans it reads the identity, State and EAP message back, with a
    Message-Authenticator that is the HMAC over the packet with sixteen zeros; a
    longer one overruns the arrays. *)
Theorem build_access_request_spec `{!OpenSSLLaws SSL} id auth eap st :
  zlen (g_identity cfg) <= 253 -> zlen st <= 253 -> zlen auth = 16 ->
  match build_access_request cfg id auth eap (Some st) with
  | Ok pkt => 38 + zlen (encode_attrs (bench_attrs eap st)) <= RAD_MAX_PKT /\
              zlen pkt = 38 + zlen (encode_attrs (bench_attrs eap st)) /\
              bench_read id auth eap st pkt
  | Err _ => False
  | Fault => RAD_MAX_PKT < 38 + zlen (encode_attrs (bench_attrs eap st))
  end.
Proof.
  intros Hi Hs Ha. rewrite build_access_request_eq by done.
  destruct (Z.leb_spec (38 + zlen (encode_attrs (bench_attrs eap st))) RAD_MAX_PKT); [|done].
  split; [done|]. unfold bench_packet. set (mac := HMAC_md5 _ _).
  set (l := bench_attrs eap st). split.
  - rewrite zlen_packet, encode_attrs_app, zlen_app, zlen_encode_cons by done. cbn [snd].
    unfold mac. rewrite zlen_HMAC_md5. change (zlen (encode_attrs [])) with 0. lia.
  - exists l, mac. destruct (values_bench eap st) as (H1 & H2 & H3).
    pose proof (bench_attrs_ok eap st Hi Hs). split_and!; try done.
    pose proof (scan_packet RAD_ACCESS_REQUEST id auth (l ++ [(RAD_ATTR_MESSAGE_AUTH, mac)]) [] Ha
      ltac:(done)) as E. by rewrite app_nil_r in E.
Qed.

(** ** Parsing *)
Lemma parse_reply_loop_eq n : forall pkt pos eap st,
  0 <= pos -> bytes_ok pkt ->
  zlen eap + zlen (encode_attrs (scan_prefix n pkt (zlen pkt) pos)) <= RAD_MAX_PKT ->
  parse_reply_loop n pkt pos eap st =
  let l := scan_prefix n pkt (zlen pkt) pos in
  Ok (eap ++ values RAD_ATTR_EAP_MESSAGE l, last_value RAD_ATTR_STATE l st).
Proof.
  induction n as [|n IH]; intros pkt pos eap st Hp Hok; cbn [parse_reply_loop scan_prefix].
  { intros _. cbn. by rewrite app_nil_r. }
  destruct (Z.leb_spec (pos + 2) (zlen pkt)); [|intros _; cbn; by rewrite app_nil_r].
  set (t := byte_at pkt pos). set (al := byte_at pkt (pos + 1)).
  pose proof (byte_at_ok pkt (pos + 1) Hok) as Hal. fold al in Hal. unfold is_byte in Hal.
  destruct ((al <? 2) || (zlen pkt <? pos + al)) eqn:Ec; [intros _; cbn; by rewrite app_nil_r|].
  apply orb_false_iff in Ec as [H1%Z.ltb_ge H2%Z.ltb_ge].
  set (v := sub pkt (pos + 2) (al - 2)).
  assert (Hv : zlen v = al - 2) by (unfold v; rewrite zlen_sub; lia).
  rewrite zlen_encode_cons. cbn [snd]. intros Hsz.
  pose proof (zlen_nonneg (encode_attrs (scan_prefix n pkt (zlen pkt) (pos + al)))).
  destruct (Z.eqb_spec t RAD_ATTR_EAP_MESSAGE) as [->|He].
  - change RAD_MAX_PKT with 4096 in *. destruct (Z.ltb_spec 4096 (zlen eap + zlen v)); [lia|].
    rewrite IH by (rewrite ?zlen_app; try done; lia). cbv zeta.
    rewrite values_cons_eq. cbn [last_value fst snd]. by rewrite <-app_assoc.
  - rewrite values_cons_ne by done. cbn [last_value fst snd].
    destruct (Z.eqb_spec t RAD_ATTR_STATE) as [->|Hs].
    + destruct (Z.ltb_spec 256 (zlen v)); [lia|]. by rewrite IH by (try done; lia).
    + by rewrite IH by (try done; lia).
Qed.

(** The attributes [parse_reply] sees. *)
Definition reply_prefix (pkt : bytes) : list attr := scan_prefix (length pkt) pkt (zlen pkt) 20.

Lemma parse_reply_eq pkt :
  bytes_ok pkt -> 20 <= zlen pkt <= RAD_MAX_PKT ->
  parse_reply pkt = Ok (byte_at pkt 0, values RAD_ATTR_EAP_MESSAGE (reply_prefix pkt),
                        last_value RAD_ATTR_STATE (reply_prefix pkt) []).
Proof.
  intros Hok Hl. unfold parse_reply. destruct (Z.ltb_spec (zlen pkt) 20); [lia|].
  destruct (scan_prefix_size (length pkt) pkt (zlen pkt) 20 ltac:(lia) ltac:(lia)) as [Hs _].
  rewrite parse_reply_loop_eq by (try done; change (zlen (@nil Z)) with 0; lia). reflexivity.
Qed.

(** Whatever datagram of at most 4096 bytes arrives, [parse_reply] stays inside
    the 4096 byte EAP array and the 256 byte State array, and the State it returns
    fits one attribute again; of a reply with well formed attributes it returns the
    code, the concatenated EAP-Messages and the last State. *)
Theorem parse_reply_spec pkt :
  bytes_ok pkt -> 20 <= zlen pkt <= RAD_MAX_PKT ->
  (exists eap st, parse_reply pkt = Ok (byte_at pkt 0, eap, st) /\
    zlen eap <= RAD_MAX_PKT - 20 /\ zlen st <= 253) /\
  (forall code id auth l, zlen auth = 16 -> pkt = packet code id auth (encode_attrs l) ->
    parse_reply pkt = Ok (code, values RAD_ATTR_EAP_MESSAGE l, last_value RAD_ATTR_STATE l [])).
Proof.
  intros Hok Hl. rewrite parse_reply_eq by done. split.
  - destruct (scan_prefix_size (length pkt) pkt (zlen pkt) 20 ltac:(lia) ltac:(lia)) as [Hs Ha].
    fold (reply_prefix pkt) in *. eexists; eexists; split_and!; [done| |].
    + pose proof (zlen_values RAD_ATTR_EAP_MESSAGE (reply_prefix pkt)). lia.
    + apply zlen_last_value; [by apply Ha|done].
  - intros code id auth l Hauth ->.
    pose proof (scan_packet code id auth l [] Hauth ltac:(done)) as E. rewrite app_nil_r in E.
    cbv zeta in E. unfold zlen in E at 1. rewrite Nat2Z.id in E.
    assert (reply_prefix (packet code id auth (encode_attrs l)) = l) as ->
      by (unfold reply_prefix; by apply scan_prefix_all). reflexivity.
Qed.
End requests.

(** ** A concrete run: one challenge with a State, then an Access-Accept *)
Module ToyBench.
#[export] Instance ssl : OpenSSL := {| HMAC_md5 := fun key data => zreplicate 16 (u8 (zlen key + zlen data)) |}.
#[export] Instance ssl_laws : OpenSSLLaws ssl.
Proof. constructor. intros. by apply zlen_zreplicate. Qed.
#[export] Instance script : Net := {|
  net := list bytes;
  rand_byte := fun w => (9, w);
  drop := fun w => (false, w);
  net_connect := true;
  net_send := fun _ w => (true, w);
  net_recv := fun w => match w with p :: w => (if bool_decide (bytes_ok p) then Some p else None, w) | [] => (None, []) end |}.
Definition cfg : config :=
  {| g_secret := [1; 2; 3]; g_creddir := "d"; g_identity := [117; 101]; g_max_retx := 3 |}.
Definition challenge : bytes :=
  [11; 9; 0; 32] ++ zreplicate 16 0 ++ [79; 8; 1; 7; 0; 6; 56; 1] ++ [24; 4; 5; 6].
Definition accept : bytes := [2; 10; 0; 20] ++ zreplicate 16 0.
Definition run := run_handshake (C := toy_crypto) cfg 4 3 ToyPeer.fs 4 [challenge; accept].
End ToyBench.

Lemma build_access_request_spec_witness :
  exists pkt,
    build_access_request (SSL := ToyBench.ssl) ToyBench.cfg 9 (zreplicate 16 8) [2; 7; 0; 5; 1]
      (Some [5; 6]) = Ok pkt /\
    zlen pkt = 65 /\ bench_read (SSL := ToyBench.ssl) ToyBench.cfg 9 (zreplicate 16 8) [2; 7; 0; 5; 1] [5; 6] pkt.
Proof.
  pose proof (build_access_request_spec (SSL := ToyBench.ssl) (OpenSSLLaws0 := ToyBench.ssl_laws)
    ToyBench.cfg 9 (zreplicate 16 8) [2; 7; 0; 5; 1] [5; 6]) as H.
  do 3 (specialize (H ltac:(vm_compute; done))).
  destruct (build_access_request _ _ _ _ _) as [pkt|rc|] eqn:E; [|done|by vm_compute in E].
  exists pkt. split; [done|]. destruct H as (_ & H & Hr). split; [|exact Hr].
  rewrite H. vm_compute. reflexivity.
Defined.

Lemma parse_reply_spec_witness :
  parse_reply ToyBench.challenge = Ok (11, [1; 7; 0; 6; 56; 1], [5; 6]).
Proof.
  assert (Hok : bytes_ok ToyBench.challenge) 
    by exact (bool_decide_unpack (bytes_ok ToyBench.challenge) Logic.I).
  assert (Hl : 20 <= zlen ToyBench.challenge <= RAD_MAX_PKT) by (vm_compute; done).
  apply (proj2 (parse_reply_spec ToyBench.challenge Hok Hl) 11 9 (zreplicate 16 0)
    [(79, [1; 7; 0; 6; 56; 1]); (24, [5; 6])]); vm_compute; reflexivity.
Defined.
