(* ===== verification/BenchRun.v ===== *)
(** * BenchRun: a whole handshake of the benchmark over any network

    The counters it reports, the bound on its retransmissions, and that the only
    way to overrun an array is inside the EDHOC core. *)
From stdpp Require Import base numbers list option strings.
From Stdlib Require Import ZArith Lia.
From S2P Require Import Prelude Crypto Files Frag RadiusAttr EapPeer PeerFacts BenchRadius BenchFacts.

Section run.
Context `{SSL : OpenSSL} `{W : Net} `{CL : CryptoLaws}.
Context {SL : OpenSSLLaws SSL} (cfg : config).

(** The sockets deliver bytes, and the identity fits an attribute. *)
Hypothesis net_bytes : forall w p w', net_recv w = (Some p, w') -> bytes_ok p.
Hypothesis identity_fits : zlen (g_identity cfg) <= 253.

Let tries : Z := Z.of_nat (S (g_max_retx cfg)).

(** A datagram the network hands over, as it lands in the reply array. *)
Definition delivered (p : bytes) : Prop :=
  bytes_ok p /\ zlen p <= RAD_MAX_PKT /\
  exists w q w', net_recv w = (Some q, w') /\ p = ztake RAD_MAX_PKT q.

(** ** One exchange *)
Lemma exchange_loop_spec n : forall req retx w,
  let '(r, (retx', w')) := rad_exchange_loop n req retx w in
  retx <= retx' <= retx + Z.of_nat n /\
  match r with Ok p => delivered p | Err _ => True | Fault => False end.
Proof.
  induction n as [|n IH]; intros req retx w; [split; [lia|done]|]. cbn [rad_exchange_loop].
  assert (Hnext : forall w', let '(r, (retx', _)) := rad_exchange_loop n req (retx + 1) w' in
    retx <= retx' <= retx + Z.of_nat (S n) /\
    match r with Ok p => delivered p | Err _ => True | Fault => False end).
  { intros w'. specialize (IH req (retx + 1) w').
    destruct (rad_exchange_loop n req (retx + 1) w') as [r [rx w2]]. split; [lia|apply IH]. }
  destruct (drop w) as [[] w1]; [apply Hnext|].
  destruct (net_send req w1) as [[] w2]; cbn [negb]; [|split; [lia|done]].
  destruct (net_recv w2) as [[p|] w3] eqn:Er; [|apply Hnext].
  destruct (drop w3) as [[] w4]; cbn [negb]; [apply Hnext|]. split; [lia|]. split.
  - apply bytes_ok_ztake. by eapply net_bytes.
  - split; [rewrite zlen_ztake; unfold RAD_MAX_PKT; lia|]. by exists w2, p, w3.
Qed.

Lemma rand_bytes_ok n : forall w, zlen (fst (rand_bytes n w)) = Z.of_nat n.
Proof.
  induction n as [|n IH]; intros w; [done|]. cbn [rand_bytes].
  destruct (rand_byte w) as [b w1]. specialize (IH w1). destruct (rand_bytes n w1) as [bs w2].
  cbn [fst] in *. rewrite zlen_cons, IH. lia.
Qed.

Lemma zlen_attrs_of_le t v : zlen (encode_attrs (attrs_of t v)) <= 3 * zlen v.
Proof.
  assert (H : forall n v, (length v <= n)%nat -> zlen (encode_attrs (cut n t v)) <= 3 * zlen v).
  { clear v. induction n as [|n IH]; intros v Hn; [by destruct v; [|cbn in Hn; lia]|]. cbn [cut].
    destruct (Z.eqb_spec (zlen v) 0) as [->|]; [done|]. pose proof (zlen_nonneg v).
    pose proof (zlen_zdrop253 v ltac:(lia)). rewrite zlen_encode_cons. cbn [snd].
    specialize (IH (zdrop 253 v) ltac:(lia)). rewrite <-(ztake_zdrop 253 v) at 3. rewrite zlen_app.
    assert (1 <= zlen (ztake 253 v)) by (rewrite zlen_ztake; lia). lia. }
  by apply H.
Qed.

Lemma bench_attrs_fit eap st :
  zlen eap <= 1005 -> zlen st <= 253 ->
  38 + zlen (encode_attrs (bench_attrs cfg eap st)) <= RAD_MAX_PKT.
Proof.
  intros He Hs. assert (Hl : zlen (encode_attrs (eap_attrs eap)) <= 3 * zlen eap + 2).
  { pose proof (zlen_nonneg eap). unfold eap_attrs.
    destruct (zlen eap =? 0); [change (zlen (encode_attrs _)) with 2; lia|].
    pose proof (zlen_attrs_of_le RAD_ATTR_EAP_MESSAGE eap). lia. }
  unfold bench_attrs, RAD_MAX_PKT. destruct (zlen st =? 0);
    rewrite !encode_attrs_app, !zlen_app, !zlen_encode_cons; cbn [snd];
    change (zlen (encode_attrs [])) with 0; change (zlen [127; 0; 0; 1]) with 4;
    change (zlen [0; 0; 0; 1]) with 4; lia.
Qed.

(** ** The invariant of the loop *)

(** Between two requests: [n] of them sent, all but the last challenged. *)
Record counted (r : result_t) (rx : Z) : Prop := {
  ct_rt : radius_rt r = access_req r;
  ct_eap : eap_rt r = access_req r;
  ct_chal : access_req r = access_chal r + 1;
  ct_pos : 0 <= access_chal r;
  ct_accept : access_accept r = 0;
  ct_reject : access_reject r = 0;
  ct_ok : ok r = 0;
  ct_retx0 : retx r = 0;
  ct_retx : 0 <= rx <= access_req r * tries
}.
(** Before a request, one challenge more is counted. *)
Record challenged (r : result_t) (rx : Z) : Prop := {
  ch_rt : radius_rt r = access_req r;
  ch_eap : eap_rt r = access_req r;
  ch_chal : access_req r = access_chal r;
  ch_pos : 0 <= access_chal r;
  ch_accept : access_accept r = 0;
  ch_reject : access_reject r = 0;
  ch_ok : ok r = 0;
  ch_retx0 : retx r = 0;
  ch_retx : 0 <= rx <= access_req r * tries
}.
Definition core (b : bench) : Prop := reach_eng (fst (b_eng b)) /\ zlen (b_state b) <= 253.

(** Sending never faults and leaves the engine alone. *)
Lemma send_eap_spec id eap b :
  zlen eap <= 1005 -> core b -> challenged (b_result b) (g_retx b) ->
  let '(r, b') := send_eap cfg id eap b in
  core b' /\ counted (b_result b') (g_retx b') /\
  match r with Ok p => delivered p | Err _ => True | Fault => False end.
Proof.
  intros He Hb Hc. unfold send_eap. pose proof (rand_bytes_ok 16 (b_net b)) as Ha.
  destruct (rand_bytes 16 (b_net b)) as [auth w]. cbn [fst] in Ha.
  rewrite build_access_request_eq by (try done; apply Hb).
  rewrite (proj2 (Z.leb_le _ _) (bench_attrs_fit eap (b_state b) He (proj2 Hb))).
  pose proof (exchange_loop_spec (S (g_max_retx cfg))
    (bench_packet cfg id auth (bench_attrs cfg eap (b_state b))) (g_retx b) w) as Hx.
  unfold rad_exchange. destruct (rad_exchange_loop _ _ _ _) as [r [rx w']]. destruct Hx as [Hrx Hr].
  split; [exact Hb|]. split; [|exact Hr]. destruct Hc. unfold count_request.
  constructor; cbn [b_result g_retx radius_rt eap_rt access_req access_chal access_accept
    access_reject ok retx]; unfold tries in *; try lia.
Qed.

(** What a run ends with. *)
Definition tally (rc : Z) (r : result_t) : Prop :=
  radius_rt r = access_req r /\ eap_rt r = access_req r /\
  0 <= access_chal r <= access_req r /\ 0 <= retx r <= access_req r * tries /\
  ((rc = 0 /\ ok r = 1 /\ access_accept r = 1 /\ access_reject r = 0 /\
    access_req r = access_chal r + 1) \/
   (rc = -1 /\ ok r = 0 /\ access_accept r = 0)).

(** The engine of this run overruns its core's array on the EAP request [reap]. *)
Definition overrun (reap : bytes) (b : bench) : Prop :=
  reach_eng (fst (b_eng b)) /\ eng_fault (fst (b_eng b)) (Some (zdrop 5 reap)).
(** The request is the one of a datagram the network delivered. *)
Definition engine_fault (b : bench) : Prop :=
  exists p, delivered p /\ overrun (values RAD_ATTR_EAP_MESSAGE (reply_prefix p)) b.

(** One answer of a reachable engine. *)
Lemma react_reach e inp g :
  reach_eng e -> bytes_ok inp ->
  match eng_react (Some inp) (e, g) with
  | (Ok w, (e', _)) => zlen w <= 1000 /\ reach_eng e'
  | (Err _, (e', _)) => reach_eng e'
  | (Fault, _) => eng_fault e (Some inp)
  end.
Proof.
  intros He Hin. destruct (eng_react (Some inp) (e, g)) as [r [e' g']] eqn:E.
  pose proof (ht_run _ _ _ _ _ (eng_react_ht (Some inp) e g Hin (reach_eng_inv e He)) _ _ E) as H.
  destruct r as [w|rc|].
  - split; [apply H|]. by eapply (reach_reacted e (Some inp)).
  - by eapply (reach_reacted e (Some inp)).
  - exact H.
Qed.

(** A run that may stop here without success. *)
Definition unfinished (r : result_t) (rx : Z) : Prop :=
  radius_rt r = access_req r /\ eap_rt r = access_req r /\ 0 <= access_chal r <= access_req r /\
  access_accept r = 0 /\ ok r = 0 /\ retx r = 0 /\ 0 <= rx <= access_req r * tries.

Lemma counted_unfinished r rx : counted r rx -> unfinished r rx.
Proof. intros []. unfold unfinished. lia. Qed.

Lemma challenged_unfinished r rx : challenged r rx -> unfinished r rx.
Proof. intros []. unfold unfinished. lia. Qed.

Lemma count_reply_unfinished code r rx :
  counted r rx -> code <> RAD_ACCESS_ACCEPT -> unfinished (count_reply code r) rx.
Proof.
  intros [] Ha%Z.eqb_neq. unfold unfinished, count_reply.
  cbn [radius_rt eap_rt access_req access_chal access_accept ok retx]. rewrite Ha.
  destruct (code =? RAD_ACCESS_CHALLENGE); lia.
Qed.

Lemma count_reply_challenged r rx :
  counted r rx -> challenged (count_reply RAD_ACCESS_CHALLENGE r) rx.
Proof. intros []. by constructor; cbn; lia. Qed.

Lemma finish_tally e b :
  unfinished (b_result b) (g_retx b) -> e <> Ended true false ->
  tally (fst (finish_handshake e b)) (snd (finish_handshake e b)).
Proof.
  intros (H1 & H2 & H3 & H4 & H5 & H6 & H7) He. unfold tally.
  destruct e as [|d f]; cbn [finish_handshake fst snd]; [lia|].
  assert (d && negb f = false) as -> by (destruct d, f; try done).
  cbn [radius_rt eap_rt access_req access_chal access_accept access_reject ok retx]. lia.
Qed.

Lemma accept_tally b :
  counted (b_result b) (g_retx b) ->
  let b' := set_b_result (count_reply RAD_ACCESS_ACCEPT (b_result b)) b in
  tally (fst (finish_handshake (Ended true false) b')) (snd (finish_handshake (Ended true false) b')).
Proof. intros []. unfold tally. cbn. lia. Qed.

(** A challenge: the next reply, or an end without success. *)
Lemma on_challenge_spec reap rstate b :
  core b -> challenged (b_result b) (g_retx b) -> bytes_ok reap -> zlen rstate <= 253 ->
  match on_challenge cfg reap rstate b with
  | inl (r, b') =>
      match r with
      | Ok p => core b' /\ counted (b_result b') (g_retx b') /\ delivered p
      | Err _ => core b' /\ counted (b_result b') (g_retx b')
      | Fault => overrun reap b'
      end
  | inr (e, b') => challenged (b_result b') (g_retx b') /\ e <> Ended true false
  end.
Proof.
  intros [He Hst] Hc Hok Hrs. unfold on_challenge.
  destruct (_ || _); [done|]. destruct (negb _); [done|].
  set (st := if zlen rstate =? 0 then b_state b else rstate).
  assert (Hst' : zlen st <= 253) by (unfold st; by destruct (zlen rstate =? 0)).
  destruct (b_eng b) as [e g] eqn:Eb. cbn [fst] in He.
  pose proof (react_reach e (zdrop 5 reap) g He (bytes_ok_zdrop _ _ Hok)) as Hr.
  destruct (eng_react (Some (zdrop 5 reap)) (e, g)) as [[w|rc|] [e' g']];
    [|done|unfold overrun; by rewrite Eb].
  destruct Hr as [Hw He']. unfold eap_response, RAD_MAX_PKT.
  destruct (Z.ltb_spec 4096 (5 + zlen w)); [lia|].
  set (eap := _ ++ w). assert (Heap : zlen eap <= 1005).
  { unfold eap. rewrite zlen_app. change (zlen [_; _; _; _; _]) with 5. lia. }
  match goal with |- context [send_eap cfg ?i eap ?b1] =>
    pose proof (send_eap_spec i eap b1 Heap (conj He' Hst') Hc) as Hs;
    destruct (send_eap cfg i eap b1) as [r b2] end.
  destruct Hs as (Hcore & Hct & Hp). destruct r as [p|rc|]; [|done|done].
  by split_and!.
Qed.

Definition good_end (o : option (res ending * bench)) : Prop :=
  match o with
  | None => True
  | Some (Ok e, b) => tally (fst (finish_handshake e b)) (snd (finish_handshake e b))
  | Some (Err _, _) => False
  | Some (Fault, b) => engine_fault b
  end.

Lemma loop_spec n : forall resp b,
  core b -> counted (b_result b) (g_retx b) -> delivered resp ->
  good_end (handshake_loop cfg n resp b).
Proof.
  induction n as [|n IH]; intros resp b Hb Hc Hd; [done|]. pose proof Hd as (Hok & Hl & _). cbn [handshake_loop].
  destruct (Z.ltb_spec (zlen resp) 20) as [Hs|Hs].
  { unfold parse_reply. rewrite (proj2 (Z.ltb_lt _ _) Hs).
    apply finish_tally; [by apply counted_unfinished|done]. }
  rewrite parse_reply_eq by done. set (code := byte_at resp 0).
  set (b1 := set_b_result (count_reply code (b_result b)) b).
  destruct (Z.eqb_spec code RAD_ACCESS_ACCEPT) as [Ha|Ha].
  { cbn [good_end]. unfold b1. rewrite Ha. by apply accept_tally. }
  assert (Hstop : forall e, e <> Ended true false -> good_end (Some (Ok e, b1))).
  { intros e. by apply finish_tally, count_reply_unfinished. }
  destruct (code =? RAD_ACCESS_REJECT); [by apply Hstop|].
  destruct (Z.eqb_spec code RAD_ACCESS_CHALLENGE) as [Hch|Hch]; cbn [negb]; [|by apply Hstop].
  assert (Hcd : challenged (b_result b1) (g_retx b1)).
  { unfold b1. rewrite Hch. by apply count_reply_challenged. }
  destruct (scan_prefix_size (length resp) resp (zlen resp) 20 ltac:(lia) ltac:(lia)) as [_ Hattr].
  pose proof (on_challenge_spec (values RAD_ATTR_EAP_MESSAGE (reply_prefix resp))
    (last_value RAD_ATTR_STATE (reply_prefix resp) [])
    b1 Hb Hcd
    (bytes_ok_values _ _ (bytes_ok_scan_prefix _ _ _ _ Hok))
    (zlen_last_value _ _ [] (Hattr Hok) ltac:(done))) as Ho.
  destruct (on_challenge cfg _ _ _) as [[[p|rc|] b']|[e b']].
  - destruct Ho as (H1 & H2 & H3). by apply IH.
  - apply finish_tally; [by apply counted_unfinished, Ho|done].
  - by exists resp.
  - apply finish_tally; [by apply challenged_unfinished, Ho|apply Ho].
Qed.

Lemma run_handshake_good fuel m fs rg w :
  match run_handshake cfg fuel m fs rg w with
  | None => True
  | Some (Ok (rc, r), _) => tally rc r
  | Some (Err _, _) => False
  | Some (Fault, b) => engine_fault b
  end.
Proof.
  assert (H0 : tally (-1) zero_result).
  { unfold tally. cbn. lia. }
  unfold run_handshake. destruct (load_creds _ _ _) as [rc e] eqn:El.
  destruct (Z.eqb_spec rc 0) as [->|]; [|exact H0]. cbn [negb].
  destruct net_connect; [|exact H0]. cbn [negb]. destruct (rand_byte w) as [id w1].
  unfold eap_response, RAD_MAX_PKT. destruct (Z.ltb_spec 4096 (5 + zlen (g_identity cfg))); [lia|].
  set (eap := _ ++ g_identity cfg). assert (Heap : zlen eap <= 1005).
  { unfold eap. rewrite zlen_app. change (zlen [_; _; _; _; _]) with 5. lia. }
  match goal with |- context [send_eap cfg ?i eap ?b1] =>
    pose proof (send_eap_spec i eap b1 Heap) as Hs; destruct (send_eap cfg i eap b1) as [r b2] end.
  destruct Hs as (Hcore & Hct & Hp).
  { split; [by eapply reach_loaded|done]. }
  { constructor; cbn; unfold tries; lia. }
  destruct r as [p|rc|]; [|exact (finish_tally Stopped b2 (counted_unfinished _ _ Hct) ltac:(done))|done].
  pose proof (loop_spec fuel p b2 Hcore Hct Hp) as Hg.
  destruct (handshake_loop cfg fuel p b2) as [[[e'|rc|] b3]|]; [|done|exact Hg|exact I].
  cbn [mbind option_bind good_end] in *. by destruct (finish_handshake e' b3).
Qed.

(** C35: over any network and with any server, a handshake of the benchmark that
    ends reports consistent counters: one RADIUS round trip and one EAP response
    per Access-Request, at most [g_max_retx] + 1 retransmissions counted for each;
    it is a success exactly when it ended in one Access-Accept, after as many
    challenges as requests but one.  No server makes it write outside its packet,
    EAP, State or fragment arrays: undefined behaviour needs a datagram whose EAP
    request makes the EDHOC core of this run, in the state it has reached, overrun
    the array it decrypts into. *)
Theorem run_handshake_spec fuel m fs rg w :
  match run_handshake cfg fuel m fs rg w with
  | None => True
  | Some (Ok (rc, r), _) => tally rc r
  | Some (Err _, _) => False
  | Some (Fault, b) => engine_fault b
  end.
Proof. apply run_handshake_good. Qed.
End run.

(** ** Termination

    The code sets no limit on the challenges it answers; it stops when the network
    has a bounded number of datagrams left to deliver. *)
Section ends.
Context `{SSL : OpenSSL} `{W : Net} `{C : Crypto} (cfg : config) (left : net -> nat).
Hypothesis left_rand : forall w, (left (snd (rand_byte w)) <= left w)%nat.
Hypothesis left_drop : forall w, (left (snd (drop w)) <= left w)%nat.
Hypothesis left_send : forall p w, (left (snd (net_send p w)) <= left w)%nat.
Hypothesis left_recv : forall w,
  match net_recv w with
  | (Some _, w') => (left w' < left w)%nat
  | (None, w') => (left w' <= left w)%nat
  end.

Lemma left_rand_bytes n : forall w, (left (snd (rand_bytes n w)) <= left w)%nat.
Proof.
  induction n as [|n IH]; intros w; [done|]. cbn [rand_bytes]. pose proof (left_rand w) as H1.
  destruct (rand_byte w) as [b w1]. cbn [snd] in H1. specialize (IH w1).
  destruct (rand_bytes n w1) as [bs w2]. cbn [snd] in *. lia.
Qed.

Lemma left_exchange n : forall req rx w,
  let '(r, (_, w')) := rad_exchange_loop n req rx w in
  (left w' <= left w)%nat /\ (forall p, r = Ok p -> (left w' < left w)%nat).
Proof.
  induction n as [|n IH]; intros req rx w; [done|]. cbn [rad_exchange_loop].
  assert (Hnext : forall w', (left w' <= left w)%nat ->
    let '(r, (_, w2)) := rad_exchange_loop n req (rx + 1) w' in
    (left w2 <= left w)%nat /\ (forall p, r = Ok p -> (left w2 < left w)%nat)).
  { intros w' Hle. specialize (IH req (rx + 1) w').
    destruct (rad_exchange_loop n req (rx + 1) w') as [r [rx' w2]]. destruct IH as [H1 H2].
    split; [lia|]. intros p ->. specialize (H2 p eq_refl). lia. }
  pose proof (left_drop w) as H1. destruct (drop w) as [[] w1]; cbn [snd] in H1; [by apply Hnext|].
  pose proof (left_send req w1) as H2. destruct (net_send req w1) as [[] w2]; cbn [snd negb] in *.
  2: { split; [lia|done]. }
  pose proof (left_recv w2) as H3. destruct (net_recv w2) as [[p|] w3]; [|apply Hnext; lia].
  pose proof (left_drop w3) as H4. destruct (drop w3) as [[] w4]; cbn [snd negb] in *; [apply Hnext; lia|].
  split; [lia|]. intros; lia.
Qed.

Lemma left_send_eap id eap b :
  let '(r, b') := send_eap cfg id eap b in
  forall p, r = Ok p -> (left (b_net b') < left (b_net b))%nat.
Proof.
  unfold send_eap. pose proof (left_rand_bytes 16 (b_net b)) as H1.
  destruct (rand_bytes 16 (b_net b)) as [auth w]. cbn [snd] in H1.
  destruct (build_access_request _ _ _ _ _) as [req|rc|]; [|done|done].
  pose proof (left_exchange (S (g_max_retx cfg)) req (g_retx b) w) as H2. unfold rad_exchange.
  destruct (rad_exchange_loop _ _ _ _) as [r [rx w']]. destruct H2 as [_ H2].
  intros p ->. specialize (H2 p eq_refl). cbn [b_net]. lia.
Qed.

Lemma loop_ends n : forall resp b, (left (b_net b) < n)%nat -> handshake_loop cfg n resp b <> None.
Proof.
  induction n as [|n IH]; intros resp b Hn; [lia|]. cbn [handshake_loop].
  destruct (parse_reply resp) as [[[code reap] rstate]|rc|]; [|done|done].
  destruct (_ =? _); [done|]. destruct (_ =? _); [done|]. destruct (negb _); [done|].
  set (b1 := set_b_result _ b). unfold on_challenge.
  destruct (_ || _); [done|]. destruct (negb _); [done|].
  destruct (eng_react _ _) as [[w|rc|] s]; [|done|done].
  destruct (eap_response _ _ w) as [eap|rc|]; [|done|done].
  match goal with |- context [send_eap cfg ?i eap ?b2] =>
    pose proof (left_send_eap i eap b2) as Hs; destruct (send_eap cfg i eap b2) as [[p|rc|] b3] end;
    [|done|done].
  apply IH. specialize (Hs p eq_refl). cbn [b_net] in Hs. unfold b1 in Hs. cbn in Hs. lia.
Qed.

(** A handshake over a network that can deliver only finitely many more
    datagrams ends: fuel for as many rounds is enough, whatever the server sends. *)
Theorem run_handshake_ends fuel m fs rg w :
  (left w < fuel)%nat -> run_handshake cfg fuel m fs rg w <> None.
Proof.
  intros Hn. unfold run_handshake. destruct (load_creds _ _ _) as [rc e].
  destruct (negb _); [done|]. destruct (negb _); [done|].
  pose proof (left_rand w) as H1. destruct (rand_byte w) as [id w1]. cbn [snd] in H1.
  destruct (eap_response _ _ _) as [eap|rc'|]; [|done|done].
  match goal with |- context [send_eap cfg ?i eap ?b2] =>
    pose proof (left_send_eap i eap b2) as Hs; destruct (send_eap cfg i eap b2) as [[p|rc'|] b3] end;
    [|done|done].
  specialize (Hs p eq_refl). cbn [b_net] in Hs.
  pose proof (loop_ends fuel p b3 ltac:(lia)) as Hl.
  destruct (handshake_loop cfg fuel p b3) as [[[e'|rc'|] b4]|]; done.
Qed.
End ends.

Definition toy_result : result_t := {|
  ok := 1; radius_rt := 2; eap_rt := 2; access_req := 2; access_chal := 1; access_accept := 1;
  access_reject := 0; retx := 0; r_msg_bytes := [0; 34; 0; 0; 0]; r_msg_frags := [0; 1; 0; 0; 0] |}.

Lemma run_handshake_spec_witness :
  fst <$> ToyBench.run = Some (Ok (0, toy_result)) /\ tally ToyBench.cfg 0 toy_result.
Proof.
  pose proof (run_handshake_spec (W := ToyBench.script) (CL := toy_laws) (SL := ToyBench.ssl_laws)
    ToyBench.cfg) as H.
  assert (Hn : forall w p w', net_recv (Net := ToyBench.script) w = (Some p, w') -> bytes_ok p).
  { intros [|q w] p w'; [done|]. cbn. destruct (bool_decide_reflect (bytes_ok q)); [|done].
    intros [= -> _]. done. }
  assert (Hi : zlen (g_identity ToyBench.cfg) <= 253) by (vm_compute; done).
  specialize (H Hn Hi 4%nat 3 ToyPeer.fs 4 [ToyBench.challenge; ToyBench.accept]).
  change (run_handshake _ _ _ _ _ _) with ToyBench.run in H.
  assert (Hr : fst <$> ToyBench.run = Some (Ok (0, toy_result))) by (vm_compute; reflexivity).
  split; [exact Hr|]. destruct ToyBench.run as [[r b]|]; [|done]. injection Hr as ->. exact H.
Defined.

Lemma run_handshake_ends_witness : ToyBench.run <> None.
Proof.
  apply (run_handshake_ends (C := toy_crypto) (W := ToyBench.script) ToyBench.cfg
    (fun w : list bytes => length w)).
  - done.
  - done.
  - done.
  - intros [|q w]; cbn; [lia|]. destruct (bool_decide (bytes_ok q)); lia.
  - cbn. lia.
Defined.
