(* ===== verification/Bootstrap.v ===== *)
(** * Bootstrap: the key schedule that turns an EMSK into OSCORE keys

    Model of bootstrap/bootstrap.c and of its self-test: the RFC 5295 root keys
    (USRK, DSRK), the OSCORE master secret and salt, the RFC 8613 security
    context, and the test fingerprint. *)
From stdpp Require Import base numbers list option strings.
From Stdlib Require Import ZArith Lia.
From S2P Require Import Prelude Crypto Hkdf.
Local Open Scope c_scope.

Definition BK_EMSK_LEN : Z := 64.
Definition BK_USRK_LEN : Z := 64.
Definition BK_DSRK_LEN : Z := 64.
Definition BK_OSCORE_MS_LEN : Z := 16.
Definition BK_OSCORE_SALT_LEN : Z := 8.
Definition BK_OSCORE_KEY_LEN : Z := 16.
Definition BK_OSCORE_IV_LEN : Z := 13.
Definition BK_OSCORE_AEAD_ALG : Z := 10.
Definition BK_ERR_ARG : Z := -1.
Definition BK_USRK_KEY_LABEL : bytes := str "usrk@example.org,ekeylabel=EAP-EDHOC".
Definition BK_DSRK_DOMAIN_LABEL : bytes := str "dsrk@app-domain.example.org".

Record bk_oscore_ctx := {
  master_secret : bytes;
  master_salt : bytes;
  sender_key : bytes;
  recipient_key : bytes;
  common_iv : bytes;
  sender_id : Z;
  recipient_id : Z
}.

Section schedule.
Context `{C : Crypto}.

(** The HMAC of the concatenated segments. *)
Definition hmac (key : bytes) (segs : list bytes) : bytes :=
  crypto_auth_hmacsha256 key (concat segs).

(** The [while] loop that [hkdf_expand] and [rfc5295_prf_plus] each contain: [okm]
    is what was written so far, [fuel] bounds the iterations. *)
Fixpoint prf_loop (key info : bytes) (okm_len : Z) (fuel : nat) (done tlen ctr : Z)
    (t okm : bytes) : bytes :=
  match fuel with
  | O => okm
  | S fuel =>
      if done <? okm_len then
        let segs := (if tlen =? 0 then [] else [ztake tlen t]) ++ [info; [ctr]] in
        let t := hmac key segs in
        let tlen := 32 in
        let n := if okm_len - done <? tlen then okm_len - done else tlen in
        prf_loop key info okm_len fuel (done + n) tlen (u8 (ctr + 1)) t (okm ++ ztake n t)
      else okm
  end.

Definition bk_hkdf_expand (prk info : bytes) (okm_len : Z) : bytes :=
  prf_loop prk info okm_len (Z.to_nat okm_len) 0 0 1 [] [].

Definition bk_hkdf_extract (salt ikm : bytes) : bytes := hmac salt [ikm].

(** [label] is the C string up to its NUL; [out] has [out_len] bytes. *)
Definition rfc5295_prf_plus (key label : bytes) (out_len : Z) : res bytes :=
  let s_len := zlen label + 1 + 2 in
  if (256 <? s_len) || (0xFFFF <? out_len) then Err BK_ERR_ARG
  else
    let s := label ++ [0x00; u8 (Z.land (Z.shiftr out_len 8) 0xff); u8 (Z.land out_len 0xff)] in
    Ok (prf_loop key s out_len (Z.to_nat out_len) 0 0 1 [] []).

(** A pointer that may be NULL is an option, an output pointer the boolean that it
    is not NULL. *)
Definition bk_derive_usrk (emsk key_label : option bytes) (usrk : bool) (usrk_len : Z) : res bytes :=
  match emsk with
  | Some emsk =>
      if (zlen emsk <? 32) || negb usrk then Err BK_ERR_ARG
      else rfc5295_prf_plus emsk (default BK_USRK_KEY_LABEL key_label) usrk_len
  | None => Err BK_ERR_ARG
  end.

Definition bk_derive_dsrk (parent domain_label : option bytes) (dsrk : bool) (dsrk_len : Z)
    : res bytes :=
  match parent with
  | Some parent =>
      if (zlen parent <? 32) || negb dsrk then Err BK_ERR_ARG
      else rfc5295_prf_plus parent (default BK_DSRK_DOMAIN_LABEL domain_label) dsrk_len
  | None => Err BK_ERR_ARG
  end.

Definition bk_derive_oscore_master_secret (dsrk : option bytes) : res bytes :=
  match dsrk with
  | Some dsrk =>
      if zlen dsrk <? 32 then Err BK_ERR_ARG
      else Ok (bk_hkdf_expand dsrk (str "OSCORE Master Secret") BK_OSCORE_MS_LEN)
  | None => Err BK_ERR_ARG
  end.

Definition bk_derive_oscore_master_salt (dsrk : option bytes) : res bytes :=
  match dsrk with
  | Some dsrk =>
      if zlen dsrk <? 32 then Err BK_ERR_ARG
      else Ok (bk_hkdf_expand dsrk (str "OSCORE Master Salt") BK_OSCORE_SALT_LEN)
  | None => Err BK_ERR_ARG
  end.

(** The bytes written to [buf] and counted. *)
Definition oscore_info (id type_str : bytes) (length : Z) : bytes :=
  [0x85; u8 (Z.lor 0x40 (zlen id))] ++ id ++
  [0x40; u8 BK_OSCORE_AEAD_ALG; u8 (Z.lor 0x60 (zlen type_str))] ++ type_str ++ [u8 length].

(** [info] has 64 bytes. *)
Definition info_of (id type_str : bytes) (length : Z) : res bytes :=
  let info := oscore_info id type_str length in
  if 64 <? zlen info then Fault else Ok info.

Definition bk_derive_oscore_context (ms salt : option bytes) (sid rid : Z) (ctx : bool)
    : res bk_oscore_ctx :=
  match ms, salt, ctx with
  | Some ms, Some salt, true =>
      let prk := bk_hkdf_extract salt ms in
      match info_of [sid] (str "Key") BK_OSCORE_KEY_LEN,
            info_of [rid] (str "Key") BK_OSCORE_KEY_LEN,
            info_of [] (str "IV") BK_OSCORE_IV_LEN with
      | Ok si, Ok ri, Ok vi =>
          Ok {| master_secret := ms; master_salt := salt;
                sender_key := bk_hkdf_expand prk si BK_OSCORE_KEY_LEN;
                recipient_key := bk_hkdf_expand prk ri BK_OSCORE_KEY_LEN;
                common_iv := bk_hkdf_expand prk vi BK_OSCORE_IV_LEN;
                sender_id := sid; recipient_id := rid |}
      | _, _, _ => Fault
      end
  | _, _, _ => Err BK_ERR_ARG
  end.

Definition bk_oscore_ctx_from_dsrk (dsrk : option bytes) (sid rid : Z) (ctx : bool)
    : res bk_oscore_ctx :=
  match bk_derive_oscore_master_secret dsrk with
  | Ok ms =>
      match bk_derive_oscore_master_salt dsrk with
      | Ok salt => bk_derive_oscore_context (Some ms) (Some salt) sid rid ctx
      | Err rc => Err rc
      | Fault => Fault
      end
  | Err rc => Err rc
  | Fault => Fault
  end.

Definition hex : bytes := str "0123456789abcdef".
Definition hex_byte (b : Z) : bytes := [byte_at hex (Z.shiftr b 4); byte_at hex (Z.land b 0xf)].

(** The 17 characters of [out]. *)
Definition bk_fingerprint (key : option bytes) (out : bool) : res bytes :=
  match key with
  | Some key =>
      if out then
        let h := crypto_hash_sha256 (str "bootstrap-fp|" ++ key) in
        Ok (concat (map (fun i => hex_byte (byte_at h (Z.of_nat i))) (seq 0 8)) ++ [0])
      else Err BK_ERR_ARG
  | None => Err BK_ERR_ARG
  end.

(** ** The self-test program *)
Definition put_hex (name : string) (b : bytes) : bytes :=
  str name ++ str "=" ++ concat (map hex_byte b) ++ [10].

(** An output array a failed call left unwritten is read all the same. *)
Definition written {A} (r : res A) (k : A -> res (Z * bytes)) : res (Z * bytes) :=
  match r with Ok a => k a | _ => Fault end.

Definition print_fp (name : string) (key : bytes) (k : bytes -> res (Z * bytes)) : res (Z * bytes) :=
  written (bk_fingerprint (Some key) true)
    (fun fp => k (str name ++ str ": " ++ ztake 16 fp ++ [10])).

(** From the EMSK on; [vectors] is [argc > 1]. *)
Definition selftest_schedule (vectors : bool) (emsk : bytes) : res (Z * bytes) :=
  written (bk_derive_usrk (Some emsk) (Some BK_USRK_KEY_LABEL) true BK_USRK_LEN) (fun usrk =>
  written (bk_derive_dsrk (Some usrk) (Some BK_DSRK_DOMAIN_LABEL) true BK_DSRK_LEN) (fun dsrk =>
  written (bk_derive_oscore_master_secret (Some dsrk)) (fun ms =>
  written (bk_derive_oscore_master_salt (Some dsrk)) (fun salt =>
  written (bk_derive_oscore_context (Some ms) (Some salt) 1 0 true) (fun ue =>
  written (bk_derive_oscore_context (Some ms) (Some salt) 0 1 true) (fun as_ =>
  let good := bool_decide (sender_key ue = recipient_key as_) &&
              bool_decide (recipient_key ue = sender_key as_) &&
              bool_decide (common_iv ue = common_iv as_) in
  let finish (lines : bytes) :=
    Ok (if good then 0 else 1,
        lines ++ str "context correspondence: " ++ str (if good then "OK" else "FAIL") ++ [10]) in
  if vectors then
    finish (put_hex "USRK" usrk ++ put_hex "DSRK" dsrk ++ put_hex "OSCORE_MS" ms ++
            put_hex "OSCORE_SALT" salt ++ put_hex "UE_SENDER_KEY" (sender_key ue) ++
            put_hex "UE_RECIPIENT_KEY" (recipient_key ue) ++ put_hex "COMMON_IV" (common_iv ue))
  else
    print_fp "USRK  fp" usrk (fun l1 =>
    print_fp "DSRK  fp" dsrk (fun l2 =>
    print_fp "OSCORE master secret fp" ms (fun l3 => finish (l1 ++ l2 ++ l3)))))))))).

(** The exit code, the standard output and the generator; [hex2bin] is libsodium's
    decoder into 64 bytes, whose non-zero results are [None]. *)
Definition bootstrap_main (hex2bin : bytes -> option bytes) (sodium_init : Z)
    (argv1 : option bytes) (g : rng) : res (Z * bytes) * rng :=
  if sodium_init <? 0 then (Ok (1, []), g)
  else
    match argv1 with
    | Some arg =>
        if negb (zlen arg =? BK_EMSK_LEN * 2) then (Ok (1, []), g)
        else
          match hex2bin arg with
          | Some emsk => (selftest_schedule true emsk, g)
          | None => (Ok (1, []), g)
          end
    | None =>
        let '(emsk, g) := randombytes_buf g BK_EMSK_LEN in
        (selftest_schedule false emsk, g)
    end.
End schedule.
