(* ===== verification/BootstrapFacts.v ===== *)
(** * BootstrapFacts: what the bootstrap key schedule computes

    RFC 5295's root keys, RFC 8613's security context with its CBOR input, that
    both ends of a completed method 4 handshake derive mirrored OSCORE contexts,
    and that the self-test passes. *)
From stdpp Require Import base numbers list option strings.
From Stdlib Require Import ZArith Lia.
From S2P Require Import Prelude Crypto Hkdf Edhoc4 Edhoc4Facts Bootstrap.

(** ** The input of RFC 8613, section 3.2.1, in RFC 8949's deterministic encoding *)
Inductive cbor :=
  | CUint (n : Z)
  | CBstr (b : bytes)
  | CTstr (b : bytes).

(** The head of a data item whose argument fits two bytes. *)
Definition cbor_head (major n : Z) : bytes :=
  if n <? 24 then [major * 32 + n]
  else if n <? 256 then [major * 32 + 24; n]
  else (major * 32 + 25) :: be16 n.

Definition cbor_encode (c : cbor) : bytes :=
  match c with
  | CUint n => cbor_head 0 n
  | CBstr b => cbor_head 2 (zlen b) ++ b
  | CTstr b => cbor_head 3 (zlen b) ++ b
  end.
Definition cbor_array (l : list cbor) : bytes :=
  cbor_head 4 (Z.of_nat (length l)) ++ concat (map cbor_encode l).

(** [info = [ id, id_context, alg_aead, type, L ]] with an empty ID Context. *)
Definition rfc8613_info (id type : bytes) (L : Z) : bytes :=
  cbor_array [CBstr id; CBstr []; CUint 10; CTstr type; CUint L].

(** The initial bytes the code ors together are sums. *)
Lemma lor_head m n : 0 <= n < 32 -> m = 0x40 \/ m = 0x60 -> u8 (Z.lor m n) = m + n.
Proof.
  intros Hn Hm.
  assert (H : forallb (fun k => (u8 (Z.lor 0x40 k) =? 0x40 + k) && (u8 (Z.lor 0x60 k) =? 0x60 + k))
    (map Z.of_nat (seq 0 32)) = true) by reflexivity.
  rewrite forallb_forall in H. specialize (H n).
  rewrite andb_true_iff, !Z.eqb_eq in H. destruct H as [H1 H2].
  - apply in_map_iff. exists (Z.to_nat n). rewrite in_seq. lia.
  - by destruct Hm as [-> | ->].
Qed.

Lemma oscore_info_eq id type L :
  zlen id < 24 -> zlen type < 24 -> 0 <= L < 24 ->
  oscore_info id type L = rfc8613_info id type L.
Proof.
  intros Hi Ht HL. pose proof (zlen_nonneg id). pose proof (zlen_nonneg type).
  unfold oscore_info, rfc8613_info, cbor_array. cbn [cbor_encode map concat length].
  unfold cbor_head. change (zlen (@nil Z)) with 0.
  rewrite (proj2 (Z.ltb_lt (zlen id) 24)), (proj2 (Z.ltb_lt (zlen type) 24)), (proj2 (Z.ltb_lt L 24)),
    !lor_head by (try lia; auto).
  rewrite (u8_small L) by (unfold is_byte; lia). cbn [app]. rewrite <-!app_assoc. reflexivity.
Qed.

Lemma zlen_oscore_info id type L : zlen (oscore_info id type L) = zlen id + zlen type + 6.
Proof.
  unfold oscore_info. rewrite !zlen_app. change (zlen [_; _; _]) with 3.
  change (zlen [_; _]) with 2. change (zlen [u8 L]) with 1. lia.
Qed.

Lemma oscore_info_inj id type L id' type' L' :
  zlen id < 24 -> zlen id' < 24 -> zlen type < 24 -> zlen type' < 24 -> is_byte L -> is_byte L' ->
  oscore_info id type L = oscore_info id' type' L' -> id = id' /\ type = type' /\ L = L'.
Proof.
  intros Hi Hi' Ht Ht' HL HL'. pose proof (zlen_nonneg id). pose proof (zlen_nonneg id').
  pose proof (zlen_nonneg type). pose proof (zlen_nonneg type').
  unfold oscore_info. rewrite !lor_head, (u8_small L), (u8_small L') by (try lia; auto).
  cbn [app]. intros [= El E].
  apply app_inj_1 in E as [-> E]; [|unfold zlen in *; lia].
  injection E as Et E. apply app_inj_1 in E as [-> E]; [|unfold zlen in *; lia].
  by injection E as ->.
Qed.

(** ** RFC 5295, section 3.1.2: PRF+ over [label | 0x00 | length] *)
Section facts.
Context `{CL : CryptoLaws}.

Definition rfc5295_key (key label : bytes) (L : Z) : bytes :=
  hkdf_okm (crypto_auth_hmacsha256 key) (label ++ [0] ++ be16 L) L.

(** The loop of this file is the loop of the EDHOC cores. *)
Lemma prf_loop_expand key info L n : forall done tlen ctr t okm,
  prf_loop key info L n done tlen ctr t okm =
  expand_loop (crypto_auth_hmacsha256 key) info L n done tlen ctr t okm.
Proof.
  induction n as [|n IH]; intros; [done|]. cbn [prf_loop expand_loop].
  destruct (done <? L); [|done]. rewrite IH.
  assert (Hs : hmac key ((if tlen =? 0 then [] else [ztake tlen t]) ++ [info; [ctr]]) =
    crypto_auth_hmacsha256 key ((if tlen =? 0 then [] else ztake tlen t) ++ info ++ [ctr])).
  { unfold hmac. f_equal. destruct (tlen =? 0); cbn [app concat]; by rewrite ?app_nil_r. }
  by rewrite Hs.
Qed.

Lemma bk_hkdf_expand_okm prk info L :
  0 <= L <= 255 * 32 ->
  bk_hkdf_expand prk info L = hkdf_okm (crypto_auth_hmacsha256 prk) info L.
Proof.
  intros HL. unfold bk_hkdf_expand. rewrite prf_loop_expand.
  apply expand_loop_okm; [intros; apply zlen_hmac|done].
Qed.

Lemma zlen_okm key info L : 0 <= L -> zlen (hkdf_okm (crypto_auth_hmacsha256 key) info L) = L.
Proof. intros. apply hkdf_okm_len; [|done]. intros. apply zlen_hmac. Qed.

Lemma prf_plus_spec key label L :
  0 <= L <= 255 * 32 ->
  rfc5295_prf_plus key label L =
  if zlen label <=? 253 then Ok (rfc5295_key key label L) else Err BK_ERR_ARG.
Proof.
  intros HL. unfold rfc5295_prf_plus. rewrite (proj2 (Z.ltb_ge 0xFFFF L)), orb_false_r by lia.
  destruct (Z.ltb_spec 256 (zlen label + 1 + 2)), (Z.leb_spec (zlen label) 253); try done; try lia.
  assert ([0; u8 (Z.land (Z.shiftr L 8) 255); u8 (Z.land L 255)] = [0] ++ be16 L) as ->.
  { unfold be16. rewrite Z.shiftr_div_pow2 by lia. change 255 with (Z.ones 8).
    rewrite !Z.land_ones by lia. change (2 ^ 8) with 256. unfold u8. cbn [app].
    by rewrite !Z.mod_mod by lia. }
  rewrite prf_loop_expand. f_equal. apply expand_loop_okm; [intros; apply zlen_hmac|done].
Qed.

(** Both root keys: the RFC's output, or the argument error. *)
Definition root_key (parent : option bytes) (label : bytes) (out : bool) (L : Z) : res bytes :=
  match parent with
  | Some key =>
      if (32 <=? zlen key) && out && (zlen label <=? 253)
      then Ok (rfc5295_key key label L) else Err BK_ERR_ARG
  | None => Err BK_ERR_ARG
  end.

Lemma derive_root parent label out L :
  0 <= L <= 255 * 32 ->
  match parent with
  | Some key => if (zlen key <? 32) || negb out then Err BK_ERR_ARG else rfc5295_prf_plus key label L
  | None => Err BK_ERR_ARG
  end = root_key parent label out L.
Proof.
  intros HL. destruct parent as [key|]; [|done]. unfold root_key. rewrite prf_plus_spec by done.
  destruct (Z.ltb_spec (zlen key) 32), (Z.leb_spec 32 (zlen key)), out; try done; lia.
Qed.

(** The USRK and the DSRK are RFC 5295's PRF+ of the parent key over
    [label | 0x00 | length], for every length up to the 255 blocks its one-byte
    counter numbers, with the documented default labels; a NULL pointer, a parent of
    fewer than 32 bytes or a label of more than 253 gives [BK_ERR_ARG]. *)
Theorem bk_root_keys_rfc5295 parent label out L :
  0 <= L <= 255 * 32 ->
  bk_derive_usrk parent label out L = root_key parent (default BK_USRK_KEY_LABEL label) out L /\
  bk_derive_dsrk parent label out L = root_key parent (default BK_DSRK_DOMAIN_LABEL label) out L /\
  forall key, zlen (rfc5295_key key (default BK_USRK_KEY_LABEL label) L) = L.
Proof.
  intros HL. split_and!; [by apply derive_root..|]. intros key. apply zlen_okm. lia.
Qed.

(** ** RFC 8613, section 3.2.1 *)
Definition rfc8613_key (ms salt id type : bytes) (L : Z) : bytes :=
  hkdf_okm (crypto_auth_hmacsha256 (crypto_auth_hmacsha256 salt ms)) (rfc8613_info id type L) L.

(** The security context of the endpoint that sends under [sid]. *)
Definition rfc8613_context (ms salt : bytes) (sid rid : Z) : bk_oscore_ctx := {|
  master_secret := ms; master_salt := salt;
  sender_key := rfc8613_key ms salt [sid] (str "Key") BK_OSCORE_KEY_LEN;
  recipient_key := rfc8613_key ms salt [rid] (str "Key") BK_OSCORE_KEY_LEN;
  common_iv := rfc8613_key ms salt [] (str "IV") BK_OSCORE_IV_LEN;
  sender_id := sid; recipient_id := rid |}.

(** Two endpoints that can talk to each other. *)
Definition mirrored (c1 c2 : bk_oscore_ctx) : Prop :=
  sender_key c1 = recipient_key c2 /\ recipient_key c1 = sender_key c2 /\
  common_iv c1 = common_iv c2 /\ sender_id c1 = recipient_id c2 /\
  recipient_id c1 = sender_id c2 /\ master_secret c1 = master_secret c2 /\
  master_salt c1 = master_salt c2.
Definition ctx_sizes (c : bk_oscore_ctx) : Prop :=
  zlen (master_secret c) = BK_OSCORE_MS_LEN /\ zlen (master_salt c) = BK_OSCORE_SALT_LEN /\
  zlen (sender_key c) = BK_OSCORE_KEY_LEN /\ zlen (recipient_key c) = BK_OSCORE_KEY_LEN /\
  zlen (common_iv c) = BK_OSCORE_IV_LEN.

Lemma info_of_eq id type L :
  zlen id <= 1 -> zlen type < 24 -> 0 <= L < 24 -> info_of id type L = Ok (rfc8613_info id type L).
Proof.
  intros. unfold info_of. rewrite zlen_oscore_info.
  destruct (Z.ltb_spec 64 (zlen id + zlen type + 6)); [lia|]. by rewrite oscore_info_eq by lia.
Qed.

Lemma derive_context_eq ms salt sid rid :
  bk_derive_oscore_context (Some ms) (Some salt) sid rid true = Ok (rfc8613_context ms salt sid rid).
Proof.
  unfold bk_derive_oscore_context. rewrite !info_of_eq by done.
  rewrite !bk_hkdf_expand_okm by (unfold BK_OSCORE_KEY_LEN, BK_OSCORE_IV_LEN; lia).
  unfold rfc8613_context, rfc8613_key, bk_hkdf_extract, hmac. cbn [concat]. by rewrite app_nil_r.
Qed.

Definition oscore_master (dsrk : bytes) (label : string) (L : Z) : bytes :=
  hkdf_okm (crypto_auth_hmacsha256 dsrk) (str label) L.

Definition dsrk_context (dsrk : bytes) (sid rid : Z) : bk_oscore_ctx :=
  rfc8613_context (oscore_master dsrk "OSCORE Master Secret" BK_OSCORE_MS_LEN)
    (oscore_master dsrk "OSCORE Master Salt" BK_OSCORE_SALT_LEN) sid rid.

Lemma masters_eq dsrk :
  32 <= zlen dsrk ->
  bk_derive_oscore_master_secret (Some dsrk) =
    Ok (oscore_master dsrk "OSCORE Master Secret" BK_OSCORE_MS_LEN) /\
  bk_derive_oscore_master_salt (Some dsrk) =
    Ok (oscore_master dsrk "OSCORE Master Salt" BK_OSCORE_SALT_LEN).
Proof.
  intros H. unfold bk_derive_oscore_master_secret, bk_derive_oscore_master_salt, oscore_master.
  destruct (Z.ltb_spec (zlen dsrk) 32); [lia|].
  by rewrite !bk_hkdf_expand_okm by (unfold BK_OSCORE_MS_LEN, BK_OSCORE_SALT_LEN; lia).
Qed.

Lemma from_dsrk_eq dsrk sid rid :
  32 <= zlen dsrk ->
  bk_oscore_ctx_from_dsrk (Some dsrk) sid rid true = Ok (dsrk_context dsrk sid rid).
Proof.
  intros H. unfold bk_oscore_ctx_from_dsrk. destruct (masters_eq dsrk H) as [-> ->].
  apply derive_context_eq.
Qed.

Lemma dsrk_context_sizes dsrk sid rid : ctx_sizes (dsrk_context dsrk sid rid).
Proof. unfold ctx_sizes, dsrk_context, rfc8613_context. cbn. by split_and!; apply zlen_okm. Qed.

Lemma dsrk_context_mirrored dsrk sid rid :
  mirrored (dsrk_context dsrk sid rid) (dsrk_context dsrk rid sid).
Proof. by split_and!. Qed.

(** C36: from a DSRK of at least 32 bytes the code derives RFC 8613's security
    context: HKDF of the master secret and salt over the CBOR arrays
    [[id, h'', 10, type, L]], of the declared sizes, and the endpoint with the
    identifiers swapped gets the mirrored context.  A missing or shorter DSRK, or no
    context to fill, is an argument error; the arrays for two different
    identifiers, and for keys and the IV, are different. *)
Theorem oscore_context_rfc8613 dsrk sid rid :
  32 <= zlen dsrk ->
  bk_oscore_ctx_from_dsrk (Some dsrk) sid rid true = Ok (dsrk_context dsrk sid rid) /\
  bk_oscore_ctx_from_dsrk (Some dsrk) rid sid true = Ok (dsrk_context dsrk rid sid) /\
  ctx_sizes (dsrk_context dsrk sid rid) /\
  mirrored (dsrk_context dsrk sid rid) (dsrk_context dsrk rid sid) /\
  (forall short ctx, zlen short < 32 ->
     bk_oscore_ctx_from_dsrk (Some short) sid rid ctx = Err BK_ERR_ARG) /\
  bk_oscore_ctx_from_dsrk (Some dsrk) sid rid false = Err BK_ERR_ARG /\
  (sid <> rid -> oscore_info [sid] (str "Key") 16 <> oscore_info [rid] (str "Key") 16) /\
  oscore_info [sid] (str "Key") 16 <> oscore_info [] (str "IV") 13.
Proof.
  intros H. split_and!; [by apply from_dsrk_eq|by apply from_dsrk_eq|apply dsrk_context_sizes|
    apply dsrk_context_mirrored| | | |done].
  - intros short ctx Hs. unfold bk_oscore_ctx_from_dsrk, bk_derive_oscore_master_secret.
    by rewrite (proj2 (Z.ltb_lt _ _) Hs).
  - unfold bk_oscore_ctx_from_dsrk. by destruct (masters_eq dsrk H) as [-> ->].
  - intros Hne E%oscore_info_inj; try done. by destruct E as [[= ->] _].
Qed.

(** ** From the EMSK *)
Definition app_context (emsk : bytes) (sid rid : Z) : res bk_oscore_ctx :=
  match bk_derive_usrk (Some emsk) None true BK_USRK_LEN with
  | Ok usrk =>
      match bk_derive_dsrk (Some usrk) None true BK_DSRK_LEN with
      | Ok dsrk => bk_oscore_ctx_from_dsrk (Some dsrk) sid rid true
      | _ => Err BK_ERR_ARG
      end
  | _ => Err BK_ERR_ARG
  end.

Definition emsk_usrk (emsk : bytes) : bytes := rfc5295_key emsk BK_USRK_KEY_LABEL BK_USRK_LEN.
Definition emsk_dsrk (emsk : bytes) : bytes :=
  rfc5295_key (emsk_usrk emsk) BK_DSRK_DOMAIN_LABEL BK_DSRK_LEN.

Lemma usrk_eq emsk label :
  32 <= zlen emsk -> default BK_USRK_KEY_LABEL label = BK_USRK_KEY_LABEL ->
  bk_derive_usrk (Some emsk) label true BK_USRK_LEN = Ok (emsk_usrk emsk).
Proof.
  intros H Hl. unfold bk_derive_usrk. rewrite Hl.
  destruct (Z.ltb_spec (zlen emsk) 32); [lia|]. cbn [orb negb].
  rewrite prf_plus_spec by (unfold BK_USRK_LEN; lia). reflexivity.
Qed.
Lemma dsrk_eq usrk label :
  32 <= zlen usrk -> default BK_DSRK_DOMAIN_LABEL label = BK_DSRK_DOMAIN_LABEL ->
  bk_derive_dsrk (Some usrk) label true BK_DSRK_LEN =
  Ok (rfc5295_key usrk BK_DSRK_DOMAIN_LABEL BK_DSRK_LEN).
Proof.
  intros H Hl. unfold bk_derive_dsrk. rewrite Hl.
  destruct (Z.ltb_spec (zlen usrk) 32); [lia|]. cbn [orb negb].
  rewrite prf_plus_spec by (unfold BK_DSRK_LEN; lia). reflexivity.
Qed.
Lemma root_lens emsk : zlen (emsk_usrk emsk) = 64 /\ zlen (emsk_dsrk emsk) = 64.
Proof. by split; apply zlen_okm. Qed.

Lemma app_context_eq emsk sid rid :
  32 <= zlen emsk -> app_context emsk sid rid = Ok (dsrk_context (emsk_dsrk emsk) sid rid).
Proof.
  intros H. unfold app_context. rewrite usrk_eq by done.
  destruct (root_lens emsk) as [Hu Hd]. rewrite dsrk_eq by (try done; lia).
  apply from_dsrk_eq. fold (emsk_dsrk emsk). lia.
Qed.

(** C26: after a method 4 handshake between provisioned peers, the UE (sender
    identifier 1) and the application server (0) each derive an OSCORE context from
    their own EMSK without error, and the two contexts mirror each other. *)
Theorem bootstrap_after_handshake idu ida ga gb sa sb ue aaa g :
  zlen idu = E4_ID_CRED -> zlen ida = E4_ID_CRED ->
  edhoc4_gen_creds 0 (Some idu) (tt, ga) = (Ok ue, sa) ->
  edhoc4_gen_creds 0 (Some ida) (tt, gb) = (Ok aaa, sb) ->
  exists ms i r g' cu ca,
    edhoc4_handshake ((edhoc4_init_initiator ue (kem_pk aaa),
                       edhoc4_init_responder aaa (kem_pk ue)), g) = (Ok ms, ((i, r), g')) /\
    app_context (emsk i) 1 0 = Ok cu /\ app_context (emsk r) 0 1 = Ok ca /\
    mirrored cu ca /\ ctx_sizes cu /\ ctx_sizes ca.
Proof.
  intros Hu Ha Eu Ea.
  destruct (wp_run _ _ _ (handshake_wp ue aaa (gen_creds_ok _ _ _ _ _ Hu Eu)
    (gen_creds_ok _ _ _ _ _ Ha Ea) g)) as (ms & [[i r] g'] & E & Hok & _ & _ & Hl).
  cbn [fst snd] in *. assert (He : emsk i = emsk r).
  { unfold selftest_ok in Hok.
    repeat match goal with H : _ && _ = true |- _ => apply andb_true_iff in H as [H ?] end.
    rewrite !bool_decide_eq_true in *. done. }
  exists ms, i, r, g', (dsrk_context (emsk_dsrk (emsk i)) 1 0), (dsrk_context (emsk_dsrk (emsk i)) 0 1).
  rewrite <-He, !app_context_eq by lia.
  do 3 (split; [done|]). split; [apply dsrk_context_mirrored|].
  split; apply dsrk_context_sizes.
Qed.

(** ** The self-test *)
Definition last_line : bytes := str "context correspondence: OK" ++ [10].

Lemma selftest_schedule_ok vectors emsk :
  32 <= zlen emsk ->
  exists lines, selftest_schedule vectors emsk = Ok (0, lines ++ last_line).
Proof.
  intros H. unfold selftest_schedule. rewrite usrk_eq by done. cbn [written].
  destruct (root_lens emsk) as [Hu Hd]. rewrite dsrk_eq by (try done; lia). cbn [written].
  fold (emsk_dsrk emsk). destruct (masters_eq (emsk_dsrk emsk) ltac:(lia)) as [-> ->]. cbn [written].
  rewrite !derive_context_eq. cbn [written rfc8613_context sender_key recipient_key common_iv].
  rewrite !bool_decide_true by done. cbn [andb].
  destruct vectors; [by eexists|]. unfold print_fp, bk_fingerprint. cbn [written]. by eexists.
Qed.

(** The self-test program exits with 0 and ends by printing that the contexts
    correspond, for a random EMSK and for every EMSK given as 128 hex digits; with
    an argument of another length or that does not decode it exits with 1. *)
Theorem bootstrap_selftest_passes hex2bin arg g :
  (forall h b, hex2bin h = Some b -> zlen b = BK_EMSK_LEN) ->
  match arg with
  | Some h =>
      bootstrap_main hex2bin 0 arg g =
      (if (zlen h =? 128) && bool_decide (is_Some (hex2bin h))
       then selftest_schedule true (default [] (hex2bin h)) else Ok (1, []), g) /\
      (zlen h = 128 -> is_Some (hex2bin h) ->
       exists lines, fst (bootstrap_main hex2bin 0 arg g) = Ok (0, lines ++ last_line))
  | None => exists lines, fst (bootstrap_main hex2bin 0 arg g) = Ok (0, lines ++ last_line)
  end.
Proof.
  intros Hb. unfold bootstrap_main. cbn [Z.ltb Z.compare]. destruct arg as [h|].
  - change (BK_EMSK_LEN * 2) with 128. destruct (Z.eqb_spec (zlen h) 128) as [Hl|Hl]; cbn [negb andb].
    2: { by split. }
    destruct (hex2bin h) as [b|] eqn:E; cbn [default].
    + rewrite bool_decide_true by done. split; [done|]. intros _ _. apply selftest_schedule_ok.
      rewrite (Hb h b E). done.
    + rewrite bool_decide_false by (by intros []). split; [done|]. intros _ []. done.
  - pose proof (randombytes_len g BK_EMSK_LEN ltac:(done)) as Hl.
    destruct (randombytes_buf g BK_EMSK_LEN) as [b g']. cbn [fst] in *.
    apply selftest_schedule_ok. rewrite Hl. done.
Qed.
End facts.

Lemma bk_root_keys_rfc5295_witness :
  exists usrk, bk_derive_usrk (C := toy_crypto) (Some (zreplicate 64 7)) None true 70 = Ok usrk /\
    zlen usrk = 70.
Proof.
  destruct (bk_root_keys_rfc5295 (CL := toy_laws) (Some (zreplicate 64 7)) None true 70 ltac:(lia))
    as (H & _ & Hl). eexists. split; [|apply (Hl (zreplicate 64 7))]. exact H.
Defined.

Lemma oscore_context_rfc8613_witness :
  exists c1 c2,
    bk_oscore_ctx_from_dsrk (C := toy_crypto) (Some (zreplicate 64 3)) 1 0 true = Ok c1 /\
    bk_oscore_ctx_from_dsrk (C := toy_crypto) (Some (zreplicate 64 3)) 0 1 true = Ok c2 /\
    mirrored c1 c2.
Proof.
  destruct (oscore_context_rfc8613 (CL := toy_laws) (zreplicate 64 3) 1 0 ltac:(vm_compute; done))
    as (H1 & H2 & _ & Hm & _). eexists; eexists. split; [exact H1|]. split; [exact H2|exact Hm].
Defined.

Lemma bootstrap_after_handshake_witness :
  exists ms i r g' cu ca,
    edhoc4_handshake (C := toy_crypto)
      ((edhoc4_init_initiator ToyCreds.ue (kem_pk ToyCreds.aaa),
        edhoc4_init_responder ToyCreds.aaa (kem_pk ToyCreds.ue)), 40) = (Ok ms, ((i, r), g')) /\
    app_context (C := toy_crypto) (emsk i) 1 0 = Ok cu /\
    app_context (C := toy_crypto) (emsk r) 0 1 = Ok ca /\
    mirrored cu ca /\ ctx_sizes cu /\ ctx_sizes ca.
Proof.
  apply (bootstrap_after_handshake (CL := toy_laws) [0; 0; 1] [0; 0; 2] 1 2
    (snd (ToyCreds.run_creds 1)) (snd (ToyCreds.run_creds 2))).
  - reflexivity.
  - reflexivity.
  - vm_compute. reflexivity.
  - vm_compute. reflexivity.
Defined.

Lemma bootstrap_selftest_passes_witness :
  exists lines,
    fst (bootstrap_main (C := toy_crypto) (fun h => Some (ztake 64 (h ++ zreplicate 64 0))) 0
      (Some (zreplicate 128 65)) 4) = Ok (0, lines ++ last_line).
Proof.
  apply (bootstrap_selftest_passes (CL := toy_laws)
    (fun h => Some (ztake 64 (h ++ zreplicate 64 0))) (Some (zreplicate 128 65)) 4).
  - intros h b [= <-]. rewrite zlen_ztake, zlen_app, zlen_zreplicate.
    pose proof (zlen_nonneg h). unfold BK_EMSK_LEN. lia.
  - reflexivity.
  - by eexists.
Defined.
