(* ===== verification/PolyRing.v ===== *)
(** * Polynomials modulo q

    Congruence modulo a constant q on integers and on coefficient lists, as setoids; the
    product in Z[X]/(X^n - s) by Horner's rule; the two projections of
    Z[X]/(X^2m - z^2) that a butterfly of a transform computes, which preserve
    products.  The modulus is a class, with an instance in KemNttFacts (3329) and in
    DsaNttFacts (8380417).  No code is modelled here. *)
From stdpp Require Import base numbers list option.
From Stdlib Require Import ZArith Lia Setoid Morphisms.
From S2P Require Import Prelude.

(** ** Congruence *)

Class Modulus := modulus : Z.

Section congruence.
Context {q : Modulus}.
Definition eqq (x y : Z) : Prop := x mod modulus = y mod modulus.
#[local] Infix "≡q" := eqq (at level 70, no associativity).

#[export] Instance eqq_equiv : Equivalence eqq.
Proof. split; red; unfold eqq; congruence. Qed.
#[export] Instance eqq_dec x y : Decision (x ≡q y).
Proof. unfold eqq. apply _. Defined.

Lemma congruent_iff x y : x ≡q y <-> exists k, x = y + modulus * k.
Proof.
  unfold eqq. split.
  - intros H. exists (x / modulus - y / modulus).
    pose proof (Z_div_mod_eq_full x modulus). pose proof (Z_div_mod_eq_full y modulus).
    rewrite Z.mul_sub_distr_l. lia.
  - intros [k ->]. rewrite Z.mul_comm, Z_mod_plus_full. done.
Qed.

#[export] Instance eqq_add : Proper (eqq ==> eqq ==> eqq) Z.add.
Proof. intros a b H c d H'. unfold eqq in *. rewrite Zplus_mod, H, H', <- Zplus_mod; done. Qed.
#[export] Instance eqq_sub : Proper (eqq ==> eqq ==> eqq) Z.sub.
Proof. intros a b H c d H'. unfold eqq in *. rewrite Zminus_mod, H, H', <- Zminus_mod; done. Qed.
#[export] Instance eqq_mul : Proper (eqq ==> eqq ==> eqq) Z.mul.
Proof. intros a b H c d H'. unfold eqq in *. rewrite Zmult_mod, H, H', <- Zmult_mod; done. Qed.
#[export] Instance eqq_opp : Proper (eqq ==> eqq) Z.opp.
Proof. intros a b H. rewrite <- !Z.sub_0_l. rewrite H. reflexivity. Qed.

Lemma eqq_eq x y : x = y -> x ≡q y.
Proof. intros ->. reflexivity. Qed.

End congruence.
Infix "≡q" := eqq (at level 70, no associativity).

(** ** Coefficient lists *)

Definition vadd (l k : list Z) : list Z := zip_with Z.add l k.
Definition vsub (l k : list Z) : list Z := zip_with Z.sub l k.
Definition vscale (c : Z) (l : list Z) : list Z := map (Z.mul c) l.

Section vectors.
Context {q : Modulus}.
Definition eqv : list Z -> list Z -> Prop := Forall2 eqq.
#[local] Infix "≡v" := eqv (at level 70, no associativity).

#[export] Instance eqv_equiv : Equivalence eqv.
Proof.
  split.
  - intros l. induction l; constructor; [reflexivity|done].
  - intros l k H. induction H; constructor; [symmetry; done|done].
  - intros l k m H. revert m. induction H as [|x y l k Hx H IH]; intros m Hm; inversion Hm; subst;
      constructor; [etransitivity; done | apply IH; done].
Qed.

Lemma zip_with_eqv (f : Z -> Z -> Z) : Proper (eqq ==> eqq ==> eqq) f ->
  Proper (eqv ==> eqv ==> eqv) (zip_with f).
Proof.
  intros Hf l l' H. induction H as [|x x' l l' Hx H IH]; intros k k' Hk; [constructor|].
  inversion Hk; subst; cbn; constructor; [apply Hf; done | apply IH; done].
Qed.
#[export] Instance vadd_eqv : Proper (eqv ==> eqv ==> eqv) vadd.
Proof. apply zip_with_eqv, _. Qed.
#[export] Instance vsub_eqv : Proper (eqv ==> eqv ==> eqv) vsub.
Proof. apply zip_with_eqv, _. Qed.
#[export] Instance vscale_eqv : Proper (eqq ==> eqv ==> eqv) vscale.
Proof. intros c d Hc l k H. induction H as [|x y l k Hx H IH]; cbn; constructor; [rewrite Hc, Hx; reflexivity | done]. Qed.
#[export] Instance app_eqv : Proper (eqv ==> eqv ==> eqv) (@app Z).
Proof. intros l l' H k k' H'. apply Forall2_app; done. Qed.
#[export] Instance take_eqv n : Proper (eqv ==> eqv) (@take Z n).
Proof. intros l k H. apply Forall2_take; done. Qed.
#[export] Instance drop_eqv n : Proper (eqv ==> eqv) (@drop Z n).
Proof. intros l k H. apply Forall2_drop; done. Qed.

Lemma eqv_length l k : l ≡v k -> length l = length k.
Proof. apply Forall2_length. Qed.

End vectors.
Infix "≡v" := eqv (at level 70, no associativity).

Lemma length_vadd l k : length (vadd l k) = Nat.min (length l) (length k).
Proof. apply length_zip_with. Qed.
Lemma length_vsub l k : length (vsub l k) = Nat.min (length l) (length k).
Proof. apply length_zip_with. Qed.
Lemma length_vscale c l : length (vscale c l) = length l.
Proof. apply length_map. Qed.

(** Coefficientwise identities: lists of equal length, compared at every index. *)
Definition at_ (l : list Z) (i : nat) : Z := nth i l 0.

Lemma eqv_at {q : Modulus} l k : length l = length k ->
  (forall i, (i < length l)%nat -> at_ l i ≡q at_ k i) -> l ≡v k.
Proof.
  revert k. induction l as [|x l IH]; intros [|y k] Hl H; try done.
  constructor; [apply (H 0%nat); cbn; lia|]. apply IH; [cbn in Hl; lia|].
  intros i Hi. apply (H (S i)). cbn. lia.
Qed.
Lemma at_eqv {q : Modulus} l k i : l ≡v k -> at_ l i ≡q at_ k i.
Proof. intros H. revert i. induction H as [|x y l k E H IH]; intros [|i]; [reflexivity.. | exact E | apply IH]. Qed.

Lemma eq_at l k : length l = length k ->
  (forall i, (i < length l)%nat -> at_ l i = at_ k i) -> l = k.
Proof.
  revert k. induction l as [|x l IH]; intros [|y k] Hl H; try done.
  f_equal; [apply (H 0%nat); cbn; lia|]. apply IH; [cbn in Hl; lia|].
  intros i Hi. apply (H (S i)). cbn. lia.
Qed.

Lemma at_vadd l k i : length l = length k -> at_ (vadd l k) i = at_ l i + at_ k i.
Proof.
  revert k i. induction l as [|x l IH]; intros [|y k] [|i] H; try done. apply (IH k i). cbn in H. lia.
Qed.
Lemma at_vsub l k i : length l = length k -> at_ (vsub l k) i = at_ l i - at_ k i.
Proof.
  revert k i. induction l as [|x l IH]; intros [|y k] [|i] H; try done. apply (IH k i). cbn in H. lia.
Qed.
Lemma at_vscale c l i : at_ (vscale c l) i = c * at_ l i.
Proof. revert i. induction l as [|x l IH]; intros [|i]; try (cbn; lia). apply (IH i). Qed.

Lemma at_app_l l k i : (i < length l)%nat -> at_ (l ++ k) i = at_ l i.
Proof. apply app_nth1. Qed.
Lemma at_app_r l k i : (length l <= i)%nat -> at_ (l ++ k) i = at_ k (i - length l).
Proof. apply app_nth2. Qed.

Create Rewrite HintDb vlen.
#[export] Hint Rewrite length_vadd length_vsub length_vscale @length_app @length_take @length_drop
  @length_replicate : vlen.
Ltac vlen := autorewrite with vlen in *; lia.
(** Proves an equality of lists coefficient by coefficient. *)
Ltac vring := apply eq_at; [vlen|]; intros i ?;
  repeat first [rewrite at_vadd by vlen | rewrite at_vsub by vlen | rewrite at_vscale]; ring.

(** ** The product modulo X^n - s *)

(** Multiplication by X: the leading coefficient comes back times [s]. *)
Definition mulx (s : Z) (l : list Z) : list Z :=
  vscale s (drop (length l - 1) l) ++ take (length l - 1) l.

Fixpoint mulmod (s : Z) (a b : list Z) : list Z :=
  match a with
  | [] => replicate (length b) 0
  | x :: a' => vadd (vscale x b) (mulx s (mulmod s a' b))
  end.

Lemma length_mulx s l : length (mulx s l) = length l.
Proof. unfold mulx. vlen. Qed.
#[export] Hint Rewrite length_mulx : vlen.
Lemma length_mulmod s a b : length (mulmod s a b) = length b.
Proof. induction a as [|x a IH]; cbn [mulmod]; vlen. Qed.
#[export] Hint Rewrite length_mulmod : vlen.

Lemma at_take l n i : (i < n)%nat -> at_ (take n l) i = at_ l i.
Proof.
  revert l i. induction n as [|n IH]; intros [|x l] [|i] Hi; try done; try lia. apply (IH l i). lia.
Qed.
Lemma at_drop l n i : at_ (drop n l) i = at_ l (n + i).
Proof. revert l. induction n as [|n IH]; intros [|x l]; try done; [destruct i; done|]. apply (IH l). Qed.
Lemma at_replicate n i : at_ (replicate n 0) i = 0.
Proof. revert i. induction n as [|n IH]; intros [|i]; try done. apply (IH i). Qed.

Lemma at_mulx s l i : (i < length l)%nat ->
  at_ (mulx s l) i = if (i =? 0)%nat then s * at_ l (length l - 1) else at_ l (i - 1).
Proof.
  intros Hi. unfold mulx. destruct (Nat.eqb_spec i 0) as [->|].
  - rewrite at_app_l, at_vscale, at_drop by vlen. do 2 f_equal. lia.
  - rewrite at_app_r, at_take by vlen. f_equal. vlen.
Qed.

#[export] Instance mulx_eqv {q : Modulus} : Proper (eqq ==> eqv ==> eqv) mulx.
Proof. intros s t Hs l k Hl. unfold mulx. rewrite (eqv_length _ _ Hl), Hs, Hl. reflexivity. Qed.
#[export] Instance mulmod_eqv {q : Modulus} : Proper (eqq ==> eqv ==> eqv ==> eqv) mulmod.
Proof.
  intros s t Hs a a' Ha b b' Hb. induction Ha as [|x y a a' Hx Ha IH]; cbn [mulmod].
  - rewrite (eqv_length _ _ Hb). reflexivity.
  - apply vadd_eqv; [apply vscale_eqv | apply mulx_eqv]; done.
Qed.

(** *** Linearity *)

Lemma mulx_vadd s l k : length l = length k -> mulx s (vadd l k) = vadd (mulx s l) (mulx s k).
Proof.
  intros H. apply eq_at; [vlen|]. intros i Hi. rewrite at_vadd, !at_mulx by vlen.
  destruct (i =? 0)%nat; rewrite at_vadd by done; autorewrite with vlen; rewrite ?H, ?Nat.min_id; lia.
Qed.
Lemma mulx_vscale s c l : mulx s (vscale c l) = vscale c (mulx s l).
Proof.
  apply eq_at; [vlen|]. intros i Hi. rewrite at_vscale, !at_mulx by vlen.
  destruct (i =? 0)%nat; rewrite at_vscale; autorewrite with vlen; lia.
Qed.
Lemma mulx_zero s n : mulx s (replicate n 0) = replicate n 0.
Proof.
  apply eq_at; [vlen|]. intros i Hi. rewrite at_mulx by vlen.
  destruct (i =? 0)%nat; rewrite !at_replicate; lia.
Qed.

Lemma mulmod_vadd_r s a b c : length b = length c ->
  mulmod s a (vadd b c) = vadd (mulmod s a b) (mulmod s a c).
Proof.
  intros H. induction a as [|x a IH]; cbn [mulmod].
  - apply eq_at; [vlen|]. intros i Hi. rewrite at_vadd, !at_replicate by vlen. done.
  - rewrite IH, mulx_vadd by vlen. vring.
Qed.
Lemma mulmod_vscale_r s a c b : mulmod s a (vscale c b) = vscale c (mulmod s a b).
Proof.
  induction a as [|x a IH]; cbn [mulmod].
  - apply eq_at; [vlen|]. intros i Hi. rewrite at_vscale, !at_replicate. lia.
  - rewrite IH, mulx_vscale by vlen. vring.
Qed.
Lemma mulmod_vadd_l s a a' b : length a = length a' ->
  mulmod s (vadd a a') b = vadd (mulmod s a b) (mulmod s a' b).
Proof.
  revert a'. induction a as [|x a IH]; intros [|x' a'] H; try done; cbn [mulmod vadd zip_with].
  - apply eq_at; [vlen|]. intros i Hi. rewrite at_vadd, !at_replicate by vlen. done.
  - fold (vadd a a'). rewrite IH, mulx_vadd by (cbn in H; vlen). vring.
Qed.
Lemma mulmod_vscale_l s c a b : mulmod s (vscale c a) b = vscale c (mulmod s a b).
Proof.
  induction a as [|x a IH].
  - cbn [mulmod vscale map]. change (map (Z.mul c)) with (vscale c).
    apply eq_at; [vlen|]. intros i Hi. rewrite at_vscale, !at_replicate. lia.
  - change (vscale c (x :: a)) with (c * x :: vscale c a). cbn [mulmod].
    rewrite IH, mulx_vscale. vring.
Qed.

(** *** Powers of X *)

Definition mulxn (s : Z) (n : nat) (l : list Z) : list Z := Nat.iter n (mulx s) l.
Lemma mulxn_S s n l : mulxn s (S n) l = mulx s (mulxn s n l).
Proof. done. Qed.

Lemma length_mulxn s n l : length (mulxn s n l) = length l.
Proof. induction n as [|n IH]; [done|]. rewrite mulxn_S, length_mulx. exact IH. Qed.
#[export] Hint Rewrite length_mulxn : vlen.

(** Multiplying by X^n rotates the coefficients; those that wrap are scaled by [s]. *)
Lemma at_mulxn s l n i : (n <= length l)%nat -> (i < length l)%nat ->
  at_ (mulxn s n l) i = if (i <? n)%nat then s * at_ l (length l - n + i) else at_ l (i - n).
Proof.
  revert i. induction n as [|n IH]; intros i Hn Hi.
  - cbn [Nat.ltb Nat.leb]. rewrite Nat.sub_0_r. done.
  - rewrite mulxn_S, at_mulx by (rewrite length_mulxn; done). rewrite length_mulxn.
    destruct (Nat.eqb_spec i 0) as [->|].
    + rewrite IH by lia. destruct (Nat.ltb_spec (length l - 1) n); [lia|]. cbn. f_equal. f_equal. lia.
    + rewrite IH by lia. destruct (Nat.ltb_spec (i - 1) n), (Nat.ltb_spec i (S n)); try lia.
      * do 2 f_equal. lia.
      * f_equal. lia.
Qed.

Lemma mulxn_length s l : mulxn s (length l) l = vscale s l.
Proof.
  apply eq_at; [vlen|]. intros i Hi. rewrite length_mulxn in Hi. rewrite at_mulxn, at_vscale by lia.
  destruct (Nat.ltb_spec i (length l)); [|lia]. do 2 f_equal. lia.
Qed.

Lemma mulxn_vadd s n l k : length l = length k ->
  mulxn s n (vadd l k) = vadd (mulxn s n l) (mulxn s n k).
Proof.
  intros H. induction n as [|n IH]; [done|]. rewrite !mulxn_S, IH.
  apply mulx_vadd. rewrite !length_mulxn. done.
Qed.
Lemma mulxn_vscale s n c l : mulxn s n (vscale c l) = vscale c (mulxn s n l).
Proof. induction n as [|n IH]; [done|]. rewrite !mulxn_S, IH. apply mulx_vscale. Qed.
Lemma mulxn_mulx s n l : mulxn s n (mulx s l) = mulxn s (S n) l.
Proof. symmetry. apply Nat.iter_succ_r. Qed.

Lemma mulmod_app s a a' b :
  mulmod s (a ++ a') b = vadd (mulmod s a b) (mulxn s (length a) (mulmod s a' b)).
Proof.
  induction a as [|x a IH].
  - cbn [app mulmod length]. apply eq_at; [unfold mulxn; cbn; vlen|]. intros i Hi.
    rewrite at_vadd, at_replicate by (unfold mulxn; cbn; vlen). done.
  - cbn [app mulmod length]. rewrite IH, mulx_vadd by vlen.
    rewrite mulxn_S. vring.
Qed.

(** ** The product, coefficient by coefficient *)

Definition zsum (f : nat -> Z) (n : nat) : Z := fold_right (fun i acc => f i + acc) 0 (seq 0 n).

Lemma zsum_shift f n : zsum f (S n) = f 0%nat + zsum (fun i => f (S i)) n.
Proof.
  unfold zsum. cbn [seq fold_right]. f_equal. rewrite <- seq_shift.
  generalize (seq 0 n) as l. intros l. induction l as [|i l IH]; cbn; [done|]. rewrite IH. done.
Qed.

(** The coefficient of X^k in the product modulo X^256 + 1. *)
Definition negacyclic (a b : list Z) : list Z :=
  map (fun k => zsum (fun i => at_ a i * (if (i <=? k)%nat then at_ b (k - i) else - at_ b (256 + k - i))) 256)
      (seq 0 256).

Lemma zsum_ext f g n : (forall i, (i < n)%nat -> f i = g i) -> zsum f n = zsum g n.
Proof.
  revert f g. induction n as [|n IH]; intros f g H; [done|]. rewrite !zsum_shift.
  f_equal; [apply H; lia|]. apply IH. intros i Hi. apply H. lia.
Qed.

Lemma at_mulmod s a b k : (k < length b)%nat ->
  at_ (mulmod s a b) k = zsum (fun i => at_ a i * at_ (mulxn s i b) k) (length a).
Proof.
  intros Hk. enough (H : forall j, at_ (mulxn s j (mulmod s a b)) k =
    zsum (fun i => at_ a i * at_ (mulxn s (j + i) b) k) (length a)) by apply (H 0%nat).
  induction a as [|x a IH]; intros j.
  - cbn [mulmod length]. replace (mulxn s j (replicate (length b) 0)) with (replicate (length b) 0).
    + rewrite at_replicate. done.
    + induction j as [|j IH]; [done|]. rewrite mulxn_S, <- IH, mulx_zero. done.
  - cbn [mulmod length]. rewrite mulxn_vadd, at_vadd, mulxn_vscale, at_vscale, zsum_shift by vlen.
    rewrite Nat.add_0_r. f_equal. rewrite mulxn_mulx, IH. apply zsum_ext.
    intros i _. rewrite Nat.add_succ_r. done.
Qed.

Lemma at_map_seq f n k : (k < n)%nat -> at_ (map f (seq 0 n)) k = f k.
Proof.
  intros Hk. unfold at_. rewrite (nth_indep _ 0 (f 0%nat)) by (rewrite length_map, length_seq; done).
  rewrite map_nth, seq_nth by done. done.
Qed.

Lemma mulmod_negacyclic a b : length a = 256%nat -> length b = 256%nat ->
  mulmod (-1) a b = negacyclic a b.
Proof.
  intros Ha Hb. unfold negacyclic. apply eq_at; [rewrite length_map, length_seq; vlen|].
  intros k Hk. rewrite length_mulmod, Hb in Hk. rewrite at_mulmod, Ha by lia.
  rewrite at_map_seq by done. apply zsum_ext. intros i Hi. f_equal.
  rewrite at_mulxn, Hb by lia.
  destruct (Nat.ltb_spec k i), (Nat.leb_spec i k); try lia.
  replace (256 - i + k)%nat with (256 + k - i)%nat by lia. lia.
Qed.

(** ** The two halves of Z[X]/(X^2m - z^2) *)

(** Reduction modulo X^m - z of a polynomial of degree below 2m. *)
Definition proj (m : nat) (z : Z) (l : list Z) : list Z := vadd (take m l) (vscale z (drop m l)).

Lemma length_proj m z l : length l = (2 * m)%nat -> length (proj m z l) = m.
Proof. intros Hl. unfold proj. vlen. Qed.

Lemma at_proj m z l i : length l = (2 * m)%nat -> (i < m)%nat ->
  at_ (proj m z l) i = at_ l i + z * at_ l (m + i).
Proof. intros Hl Hi. unfold proj. rewrite at_vadd, at_vscale, at_take, at_drop by vlen. done. Qed.

Lemma proj_linear m z x l k : length l = (2 * m)%nat -> length k = (2 * m)%nat ->
  proj m z (vadd (vscale x l) k) = vadd (vscale x (proj m z l)) (proj m z k).
Proof.
  intros Hl Hk. apply eq_at; [rewrite length_proj by vlen; rewrite length_vadd, length_vscale, !length_proj; lia|].
  intros i Hi. rewrite length_proj in Hi by vlen.
  rewrite at_proj, !at_vadd, !at_vscale, !at_proj by (rewrite ?length_vscale, ?length_proj; vlen). ring.
Qed.

Section proj.
Context {q : Modulus} (m : nat) (z s : Z) (Hm : (0 < m)%nat) (Hz : z * z ≡q s).

Lemma proj_mulx l : length l = (2 * m)%nat -> proj m z (mulx s l) ≡v mulx z (proj m z l).
Proof.
  intros Hl. assert (Hx : length (mulx s l) = (2 * m)%nat) by (rewrite length_mulx; done).
  apply eqv_at; [rewrite length_mulx, !length_proj; done|].
  intros i Hi. rewrite length_proj in Hi by done.
  rewrite at_proj, !at_mulx, Hl by (rewrite ?length_proj; lia). rewrite length_proj by done.
  destruct (Nat.eqb_spec (m + i) 0); [lia|]. destruct (Nat.eqb_spec i 0) as [->|].
  - rewrite at_proj by lia. rewrite <- Hz. apply eqq_eq.
    replace (m + (m - 1))%nat with (2 * m - 1)%nat by lia.
    replace (m + 0 - 1)%nat with (m - 1)%nat by lia. ring.
  - rewrite at_proj by lia. apply eqq_eq. do 3 f_equal. lia.
Qed.

Lemma proj_mulmod_r a b : length b = (2 * m)%nat ->
  proj m z (mulmod s a b) ≡v mulmod z a (proj m z b).
Proof.
  intros Hb. induction a as [|x a IH]; cbn [mulmod].
  - rewrite length_proj, Hb by done. apply eqv_at; [rewrite length_proj; vlen|]. intros i Hi.
    rewrite length_proj in Hi by vlen. rewrite at_proj, !at_replicate by vlen. apply eqq_eq. ring.
  - rewrite proj_linear by vlen. rewrite proj_mulx by vlen. rewrite IH. reflexivity.
Qed.

(** The projection preserves products. *)
Lemma proj_mulmod a b : length a = (2 * m)%nat -> length b = (2 * m)%nat ->
  proj m z (mulmod s a b) ≡v mulmod z (proj m z a) (proj m z b).
Proof.
  intros Ha Hb. rewrite proj_mulmod_r by done. apply eq_subrelation; [apply _|].
  rewrite <- (take_drop m a) at 1. rewrite mulmod_app.
  assert (Ht : length (take m a) = m) by vlen. assert (Hp : length (proj m z b) = m) by (apply length_proj; done).
  assert (Hx : mulxn z (length (take m a)) (mulmod z (drop m a) (proj m z b)) =
               vscale z (mulmod z (drop m a) (proj m z b))).
  { rewrite Ht. rewrite <- Hp at 1. rewrite <- (length_mulmod z (drop m a) (proj m z b)) at 1.
    apply mulxn_length. }
  rewrite Hx. change (proj m z a) with (vadd (take m a) (vscale z (drop m a))).
  rewrite mulmod_vadd_l, mulmod_vscale_l by vlen. done.
Qed.
End proj.
