(* ===== verification/Transform.v ===== *)
(** * Number-theoretic transforms by levels of butterflies

    What the transforms of ML-KEM (ntt.c with 7 levels) and of ML-DSA (ntt.c with 8
    levels) have in common, for any modulus and any table of roots: the three nested
    loops over an array as maps over consecutive blocks; the exact forward and backward
    block operations; that they are linear, inverse of each other up to a factor of 2,
    and that the forward one preserves products.  No code is modelled here. *)
From stdpp Require Import base numbers list option.
From Stdlib Require Import ZArith Lia Setoid Morphisms.
From S2P Require Import Prelude PolyRing.

(** ** Bounds *)

Definition bounded (B : Z) (l : list Z) : Prop := Forall (fun x => - B <= x <= B) l.

Lemma bounded_mono B B' l : bounded B l -> B <= B' -> bounded B' l.
Proof. intros H HB. induction H; constructor; [lia|done]. Qed.
Lemma bounded_app B l k : bounded B l -> bounded B k -> bounded B (l ++ k).
Proof. apply Forall_app_2. Qed.
Lemma bounded_take B n l : bounded B l -> bounded B (take n l).
Proof. apply Forall_take. Qed.
Lemma bounded_drop B n l : bounded B l -> bounded B (drop n l).
Proof. apply Forall_drop. Qed.
Lemma bounded_zip_with B B' C f l k : bounded B l -> bounded B' k ->
  (forall x y, - B <= x <= B -> - B' <= y <= B' -> - C <= f x y <= C) -> bounded C (zip_with f l k).
Proof.
  intros Hl Hk Hf. revert k Hk. induction Hl as [|x l Hx Hl IH]; intros k Hk; [constructor|].
  destruct Hk as [|y k Hy Hk]; [constructor|]. cbn. constructor; [apply Hf; done | apply IH; done].
Qed.
Lemma bounded_map B C f l : bounded B l -> (forall x, - B <= x <= B -> - C <= f x <= C) -> bounded C (map f l).
Proof. intros Hl Hf. induction Hl as [|x l Hx Hl IH]; constructor; [apply Hf; done | exact IH]. Qed.
Create HintDb bounds.
#[export] Hint Resolve bounded_app bounded_take bounded_drop : bounds.

Section bounded_eqv.
Context {q : Modulus}.
Lemma zip_with_eqv_bounded (f g : Z -> Z -> Z) B B' l k : bounded B l -> bounded B' k ->
  (forall x y, - B <= x <= B -> - B' <= y <= B' -> f x y ≡q g x y) -> zip_with f l k ≡v zip_with g l k.
Proof.
  intros Hl Hk Hf. revert k Hk. induction Hl as [|x l Hx Hl IH]; intros k Hk; [constructor|].
  destruct Hk as [|y k Hy Hk]; [constructor|]. cbn. constructor; [apply Hf; done | apply IH; done].
Qed.
Lemma map_eqv_bounded (f g : Z -> Z) B l : bounded B l ->
  (forall x, - B <= x <= B -> f x ≡q g x) -> map f l ≡v map g l.
Proof. intros Hl Hf. induction Hl as [|x l Hx Hl IH]; constructor; [apply Hf; done | exact IH]. Qed.
End bounded_eqv.

(** ** Linear operations on lists *)

Lemma vscale_zip (f : Z -> Z -> Z) c l k : zip_with f l (vscale c k) = zip_with (fun x y => f x (c * y)) l k.
Proof. revert k. induction l as [|x l IH]; intros [|y k]; cbn; try done. f_equal. apply IH. Qed.
Lemma vscale_vsub_zip c l k : vscale c (vsub k l) = zip_with (fun x y => c * (y - x)) l k.
Proof. unfold vsub. revert k. induction l as [|x l IH]; intros [|y k]; cbn; try done. f_equal. apply IH. Qed.
Lemma vscale_app c l k : vscale c (l ++ k) = vscale c l ++ vscale c k.
Proof. apply map_app. Qed.
Lemma vscale_split m c b : vscale c b = vscale c (take m b) ++ vscale c (drop m b).
Proof. rewrite <- vscale_app, take_drop. done. Qed.
Lemma take_vadd n l k : take n (vadd l k) = vadd (take n l) (take n k).
Proof. revert l k. induction n as [|n IH]; intros [|x l] [|y k]; try done. cbn. f_equal. apply IH. Qed.
Lemma drop_vadd n l k : drop n (vadd l k) = vadd (drop n l) (drop n k).
Proof.
  revert l k. induction n as [|n IH]; intros [|x l] [|y k]; try done; [|apply IH].
  cbn. destruct (drop n l); done.
Qed.
Lemma take_vscale n c l : take n (vscale c l) = vscale c (take n l).
Proof. apply firstn_map. Qed.
Lemma drop_vscale n c l : drop n (vscale c l) = vscale c (drop n l).
Proof. apply skipn_map. Qed.
Lemma vscale_vscale c d l : vscale c (vscale d l) = vscale (c * d) l.
Proof. unfold vscale. rewrite map_map. apply map_ext. intros. lia. Qed.
Lemma vscale_1 l : vscale 1 l = l.
Proof. unfold vscale. rewrite (map_ext _ (fun x => x)) by (intros; lia). apply map_id. Qed.
Lemma vscale_vadd c l k : vscale c (vadd l k) = vadd (vscale c l) (vscale c k).
Proof. revert k. induction l as [|x l IH]; intros [|y k]; try done. cbn. f_equal; [lia | apply IH]. Qed.
Lemma vscale_vsub c l k : vscale c (vsub l k) = vsub (vscale c l) (vscale c k).
Proof. revert k. induction l as [|x l IH]; intros [|y k]; try done. cbn. f_equal; [lia | apply IH]. Qed.
Lemma vadd_app l l' k k' : length l = length k -> vadd (l ++ l') (k ++ k') = vadd l k ++ vadd l' k'.
Proof. intros H. unfold vadd. rewrite zip_with_app by done. done. Qed.
Lemma vsub_vadd l k : vsub l k = vadd l (vscale (-1) k).
Proof. unfold vsub, vadd. rewrite vscale_zip. reflexivity. Qed.

Lemma proj_vscale m z c l : proj m z (vscale c l) = vscale c (proj m z l).
Proof.
  unfold proj. rewrite take_vscale, drop_vscale, vscale_vadd, !vscale_vscale. do 2 f_equal. lia.
Qed.
Lemma proj_vadd m z l k : length l = (2 * m)%nat -> length k = (2 * m)%nat ->
  proj m z (vadd l k) = vadd (proj m z l) (proj m z k).
Proof.
  intros Hl Hk. rewrite <- (vscale_1 l) at 1. rewrite proj_linear by done. rewrite vscale_1. done.
Qed.

(** ** Reading and writing two positions of an array *)

(** The second position is [len] after the first. *)
Section two.
Context (A B C : list Z) (x y : Z) (len : nat) (HB : S (length B) = len).
#[local] Abbreviation L x y := (A ++ x :: B ++ y :: C).
Lemma two_app : L x y = (A ++ x :: B) ++ y :: C /\ (length A + len = length (A ++ x :: B))%nat.
Proof. split; [rewrite <- app_assoc; done | rewrite length_app; cbn; lia]. Qed.
Lemma two_nth1 : nth (length A) (L x y) 0 = x.
Proof. apply nth_middle. Qed.
Lemma two_nth2 : nth (length A + len) (L x y) 0 = y.
Proof. destruct two_app as [-> ->]. apply nth_middle. Qed.
Lemma two_set1 v : <[length A := v]> (L x y) = L v y.
Proof. clear HB len. rewrite insert_app_r_alt, Nat.sub_diag by lia. done. Qed.
Lemma two_set2 v : <[(length A + len)%nat := v]> (L x y) = L x v.
Proof.
  destruct two_app as [-> ->]. rewrite insert_app_r_alt, Nat.sub_diag by lia.
  rewrite <- app_assoc. done.
Qed.
End two.

(** ** The loops *)

(** The two halves of a block, combined coefficient by coefficient. *)
Definition bfly (f g : Z -> Z -> Z) (lo hi : list Z) : list Z := zip_with f lo hi ++ zip_with g lo hi.

Lemma length_bfly f g lo hi : length lo = length hi -> length (bfly f g lo hi) = (2 * length lo)%nat.
Proof. intros H. unfold bfly. rewrite length_app, !length_zip_with. lia. Qed.

(** The innermost loop: [n] iterations, each on position [j] and the one [len] after it. *)
Section inner.
Context (len : nat) (f g : Z -> Z -> Z) (inner : nat -> nat -> list Z -> list Z).
Hypothesis inner_0 : forall j r, inner 0 j r = r.
Hypothesis inner_S : forall n A x B y C, S (length B) = len ->
  inner (S n) (length A) (A ++ x :: B ++ y :: C) = inner n (S (length A)) (A ++ f x y :: B ++ g x y :: C).

Lemma inner_spec lo : forall hi A B C, length lo = length hi -> (length B + length lo = len)%nat ->
  inner (length lo) (length A) (A ++ lo ++ B ++ hi ++ C) =
    A ++ zip_with f lo hi ++ B ++ zip_with g lo hi ++ C.
Proof.
  induction lo as [|x lo IH]; intros [|y hi] A B C Hl Hn; try discriminate Hl; [apply inner_0|].
  cbn [length] in *. cbn [app zip_with]. rewrite (app_assoc lo B).
  rewrite inner_S by (rewrite length_app; lia).
  specialize (IH hi (A ++ [f x y]) (B ++ [g x y]) C ltac:(lia)).
  rewrite !length_app in IH. cbn [length] in IH. rewrite !Nat.add_1_r in IH.
  rewrite <- !app_assoc in IH. cbn [app] in IH. rewrite <- !app_assoc. apply IH. lia.
Qed.

Lemma inner_block A b C : length b = (2 * len)%nat ->
  inner len (length A) (A ++ b ++ C) = A ++ bfly f g (take len b) (drop len b) ++ C.
Proof.
  intros Hb. unfold bfly. pose proof (inner_spec (take len b) (drop len b) A [] C) as H.
  rewrite length_take in H. replace (len `min` length b)%nat with len in H by lia.
  cbn [app length] in H. rewrite (app_assoc (take len b)), take_drop in H.
  rewrite <- app_assoc. apply H; vlen.
Qed.
End inner.

(** A level: an operation on each of [n] consecutive blocks of [m] coefficients, with an
    index that [next] advances from block to block. *)
Section blocks.
Context (op : nat -> list Z -> list Z) (next : nat -> nat) (m : nat).
Fixpoint blocks (n k : nat) (r : list Z) : list Z :=
  match n with
  | O => []
  | S n' => op k (take m r) ++ blocks n' (next k) (drop m r)
  end.

Hypothesis length_op : forall k b, length b = m -> length (op k b) = m.
Lemma length_blocks n : forall k r, length r = (n * m)%nat -> length (blocks n k r) = (n * m)%nat.
Proof.
  induction n as [|n IH]; intros k r Hr; cbn [blocks]; [done|].
  assert (m <= length r)%nat by nia. rewrite length_app, length_op, IH by vlen. vlen.
Qed.

(** The middle loop, over an array of [N] coefficients. *)
Context (N : nat) (inner : nat -> nat -> list Z -> list Z) (mid : nat -> nat -> nat -> list Z -> nat * list Z).
Hypothesis mid_step : forall fuel start k r, mid (S fuel) start k r =
  if (start <? N)%nat then mid fuel (start + m) (next k) (inner k start r) else (k, r).
Hypothesis inner_op : forall k A b C, length b = m ->
  inner k (length A) (A ++ b ++ C) = A ++ op k b ++ C.

Lemma mid_blocks n : forall fuel A k b, (0 < m)%nat -> (n < fuel)%nat ->
  length b = (n * m)%nat -> (length A + length b = N)%nat ->
  mid fuel (length A) k (A ++ b) = (Nat.iter n next k, A ++ blocks n k b).
Proof.
  induction n as [|n IH]; intros [|fuel] A k b Hm Hf Hb HA; try lia; rewrite mid_step; cbn [blocks].
  - destruct b; [|cbn in Hb; lia]. cbn in HA. rewrite (proj2 (Nat.ltb_ge _ _)) by lia. done.
  - assert (m <= length b)%nat by nia. rewrite (proj2 (Nat.ltb_lt _ _)) by lia.
    rewrite <- (take_drop m b) at 1. rewrite inner_op by vlen.
    set (b' := op k _). assert (Hb' : length b' = m) by (apply length_op; vlen).
    rewrite app_assoc. replace (length A + m)%nat with (length (A ++ b')) by (rewrite length_app; lia).
    rewrite IH by (rewrite ?length_app; vlen). rewrite <- app_assoc, <- Nat.iter_succ_r. done.
Qed.
End blocks.

Section eqv_blocks.
Context {q : Modulus}.

Lemma blocks_eqv op next m n k : (forall k, Proper (eqv ==> eqv) (op k)) ->
  Proper (eqv ==> eqv) (blocks op next m n k).
Proof.
  intros Hop l l' Hl. revert k l l' Hl. induction n as [|n IH]; intros k l l' Hl; cbn [blocks]; [reflexivity|].
  apply app_eqv; [rewrite Hl; reflexivity | apply IH, drop_eqv, Hl].
Qed.

(** A computed level against an ideal one. *)
Lemma blocks_spec op sop next m B B' n : (forall k b, bounded B b -> bounded B' (op k b) /\ op k b ≡v sop k b) ->
  forall k r, bounded B r -> bounded B' (blocks op next m n k r) /\ blocks op next m n k r ≡v blocks sop next m n k r.
Proof.
  intros Hop. induction n as [|n IH]; intros k r Hr; cbn [blocks]; [split; [constructor|reflexivity]|].
  destruct (IH (next k) (drop m r)) as [Hb E]; [auto with bounds|].
  destruct (Hop k (take m r)) as [Hb' E']; [auto with bounds|].
  split; [apply bounded_app; done|]. rewrite E, E'. reflexivity.
Qed.

(** Two levels that undo each other, block by block, up to a factor. *)
Lemma blocks_inverse op op' next next' m c n : forall k k',
  (forall k b, length b = m -> length (op k b) = m) ->
  (forall i b, (i < n)%nat -> length b = m ->
     op' (Nat.iter i next' k') (op (Nat.iter i next k) b) ≡v vscale c b) ->
  forall r, length r = (n * m)%nat -> blocks op' next' m n k' (blocks op next m n k r) ≡v vscale c r.
Proof.
  induction n as [|n IH]; intros k k' Hlen Hinv r Hr; cbn [blocks].
  - destruct r; [reflexivity | cbn in Hr; lia].
  - assert (m <= length r)%nat by nia. assert (Hb : length (take m r) = m) by vlen.
    pose proof (Hlen k _ Hb) as Hop. rewrite (vscale_split m c r).
    rewrite take_app_le, take_ge, drop_app_le, drop_ge, app_nil_l by lia.
    apply app_eqv; [exact (Hinv 0%nat _ ltac:(lia) Hb)|]. apply IH; [done | | vlen].
    intros i b Hi Hb'. specialize (Hinv (S i) b ltac:(lia) Hb'). rewrite !Nat.iter_succ_r in Hinv. exact Hinv.
Qed.
End eqv_blocks.

Lemma blocks_vscale op next m c : (forall k b, op k (vscale c b) = vscale c (op k b)) ->
  forall n k r, blocks op next m n k (vscale c r) = vscale c (blocks op next m n k r).
Proof.
  intros Hop n. induction n as [|n IH]; intros k r; [done|]. cbn [blocks].
  rewrite take_vscale, drop_vscale, Hop, IH, vscale_app. done.
Qed.
Lemma blocks_vadd op next m : (forall k b, length b = m -> length (op k b) = m) ->
  (forall k b b', length b = m -> length b' = m -> op k (vadd b b') = vadd (op k b) (op k b')) ->
  forall n k l r, length l = (n * m)%nat -> length r = (n * m)%nat ->
  blocks op next m n k (vadd l r) = vadd (blocks op next m n k l) (blocks op next m n k r).
Proof.
  intros Hlen Hop n. induction n as [|n IH]; intros k l r Hl Hr; [done|]. cbn [blocks].
  assert (m <= length l)%nat by nia. assert (m <= length r)%nat by nia.
  rewrite take_vadd, drop_vadd, Hop, IH, vadd_app by (rewrite ?Hlen; vlen). done.
Qed.

(** Advancing the index once before the level. *)
Lemma blocks_shift op next m n : forall k r, blocks (fun k => op (next k)) next m n k r = blocks op next m n (next k) r.
Proof. induction n as [|n IH]; intros k r; [done|]. cbn [blocks]. rewrite IH. done. Qed.

(** ** The exact levels *)

Section levels.
Context {q : Modulus} (zt : nat -> Z).

(** Forward: the two remainders of a block, modulo X^len - z and X^len + z. *)
Definition split_op (len k : nat) (b : list Z) : list Z := proj len (zt k) b ++ proj len (- zt k) b.
(** Backward: sum, and scaled difference. *)
Definition join_op (len k : nat) (b : list Z) : list Z :=
  vadd (take len b) (drop len b) ++ vscale (zt k) (vsub (drop len b) (take len b)).

(** The roots are taken from index [k] on, upwards or downwards. *)
Definition slevel (n k len : nat) : list Z -> list Z := blocks (split_op len) (fun k => k + 1)%nat (2 * len) n k.
Definition silevel (n k len : nat) : list Z -> list Z := blocks (join_op len) (fun k => k - 1)%nat (2 * len) n k.

Lemma length_split_op len k b : length b = (2 * len)%nat -> length (split_op len k b) = (2 * len)%nat.
Proof. intros Hb. unfold split_op. rewrite length_app, !length_proj by done. lia. Qed.
Lemma length_join_op len k b : length b = (2 * len)%nat -> length (join_op len k b) = (2 * len)%nat.
Proof. intros Hb. unfold join_op. vlen. Qed.
Lemma length_slevel n k len r : length r = (n * (2 * len))%nat -> length (slevel n k len r) = (n * (2 * len))%nat.
Proof. apply length_blocks, length_split_op. Qed.
Lemma length_silevel n k len r : length r = (n * (2 * len))%nat -> length (silevel n k len r) = (n * (2 * len))%nat.
Proof. apply length_blocks, length_join_op. Qed.

#[export] Instance proj_eqv m : Proper (eqq ==> eqv ==> eqv) (proj m).
Proof. intros z z' Hz l k Hl. unfold proj. rewrite Hz, Hl. reflexivity. Qed.
#[export] Instance slevel_eqv n k len : Proper (eqv ==> eqv) (slevel n k len).
Proof. apply blocks_eqv. intros k' l l' Hl. unfold split_op. rewrite Hl. reflexivity. Qed.
#[export] Instance silevel_eqv n k len : Proper (eqv ==> eqv) (silevel n k len).
Proof. apply blocks_eqv. intros k' l l' Hl. unfold join_op. rewrite Hl. reflexivity. Qed.

(** *** Linearity *)

Lemma slevel_vscale n k len c r : slevel n k len (vscale c r) = vscale c (slevel n k len r).
Proof. apply blocks_vscale. intros k' b. unfold split_op. rewrite !proj_vscale, vscale_app. done. Qed.
Lemma silevel_vscale n k len c r : silevel n k len (vscale c r) = vscale c (silevel n k len r).
Proof.
  apply blocks_vscale. intros k' b. unfold join_op.
  rewrite drop_vscale, take_vscale, <- vscale_vadd, <- vscale_vsub, vscale_app, !vscale_vscale, (Z.mul_comm c).
  done.
Qed.
Lemma slevel_vadd n k len l r : length l = (n * (2 * len))%nat -> length r = (n * (2 * len))%nat ->
  slevel n k len (vadd l r) = vadd (slevel n k len l) (slevel n k len r).
Proof.
  apply blocks_vadd; [apply length_split_op|]. intros k' b b' Hb Hb'. unfold split_op.
  rewrite !proj_vadd, vadd_app by (rewrite ?length_proj; done). done.
Qed.
Lemma silevel_vadd n k len l r : length l = (n * (2 * len))%nat -> length r = (n * (2 * len))%nat ->
  silevel n k len (vadd l r) = vadd (silevel n k len l) (silevel n k len r).
Proof.
  apply blocks_vadd; [apply length_join_op|]. intros k' b b' Hb Hb'. unfold join_op.
  rewrite take_vadd, drop_vadd, vadd_app by vlen. f_equal; vring.
Qed.

(** *** The two are inverse, up to 2 *)

(** The table read backwards holds minus the inverses. *)
Definition paired (n k k' : nat) : Prop := forall i, (i < n)%nat -> zt (k' - i) * zt (k + i) ≡q -1.

Lemma block_inverse k k' len b : length b = (2 * len)%nat -> zt k' * zt k ≡q -1 ->
  join_op len k' (split_op len k b) ≡v vscale 2 b.
Proof.
  intros Hb Hz. rewrite (vscale_split len 2 b). unfold join_op, split_op.
  assert (Hp : forall c, length (proj len c b) = len) by (intros; apply length_proj; done).
  rewrite take_app_le, take_ge, drop_app_le, drop_ge, app_nil_l by (rewrite Hp; lia).
  apply app_eqv; apply eqv_at; rewrite ?length_vadd, ?length_vscale, ?length_vsub, ?Hp; try vlen; intros i Hi.
  - rewrite at_vadd, at_vscale, at_take, !at_proj by (rewrite ?Hp; vlen). apply eqq_eq. ring.
  - rewrite at_vscale, at_vsub, at_vscale, at_drop, !at_proj by (rewrite ?Hp; vlen).
    transitivity (- 2 * (zt k' * zt k) * at_ b (len + i)); [apply eqq_eq; ring|]. rewrite Hz. apply eqq_eq. ring.
Qed.

Lemma block_inverse' k k' len b : length b = (2 * len)%nat -> zt k' * zt k ≡q -1 ->
  split_op len k (join_op len k' b) ≡v vscale 2 b.
Proof.
  intros Hb Hz. set (u := join_op len k' b). assert (Hu : length u = (2 * len)%nat) by (apply length_join_op; done).
  rewrite (vscale_split len 2 b). unfold split_op.
  assert (Hz2 : forall x, zt k * (zt k' * x) ≡q - x).
  { intros x. transitivity (zt k' * zt k * x); [apply eqq_eq; ring|]. rewrite Hz. apply eqq_eq. ring. }
  apply app_eqv; apply eqv_at; rewrite ?length_proj by done; try vlen; intros i Hi.
  all: rewrite at_proj, at_vscale by (rewrite ?Hu; vlen).
  all: unfold u, join_op; rewrite at_app_l, at_vadd, ?at_take, at_drop by vlen.
  all: rewrite at_app_r by vlen; rewrite length_vadd, !length_take, length_drop.
  all: replace (len + i - _)%nat with i by lia.
  all: rewrite at_vscale, at_vsub, !at_take, ?at_drop by vlen.
  - rewrite Hz2. apply eqq_eq. ring.
  - rewrite Z.mul_opp_l, Hz2. apply eqq_eq. ring.
Qed.

Lemma iter_add i k : Nat.iter i (fun k => k + 1)%nat k = (k + i)%nat.
Proof. induction i as [|i IH]; [cbn; lia|]. rewrite Nat.iter_succ, IH. lia. Qed.
Lemma iter_sub i k : Nat.iter i (fun k => k - 1)%nat k = (k - i)%nat.
Proof. induction i as [|i IH]; [cbn; lia|]. rewrite Nat.iter_succ, IH. lia. Qed.

Lemma silevel_slevel n k k' len r : paired n k k' -> length r = (n * (2 * len))%nat ->
  silevel n k' len (slevel n k len r) ≡v vscale 2 r.
Proof.
  intros Hp Hr. apply blocks_inverse; [apply length_split_op | | done].
  intros i b Hi Hb. rewrite iter_add, iter_sub. apply block_inverse; [done | apply Hp, Hi].
Qed.
Lemma slevel_silevel n k k' len r : paired n k k' -> length r = (n * (2 * len))%nat ->
  slevel n k len (silevel n k' len r) ≡v vscale 2 r.
Proof.
  intros Hp Hr. apply blocks_inverse; [apply length_join_op | | done].
  intros i b Hi Hb. rewrite iter_add, iter_sub. apply block_inverse'; [done | apply Hp, Hi].
Qed.

(** *** The forward levels preserve products *)

(** The [k]-th block of a level lives in Z_q[X]/(X^m - root_of k). *)
Definition root_of (k : nat) : Z :=
  if (k =? 1)%nat then -1 else if Nat.even k then zt (k / 2) else - zt (k / 2).

Lemma root_of_even k : (1 <= k)%nat -> root_of (2 * k) = zt k.
Proof.
  intros Hk. unfold root_of. rewrite (proj2 (Nat.eqb_neq _ _)) by lia.
  rewrite Nat.even_mul, Nat.mul_comm, Nat.div_mul by done. done.
Qed.
Lemma root_of_odd k : (1 <= k)%nat -> root_of (2 * k + 1) = - zt k.
Proof.
  intros Hk. unfold root_of. rewrite (proj2 (Nat.eqb_neq _ _)) by lia.
  rewrite Nat.even_add, Nat.even_mul, Nat.mul_comm, Nat.div_add_l by done. cbn [xorb Nat.even negb orb].
  change (1 / 2)%nat with 0%nat. rewrite Nat.add_0_r. done.
Qed.

(** The product block by block. *)
Fixpoint block_products (n k m : nat) (a b : list Z) : list Z :=
  match n with
  | O => []
  | S n' => mulmod (root_of k) (take m a) (take m b) ++ block_products n' (k + 1) m (drop m a) (drop m b)
  end.

#[export] Instance block_products_eqv n k m : Proper (eqv ==> eqv ==> eqv) (block_products n k m).
Proof.
  intros a a' Ha b b' Hb. revert k a a' Ha b b' Hb. induction n as [|n IH]; intros k a a' Ha b b' Hb;
    cbn [block_products]; [reflexivity|].
  apply app_eqv; [apply mulmod_eqv; [reflexivity | apply take_eqv; done..]|].
  apply IH; apply drop_eqv; done.
Qed.

Lemma length_block_products n k m a b : length b = (n * m)%nat -> length (block_products n k m a b) = (n * m)%nat.
Proof.
  revert k a b. induction n as [|n IH]; intros k a b Hb; cbn [block_products]; [done|].
  assert (m <= length b)%nat by nia. rewrite length_app, length_mulmod, IH by vlen. vlen.
Qed.

(** Every table entry is a square root of its block's constant. *)
Definition square_roots (n k : nat) : Prop := forall i, (k <= i < k + n)%nat -> zt i * zt i ≡q root_of i.

Lemma slevel_mul n : forall k len a b, square_roots n k -> (1 <= k)%nat -> (0 < len)%nat ->
  length a = (n * (2 * len))%nat -> length b = (n * (2 * len))%nat ->
  slevel n k len (block_products n k (2 * len) a b) ≡v
    block_products (2 * n) (2 * k) len (slevel n k len a) (slevel n k len b).
Proof.
  unfold slevel. induction n as [|n IH]; intros k len a b Hsq Hk Hlen Ha Hb; [reflexivity|].
  replace (2 * S n)%nat with (S (S (2 * n))) by lia. cbn [blocks block_products].
  set (a1 := take (2 * len) a). set (b1 := take (2 * len) b).
  assert (Ha1 : length a1 = (2 * len)%nat) by (unfold a1; vlen).
  assert (Hb1 : length b1 = (2 * len)%nat) by (unfold b1; vlen).
  assert (Hm : length (mulmod (root_of k) a1 b1) = (2 * len)%nat) by (rewrite length_mulmod; done).
  rewrite take_app_le, drop_app_le, take_ge, drop_ge, app_nil_l by lia.
  rewrite IH by (first [intros i Hi; apply Hsq; lia | vlen]). unfold split_op. rewrite <- !app_assoc.
  assert (Hp : forall z c, length c = (2 * len)%nat -> length (proj len z c) = len)
    by (intros; apply length_proj; done).
  rewrite !take_app_le, !drop_app_le by (rewrite Hp by done; lia).
  rewrite !(take_ge (proj _ _ _)), !(drop_ge (proj _ _ _)) by (rewrite Hp by done; lia).
  rewrite !app_nil_l, !take_app_le, !drop_app_le by (rewrite Hp by done; lia).
  rewrite !(take_ge (proj _ _ _)), !(drop_ge (proj _ _ _)) by (rewrite Hp by done; lia).
  rewrite !app_nil_l, root_of_odd, root_of_even by done.
  assert (Hz : zt k * zt k ≡q root_of k) by (apply Hsq; lia).
  assert (Hz' : - zt k * - zt k ≡q root_of k) by (rewrite <- Hz; apply eqq_eq; ring).
  rewrite (proj_mulmod len (zt k) _ Hlen Hz) by done.
  rewrite (proj_mulmod len (- zt k) _ Hlen Hz') by done.
  replace (2 * k + 1 + 1)%nat with (2 * (k + 1))%nat by lia. reflexivity.
Qed.
End levels.
