(* ===== verification/Keccak.v ===== *)
(** * Keccak: PQClean/common/fips202.c

    SHA-3 and SHAKE as ML-KEM uses them: the permutation with its two unrolled
    rounds, the one-shot and the incremental sponge, and the functions built on
    them.  A [uint64_t] lane is an integer below 2^64, a Keccak state a list of 25
    lanes; the 26th word of an incremental context is [inc_pos].  Sizes ([size_t],
    the rate [r]) are natural numbers.  The contexts are allocated with [malloc] and
    the process exits when that fails; the model is of runs in which it succeeds.
    The theorems are in KeccakFacts. *)
From stdpp Require Import base numbers list option.
From Stdlib Require Import ZArith Lia.
From S2P Require Import Prelude.

Declare Scope lane_scope.
Delimit Scope lane_scope with lane.
Infix "^^" := Z.lxor (at level 42, left associativity) : lane_scope.
Infix "&&&" := Z.land (at level 40, left associativity) : lane_scope.
#[local] Open Scope lane_scope.

(** ** Words *)

Definition not64 (x : Z) : Z := u64 (Z.lnot x).
(** [(uint64_t)x << n]. *)
Definition shl64 (x n : Z) : Z := u64 (Z.shiftl x n).
(** The macro [ROL(a, offset)]. *)
Definition ROL (a offset : Z) : Z := shl64 a offset ^^ Z.shiftr a (64 - offset).

Definition load64 (x : bytes) : Z :=
  fold_left (fun r i => Z.lor r (shl64 (nth i x 0) (8 * Z.of_nat i))) (seq 0 8) 0.
Definition store64 (u : Z) : bytes :=
  map (fun i => u8 (Z.shiftr u (8 * Z.of_nat i))) (seq 0 8).

(** ** The permutation *)

Definition KeccakF_RoundConstants : list Z :=
  [
 0x0000000000000001; 0x0000000000008082; 0x800000000000808a;
   0x8000000080008000; 0x000000000000808b; 0x0000000080000001;
   0x8000000080008081; 0x8000000000008009; 0x000000000000008a;
   0x0000000000000088; 0x0000000080008009; 0x000000008000000a;
   0x000000008000808b; 0x800000000000008b; 0x8000000000008089;
   0x8000000000008003; 0x8000000000008002; 0x8000000000000080;
   0x000000000000800a; 0x800000008000000a; 0x8000000080008081;
   0x8000000000008080; 0x0000000080000001; 0x8000000080008008].

(** The 25 local variables [Aba] ... [Asu] (or [Eba] ... [Esu]). *)
Inductive lanes : Type := Lanes
  (ba : Z) (be : Z) (bi : Z) (bo : Z) (bu : Z)
  (ga : Z) (ge : Z) (gi : Z) (go : Z) (gu : Z)
  (ka : Z) (ke : Z) (ki : Z) (ko : Z) (ku : Z)
  (ma : Z) (me : Z) (mi : Z) (mo : Z) (mu : Z)
  (sa : Z) (se : Z) (si : Z) (so : Z) (su : Z).

Definition copyFromState (state : list Z) : lanes :=
  let a i := nth i state 0 in
  Lanes (a 0%nat) (a 1%nat) (a 2%nat) (a 3%nat) (a 4%nat)
    (a 5%nat) (a 6%nat) (a 7%nat) (a 8%nat) (a 9%nat)
    (a 10%nat) (a 11%nat) (a 12%nat) (a 13%nat) (a 14%nat)
    (a 15%nat) (a 16%nat) (a 17%nat) (a 18%nat) (a 19%nat)
    (a 20%nat) (a 21%nat) (a 22%nat) (a 23%nat) (a 24%nat).
Definition copyToState (A : lanes) : list Z :=
  let '(Lanes
    Aba Abe Abi Abo Abu
    Aga Age Agi Ago Agu
    Aka Ake Aki Ako Aku
    Ama Ame Ami Amo Amu
    Asa Ase Asi Aso Asu) := A in
    [Aba; Abe; Abi; Abo; Abu;
     Aga; Age; Agi; Ago; Agu;
     Aka; Ake; Aki; Ako; Aku;
     Ama; Ame; Ami; Amo; Amu;
     Asa; Ase; Asi; Aso; Asu].

(** The first half of one iteration of the loop: A to E. *)
Definition keccak_A_to_E (rc : Z) (A : lanes) : lanes :=
  let '(Lanes
    Aba Abe Abi Abo Abu
    Aga Age Agi Ago Agu
    Aka Ake Aki Ako Aku
    Ama Ame Ami Amo Amu
    Asa Ase Asi Aso Asu) := A in
  let BCa := Aba ^^ Aga ^^ Aka ^^ Ama ^^ Asa in let BCe := Abe ^^ Age ^^ Ake ^^ Ame ^^ Ase in
  let BCi := Abi ^^ Agi ^^ Aki ^^ Ami ^^ Asi in let BCo := Abo ^^ Ago ^^ Ako ^^ Amo ^^ Aso in
  let BCu := Abu ^^ Agu ^^ Aku ^^ Amu ^^ Asu in let Da := BCu ^^ ROL BCe 1 in
  let De := BCa ^^ ROL BCi 1 in let Di := BCe ^^ ROL BCo 1 in let Do := BCi ^^ ROL BCu 1 in
  let Du := BCo ^^ ROL BCa 1 in let Aba := Aba ^^ Da in let BCa := Aba in let Age := Age ^^ De in
  let BCe := ROL Age 44 in let Aki := Aki ^^ Di in let BCi := ROL Aki 43 in let Amo := Amo ^^ Do in
  let BCo := ROL Amo 21 in let Asu := Asu ^^ Du in let BCu := ROL Asu 14 in
  let Eba := BCa ^^ (not64 BCe &&& BCi) in let Eba := Eba ^^ rc in
  let Ebe := BCe ^^ (not64 BCi &&& BCo) in let Ebi := BCi ^^ (not64 BCo &&& BCu) in
  let Ebo := BCo ^^ (not64 BCu &&& BCa) in let Ebu := BCu ^^ (not64 BCa &&& BCe) in
  let Abo := Abo ^^ Do in let BCa := ROL Abo 28 in let Agu := Agu ^^ Du in let BCe := ROL Agu 20 in
  let Aka := Aka ^^ Da in let BCi := ROL Aka 3 in let Ame := Ame ^^ De in let BCo := ROL Ame 45 in
  let Asi := Asi ^^ Di in let BCu := ROL Asi 61 in let Ega := BCa ^^ (not64 BCe &&& BCi) in
  let Ege := BCe ^^ (not64 BCi &&& BCo) in let Egi := BCi ^^ (not64 BCo &&& BCu) in
  let Ego := BCo ^^ (not64 BCu &&& BCa) in let Egu := BCu ^^ (not64 BCa &&& BCe) in
  let Abe := Abe ^^ De in let BCa := ROL Abe 1 in let Agi := Agi ^^ Di in let BCe := ROL Agi 6 in
  let Ako := Ako ^^ Do in let BCi := ROL Ako 25 in let Amu := Amu ^^ Du in let BCo := ROL Amu 8 in
  let Asa := Asa ^^ Da in let BCu := ROL Asa 18 in let Eka := BCa ^^ (not64 BCe &&& BCi) in
  let Eke := BCe ^^ (not64 BCi &&& BCo) in let Eki := BCi ^^ (not64 BCo &&& BCu) in
  let Eko := BCo ^^ (not64 BCu &&& BCa) in let Eku := BCu ^^ (not64 BCa &&& BCe) in
  let Abu := Abu ^^ Du in let BCa := ROL Abu 27 in let Aga := Aga ^^ Da in let BCe := ROL Aga 36 in
  let Ake := Ake ^^ De in let BCi := ROL Ake 10 in let Ami := Ami ^^ Di in let BCo := ROL Ami 15 in
  let Aso := Aso ^^ Do in let BCu := ROL Aso 56 in let Ema := BCa ^^ (not64 BCe &&& BCi) in
  let Eme := BCe ^^ (not64 BCi &&& BCo) in let Emi := BCi ^^ (not64 BCo &&& BCu) in
  let Emo := BCo ^^ (not64 BCu &&& BCa) in let Emu := BCu ^^ (not64 BCa &&& BCe) in
  let Abi := Abi ^^ Di in let BCa := ROL Abi 62 in let Ago := Ago ^^ Do in let BCe := ROL Ago 55 in
  let Aku := Aku ^^ Du in let BCi := ROL Aku 39 in let Ama := Ama ^^ Da in let BCo := ROL Ama 41 in
  let Ase := Ase ^^ De in let BCu := ROL Ase 2 in let Esa := BCa ^^ (not64 BCe &&& BCi) in
  let Ese := BCe ^^ (not64 BCi &&& BCo) in let Esi := BCi ^^ (not64 BCo &&& BCu) in
  let Eso := BCo ^^ (not64 BCu &&& BCa) in let Esu := BCu ^^ (not64 BCa &&& BCe) in
  Lanes
    Eba Ebe Ebi Ebo Ebu
    Ega Ege Egi Ego Egu
    Eka Eke Eki Eko Eku
    Ema Eme Emi Emo Emu
    Esa Ese Esi Eso Esu.
(** The second half: E to A. *)
Definition keccak_E_to_A (rc : Z) (E : lanes) : lanes :=
  let '(Lanes
    Eba Ebe Ebi Ebo Ebu
    Ega Ege Egi Ego Egu
    Eka Eke Eki Eko Eku
    Ema Eme Emi Emo Emu
    Esa Ese Esi Eso Esu) := E in
  let BCa := Eba ^^ Ega ^^ Eka ^^ Ema ^^ Esa in let BCe := Ebe ^^ Ege ^^ Eke ^^ Eme ^^ Ese in
  let BCi := Ebi ^^ Egi ^^ Eki ^^ Emi ^^ Esi in let BCo := Ebo ^^ Ego ^^ Eko ^^ Emo ^^ Eso in
  let BCu := Ebu ^^ Egu ^^ Eku ^^ Emu ^^ Esu in let Da := BCu ^^ ROL BCe 1 in
  let De := BCa ^^ ROL BCi 1 in let Di := BCe ^^ ROL BCo 1 in let Do := BCi ^^ ROL BCu 1 in
  let Du := BCo ^^ ROL BCa 1 in let Eba := Eba ^^ Da in let BCa := Eba in let Ege := Ege ^^ De in
  let BCe := ROL Ege 44 in let Eki := Eki ^^ Di in let BCi := ROL Eki 43 in let Emo := Emo ^^ Do in
  let BCo := ROL Emo 21 in let Esu := Esu ^^ Du in let BCu := ROL Esu 14 in
  let Aba := BCa ^^ (not64 BCe &&& BCi) in let Aba := Aba ^^ rc in
  let Abe := BCe ^^ (not64 BCi &&& BCo) in let Abi := BCi ^^ (not64 BCo &&& BCu) in
  let Abo := BCo ^^ (not64 BCu &&& BCa) in let Abu := BCu ^^ (not64 BCa &&& BCe) in
  let Ebo := Ebo ^^ Do in let BCa := ROL Ebo 28 in let Egu := Egu ^^ Du in let BCe := ROL Egu 20 in
  let Eka := Eka ^^ Da in let BCi := ROL Eka 3 in let Eme := Eme ^^ De in let BCo := ROL Eme 45 in
  let Esi := Esi ^^ Di in let BCu := ROL Esi 61 in let Aga := BCa ^^ (not64 BCe &&& BCi) in
  let Age := BCe ^^ (not64 BCi &&& BCo) in let Agi := BCi ^^ (not64 BCo &&& BCu) in
  let Ago := BCo ^^ (not64 BCu &&& BCa) in let Agu := BCu ^^ (not64 BCa &&& BCe) in
  let Ebe := Ebe ^^ De in let BCa := ROL Ebe 1 in let Egi := Egi ^^ Di in let BCe := ROL Egi 6 in
  let Eko := Eko ^^ Do in let BCi := ROL Eko 25 in let Emu := Emu ^^ Du in let BCo := ROL Emu 8 in
  let Esa := Esa ^^ Da in let BCu := ROL Esa 18 in let Aka := BCa ^^ (not64 BCe &&& BCi) in
  let Ake := BCe ^^ (not64 BCi &&& BCo) in let Aki := BCi ^^ (not64 BCo &&& BCu) in
  let Ako := BCo ^^ (not64 BCu &&& BCa) in let Aku := BCu ^^ (not64 BCa &&& BCe) in
  let Ebu := Ebu ^^ Du in let BCa := ROL Ebu 27 in let Ega := Ega ^^ Da in let BCe := ROL Ega 36 in
  let Eke := Eke ^^ De in let BCi := ROL Eke 10 in let Emi := Emi ^^ Di in let BCo := ROL Emi 15 in
  let Eso := Eso ^^ Do in let BCu := ROL Eso 56 in let Ama := BCa ^^ (not64 BCe &&& BCi) in
  let Ame := BCe ^^ (not64 BCi &&& BCo) in let Ami := BCi ^^ (not64 BCo &&& BCu) in
  let Amo := BCo ^^ (not64 BCu &&& BCa) in let Amu := BCu ^^ (not64 BCa &&& BCe) in
  let Ebi := Ebi ^^ Di in let BCa := ROL Ebi 62 in let Ego := Ego ^^ Do in let BCe := ROL Ego 55 in
  let Eku := Eku ^^ Du in let BCi := ROL Eku 39 in let Ema := Ema ^^ Da in let BCo := ROL Ema 41 in
  let Ese := Ese ^^ De in let BCu := ROL Ese 2 in let Asa := BCa ^^ (not64 BCe &&& BCi) in
  let Ase := BCe ^^ (not64 BCi &&& BCo) in let Asi := BCi ^^ (not64 BCo &&& BCu) in
  let Aso := BCo ^^ (not64 BCu &&& BCa) in let Asu := BCu ^^ (not64 BCa &&& BCe) in
  Lanes
    Aba Abe Abi Abo Abu
    Aga Age Agi Ago Agu
    Aka Ake Aki Ako Aku
    Ama Ame Ami Amo Amu
    Asa Ase Asi Aso Asu.

(** The loop [for (round = 0; round < NROUNDS; round += 2)]; [fuel] bounds the number
    of iterations, 12 of which are enough. *)
Fixpoint keccak_rounds (fuel round : nat) (A : lanes) : lanes :=
  match fuel with
  | O => A
  | S fuel' =>
      if (round <? 24)%nat then
        let E := keccak_A_to_E (nth round KeccakF_RoundConstants 0) A in
        let A := keccak_E_to_A (nth (round + 1) KeccakF_RoundConstants 0) E in
        keccak_rounds fuel' (round + 2) A
      else A
  end.

Definition KeccakF1600_StatePermute (state : list Z) : list Z :=
  copyToState (keccak_rounds 12 0 (copyFromState state)).

(** ** The one-shot sponge *)

(** [s[i] ^= v]. *)
Definition xor_lane (s : list Z) (i : nat) (v : Z) : list Z := alter (fun x => x ^^ v) i s.

(** The loop [for (i = 0; i < r / 8; ++i) s[i] ^= load64(m + 8 * i)]. *)
Definition xor_block (s : list Z) (r : nat) (m : bytes) : list Z :=
  fold_left (fun s i => xor_lane s i (load64 (drop (8 * i) m))) (seq 0 (r / 8)) s.

(** The loop [while (mlen >= r)]; each iteration consumes [r] bytes, so the length of
    the message is enough fuel. *)
Fixpoint absorb_blocks (fuel : nat) (s : list Z) (r : nat) (m : bytes) : list Z * bytes :=
  match fuel with
  | O => (s, m)
  | S fuel' =>
      if (r <=? length m)%nat then
        absorb_blocks fuel' (KeccakF1600_StatePermute (xor_block s r m)) r (drop r m)
      else (s, m)
  end.

(** The last block: the rest of the message, [p], zeros, and 128 on the last byte. *)
Definition last_block (r : nat) (m : bytes) (p : Z) : bytes :=
  let t := replicate r 0 in
  let t := m ++ drop (length m) t in
  let t := <[length m := p]> t in
  alter (fun x => Z.lor x 128) (r - 1)%nat t.

Definition keccak_absorb (r : nat) (m : bytes) (p : Z) : list Z :=
  let s := replicate 25 0 in
  let '(s, m) := absorb_blocks (length m) s r m in
  xor_block s r (last_block r m p).

(** The first [n] lanes, stored in little-endian order. *)
Definition store_lanes (n : nat) (s : list Z) : bytes :=
  flat_map (fun i => store64 (nth i s 0)) (seq 0 n).

(** Each iteration permutes the state and stores its first [r >> 3] lanes. *)
Fixpoint keccak_squeezeblocks (nblocks : nat) (s : list Z) (r : nat) : bytes * list Z :=
  match nblocks with
  | O => ([], s)
  | S n =>
      let s := KeccakF1600_StatePermute s in
      let h := store_lanes (r / 8) s in
      let '(rest, s') := keccak_squeezeblocks n s r in
      (h ++ rest, s')
  end.

(** ** The incremental sponge *)

Record keccak_inc := {
  inc_state : list Z;   (** s_inc[0..24] *)
  inc_pos : nat         (** s_inc[25] *)
}.

Definition keccak_inc_init : keccak_inc := {| inc_state := replicate 25 0; inc_pos := 0 |}.

(** [s_inc[j >> 3] ^= (uint64_t)b << (8 * (j & 0x07))]. *)
Definition xor_byte (s : list Z) (j : nat) (b : Z) : list Z :=
  xor_lane s (j / 8) (shl64 b (8 * Z.of_nat (j mod 8))).

(** Xor the bytes of [m] into the state from byte [pos] on. *)
Fixpoint xor_bytes (s : list Z) (pos : nat) (m : bytes) : list Z :=
  match m with
  | [] => s
  | b :: m' => xor_bytes (xor_byte s pos b) (S pos) m'
  end.

Fixpoint keccak_inc_absorb_loop (fuel : nat) (c : keccak_inc) (r : nat) (m : bytes) :
    keccak_inc * bytes :=
  match fuel with
  | O => (c, m)
  | S fuel' =>
      if (r <=? length m + inc_pos c)%nat then
        let n := (r - inc_pos c)%nat in
        let s := xor_bytes (inc_state c) (inc_pos c) (take n m) in
        keccak_inc_absorb_loop fuel'
          {| inc_state := KeccakF1600_StatePermute s; inc_pos := 0 |} r (drop n m)
      else (c, m)
  end.

Definition keccak_inc_absorb (c : keccak_inc) (r : nat) (m : bytes) : keccak_inc :=
  let '(c, m) := keccak_inc_absorb_loop (S (length m)) c r m in
  {| inc_state := xor_bytes (inc_state c) (inc_pos c) m;
     inc_pos := (inc_pos c + length m)%nat |}.

Definition keccak_inc_finalize (c : keccak_inc) (r : nat) (p : Z) : keccak_inc :=
  let s := xor_byte (inc_state c) (inc_pos c) p in
  let s := xor_byte s (r - 1) 128 in
  {| inc_state := s; inc_pos := 0 |}.

(** [(uint8_t)(s_inc[j >> 3] >> (8 * (j & 0x07)))]. *)
Definition state_byte (s : list Z) (j : nat) : Z :=
  u8 (Z.shiftr (nth (j / 8) s 0) (8 * Z.of_nat (j mod 8))).

(** The loop [while (outlen > 0)] of the squeeze. *)
Fixpoint keccak_inc_squeeze_loop (fuel outlen : nat) (c : keccak_inc) (r : nat) :
    bytes * keccak_inc :=
  match fuel with
  | O => ([], c)
  | S fuel' =>
      if (0 <? outlen)%nat then
        let s := KeccakF1600_StatePermute (inc_state c) in
        let i := Nat.min outlen r in
        let h := map (state_byte s) (seq 0 i) in
        let '(rest, c') := keccak_inc_squeeze_loop fuel' (outlen - i)
                             {| inc_state := s; inc_pos := (r - i)%nat |} r in
        (h ++ rest, c')
      else ([], c)
  end.

Definition keccak_inc_squeeze (outlen : nat) (c : keccak_inc) (r : nat) : bytes * keccak_inc :=
  let i := Nat.min outlen (inc_pos c) in
  let h := map (state_byte (inc_state c)) (seq (r - inc_pos c) i) in
  let '(rest, c') := keccak_inc_squeeze_loop outlen (outlen - i)
                       {| inc_state := inc_state c; inc_pos := (inc_pos c - i)%nat |} r in
  (h ++ rest, c').

(** ** SHAKE and SHA-3 *)

Definition SHAKE128_RATE : nat := 168.
Definition SHAKE256_RATE : nat := 136.
Definition SHA3_256_RATE : nat := 136.
Definition SHA3_384_RATE : nat := 104.
Definition SHA3_512_RATE : nat := 72.

Definition shake128_absorb (input : bytes) : list Z := keccak_absorb SHAKE128_RATE input 0x1F.
Definition shake128_squeezeblocks (nblocks : nat) (s : list Z) : bytes * list Z :=
  keccak_squeezeblocks nblocks s SHAKE128_RATE.
Definition shake256_absorb (input : bytes) : list Z := keccak_absorb SHAKE256_RATE input 0x1F.
Definition shake256_squeezeblocks (nblocks : nat) (s : list Z) : bytes * list Z :=
  keccak_squeezeblocks nblocks s SHAKE256_RATE.

Definition shake128 (outlen : nat) (input : bytes) : bytes :=
  let nblocks := (outlen / SHAKE128_RATE)%nat in
  let s := shake128_absorb input in
  let '(output, s) := shake128_squeezeblocks nblocks s in
  let outlen := (outlen - nblocks * SHAKE128_RATE)%nat in
  if (outlen =? 0)%nat then output
  else let '(t, s) := shake128_squeezeblocks 1 s in output ++ take outlen t.

Definition shake256 (outlen : nat) (input : bytes) : bytes :=
  let nblocks := (outlen / SHAKE256_RATE)%nat in
  let s := shake256_absorb input in
  let '(output, s) := shake256_squeezeblocks nblocks s in
  let outlen := (outlen - nblocks * SHAKE256_RATE)%nat in
  if (outlen =? 0)%nat then output
  else let '(t, s) := shake256_squeezeblocks 1 s in output ++ take outlen t.

(** SHA3-256, SHA3-384 and SHA3-512 differ in their rate and output length. *)
Definition sha3_256 (input : bytes) : bytes :=
  let s := keccak_absorb SHA3_256_RATE input 0x06 in
  let t := fst (keccak_squeezeblocks 1 s SHA3_256_RATE) in take 32 t.
Definition sha3_384 (input : bytes) : bytes :=
  let s := keccak_absorb SHA3_384_RATE input 0x06 in
  let t := fst (keccak_squeezeblocks 1 s SHA3_384_RATE) in take 48 t.
Definition sha3_512 (input : bytes) : bytes :=
  let s := keccak_absorb SHA3_512_RATE input 0x06 in
  let t := fst (keccak_squeezeblocks 1 s SHA3_512_RATE) in take 64 t.

(** The incremental interfaces of SHAKE128, SHAKE256 and the SHA-3 functions. *)
Definition shake128_inc_init : keccak_inc := keccak_inc_init.
Definition shake128_inc_absorb (c : keccak_inc) (input : bytes) : keccak_inc :=
  keccak_inc_absorb c SHAKE128_RATE input.
Definition shake128_inc_finalize (c : keccak_inc) : keccak_inc :=
  keccak_inc_finalize c SHAKE128_RATE 0x1F.
Definition shake128_inc_squeeze (outlen : nat) (c : keccak_inc) : bytes * keccak_inc :=
  keccak_inc_squeeze outlen c SHAKE128_RATE.

Definition shake256_inc_init : keccak_inc := keccak_inc_init.
Definition shake256_inc_absorb (c : keccak_inc) (input : bytes) : keccak_inc :=
  keccak_inc_absorb c SHAKE256_RATE input.
Definition shake256_inc_finalize (c : keccak_inc) : keccak_inc :=
  keccak_inc_finalize c SHAKE256_RATE 0x1F.
Definition shake256_inc_squeeze (outlen : nat) (c : keccak_inc) : bytes * keccak_inc :=
  keccak_inc_squeeze outlen c SHAKE256_RATE.

Definition sha3_256_inc_init : keccak_inc := keccak_inc_init.
Definition sha3_256_inc_absorb (c : keccak_inc) (input : bytes) : keccak_inc :=
  keccak_inc_absorb c SHA3_256_RATE input.
Definition sha3_256_inc_finalize (c : keccak_inc) : bytes :=
  let c := keccak_inc_finalize c SHA3_256_RATE 0x06 in
  let t := fst (keccak_squeezeblocks 1 (inc_state c) SHA3_256_RATE) in take 32 t.
Definition sha3_384_inc_init : keccak_inc := keccak_inc_init.
Definition sha3_384_inc_absorb (c : keccak_inc) (input : bytes) : keccak_inc :=
  keccak_inc_absorb c SHA3_384_RATE input.
Definition sha3_384_inc_finalize (c : keccak_inc) : bytes :=
  let c := keccak_inc_finalize c SHA3_384_RATE 0x06 in
  let t := fst (keccak_squeezeblocks 1 (inc_state c) SHA3_384_RATE) in take 48 t.
Definition sha3_512_inc_init : keccak_inc := keccak_inc_init.
Definition sha3_512_inc_absorb (c : keccak_inc) (input : bytes) : keccak_inc :=
  keccak_inc_absorb c SHA3_512_RATE input.
Definition sha3_512_inc_finalize (c : keccak_inc) : bytes :=
  let c := keccak_inc_finalize c SHA3_512_RATE 0x06 in
  let t := fst (keccak_squeezeblocks 1 (inc_state c) SHA3_512_RATE) in take 64 t.
