(* ===== verification/KeccakFacts.v ===== *)
(** * Keccak against FIPS 202

    The standard, written from its text (steps theta, rho, pi, chi and iota, the
    round constants by their shift register), and the equivalence of the unrolled
    permutation of fips202.c with it.  The sponge is in SpongeFacts. *)
From stdpp Require Import base numbers list option.
From Stdlib Require Import ZArith Lia.
From S2P Require Import Prelude Keccak.

(** ** Words below a power of two *)

Definition lane (x : Z) : Prop := 0 <= x < 2 ^ 64.

Lemma testbit_above x n i : 0 <= x < 2 ^ n -> n <= i -> Z.testbit x i = false.
Proof.
  intros Hx Hi. destruct (decide (x = 0)) as [->|Hz]; [apply Z.bits_0|].
  apply Z.bits_above_log2; [lia|].
  assert (Z.log2 x < n); [apply Z.log2_lt_pow2; lia | lia].
Qed.

Lemma below_pow2 x n :
  0 <= n -> 0 <= x -> (forall i, n <= i -> Z.testbit x i = false) -> 0 <= x < 2 ^ n.
Proof.
  intros Hn Hx Hb. split; [done|]. apply Z.nle_gt. intros Hle.
  assert (Hlog : n <= Z.log2 x) by (apply Z.log2_le_pow2; [pose proof (Z.pow_pos_nonneg 2 n); lia | done]).
  pose proof (Z.bit_log2 x). rewrite Hb in H; [|done].
  pose proof (Z.pow_pos_nonneg 2 n). assert (false = true) by (apply H; lia). done.
Qed.

Lemma land_shiftl_0 a b n : 0 <= n -> 0 <= a < 2 ^ n -> Z.land a (Z.shiftl b n) = 0.
Proof.
  intros Hn Ha. apply Z.bits_inj'. intros i Hi.
  rewrite Z.land_spec, Z.shiftl_spec, Z.bits_0 by done.
  destruct (decide (i < n)).
  - rewrite (Z.testbit_neg_r b) by lia. apply andb_false_r.
  - rewrite (testbit_above a n) by lia. done.
Qed.

Lemma lor_shiftl a b n : 0 <= n -> 0 <= a < 2 ^ n -> Z.lor a (Z.shiftl b n) = a + b * 2 ^ n.
Proof.
  intros Hn Ha. rewrite <- Z.shiftl_mul_pow2 by done.
  rewrite <- Z.lxor_lor, <- Z.add_nocarry_lxor by (apply land_shiftl_0; done). done.
Qed.

Lemma lxor_shiftl a b n : 0 <= n -> 0 <= a < 2 ^ n -> Z.lxor a (Z.shiftl b n) = a + b * 2 ^ n.
Proof.
  intros Hn Ha. rewrite <- lor_shiftl, Z.lxor_lor by first [done | apply land_shiftl_0; done]. done.
Qed.

Lemma lxor_below a b n : 0 <= n -> 0 <= a < 2 ^ n -> 0 <= b < 2 ^ n -> 0 <= Z.lxor a b < 2 ^ n.
Proof.
  intros Hn Ha Hb. apply below_pow2; [done | apply Z.lxor_nonneg; lia |].
  intros i Hi. rewrite Z.lxor_spec, (testbit_above a n), (testbit_above b n) by lia. done.
Qed.

Lemma lane_lxor a b : lane a -> lane b -> lane (Z.lxor a b).
Proof. apply lxor_below. lia. Qed.
Lemma lane_u64 x : lane (u64 x).
Proof. unfold lane, u64. pose proof (Z.mod_pos_bound x 18446744073709551616). lia. Qed.
Lemma lane_shiftr x n : 0 <= n -> lane x -> lane (Z.shiftr x n).
Proof.
  unfold lane. intros Hn Hx. rewrite Z.shiftr_div_pow2 by done.
  pose proof (Z.pow_pos_nonneg 2 n). split; [apply Z.div_pos; lia|].
  apply Z.div_lt_upper_bound; [lia|]. nia.
Qed.
Lemma lane_land a b : lane b -> lane (Z.land a b).
Proof.
  intros Hb. apply below_pow2; [lia | apply Z.land_nonneg; right; apply Hb |].
  intros i Hi. rewrite Z.land_spec, (testbit_above b 64) by (done || apply Hb). apply andb_false_r.
Qed.
Lemma lane_ldiff a b : lane a -> lane (Z.ldiff a b).
Proof.
  intros Ha. apply below_pow2; [lia | apply Z.ldiff_nonneg; left; apply Ha |].
  intros i Hi. rewrite Z.ldiff_spec, (testbit_above a 64) by (done || apply Ha). done.
Qed.
Lemma lane_ROL a n : 0 <= n <= 64 -> lane a -> lane (ROL a n).
Proof. intros Hn Ha. apply lane_lxor; [apply lane_u64 | apply lane_shiftr; [lia|done]]. Qed.
Lemma lane_nth s i : Forall lane s -> lane (nth i s 0).
Proof.
  intros Hs. destruct (decide (i < length s)%nat) as [Hi|].
  - apply Forall_nth; done.
  - rewrite nth_overflow by lia. done.
Qed.

Create HintDb lane.
#[export] Hint Resolve lane_lxor lane_u64 lane_land lane_ldiff lane_nth : lane.
#[export] Hint Extern 2 (lane (ROL _ _)) => apply lane_ROL; [lia|] : lane.

(** ** FIPS 202, section 3: the permutation *)
Module Fips202.

(** Rotation of a lane by [n] positions towards the high bits. *)
Definition rot (a n : Z) : Z := (a * 2 ^ n) mod 2 ^ 64 + a / 2 ^ (64 - n).

(** The lane A[x, y]; coordinates are taken modulo 5. *)
Definition at_ (A : list Z) (x y : nat) : Z := nth (5 * (y mod 5) + x mod 5) A 0.
Definition build (f : nat -> nat -> Z) : list Z :=
  flat_map (fun y => map (fun x => f x y) (seq 0 5)) (seq 0 5).

Definition column (A : list Z) (x : nat) : Z :=
  Z.lxor (Z.lxor (Z.lxor (Z.lxor (at_ A x 0) (at_ A x 1)) (at_ A x 2)) (at_ A x 3)) (at_ A x 4).
Definition theta (A : list Z) : list Z :=
  build (fun x y => Z.lxor (at_ A x y) (Z.lxor (column A (x + 4)) (rot (column A (x + 1)) 1))).

(** The offsets of rho: [(t+1)(t+2)/2] along the walk from (1, 0) by (y, 2x+3y). *)
Fixpoint rho_walk (n t x y : nat) : list (nat * nat * Z) :=
  match n with
  | O => []
  | S n' => (x, y, Z.of_nat ((t + 1) * (t + 2) / 2) mod 64)
              :: rho_walk n' (t + 1) y ((2 * x + 3 * y) mod 5)
  end.
Definition rho_offset (x y : nat) : Z :=
  match find (fun '(a, b, _) => (a =? x)%nat && (b =? y)%nat) (rho_walk 24 0 1 0) with
  | Some (_, n) => n
  | None => 0
  end.
Definition rho (A : list Z) : list Z := build (fun x y => rot (at_ A x y) (rho_offset x y)).
Definition pi (A : list Z) : list Z := build (fun x y => at_ A (x + 3 * y) x).
Definition chi (A : list Z) : list Z :=
  build (fun x y => Z.lxor (at_ A x y) (Z.ldiff (at_ A (x + 2) y) (at_ A (x + 1) y))).

(** Algorithm 5: the shift register behind the round constants. *)
Definition lfsr (R : list bool) : list bool :=
  match R with
  | [r0; r1; r2; r3; r4; r5; r6; r7] =>
      [r7; r0; r1; r2; xorb r3 r7; xorb r4 r7; xorb r5 r7; r6]
  | _ => R
  end.
Definition rc (t : nat) : bool :=
  nth 0 (Nat.iter (t mod 255) lfsr [true; false; false; false; false; false; false; false]) false.
Definition RC (ir : nat) : Z :=
  fold_left (fun acc j => if rc (j + 7 * ir) then acc + 2 ^ (2 ^ Z.of_nat j - 1) else acc)
            (seq 0 7) 0.
Definition iota (k : Z) (A : list Z) : list Z :=
  build (fun x y => if ((x =? 0) && (y =? 0))%nat then Z.lxor (at_ A x y) k else at_ A x y).

Definition Rnd (k : Z) (A : list Z) : list Z := iota k (chi (pi (rho (theta A)))).
Definition keccak_f (A : list Z) : list Z := fold_left (fun A ir => Rnd (RC ir) A) (seq 0 24) A.

End Fips202.

(** ** The permutation *)

(** The table is what the shift register produces. *)
Lemma round_constants i : (i < 24)%nat -> nth i KeccakF_RoundConstants 0 = Fips202.RC i.
Proof. intros Hi. do 24 (destruct i as [|i]; [reflexivity|]). lia. Qed.

Lemma andn_ldiff a b : lane b -> Z.land (not64 a) b = Z.ldiff b a.
Proof.
  intros Hb. apply Z.bits_inj'. intros i Hi. unfold not64, u64.
  change 18446744073709551616 with (2 ^ 64).
  rewrite Z.land_spec, Z.ldiff_spec. destruct (decide (i < 64)).
  - rewrite Z.mod_pow2_bits_low, Z.lnot_spec by done. apply andb_comm.
  - rewrite (testbit_above b 64) by (done || lia). apply andb_false_r.
Qed.

Lemma ROL_rot a n : 0 < n < 64 -> lane a -> ROL a n = Fips202.rot a n.
Proof.
  intros Hn Ha. unfold ROL, shl64, u64, Fips202.rot. change 18446744073709551616 with (2 ^ 64).
  assert (Hp : 2 ^ 64 = 2 ^ (64 - n) * 2 ^ n) by (rewrite <- Z.pow_add_r by lia; f_equal; lia).
  pose proof (Z.pow_pos_nonneg 2 (64 - n)). pose proof (Z.pow_pos_nonneg 2 n).
  unfold lane in Ha. rewrite Z.shiftl_mul_pow2, Z.shiftr_div_pow2 by lia.
  rewrite Hp, Z.mul_mod_distr_r by lia. rewrite Hp in Ha.
  assert (0 <= a / 2 ^ (64 - n) < 2 ^ n)
    by (split; [apply Z.div_pos; lia | apply Z.div_lt_upper_bound; lia]).
  rewrite Z.lxor_comm, <- Z.shiftl_mul_pow2, lxor_shiftl by lia.
  rewrite Z.shiftl_mul_pow2 by lia. lia.
Qed.

Lemma rot_0 a : lane a -> Fips202.rot a 0 = a.
Proof.
  unfold lane, Fips202.rot. intros Ha. rewrite Z.mul_1_r, Z.mod_small by done.
  change (64 - 0) with 64. rewrite Z.div_small by done. lia.
Qed.

Lemma lane_rot a n : 0 < n < 64 -> lane a -> lane (Fips202.rot a n).
Proof. intros Hn Ha. rewrite <- ROL_rot by done. apply lane_ROL; [lia|done]. Qed.
#[export] Hint Extern 2 (lane (Fips202.rot _ _)) => apply lane_rot; [lia|] : lane.

(** Rewrites the code's form of a lane into the standard's, from the outside in. *)
Ltac lane_eq :=
  lazymatch goal with
  | |- ?x = ?x => reflexivity
  | |- Z.lxor _ _ = Z.lxor _ _ => apply f_equal2; lane_eq
  | |- Z.land (not64 _) _ = Z.ldiff _ _ =>
      rewrite andn_ldiff by auto 12 with lane; apply f_equal2; lane_eq
  | |- ROL _ _ = Fips202.rot _ _ =>
      rewrite ROL_rot by (lia || auto 12 with lane); apply f_equal2; [lane_eq | reflexivity]
  | |- ?a = Fips202.rot _ 0 => rewrite rot_0 by auto 12 with lane; lane_eq
  end.

Definition lanes_ok (A : lanes) : Prop := Forall lane (copyToState A).

(** The four last steps on a state given by its lanes. *)
Lemma rho_pi_chi_iota k t0 t1 t2 t3 t4 t5 t6 t7 t8 t9 t10 t11 t12 t13 t14 t15 t16 t17 t18 t19 t20 t21 t22 t23 t24 :
  Fips202.iota k (Fips202.chi (Fips202.pi (Fips202.rho [t0; t1; t2; t3; t4; t5; t6; t7; t8; t9; t10; t11; t12;
    t13; t14; t15; t16; t17; t18; t19; t20; t21; t22; t23; t24]))) =
    [Z.lxor (Z.lxor (Fips202.rot t0 0) (Z.ldiff (Fips202.rot t12 43) (Fips202.rot t6 44))) k;
     Z.lxor (Fips202.rot t6 44) (Z.ldiff (Fips202.rot t18 21) (Fips202.rot t12 43));
     Z.lxor (Fips202.rot t12 43) (Z.ldiff (Fips202.rot t24 14) (Fips202.rot t18 21));
     Z.lxor (Fips202.rot t18 21) (Z.ldiff (Fips202.rot t0 0) (Fips202.rot t24 14));
     Z.lxor (Fips202.rot t24 14) (Z.ldiff (Fips202.rot t6 44) (Fips202.rot t0 0));
     Z.lxor (Fips202.rot t3 28) (Z.ldiff (Fips202.rot t10 3) (Fips202.rot t9 20));
     Z.lxor (Fips202.rot t9 20) (Z.ldiff (Fips202.rot t16 45) (Fips202.rot t10 3));
     Z.lxor (Fips202.rot t10 3) (Z.ldiff (Fips202.rot t22 61) (Fips202.rot t16 45));
     Z.lxor (Fips202.rot t16 45) (Z.ldiff (Fips202.rot t3 28) (Fips202.rot t22 61));
     Z.lxor (Fips202.rot t22 61) (Z.ldiff (Fips202.rot t9 20) (Fips202.rot t3 28));
     Z.lxor (Fips202.rot t1 1) (Z.ldiff (Fips202.rot t13 25) (Fips202.rot t7 6));
     Z.lxor (Fips202.rot t7 6) (Z.ldiff (Fips202.rot t19 8) (Fips202.rot t13 25));
     Z.lxor (Fips202.rot t13 25) (Z.ldiff (Fips202.rot t20 18) (Fips202.rot t19 8));
     Z.lxor (Fips202.rot t19 8) (Z.ldiff (Fips202.rot t1 1) (Fips202.rot t20 18));
     Z.lxor (Fips202.rot t20 18) (Z.ldiff (Fips202.rot t7 6) (Fips202.rot t1 1));
     Z.lxor (Fips202.rot t4 27) (Z.ldiff (Fips202.rot t11 10) (Fips202.rot t5 36));
     Z.lxor (Fips202.rot t5 36) (Z.ldiff (Fips202.rot t17 15) (Fips202.rot t11 10));
     Z.lxor (Fips202.rot t11 10) (Z.ldiff (Fips202.rot t23 56) (Fips202.rot t17 15));
     Z.lxor (Fips202.rot t17 15) (Z.ldiff (Fips202.rot t4 27) (Fips202.rot t23 56));
     Z.lxor (Fips202.rot t23 56) (Z.ldiff (Fips202.rot t5 36) (Fips202.rot t4 27));
     Z.lxor (Fips202.rot t2 62) (Z.ldiff (Fips202.rot t14 39) (Fips202.rot t8 55));
     Z.lxor (Fips202.rot t8 55) (Z.ldiff (Fips202.rot t15 41) (Fips202.rot t14 39));
     Z.lxor (Fips202.rot t14 39) (Z.ldiff (Fips202.rot t21 2) (Fips202.rot t15 41));
     Z.lxor (Fips202.rot t15 41) (Z.ldiff (Fips202.rot t2 62) (Fips202.rot t21 2));
     Z.lxor (Fips202.rot t21 2) (Z.ldiff (Fips202.rot t8 55) (Fips202.rot t2 62))].
Proof. reflexivity. Qed.

Lemma theta_lanes a0 a1 a2 a3 a4 a5 a6 a7 a8 a9 a10 a11 a12 a13 a14 a15 a16 a17 a18 a19
    a20 a21 a22 a23 a24 :
  let A := [a0; a1; a2; a3; a4; a5; a6; a7; a8; a9; a10; a11; a12; a13; a14; a15; a16; a17;
            a18; a19; a20; a21; a22; a23; a24] in
  let D x := Z.lxor (Fips202.column A (x + 4)) (Fips202.rot (Fips202.column A (x + 1)) 1) in
  Fips202.theta A =
    zip_with Z.lxor A (concat (replicate 5 [D 0%nat; D 1%nat; D 2%nat; D 3%nat; D 4%nat])).
Proof. reflexivity. Qed.

Lemma keccak_A_to_E_rnd rc A :
  lane rc -> lanes_ok A -> copyToState (keccak_A_to_E rc A) = Fips202.Rnd rc (copyToState A).
Proof.
  intros Hrc HA. destruct A. unfold lanes_ok in HA. cbn [copyToState] in HA.
  decompose_Forall_hyps. unfold Fips202.Rnd. cbn [copyToState].
  rewrite theta_lanes. cbn [zip_with concat replicate app].
  rewrite rho_pi_chi_iota. cbv beta zeta iota delta [keccak_A_to_E copyToState].
  unfold Fips202.column. cbn [Fips202.at_ nth Nat.mul Nat.add Nat.modulo Nat.divmod fst snd Nat.sub].
  repeat (apply (f_equal2 cons); [lane_eq|]).
  reflexivity.
Qed.

Lemma keccak_E_to_A_eq rc E : keccak_E_to_A rc E = keccak_A_to_E rc E.
Proof. destruct E. reflexivity. Qed.

Lemma lane_build (f : nat -> nat -> Z) :
  (forall x y, (x < 5)%nat -> (y < 5)%nat -> lane (f x y)) -> Forall lane (Fips202.build f).
Proof. intros Hf. cbv [Fips202.build flat_map map seq app]. repeat constructor; apply Hf; lia. Qed.

Lemma lane_rot0 a n : 0 <= n < 64 -> lane a -> lane (Fips202.rot a n).
Proof.
  intros Hn Ha. destruct (decide (n = 0)) as [->|]; [rewrite rot_0 by done; done|].
  apply lane_rot; [lia|done].
Qed.

Lemma lane_at A x y : Forall lane A -> lane (Fips202.at_ A x y).
Proof. apply lane_nth. Qed.
#[export] Hint Resolve lane_at : lane.

Lemma rho_offset_range x y : (x < 5)%nat -> (y < 5)%nat -> 0 <= Fips202.rho_offset x y < 64.
Proof. intros. do 5 (destruct x as [|x]; [do 5 (destruct y as [|y]; [vm_compute; split; done|]); lia|]). lia. Qed.

Lemma lane_Rnd k A : lane k -> Forall lane A -> Forall lane (Fips202.Rnd k A).
Proof.
  intros Hk HA. unfold Fips202.Rnd.
  assert (Ht : Forall lane (Fips202.theta A)).
  { apply lane_build. intros. unfold Fips202.column. auto 14 with lane. }
  assert (Hr : Forall lane (Fips202.rho (Fips202.theta A))).
  { apply lane_build. intros. apply lane_rot0; auto using rho_offset_range with lane. }
  apply lane_build. intros x y _ _. destruct (_ && _); repeat apply lane_lxor; try done; apply lane_at.
  all: apply lane_build; intros; apply lane_lxor; auto with lane.
  all: try apply lane_ldiff; apply lane_at, lane_build; auto with lane.
Qed.

Lemma length_Rnd k A : length (Fips202.Rnd k A) = 25%nat.
Proof. reflexivity. Qed.

Lemma lane_RC i : (i < 24)%nat -> lane (Fips202.RC i).
Proof. intros Hi. rewrite <- round_constants by done. do 24 (destruct i as [|i]; [done|]). lia. Qed.

Lemma copyToState_copyFromState s : length s = 25%nat -> copyToState (copyFromState s) = s.
Proof. intros Hs. do 25 (destruct s as [|? s]; [done|]). destruct s; done. Qed.

(** The loop from round [24 - 2 * fuel] on is the rest of the standard's rounds. *)
Lemma keccak_rounds_fips fuel : forall A, (fuel <= 12)%nat -> lanes_ok A ->
  copyToState (keccak_rounds fuel (24 - 2 * fuel) A) =
    fold_left (fun s ir => Fips202.Rnd (Fips202.RC ir) s) (seq (24 - 2 * fuel) (2 * fuel))
      (copyToState A).
Proof.
  induction fuel as [|n IH]; intros A Hn HA; [done|]. cbn [keccak_rounds].
  assert (Hr : (24 - 2 * S n <? 24)%nat = true) by (apply Nat.ltb_lt; lia). rewrite Hr.
  set (r := (24 - 2 * S n)%nat) in *.
  replace (seq r (2 * S n)) with (r :: (r + 1)%nat :: seq (24 - 2 * n) (2 * n))
    by (replace (2 * S n)%nat with (S (S (2 * n))) by lia; cbn [seq];
        do 2 f_equal; [lia | f_equal; lia]).
  cbn [fold_left]. rewrite keccak_E_to_A_eq, !round_constants by lia.
  assert (HE : lanes_ok (keccak_A_to_E (Fips202.RC r) A)).
  { unfold lanes_ok. rewrite keccak_A_to_E_rnd; [apply lane_Rnd|..]; try done; apply lane_RC; lia. }
  assert (HA2 : lanes_ok (keccak_A_to_E (Fips202.RC (r + 1)) (keccak_A_to_E (Fips202.RC r) A))).
  { unfold lanes_ok. rewrite keccak_A_to_E_rnd; [apply lane_Rnd|..]; try done; apply lane_RC; lia. }
  replace (r + 2)%nat with (24 - 2 * n)%nat by lia.
  rewrite IH, !keccak_A_to_E_rnd by (done || lia || (apply lane_RC; lia)). done.
Qed.

Lemma keccak_permute_eq (s : list Z) :
  length s = 25%nat -> Forall lane s ->
  KeccakF1600_StatePermute s = Fips202.keccak_f s.
Proof.
  intros Hl Hs. unfold KeccakF1600_StatePermute.
  pose proof (keccak_rounds_fips 12 (copyFromState s)) as H.
  unfold lanes_ok in H. rewrite copyToState_copyFromState in H by done. apply H; [lia|done].
Qed.

(** C20: [KeccakF1600_StatePermute] is Keccak-f[1600] of FIPS 202: the code's two
    unrolled rounds per iteration, with theta prepared between them, compute on any
    state the 24 rounds iota . chi . pi . rho . theta of the standard, with its
    rotation offsets and the round constants its shift register generates. *)
Theorem keccak_permute_fips202 (s : list Z) :
  length s = 25%nat -> Forall lane s ->
  KeccakF1600_StatePermute s = Fips202.keccak_f s.
Proof. apply keccak_permute_eq. Qed.

(** The zero state. *)
Lemma keccak_permute_fips202_witness :
  let s := replicate 25 0 in
  length s = 25%nat /\ Forall lane s /\ KeccakF1600_StatePermute s = Fips202.keccak_f s.
Proof.
  split; [reflexivity|]. assert (H : Forall lane (replicate 25 0)).
  { apply Forall_replicate. split; [discriminate | reflexivity]. }
  split; [exact H|]. apply (keccak_permute_fips202 (replicate 25 0) eq_refl H).
Defined.
