(* ===== verification/BlockCodec.v ===== *)
(** * Encodings by blocks

    What the serializations of ML-KEM and ML-DSA have in common: loops that write a fixed
    number of elements per iteration, and the arithmetic of bit fields.  No code is
    modelled here. *)
From stdpp Require Import base numbers list option.
From Stdlib Require Import ZArith Lia.
From S2P Require Import Prelude PolyRing KeccakFacts.

(** ** Loops that write [m] elements per iteration *)

Lemma length_flat_map_seq (F : nat -> list Z) m n :
  (forall i, length (F i) = m) -> length (flat_map F (seq 0 n)) = (n * m)%nat.
Proof.
  intros HF. generalize 0%nat. induction n as [|n IH]; intros s; [done|].
  cbn [seq flat_map]. rewrite length_app, HF, IH. lia.
Qed.

Lemma at_flat_map_seq (F : nat -> list Z) m n i j :
  (forall i, length (F i) = m) -> (i < n)%nat -> (j < m)%nat ->
  at_ (flat_map F (seq 0 n)) (m * i + j) = at_ (F i) j.
Proof.
  intros HF Hi Hj. enough (H : forall s, at_ (flat_map F (seq s n)) (m * i + j) = at_ (F (s + i)%nat) j)
    by apply (H 0%nat).
  revert i Hi. induction n as [|n IH]; intros i Hi s; [lia|]. cbn [seq flat_map]. destruct i as [|i].
  - rewrite at_app_l by (rewrite HF; lia). f_equal; [f_equal; lia | lia].
  - rewrite at_app_r by (rewrite HF; nia). rewrite HF.
    replace (m * S i + j - m)%nat with (m * i + j)%nat by lia. rewrite IH by lia. do 2 f_equal. lia.
Qed.

(** An index splits into the iteration and the position in it. *)
Lemma eq_blocks (l k : list Z) m n : (0 < m)%nat -> length l = (n * m)%nat -> length k = (n * m)%nat ->
  (forall i j, (i < n)%nat -> (j < m)%nat -> at_ l (m * i + j) = at_ k (m * i + j)) -> l = k.
Proof.
  intros Hm Hl Hk H. apply eq_at; [lia|]. intros x Hx. rewrite Hl in Hx.
  rewrite (Nat.div_mod_eq x m). apply H; [apply Nat.Div0.div_lt_upper_bound; lia | apply Nat.mod_upper_bound; lia].
Qed.

Lemma Forall_blocks (P : Z -> Prop) (l : list Z) m n : (0 < m)%nat -> length l = (n * m)%nat ->
  (forall i j, (i < n)%nat -> (j < m)%nat -> P (at_ l (m * i + j))) -> Forall P l.
Proof.
  intros Hm Hl H. apply List.Forall_nth. intros x d Hx. rewrite (nth_indep _ d 0) by done.
  rewrite Hl in Hx. rewrite (Nat.div_mod_eq x m).
  apply H; [apply Nat.Div0.div_lt_upper_bound; lia | apply Nat.mod_upper_bound; lia].
Qed.

(** ** Bits of small integers *)

(** Linear arithmetic with quotients and remainders by constants. *)
Ltac dlia := Z.div_mod_to_equations; lia.

Lemma shiftr_div x n : 0 <= n -> Z.shiftr x n = x / 2 ^ n.
Proof. apply Z.shiftr_div_pow2. Qed.
Lemma land_mod x n : 0 <= n -> Z.land x (Z.ones n) = x mod 2 ^ n.
Proof. apply Z.land_ones. Qed.
Lemma land_FFF x : Z.land x 0xFFF = x mod 4096.
Proof. exact (land_mod x 12 ltac:(lia)). Qed.
Lemma land_3FF x : Z.land x 0x3FF = x mod 1024.
Proof. exact (land_mod x 10 ltac:(lia)). Qed.
Lemma land_15 x : Z.land x 15 = x mod 16.
Proof. exact (land_mod x 4 ltac:(lia)). Qed.
Lemma land_1 x : Z.land x 1 = x mod 2.
Proof. exact (land_mod x 1 ltac:(lia)). Qed.
Lemma lor_mul a b n : 0 <= n -> 0 <= a < 2 ^ n -> Z.lor a (Z.shiftl b n) = a + 2 ^ n * b.
Proof. intros Hn Ha. rewrite lor_shiftl by done. lia. Qed.

(** A block of [n] coefficients is encoded as [m] bytes; decoding undoes it block by block. *)
Section block_codec.
Context (n m cnt : nat) (E F : (nat -> Z) -> list Z) (P : Z -> Prop).
Hypothesis length_E : forall f, length (E f) = m.
Hypothesis length_F : forall f, length (F f) = n.
Hypothesis block_round : forall f g, (forall j, (j < n)%nat -> P (f j)) ->
  (forall j, (j < m)%nat -> g j = at_ (E f) j) -> F g = map f (seq 0 n).
Definition encode (a : list Z) : bytes := flat_map (fun i => E (fun j => nth (n * i + j) a 0)) (seq 0 cnt).
Definition decode (b : bytes) : list Z := flat_map (fun i => F (fun j => nth (m * i + j) b 0)) (seq 0 cnt).

Lemma length_encode a : length (encode a) = (cnt * m)%nat.
Proof. apply length_flat_map_seq. intros. apply length_E. Qed.
Lemma length_decode b : length (decode b) = (cnt * n)%nat.
Proof. apply length_flat_map_seq. intros. apply length_F. Qed.

Lemma decode_encode a rest : (0 < n)%nat -> length a = (cnt * n)%nat -> Forall P a -> decode (encode a ++ rest) = a.
Proof.
  intros Hn Hl Ha. apply (eq_blocks _ _ n cnt); [done | apply length_decode | done |].
  intros i j Hi Hj. unfold decode. rewrite (at_flat_map_seq _ n cnt) by (done || (intros; apply length_F)).
  rewrite (block_round (fun j => nth (n * i + j) a 0)).
  - rewrite at_map_seq by done. done.
  - intros j' Hj'. apply List.Forall_nth; [done|]. nia.
  - intros j' Hj'. change (nth ?k ?l 0) with (at_ l k).
    assert (m * i + j' < cnt * m)%nat by nia. rewrite at_app_l by (rewrite length_encode; done).
    unfold encode. rewrite (at_flat_map_seq _ m cnt) by (done || (intros; apply length_E)). done.
Qed.
End block_codec.

(** ** Bit fields *)

Lemma u8_bit x i : 0 <= i -> Z.testbit (u8 x) i = (i <? 8) && Z.testbit x i.
Proof.
  intros Hi. unfold u8. change 256 with (2 ^ 8). destruct (Z.ltb_spec i 8).
  - rewrite Z.mod_pow2_bits_low by done. done.
  - rewrite Z.mod_pow2_bits_high by lia. done.
Qed.
Lemma small_bit x n i : 0 <= x < 2 ^ n -> n <= i -> Z.testbit x i = false.
Proof. apply testbit_above. Qed.
(** A masked expression is the field whose bits it has. *)
Lemma land_field n e t : 0 <= n -> 0 <= t < 2 ^ n -> (forall i, 0 <= i < n -> Z.testbit e i = Z.testbit t i) ->
  Z.land e (Z.ones n) = t.
Proof.
  intros Hn Ht H. apply Z.bits_inj'. intros i Hi. rewrite Z.land_spec, Z.testbit_ones_nonneg by done.
  destruct (Z.ltb_spec i n); [rewrite andb_true_r; apply H; lia | rewrite andb_false_r; symmetry; apply (small_bit t n); done].
Qed.

Ltac bit_const :=
  repeat match goal with
  | |- context [Z.testbit ?x (?a + ?b)] => let c := eval compute in (a + b) in change (a + b) with c
  | |- context [Z.testbit ?x (?a - ?b)] => let c := eval compute in (a - b) in change (a - b) with c
  | |- context [?a <? 8] => let c := eval compute in (a <? 8) in change (a <? 8) with c
  end.
Ltac bit_rewrite :=
  repeat (first [rewrite Z.lor_spec | rewrite Z.shiftr_spec by lia | rewrite Z.shiftl_spec by lia
                | rewrite u8_bit by lia | rewrite Z.testbit_neg_r by lia]; bit_const; cbn [andb orb]).
Ltac bit_small :=
  repeat match goal with
  | H : 0 <= ?t < 2 ^ ?n |- context [Z.testbit ?t ?i] => rewrite (small_bit t n i H) by lia
  end; rewrite ?orb_false_r, ?orb_false_l.
Ltac each_bit i H :=
  match type of H with 0 <= _ < ?n =>
    let rec go k := lazymatch k with
    | n => lia
    | _ => destruct (Z.eq_dec i k) as [->|]; [|let k' := eval compute in (k + 1) in go k']
    end in go 0
  end.
(** Proves that a field of [n] bits read from packed bytes is the integer that was packed,
    when the integers packed are known to have no more bits. *)
Ltac field n :=
  apply (land_field n); [lia | assumption |];
  let i := fresh "i" in let H := fresh "H" in intros i H; each_bit i H; bit_rewrite; bit_small; done.
