(* ===== verification/SpongeFacts.v ===== *)
(** * The sponge of fips202.c against FIPS 202

    The standard's sponge on byte strings (padding 10*1 after the domain bits, absorb,
    squeeze), and the equivalence of the one-shot functions and of the incremental
    interface with it, for every split of the input and of the output. *)
From stdpp Require Import base numbers list option.
From Stdlib Require Import ZArith Lia.
From S2P Require Import Prelude Keccak KeccakFacts.

(** ** FIPS 202, section 4 and B.2 *)
Module Sponge.

Fixpoint le_word (l : bytes) : Z :=
  match l with
  | [] => 0
  | b :: l' => b + 256 * le_word l'
  end.
Definition le_bytes (x : Z) : bytes := map (fun i => x / 256 ^ Z.of_nat i mod 256) (seq 0 8).

(** A block as a state: its bytes in little-endian lanes, the capacity zero. *)
Definition lanes_of (m : bytes) : list Z :=
  map (fun i => le_word (take 8 (drop (8 * i) m))) (seq 0 25).
Definition bytes_of (s : list Z) : bytes := flat_map le_bytes s.

(** The domain bits and the first 1 of pad10*1 are the byte [p]; the last 1 is the top
    bit of the last byte of the block. *)
Definition pad (r : nat) (p : Z) (m : bytes) : bytes :=
  let q := (r - length m mod r)%nat in
  if (q =? 1)%nat then [Z.lor p 128] else [p] ++ replicate (q - 2) 0 ++ [128].

Fixpoint blocks (n r : nat) (m : bytes) : list bytes :=
  match n with
  | O => []
  | S n' => take r m :: blocks n' r (drop r m)
  end.
Definition absorb_block (s : list Z) (b : bytes) : list Z :=
  Fips202.keccak_f (zip_with Z.lxor s (lanes_of b)).
Definition absorb (r : nat) (s : list Z) (m : bytes) : list Z :=
  fold_left absorb_block (blocks (length m / r) r m) s.
Definition squeeze (n r : nat) (s : list Z) : bytes :=
  flat_map (fun i => take r (bytes_of (Nat.iter i Fips202.keccak_f s))) (seq 0 n).

Definition sponge (r : nat) (p : Z) (m : bytes) (d : nat) : bytes :=
  take d (squeeze (S (d / r)) r (absorb r (replicate 25 0) (m ++ pad r p m))).

End Sponge.
Import Sponge.

(** ** Words and bytes *)

Lemma flat_map_seq {A} (m n : nat) (f : nat -> nat -> A) : (0 < m)%nat ->
  flat_map (fun i => map (f i) (seq 0 m)) (seq 0 n) =
    map (fun j => f (j / m)%nat (j mod m)%nat) (seq 0 (n * m)).
Proof.
  intros Hm. induction n as [|n IH]; [done|].
  rewrite seq_S, flat_map_app, IH. replace (S n * m)%nat with (n * m + m)%nat by lia.
  rewrite seq_app, map_app. f_equal. cbn [flat_map Nat.add]. rewrite app_nil_r.
  rewrite <- (Nat.add_0_r (n * m)), <- fmap_add_seq, map_map. apply map_ext_in.
  intros j Hj. apply in_seq in Hj. rewrite Nat.add_comm, Nat.div_add, Nat.Div0.mod_add by lia.
  rewrite Nat.div_small, Nat.mod_small by lia. done.
Qed.

Lemma le_word_snoc l b : le_word (l ++ [b]) = le_word l + 256 ^ zlen l * b.
Proof.
  induction l as [|x l IH]; cbn [le_word app]; [rewrite (@zlen_nil Z); lia|].
  rewrite IH, zlen_cons, Z.pow_add_r by zl. lia.
Qed.

Lemma le_word_bound l : bytes_ok l -> 0 <= le_word l < 256 ^ zlen l.
Proof.
  induction l as [|x l IH]; intros Hl; cbn [le_word]; [rewrite (@zlen_nil Z); lia|].
  apply Forall_cons_1 in Hl as [Hx Hl]. unfold is_byte in Hx. rewrite zlen_cons, Z.pow_add_r by zl.
  specialize (IH Hl). lia.
Qed.

Lemma pow_256 n : 0 <= n -> 256 ^ n = 2 ^ (8 * n).
Proof. intros Hn. rewrite Z.pow_mul_r by lia. done. Qed.

Lemma shl64_byte b i : is_byte b -> 0 <= i < 8 -> shl64 b (8 * i) = Z.shiftl b (8 * i).
Proof.
  intros Hb Hi. unfold shl64, u64. rewrite Z.shiftl_mul_pow2 by lia. apply Z.mod_small.
  unfold is_byte in Hb. assert (0 < 2 ^ (8 * i) <= 2 ^ 56)
    by (split; [apply Z.pow_pos_nonneg | apply Z.pow_le_mono_r]; lia).
  change 18446744073709551616 with (256 * 2 ^ 56). nia.
Qed.

Lemma nth_byte (x : bytes) i : bytes_ok x -> is_byte (nth i x 0).
Proof.
  intros Hx. destruct (decide (i < length x)%nat); [apply Forall_nth; done|].
  rewrite nth_overflow by lia. done.
Qed.
#[export] Hint Resolve nth_byte : lane.

Definition padded (n : nat) (x : bytes) : bytes := map (fun i => nth i x 0) (seq 0 n).

Lemma load_loop (x : bytes) n : bytes_ok x -> (n <= 8)%nat ->
  fold_left (fun r i => Z.lor r (shl64 (nth i x 0) (8 * Z.of_nat i))) (seq 0 n) 0 =
    le_word (padded n x).
Proof.
  intros Hx. induction n as [|n IH]; intros Hn; [done|].
  unfold padded. rewrite seq_S, fold_left_app, IH, map_app by lia. cbn [fold_left map].
  rewrite le_word_snoc. replace (0 + n)%nat with n by lia.
  assert (Hl : zlen (map (fun i => nth i x 0) (seq 0 n)) = Z.of_nat n)
    by (unfold zlen; rewrite length_map, length_seq; done).
  rewrite shl64_byte, lor_shiftl by
    (try lia; auto with lane; rewrite <- pow_256, <- Hl by lia; apply le_word_bound;
     apply Forall_map, Forall_forall; intros; cbn; auto with lane).
  rewrite Hl, pow_256 by lia. unfold padded. lia.
Qed.

Lemma le_word_padded n : forall x, le_word (padded n x) = le_word (take n x).
Proof.
  unfold padded. induction n as [|n IH]; intros x; [done|].
  cbn [seq map]. rewrite <- seq_shift, map_map. destruct x as [|b x].
  - cbn [le_word take nth]. specialize (IH []). rewrite take_nil in IH. cbn [le_word] in IH.
    rewrite (map_ext _ (fun i => nth i (@nil Z) 0)), IH by (intros [|?]; done). done.
  - cbn [le_word take nth]. rewrite IH. done.
Qed.

Lemma load64_le x : bytes_ok x -> load64 x = le_word (take 8 x).
Proof. intros Hx. unfold load64. rewrite load_loop by (done || lia). apply le_word_padded. Qed.

Lemma store64_le u : store64 u = le_bytes u.
Proof.
  apply map_ext. intros i. unfold u8. rewrite Z.shiftr_div_pow2, <- pow_256 by lia. done.
Qed.

(** ** States *)

Definition st_ok (s : list Z) : Prop := length s = 25%nat /\ Forall lane s.
(** A block xored into a state. *)
Definition xorst (s : list Z) (m : bytes) : list Z := zip_with Z.lxor s (lanes_of m).

Lemma length_lanes_of m : length (lanes_of m) = 25%nat.
Proof. unfold lanes_of. rewrite length_map, length_seq. done. Qed.
Lemma length_xorst s m : length s = 25%nat -> length (xorst s m) = 25%nat.
Proof. intros Hs. unfold xorst. rewrite length_zip_with, length_lanes_of, Hs. done. Qed.

Lemma lookup_lanes_of m j : (j < 25)%nat -> lanes_of m !! j = Some (le_word (take 8 (drop (8 * j) m))).
Proof. intros Hj. unfold lanes_of. rewrite list_lookup_fmap, lookup_seq_lt by done. done. Qed.

Lemma lookup_xorst s m j : length s = 25%nat ->
  xorst s m !! j = (fun x => Z.lxor x (le_word (take 8 (drop (8 * j) m)))) <$> s !! j.
Proof.
  intros Hs. unfold xorst. rewrite lookup_zip_with. destruct (s !! j) eqn:Hj; [|done].
  apply lookup_lt_Some in Hj. rewrite lookup_lanes_of by lia. done.
Qed.

Lemma lane_lanes_of m : bytes_ok m -> Forall lane (lanes_of m).
Proof.
  intros Hm. apply Forall_map, Forall_forall. intros i _. unfold compose, lane.
  assert (Hb : bytes_ok (take 8 (drop (8 * i) m))) by (apply Forall_take, Forall_drop; done).
  pose proof (le_word_bound _ Hb) as H.
  assert (Hl : zlen (take 8 (drop (8 * i) m)) <= 8)
    by (unfold zlen; rewrite length_take; lia).
  assert (256 ^ zlen (take 8 (drop (8 * i) m)) <= 256 ^ 8) by (apply Z.pow_le_mono_r; lia).
  change (2 ^ 64) with (256 ^ 8). lia.
Qed.

Lemma st_ok_xorst s m : bytes_ok m -> st_ok s -> st_ok (xorst s m).
Proof.
  intros Hm [Hl Hs]. split; [apply length_xorst; done|].
  pose proof (lane_lanes_of m Hm) as Hk. unfold xorst. generalize dependent (lanes_of m).
  clear Hl. induction Hs as [|x s Hx Hs IH]; intros [|k ks] Hk; try by constructor.
  apply Forall_cons_1 in Hk as [??]. constructor; [apply lane_lxor | apply IH]; done.
Qed.

Lemma st_ok_permute s : st_ok s -> st_ok (KeccakF1600_StatePermute s).
Proof.
  intros [Hl Hs]. rewrite keccak_permute_eq by done. unfold Fips202.keccak_f.
  assert (H : forall l s, Forall (fun i => i < 24)%nat l -> st_ok s ->
    st_ok (fold_left (fun A ir => Fips202.Rnd (Fips202.RC ir) A) l s)).
  { clear. induction l as [|i l IH]; intros s Hi Hs; [done|]. cbn [fold_left].
    apply Forall_cons_1 in Hi as [? ?]. apply IH; [done|]. split; [done|].
    apply lane_Rnd; [apply lane_RC; done | apply Hs]. }
  apply H; [|done]. apply Forall_forall. intros i Hi. apply in_seq in Hi. lia.
Qed.

Lemma st_ok_zero : st_ok (replicate 25 0).
Proof. split; [done|]. apply Forall_replicate. done. Qed.
#[export] Hint Resolve st_ok_xorst st_ok_permute st_ok_zero : lane.

Lemma permute_fips s : st_ok s -> KeccakF1600_StatePermute s = Fips202.keccak_f s.
Proof. intros [??]. apply keccak_permute_eq; done. Qed.

Lemma xor_lanes_loop (f : nat -> Z) n : forall s j,
  fold_left (fun s i => xor_lane s i (f i)) (seq 0 n) s !! j =
    (fun x => if decide (j < n)%nat then Z.lxor x (f j) else x) <$> s !! j.
Proof.
  induction n as [|n IH]; intros s j.
  - cbn [seq fold_left]. destruct (s !! j); [|done]. cbn [fmap option_fmap option_map].
    rewrite decide_False by lia. done.
  - rewrite seq_S, fold_left_app. cbn [fold_left Nat.add]. unfold xor_lane at 1.
    destruct (decide (j = n)) as [->|Hj].
    + rewrite list_lookup_alter_eq, IH. destruct (s !! n); [|done].
      cbn [fmap option_fmap option_map]. rewrite decide_False, decide_True by lia. done.
    + rewrite list_lookup_alter_ne, IH by lia. destruct (s !! j); [|done].
      cbn [fmap option_fmap option_map].
      destruct (decide (j < n)%nat); [rewrite decide_True by lia | rewrite decide_False by lia]; done.
Qed.

Lemma xor_block_xorst s r m : length s = 25%nat -> (r mod 8 = 0)%nat -> (r <= length m)%nat ->
  bytes_ok m -> xor_block s r m = xorst s (take r m).
Proof.
  intros Hs Hr Hm Hb. apply list_eq. intros j. unfold xor_block.
  rewrite xor_lanes_loop, lookup_xorst by done. destruct (s !! j) as [x|]; [|done].
  cbn [fmap option_fmap option_map]. f_equal.
  pose proof (Nat.div_mod_eq r 8). rewrite skipn_firstn_comm. destruct (decide (j < r / 8)%nat).
  - rewrite load64_le by (apply Forall_drop; done). rewrite take_take.
    replace (8 `min` (r - 8 * j))%nat with 8%nat by lia. done.
  - replace (r - 8 * j)%nat with 0%nat by lia. cbn. rewrite Z.lxor_0_r. done.
Qed.

(** ** Absorbing *)

Section rate.
(** The rate: whole lanes, less than the state. *)
Context (r : nat) (Hr8 : (r mod 8 = 0)%nat) (Hr : (0 < r <= 192)%nat).

Lemma xor_block_ok s m : st_ok s -> (r <= length m)%nat -> bytes_ok m ->
  xor_block s r m = xorst s (take r m).
Proof. intros [Hs _] Hm Hb. apply xor_block_xorst; done || lia. Qed.

Lemma div_ge n : (r <= n)%nat -> (n / r = S ((n - r) / r))%nat.
Proof.
  intros Hn. replace n with (n - r + 1 * r)%nat at 1 by lia. rewrite Nat.div_add by lia. lia.
Qed.

Lemma absorb_blocks_spec fuel : forall s m, (length m <= fuel)%nat -> st_ok s -> bytes_ok m ->
  absorb_blocks fuel s r m =
    (Sponge.absorb r s m, drop (length m / r * r) m) /\ st_ok (Sponge.absorb r s m).
Proof.
  unfold Sponge.absorb. induction fuel as [|n IH]; intros s m Hn Hs Hm; cbn [absorb_blocks].
  - destruct m; [|cbn in Hn; lia]. cbn [length]. rewrite Nat.Div0.div_0_l. done.
  - destruct (Nat.leb_spec r (length m)).
    + rewrite div_ge by done. cbn [blocks fold_left].
      assert (Hx : st_ok (xorst s (take r m))) by auto using Forall_take with lane.
      assert (Hp : st_ok (KeccakF1600_StatePermute (xorst s (take r m)))) by auto with lane.
      rewrite xor_block_ok by done.
      destruct (IH _ (drop r m) ltac:(rewrite length_drop; lia) Hp (Forall_drop _ _ _ Hm)) as [-> Hk].
      assert (E : KeccakF1600_StatePermute (xorst s (take r m)) = absorb_block s (take r m))
        by (apply permute_fips; done).
      rewrite E, length_drop in Hk |- *. split; [|done].
      rewrite drop_drop. done.
    + rewrite Nat.div_small by done. done.
Qed.

Lemma padded_blocks s m b : (length b = r - length m mod r)%nat ->
  Sponge.absorb r s (m ++ b) =
    absorb_block (Sponge.absorb r s m) (drop (length m / r * r) m ++ b).
Proof.
  unfold Sponge.absorb. remember (length m / r)%nat as k eqn:Hk. revert s m Hk.
  induction k as [|k IH]; intros s m Hk Hb;
    pose proof (Nat.div_mod_eq (length m) r); pose proof (Nat.mod_upper_bound (length m) r).
  - rewrite <- Hk in *. assert (Hone : length (m ++ b) = r) by (rewrite length_app; lia).
    rewrite Hone, Nat.div_same by lia.
    cbn [blocks fold_left Nat.mul]. rewrite drop_0, take_ge by lia. done.
  - assert (r <= length m)%nat by nia. rewrite length_app, div_ge by lia.
    cbn [blocks fold_left]. rewrite take_app_le, drop_app_le by lia.
    assert (Hd : (length (drop r m) = length m - r)%nat) by apply length_drop.
    assert (Hm : (length (drop r m) mod r = length m mod r)%nat).
    { rewrite Hd. replace (length m) with (length m - r + 1 * r)%nat at 2 by lia.
      rewrite Nat.Div0.mod_add. done. }
    assert (Hk' : k = (length (drop r m) / r)%nat) by (rewrite Hd; rewrite div_ge in Hk by done; lia).
    specialize (IH (absorb_block s (take r m)) (drop r m) Hk' ltac:(rewrite Hm; done)).
    rewrite length_app, Hd in IH.
    replace (length m + length b - r)%nat with (length m - r + length b)%nat by lia.
    rewrite IH, drop_drop. done.
Qed.

Lemma last_block_pad m p : (length m < r)%nat -> 0 <= p < 128 ->
  last_block r m p = m ++ pad r p m.
Proof.
  intros Hm Hp. unfold last_block, pad. rewrite Nat.mod_small by done.
  rewrite drop_replicate, insert_app_r_alt, Nat.sub_diag by lia.
  destruct (Nat.eqb_spec (r - length m) 1) as [He|He].
  - rewrite He. cbn. rewrite alter_app_r_alt by lia.
    replace (r - 1 - length m)%nat with 0%nat by lia. done.
  - replace (r - length m)%nat with (S (S (r - length m - 2)))%nat at 1 by lia.
    rewrite alter_app_r_alt by lia. f_equal.
    replace (r - 1 - length m)%nat with (S (r - length m - 2)) by lia.
    cbn [replicate]. change (<[0%nat:=p]> (0 :: ?l)) with (p :: l). cbn [app].
    change (alter ?f (S ?n) (?x :: ?l)) with (x :: alter f n l). f_equal.
    replace (0 :: replicate (r - length m - 2) 0) with (replicate (r - length m - 2) 0 ++ [0]).
    + rewrite alter_app_r_alt, length_replicate, Nat.sub_diag by (rewrite length_replicate; lia). done.
    + change [0] with (replicate 1 0). rewrite <- replicate_add.
      replace (r - length m - 2 + 1)%nat with (S (r - length m - 2)) by lia. done.
Qed.

Lemma length_pad m p : length (pad r p m) = (r - length m mod r)%nat.
Proof.
  pose proof (Nat.mod_upper_bound (length m) r). unfold pad. destruct (Nat.eqb_spec (r - length m mod r) 1).
  - cbn. lia.
  - rewrite !length_app, length_replicate. cbn. lia.
Qed.

Lemma is_byte_lor_128 p : 0 <= p < 128 -> is_byte (Z.lor p 128).
Proof.
  intros Hp. change 128 with (Z.shiftl 1 7). rewrite lor_shiftl by (cbn; lia). unfold is_byte.
  change (2 ^ 7) with 128. lia.
Qed.

Lemma bytes_ok_pad m p : 0 <= p < 128 -> bytes_ok (pad r p m).
Proof.
  intros Hp. unfold pad. destruct (_ =? _)%nat.
  - repeat constructor; apply is_byte_lor_128; done.
  - repeat (apply Forall_app_2 || constructor); try (unfold is_byte; lia).
    apply Forall_replicate. done.
Qed.

Lemma last_block_rest m p : 0 <= p < 128 ->
  last_block r (drop (length m / r * r) m) p = drop (length m / r * r) m ++ pad r p m.
Proof.
  intros Hp. pose proof (Nat.div_mod_eq (length m) r). pose proof (Nat.mod_upper_bound (length m) r).
  assert (Hl : (length (drop (length m / r * r) m) = length m mod r)%nat) by (rewrite length_drop; lia).
  rewrite last_block_pad by (rewrite ?Hl; lia). unfold pad. rewrite Hl, Nat.Div0.mod_mod. done.
Qed.

(** After [keccak_absorb] the state is one permutation short of the standard's. *)
Lemma keccak_absorb_spec m p : bytes_ok m -> 0 <= p < 128 ->
  st_ok (keccak_absorb r m p) /\
  Fips202.keccak_f (keccak_absorb r m p) = Sponge.absorb r (replicate 25 0) (m ++ pad r p m).
Proof.
  intros Hm Hp. unfold keccak_absorb.
  destruct (absorb_blocks_spec (length m) (replicate 25 0) m) as [-> Hs]; auto with lane.
  rewrite last_block_rest by done. set (b := drop (length m / r * r) m ++ pad r p m).
  assert (Hb : bytes_ok b) by (apply Forall_app_2; [apply Forall_drop; done | apply bytes_ok_pad; done]).
  assert (Hlen : length b = r).
  { unfold b. rewrite length_app, length_pad, length_drop.
    pose proof (Nat.div_mod_eq (length m) r). pose proof (Nat.mod_upper_bound (length m) r). lia. }
  rewrite xor_block_ok by (done || lia). rewrite take_ge by lia. split; [auto with lane|].
  rewrite padded_blocks by apply length_pad. done.
Qed.

(** ** Absorbing incrementally *)

Lemma xor_bytes_app m m' : forall s pos,
  xor_bytes s pos (m ++ m') = xor_bytes (xor_bytes s pos m) (pos + length m) m'.
Proof.
  induction m as [|b m IH]; intros s pos; cbn [xor_bytes app length].
  - replace (pos + 0)%nat with pos by lia. done.
  - rewrite IH. f_equal. lia.
Qed.

Lemma xor_byte_xorst s m b : length s = 25%nat -> (length m < 200)%nat -> bytes_ok m -> is_byte b ->
  xor_byte (xorst s m) (length m) b = xorst s (m ++ [b]).
Proof.
  intros Hs Hl Hm Hb. pose proof (Nat.div_mod_eq (length m) 8).
  pose proof (Nat.mod_upper_bound (length m) 8). apply list_eq. intros j.
  unfold xor_byte, xor_lane. rewrite list_lookup_alter, !lookup_xorst by done.
  destruct (decide (length m / 8 = j)%nat) as [<-|Hj];
    [destruct (s !! (length m / 8)%nat) as [x|] | destruct (s !! j) as [x|]]; try done;
    cbn [fmap option_fmap option_map]; f_equal.
  - set (l := drop (8 * (length m / 8)) m).
    assert (Hll : length l = (length m mod 8)%nat) by (unfold l; rewrite length_drop; lia).
    assert (Hz : zlen l = Z.of_nat (length m mod 8)) by (unfold zlen; rewrite Hll; done).
    rewrite drop_app_le by lia. fold l.
    rewrite (take_ge (l ++ [b])) by (rewrite length_app, Hll; cbn [length]; lia).
    rewrite take_ge, le_word_snoc, Z.lxor_assoc, shl64_byte by (lia || done). f_equal.
    pose proof (le_word_bound l (Forall_drop _ _ _ Hm)) as Hw.
    rewrite Hz, pow_256 in Hw |- * by lia. rewrite lxor_shiftl by lia. lia.
  - destruct (decide (j < length m / 8)%nat).
    + rewrite drop_app_le, take_app_le by (rewrite ?length_drop; lia). done.
    + rewrite !drop_ge by (rewrite ?length_app; cbn; lia). done.
Qed.

Lemma xor_bytes_xorst s m : forall a, length s = 25%nat -> (length (a ++ m) <= 200)%nat ->
  bytes_ok a -> bytes_ok m -> xor_bytes (xorst s a) (length a) m = xorst s (a ++ m).
Proof.
  induction m as [|b m IH]; intros a Hs Hl Ha Hm; cbn [xor_bytes]; [rewrite app_nil_r; done|].
  rewrite length_app in Hl. cbn [length] in Hl. apply Forall_cons_1 in Hm as [Hb Hm].
  rewrite xor_byte_xorst by (done || lia).
  replace (S (length a)) with (length (a ++ [b])) by (rewrite length_app; cbn; lia).
  rewrite IH, <- app_assoc; try done; [rewrite !length_app; cbn; lia|].
  apply Forall_app_2; [done|]. repeat constructor; apply Hb.
Qed.

Lemma xorst_nil s : length s = 25%nat -> xorst s [] = s.
Proof.
  intros Hs. apply list_eq. intros j. rewrite lookup_xorst by done. destruct (s !! j); [|done].
  cbn [fmap option_fmap option_map]. rewrite drop_nil. cbn [take le_word]. rewrite Z.lxor_0_r. done.
Qed.

(** The context has absorbed whole blocks up to the state [s], and then [p]. *)
Definition inc_at (s : list Z) (p : bytes) (c : keccak_inc) : Prop :=
  st_ok s /\ bytes_ok p /\ (length p < r)%nat /\ inc_state c = xorst s p /\ inc_pos c = length p.

Definition rest (m : bytes) : bytes := drop (length m / r * r) m.

Lemma absorb_step s x : (r <= length x)%nat ->
  Sponge.absorb r s x = Sponge.absorb r (absorb_block s (take r x)) (drop r x) /\
  rest x = rest (drop r x).
Proof.
  intros Hx. unfold Sponge.absorb, rest. rewrite length_drop, div_ge by done. split; [done|].
  rewrite drop_drop. done.
Qed.

Lemma absorb_small s x : (length x < r)%nat -> Sponge.absorb r s x = s /\ rest x = x.
Proof. intros Hx. unfold Sponge.absorb, rest. rewrite Nat.div_small by done. done. Qed.

Lemma inc_absorb_loop_spec fuel : forall s p c m, (length m < fuel)%nat -> inc_at s p c -> bytes_ok m ->
  exists s' p' c' m', keccak_inc_absorb_loop fuel c r m = (c', m') /\ inc_at s' p' c' /\ bytes_ok m' /\
    (length (p' ++ m') < r)%nat /\ s' = Sponge.absorb r s (p ++ m) /\ p' ++ m' = rest (p ++ m).
Proof.
  induction fuel as [|n IH]; intros s p c m Hn Hc Hm; [lia|]. pose proof Hc as (Hs & Hp & Hl & Hst & Hpos).
  cbn [keccak_inc_absorb_loop]. rewrite Hpos, Hst. destruct (Nat.leb_spec r (length m + length p)).
  - assert (Hx : p ++ take (r - length p) m = take r (p ++ m)) by (rewrite take_app, (take_ge p) by lia; done).
    assert (Hd : drop (r - length p) m = drop r (p ++ m)) by (rewrite drop_app, (drop_ge p) by lia; done).
    rewrite xor_bytes_xorst; try done.
    2: apply Hs. 2: rewrite length_app, length_take; lia. 2: apply Forall_take; done.
    rewrite Hx. assert (Hxo : st_ok (xorst s (take r (p ++ m))))
      by (apply st_ok_xorst; [apply Forall_take, Forall_app_2; done | done]).
    rewrite permute_fips by done. fold (absorb_block s (take r (p ++ m))).
    assert (H2 : st_ok (absorb_block s (take r (p ++ m))))
      by (unfold absorb_block; fold (xorst s (take r (p ++ m))); rewrite <- permute_fips by done; auto with lane).
    destruct (absorb_step s (p ++ m)) as [-> ->]; [rewrite length_app; lia|]. rewrite <- Hd.
    apply (IH _ [] _ (drop (r - length p) m)); [rewrite length_drop; lia | | apply Forall_drop; done].
    unfold inc_at. cbn [inc_state inc_pos length]. rewrite xorst_nil by apply H2.
    split_and!; try done; lia.
  - assert (length (p ++ m) < r)%nat by (rewrite length_app; lia).
    destruct (absorb_small s (p ++ m)) as [-> ->]; [done|]. exists s, p, c, m. done.
Qed.

Lemma inc_absorb_spec s p c m : inc_at s p c -> bytes_ok m ->
  inc_at (Sponge.absorb r s (p ++ m)) (rest (p ++ m)) (keccak_inc_absorb c r m).
Proof.
  intros Hc Hm. unfold keccak_inc_absorb.
  destruct (inc_absorb_loop_spec (S (length m)) s p c m) as (s' & p' & c' & m' & -> & Hc' & Hm' & Hl & <- & <-);
    [lia | done | done |].
  destruct Hc' as (Hs & Hp & Hlp & Hst & Hpos). unfold inc_at. cbn [inc_state inc_pos].
  rewrite Hst, Hpos, xor_bytes_xorst by (done || apply Hs || lia).
  split_and!; try done; [apply Forall_app_2; done | rewrite length_app; done].
Qed.

Lemma sponge_absorb_app s M m : Sponge.absorb r s (M ++ m) = Sponge.absorb r (Sponge.absorb r s M) (rest M ++ m)
  /\ rest (M ++ m) = rest (rest M ++ m).
Proof.
  remember (length M / r)%nat as k eqn:Hk. revert s M Hk. induction k as [|k IH]; intros s M Hk;
    pose proof (Nat.div_mod_eq (length M) r); pose proof (Nat.mod_upper_bound (length M) r).
  - destruct (absorb_small s M) as [-> ->]; [rewrite <- Hk in *; lia | done].
  - assert (Hr' : (r <= length M)%nat) by nia.
    destruct (absorb_step s M Hr') as [-> ->].
    destruct (absorb_step s (M ++ m)) as [-> ->]; [rewrite length_app; lia|].
    rewrite take_app_le, drop_app_le by done. apply IH. rewrite length_drop.
    rewrite div_ge in Hk by done. lia.
Qed.

(** What a context holds after absorbing [M]. *)
Definition absorbed (M : bytes) (c : keccak_inc) : Prop :=
  inc_at (Sponge.absorb r (replicate 25 0) M) (rest M) c.

Lemma absorbed_init : absorbed [] keccak_inc_init.
Proof.
  unfold absorbed. destruct (absorb_small (replicate 25 0) []) as [-> ->]; [cbn; lia|].
  split_and!; [apply st_ok_zero | done | cbn; lia | rewrite xorst_nil; done | done].
Qed.

Lemma absorbed_app M m c : absorbed M c -> bytes_ok m -> absorbed (M ++ m) (keccak_inc_absorb c r m).
Proof.
  intros Hc Hm. unfold absorbed in *. destruct (sponge_absorb_app (replicate 25 0) M m) as [-> ->].
  apply inc_absorb_spec; done.
Qed.

(** ** Padding incrementally *)

Lemma xor_byte_twice s j a : length s = 25%nat -> 0 <= a < 128 ->
  xor_byte (xor_byte s j a) j 128 = xor_byte s j (Z.lor a 128).
Proof.
  intros Hs Ha. unfold xor_byte, xor_lane. apply list_eq. intros i.
  destruct (decide (j / 8 = i)%nat) as [<-|]; [|rewrite !list_lookup_alter_ne; done].
  rewrite !list_lookup_alter_eq. destruct (s !! _) as [x|]; [|done].
  cbn [fmap option_fmap option_map]. f_equal. pose proof (Nat.mod_upper_bound j 8). rewrite Z.lxor_assoc. f_equal.
  pose proof (is_byte_lor_128 a Ha). rewrite !shl64_byte by (done || lia || (unfold is_byte; lia)).
  rewrite <- Z.shiftl_lxor, Z.lxor_lor; [done|].
  change 128 with (Z.shiftl 1 7). apply land_shiftl_0; cbn; lia.
Qed.

Lemma xor_byte_0 s j : xor_byte s j 0 = s.
Proof.
  unfold xor_byte, xor_lane. apply list_eq. intros i. rewrite list_lookup_alter.
  destruct (decide _) as [->|]; [|done]. destruct (s !! i); [|done].
  cbn [fmap option_fmap option_map]. f_equal. unfold shl64. rewrite Z.shiftl_0_l. apply Z.lxor_0_r.
Qed.

Lemma xor_bytes_zeros n : forall s pos, xor_bytes s pos (replicate n 0) = s.
Proof. induction n as [|n IH]; intros s pos; [done|]. cbn [replicate xor_bytes]. rewrite xor_byte_0. done. Qed.

Lemma inc_finalize_spec s q c p : inc_at s q c -> 0 <= p < 128 ->
  keccak_inc_finalize c r p = {| inc_state := xorst s (q ++ pad r p q); inc_pos := 0 |}.
Proof.
  intros (Hs & Hq & Hl & Hst & Hpos) Hp. unfold keccak_inc_finalize. rewrite Hst, Hpos. f_equal.
  assert (H200 : (length (q ++ pad r p q) <= 200)%nat)
    by (rewrite length_app, length_pad, Nat.mod_small; lia).
  rewrite <- xor_bytes_xorst by (done || apply Hs || apply bytes_ok_pad; done).
  unfold pad in *. rewrite Nat.mod_small in * by done.
  destruct (Nat.eqb_spec (r - length q) 1) as [He|He].
  - cbn [xor_bytes]. replace (r - 1)%nat with (length q) by lia.
    apply xor_byte_twice; [apply length_xorst, Hs | done].
  - rewrite !xor_bytes_app, xor_bytes_zeros. cbn [xor_bytes length].
    rewrite length_replicate. f_equal. lia.
Qed.

Lemma absorbed_finalize M c p : absorbed M c -> bytes_ok M -> 0 <= p < 128 ->
  keccak_inc_finalize c r p = {| inc_state := keccak_absorb r M p; inc_pos := 0 |}.
Proof.
  intros Hc HM Hp. unfold absorbed in Hc. rewrite (inc_finalize_spec _ _ _ _ Hc Hp). f_equal.
  destruct Hc as (Hs & Hq & Hl & _). unfold keccak_absorb.
  destruct (absorb_blocks_spec (length M) (replicate 25 0) M) as [-> _]; auto with lane.
  fold (rest M). rewrite last_block_pad by done. rewrite xor_block_ok.
  - rewrite take_ge; [done|]. rewrite length_app, length_pad, Nat.mod_small by done. lia.
  - done.
  - rewrite length_app, length_pad, Nat.mod_small by done. lia.
  - apply Forall_app_2; [done | apply bytes_ok_pad; done].
Qed.

(** ** Squeezing *)

#[local] Opaque KeccakF1600_StatePermute.

(** Byte [j] of the output from the state [s], which is one permutation behind. *)
Definition xof_byte (s : list Z) (j : nat) : Z :=
  state_byte (Nat.iter (S (j / r)) KeccakF1600_StatePermute s) (j mod r).
Definition out (s : list Z) (k n : nat) : bytes := map (xof_byte s) (seq k n).

Lemma out_app s k n n' : out s k (n + n') = out s k n ++ out s (k + n) n'.
Proof. unfold out. rewrite seq_app, map_app. done. Qed.

Lemma xof_byte_block s n t : (t < r)%nat ->
  xof_byte s (n * r + t) = state_byte (Nat.iter (S n) KeccakF1600_StatePermute s) t.
Proof.
  intros Ht. unfold xof_byte. rewrite Nat.add_comm, Nat.div_add, Nat.Div0.mod_add by lia.
  rewrite Nat.div_small, Nat.mod_small by done. done.
Qed.

Lemma out_block s n t i : (t + i <= r)%nat ->
  out s (n * r + t) i = map (state_byte (Nat.iter (S n) KeccakF1600_StatePermute s)) (seq t i).
Proof.
  unfold out. revert t. induction i as [|i IH]; intros t Hi; [done|]. cbn [seq map].
  rewrite xof_byte_block by lia. f_equal. rewrite <- IH by lia. do 2 f_equal. lia.
Qed.

Lemma store_lanes_bytes s : store_lanes (r / 8) s = map (state_byte s) (seq 0 r).
Proof.
  unfold store_lanes, store64. rewrite (flat_map_seq 8 (r / 8) (fun i j => u8 (Z.shiftr (nth i s 0) (8 * Z.of_nat j)))) by lia.
  replace (r / 8 * 8)%nat with r by (pose proof (Nat.div_mod_eq r 8); lia). done.
Qed.

Lemma iter_permute n s :
  Nat.iter n KeccakF1600_StatePermute (KeccakF1600_StatePermute s) =
    Nat.iter (S n) KeccakF1600_StatePermute s.
Proof. symmetry. apply Nat.iter_succ_r. Qed.

Lemma out_permute s k n : out (KeccakF1600_StatePermute s) k n = out s (r + k) n.
Proof.
  unfold out. rewrite (Nat.add_comm r k). revert k.
  induction n as [|n IH]; intros k; cbn [seq map]; [reflexivity|].
  change (S (k + r)) with (S k + r)%nat. rewrite IH. apply (f_equal2 cons); [|reflexivity].
  unfold xof_byte. replace (k + r)%nat with (k + 1 * r)%nat by lia.
  rewrite Nat.div_add, Nat.Div0.mod_add, iter_permute by lia.
  replace (k / r + 1)%nat with (S (k / r)) by lia. reflexivity.
Qed.

Lemma squeezeblocks_spec n : forall s,
  keccak_squeezeblocks n s r = (out s 0 (n * r), Nat.iter n KeccakF1600_StatePermute s).
Proof.
  induction n as [|n IH]; intros s; [done|]. cbn [keccak_squeezeblocks]. rewrite IH, iter_permute.
  f_equal. cbn [Nat.mul]. rewrite out_app, out_permute. f_equal; [|f_equal; lia].
  rewrite store_lanes_bytes. symmetry. apply (out_block s 0 0 r). lia.
Qed.

(** [k] bytes have been squeezed from the state [s]. *)
Definition squeezed (s : list Z) (k : nat) (c : keccak_inc) : Prop :=
  exists n, inc_state c = Nat.iter n KeccakF1600_StatePermute s /\
    (inc_pos c < r)%nat /\ (k + inc_pos c = n * r)%nat.

Lemma inc_squeeze_loop_spec fuel : forall d n c s,
  (d <= fuel)%nat -> inc_state c = Nat.iter n KeccakF1600_StatePermute s -> inc_pos c = 0%nat ->
  exists c', keccak_inc_squeeze_loop fuel d c r = (out s (n * r) d, c') /\ squeezed s (n * r + d) c'.
Proof.
  induction fuel as [|f IH]; intros d n c s Hd Hs Hp; cbn [keccak_inc_squeeze_loop].
  - replace d with 0%nat by lia. exists c. split; [done|]. exists n. split_and!; [done | lia | lia].
  - destruct (Nat.ltb_spec 0 d).
    2: { replace d with 0%nat by lia. exists c. split; [done|]. exists n. split_and!; [done | lia | lia]. }
    assert (Hst : KeccakF1600_StatePermute (inc_state c) = Nat.iter (S n) KeccakF1600_StatePermute s)
      by (rewrite Hs; done).
    rewrite Hst. pose proof (out_block s n 0 (Nat.min d r) ltac:(lia)) as Ho.
    replace (n * r + 0)%nat with (n * r)%nat in Ho by lia. rewrite <- Ho.
    destruct (decide (d <= r)%nat).
    + replace (d - Nat.min d r)%nat with 0%nat by lia. replace (Nat.min d r) with d by lia.
      exists {| inc_state := Nat.iter (S n) KeccakF1600_StatePermute s; inc_pos := r - d |}.
      split; [destruct f; cbn [keccak_inc_squeeze_loop Nat.ltb Nat.leb]; rewrite app_nil_r; reflexivity|].
      exists (S n). cbn [inc_state inc_pos]. split_and!; [done | lia | lia].
    + destruct (IH (d - Nat.min d r)%nat (S n)
        {| inc_state := Nat.iter (S n) KeccakF1600_StatePermute s; inc_pos := r - Nat.min d r |} s)
        as (c' & -> & Hc'); [lia | done | cbn [inc_pos]; lia |].
      exists c'. split.
      * f_equal. replace (S n * r)%nat with (n * r + Nat.min d r)%nat by lia.
        rewrite <- out_app. f_equal. lia.
      * replace (n * r + d)%nat with (S n * r + (d - Nat.min d r))%nat by lia. done.
Qed.

Lemma inc_squeeze_spec d k c s : squeezed s k c ->
  exists c', keccak_inc_squeeze d c r = (out s k d, c') /\ squeezed s (k + d) c'.
Proof.
  intros (n & Hst & Hp & Hk). unfold keccak_inc_squeeze.
  assert (Hh : map (state_byte (inc_state c)) (seq (r - inc_pos c) (Nat.min d (inc_pos c))) =
               out s k (Nat.min d (inc_pos c))).
  { destruct n as [|n]; [replace (Nat.min d (inc_pos c)) with 0%nat by lia; done|].
    rewrite Hst, <- out_block by lia. f_equal. lia. }
  rewrite Hh. destruct (decide (d <= inc_pos c)%nat).
  - replace (d - Nat.min d (inc_pos c))%nat with 0%nat by lia.
    replace (Nat.min d (inc_pos c)) with d by lia. eexists.
    split; [destruct d; cbn [keccak_inc_squeeze_loop Nat.ltb Nat.leb]; rewrite app_nil_r; reflexivity|].
    exists n. cbn [inc_state inc_pos]. split_and!; [done | lia | lia].
  - replace (Nat.min d (inc_pos c)) with (inc_pos c) by lia.
    destruct (inc_squeeze_loop_spec d (d - inc_pos c) n
      {| inc_state := inc_state c; inc_pos := inc_pos c - inc_pos c |} s) as (c' & -> & Hc');
      [lia | done | cbn [inc_pos]; lia |].
    exists c'. split.
    + f_equal. rewrite <- Hk, <- out_app. f_equal. lia.
    + replace (k + d)%nat with (n * r + (d - inc_pos c))%nat by lia. done.
Qed.

(** ** The standard's output *)

Lemma flat_map_nth {B} (f : Z -> list B) s :
  flat_map f s = flat_map (fun i => f (nth i s 0)) (seq 0 (length s)).
Proof.
  induction s as [|x s IH]; cbn [flat_map length seq]; [reflexivity|].
  rewrite IH, <- seq_shift, !flat_map_concat_map, map_map. reflexivity.
Qed.

Lemma take_bytes_of s : length s = 25%nat -> take r (bytes_of s) = map (state_byte s) (seq 0 r).
Proof.
  intros Hs. unfold bytes_of. rewrite flat_map_nth, Hs. unfold le_bytes.
  rewrite (flat_map_seq 8 25 (fun i j => nth i s 0 / 256 ^ Z.of_nat j mod 256)) by lia.
  replace (25 * 8)%nat with (r + (200 - r))%nat by lia.
  rewrite seq_app, map_app, take_app_le, take_ge by (rewrite length_map, length_seq; lia).
  apply map_ext. intros j. unfold state_byte, u8.
  rewrite Z.shiftr_div_pow2, <- pow_256 by lia. reflexivity.
Qed.

Lemma iter_fips n s : st_ok s ->
  Nat.iter n Fips202.keccak_f (Fips202.keccak_f s) = Nat.iter (S n) KeccakF1600_StatePermute s /\
  st_ok (Nat.iter (S n) KeccakF1600_StatePermute s).
Proof.
  intros Hs. induction n as [|n [IH Hn]].
  - cbn [Nat.iter nat_rect]. rewrite permute_fips by done. split; [reflexivity|].
    rewrite <- permute_fips by done. apply st_ok_permute, Hs.
  - change (Nat.iter (S n) Fips202.keccak_f ?x) with (Fips202.keccak_f (Nat.iter n Fips202.keccak_f x)).
    change (Nat.iter (S (S n)) KeccakF1600_StatePermute s)
      with (KeccakF1600_StatePermute (Nat.iter (S n) KeccakF1600_StatePermute s)).
    rewrite IH. split; [symmetry; apply permute_fips, Hn | apply st_ok_permute, Hn].
Qed.

Lemma squeeze_out n s : st_ok s -> Sponge.squeeze n r (Fips202.keccak_f s) = out s 0 (n * r).
Proof.
  intros Hs. unfold Sponge.squeeze, out, xof_byte.
  rewrite <- (flat_map_seq r n (fun i j => state_byte (Nat.iter (S i) KeccakF1600_StatePermute s) j)) by lia.
  rewrite !flat_map_concat_map. f_equal. apply map_ext. intros i.
  destruct (iter_fips i s Hs) as [-> Hi]. apply take_bytes_of, Hi.
Qed.

Lemma sponge_out m p d : bytes_ok m -> 0 <= p < 128 ->
  sponge r p m d = out (keccak_absorb r m p) 0 d.
Proof.
  intros Hm Hp. destruct (keccak_absorb_spec m p Hm Hp) as [Hs Ha]. unfold sponge.
  rewrite <- Ha, squeeze_out by done.
  pose proof (Nat.div_mod_eq d r). pose proof (Nat.mod_upper_bound d r).
  replace (S (d / r) * r)%nat with (d + (S (d / r) * r - d))%nat by lia.
  rewrite out_app, take_app_le, take_ge; [reflexivity|..]; unfold out; rewrite length_map, length_seq; lia.
Qed.

Lemma squeeze_one n s : (n <= r)%nat -> take n (fst (keccak_squeezeblocks 1 s r)) = out s 0 n.
Proof.
  intros Hn. rewrite squeezeblocks_spec. cbn [fst]. replace (1 * r)%nat with (n + (r - n))%nat by lia.
  rewrite out_app, take_app_le, take_ge; [reflexivity|..]; unfold out; rewrite length_map, length_seq; lia.
Qed.

Lemma out_iter k : forall s j n,
  out (Nat.iter k KeccakF1600_StatePermute s) j n = out s (k * r + j) n.
Proof.
  induction k as [|k IH]; intros s j n; [reflexivity|].
  change (Nat.iter (S k) KeccakF1600_StatePermute s)
    with (KeccakF1600_StatePermute (Nat.iter k KeccakF1600_StatePermute s)).
  rewrite out_permute, IH. f_equal. lia.
Qed.

(** The one-shot XOF: whole blocks, then a part of one more. *)
Lemma shake_out d s :
  (let '(output, s') := keccak_squeezeblocks (d / r) s r in
   if (d - d / r * r =? 0)%nat then output
   else let '(t, _) := keccak_squeezeblocks 1 s' r in output ++ take (d - d / r * r) t) = out s 0 d.
Proof.
  pose proof (Nat.div_mod_eq d r). pose proof (Nat.mod_upper_bound d r).
  rewrite squeezeblocks_spec. destruct (Nat.eqb_spec (d - d / r * r) 0).
  - f_equal. lia.
  - rewrite (surjective_pairing (keccak_squeezeblocks 1 _ r)).
    rewrite squeeze_one, out_iter by lia.
    replace (d / r * r + 0)%nat with (0 + d / r * r)%nat by lia. rewrite <- (out_app s 0 (d / r * r) (d - d / r * r)). f_equal. lia.
Qed.

End rate.

(** ** The functions *)

(** The rates are multiples of 8; the suffix bytes are below 128. *)
Ltac rate := first [reflexivity | vm_compute; split; congruence | lia].

Lemma sponge_hash r p m d : (r mod 8 = 0)%nat -> (0 < r <= 192)%nat -> 0 <= p < 128 -> (d <= r)%nat ->
  bytes_ok m -> take d (fst (keccak_squeezeblocks 1 (keccak_absorb r m p) r)) = sponge r p m d.
Proof. intros H8 Hr Hp Hd Hm. rewrite (sponge_out r), (squeeze_one r); done. Qed.

Lemma shake128_out d m : bytes_ok m -> shake128 d m = sponge 168 0x1F m d.
Proof.
  intros Hm. rewrite (sponge_out 168) by (done || lia). rewrite <- (shake_out 168) by (done || lia).
  unfold shake128, shake128_absorb, shake128_squeezeblocks, SHAKE128_RATE. reflexivity.
Qed.
Lemma shake256_out d m : bytes_ok m -> shake256 d m = sponge 136 0x1F m d.
Proof.
  intros Hm. rewrite (sponge_out 136) by (done || lia). rewrite <- (shake_out 136) by (done || lia).
  unfold shake256, shake256_absorb, shake256_squeezeblocks, SHAKE256_RATE. reflexivity.
Qed.

(** C22: the one-shot functions of fips202.c are the functions of FIPS 202: SHAKE128
    and SHAKE256 for any output length, SHA3-256, SHA3-384 and SHA3-512, on messages
    of any length (full blocks, an empty last block and a last block with one byte
    of room included). *)
Theorem fips202_one_shot (m : bytes) (d : nat) :
  bytes_ok m ->
  shake128 d m = sponge 168 0x1F m d /\ shake256 d m = sponge 136 0x1F m d /\
  sha3_256 m = sponge 136 0x06 m 32 /\ sha3_384 m = sponge 104 0x06 m 48 /\
  sha3_512 m = sponge 72 0x06 m 64.
Proof.
  intros Hm. split_and!; [apply shake128_out; done | apply shake256_out; done |..].
  all: rewrite <- sponge_hash by (done || lia).
  all: unfold sha3_256, sha3_384, sha3_512, SHA3_256_RATE, SHA3_384_RATE, SHA3_512_RATE.
  all: reflexivity.
Qed.

(** Several squeezes in a row. *)
Fixpoint squeeze_all (r : nat) (ds : list nat) (c : keccak_inc) : list bytes :=
  match ds with
  | [] => []
  | d :: ds' => let '(o, c') := keccak_inc_squeeze d c r in o :: squeeze_all r ds' c'
  end.

Lemma squeeze_all_out r ds : (r mod 8 = 0)%nat -> (0 < r <= 192)%nat -> forall s k c,
  squeezed r s k c -> concat (squeeze_all r ds c) = out r s k (sum_list ds).
Proof.
  intros H8 Hr. induction ds as [|d ds IH]; intros s k c Hc; [reflexivity|]. cbn [squeeze_all].
  destruct (inc_squeeze_spec r H8 Hr d k c s Hc) as (c' & -> & Hc'). cbn [concat sum_list].
  rewrite (IH s (k + d)%nat c' Hc'). symmetry. apply (out_app r).
Qed.

Lemma absorb_all r ms : (r mod 8 = 0)%nat -> (0 < r <= 192)%nat -> Forall bytes_ok ms -> forall M c,
  absorbed r M c ->
  absorbed r (M ++ concat ms) (fold_left (fun c m => keccak_inc_absorb c r m) ms c).
Proof.
  intros H8 Hr Hms. induction Hms as [|m ms Hm Hms IH]; intros M c Hc; cbn [concat fold_left].
  - rewrite app_nil_r. done.
  - rewrite app_assoc. apply IH, absorbed_app; done.
Qed.

Lemma bytes_ok_concat ms : Forall bytes_ok ms -> bytes_ok (concat ms).
Proof. induction 1; cbn [concat]; [constructor | apply Forall_app_2; done]. Qed.

Lemma inc_finalized r p ms : (r mod 8 = 0)%nat -> (0 < r <= 192)%nat -> 0 <= p < 128 ->
  Forall bytes_ok ms ->
  keccak_inc_finalize (fold_left (fun c m => keccak_inc_absorb c r m) ms keccak_inc_init) r p =
    {| inc_state := keccak_absorb r (concat ms) p; inc_pos := 0 |}.
Proof.
  intros H8 Hr Hp Hms. apply (absorbed_finalize r); try done; [|apply bytes_ok_concat; done].
  apply (absorb_all r ms H8 Hr Hms []). apply absorbed_init; done.
Qed.

Lemma inc_stream r p ms ds : (r mod 8 = 0)%nat -> (0 < r <= 192)%nat -> 0 <= p < 128 ->
  Forall bytes_ok ms ->
  concat (squeeze_all r ds
    (keccak_inc_finalize (fold_left (fun c m => keccak_inc_absorb c r m) ms keccak_inc_init) r p)) =
    sponge r p (concat ms) (sum_list ds).
Proof.
  intros H8 Hr Hp Hms. rewrite inc_finalized by done.
  rewrite (sponge_out r) by (done || (apply bytes_ok_concat; done)).
  apply (squeeze_all_out r ds H8 Hr _ 0). exists 0%nat. cbn [inc_state inc_pos]. split_and!; [done | lia | lia].
Qed.


(** The empty message, whose SHA3-256 digest the standard gives. *)
Example sha3_256_empty : sha3_256 [] =
  [0xa7; 0xff; 0xc6; 0xf8; 0xbf; 0x1e; 0xd7; 0x66; 0x51; 0xc1; 0x47; 0x56; 0xa0; 0x61; 0xd6; 0x62;
   0xf5; 0x80; 0xff; 0x4d; 0xe4; 0x3b; 0x49; 0xfa; 0x82; 0xd8; 0x0a; 0x4b; 0x80; 0xf8; 0x43; 0x4a].
Proof. vm_compute. reflexivity. Qed.

Lemma fips202_one_shot_witness :
  bytes_ok [1; 2; 3] /\ shake256 200 [1; 2; 3] = sponge 136 0x1F [1; 2; 3] 200.
Proof.
  assert (H : bytes_ok [1; 2; 3]) by (repeat constructor; unfold is_byte; lia).
  split; [exact H|]. exact (proj1 (proj2 (fips202_one_shot [1; 2; 3] 200 H))).
Defined.

