(* ===== verification/KemNtt.v ===== *)
(** * ML-KEM-768: modular reduction and the number-theoretic transform

    PQClean/crypto_kem/ml-kem-768/clean: params.h, reduce.c, ntt.c.  An [int16_t] is an
    integer between -2^15 and 2^15 - 1, an array [int16_t r\[256\]] a list of 256 of
    them, updated in place as the loops do.  The loops keep the code's counters and
    bounds; their fuel is the largest number of iterations, and the theorems of
    KemNttFacts show that they end by their own conditions. *)
From stdpp Require Import base numbers list option.
From Stdlib Require Import ZArith Lia.
From S2P Require Import Prelude.

(** ** params.h *)

Definition KYBER_N : nat := 256.
Definition KYBER_Q : Z := 3329.
Definition KYBER_SYMBYTES : nat := 32.
Definition KYBER_SSBYTES : nat := 32.
Definition KYBER_POLYBYTES : nat := 384.
Definition KYBER_K : nat := 3.
Definition KYBER_POLYVECBYTES : nat := KYBER_K * KYBER_POLYBYTES.
Definition KYBER_ETA1 : nat := 2.
Definition KYBER_ETA2 : nat := 2.
Definition KYBER_POLYCOMPRESSEDBYTES : nat := 128.
Definition KYBER_POLYVECCOMPRESSEDBYTES : nat := KYBER_K * 320.
Definition KYBER_INDCPA_MSGBYTES : nat := KYBER_SYMBYTES.
Definition KYBER_INDCPA_PUBLICKEYBYTES : nat := KYBER_POLYVECBYTES + KYBER_SYMBYTES.
Definition KYBER_INDCPA_SECRETKEYBYTES : nat := KYBER_POLYVECBYTES.
Definition KYBER_INDCPA_BYTES : nat := KYBER_POLYVECCOMPRESSEDBYTES + KYBER_POLYCOMPRESSEDBYTES.
Definition KYBER_PUBLICKEYBYTES : nat := KYBER_INDCPA_PUBLICKEYBYTES.
Definition KYBER_SECRETKEYBYTES : nat :=
  KYBER_INDCPA_SECRETKEYBYTES + KYBER_INDCPA_PUBLICKEYBYTES + 2 * KYBER_SYMBYTES.
Definition KYBER_CIPHERTEXTBYTES : nat := KYBER_INDCPA_BYTES.

(** ** reduce.c *)

Definition MONT : Z := -1044.
Definition QINV : Z := -3327.

(** The products and differences are computed in [int] (32 bits). *)
Definition montgomery_reduce (a : Z) : Z :=
  let t := i16 (i32 (i16 a * QINV)) in
  i16 (Z.shiftr (i32 (a - i32 (t * KYBER_Q))) 16).

Definition barrett_v : Z := (Z.shiftl 1 26 + KYBER_Q / 2) / KYBER_Q.
Definition barrett_reduce (a : Z) : Z :=
  let t := i16 (Z.shiftr (i32 (i32 (barrett_v * a) + Z.shiftl 1 25)) 26) in
  let t := i16 (t * KYBER_Q) in
  i16 (a - t).

(** ** ntt.c *)

Definition zetas : list Z := [
  -1044;  -758;  -359; -1517;  1493;  1422;   287;   202;
   -171;   622;  1577;   182;   962; -1202; -1474;  1468;
    573; -1325;   264;   383;  -829;  1458; -1602;  -130;
   -681;  1017;   732;   608; -1542;   411;  -205; -1571;
   1223;   652;  -552;  1015; -1293;  1491;  -282; -1544;
    516;    -8;  -320;  -666; -1618; -1162;   126;  1469;
   -853;   -90;  -271;   830;   107; -1421;  -247;  -951;
   -398;   961; -1508;  -725;   448; -1065;   677; -1275;
  -1103;   430;   555;   843; -1251;   871;  1550;   105;
    422;   587;   177;  -235;  -291;  -460;  1574;  1653;
   -246;   778;  1159;  -147;  -777;  1483;  -602;  1119;
  -1590;   644;  -872;   349;   418;   329;  -156;   -75;
    817;  1097;   603;   610;  1322; -1285; -1465;   384;
  -1215;  -136;  1218; -1335;  -874;   220; -1187; -1659;
  -1185; -1530; -1278;   794; -1510;  -854;  -870;   478;
   -108;  -308;   996;   991;   958; -1460;  1522;  1628].
Definition zeta (k : nat) : Z := nth k zetas 0.

Definition fqmul (a b : Z) : Z := montgomery_reduce (a * b).

(** The loop [for (j = start; j < start + len; j++)] of [ntt], [n] iterations from
    [j] on. *)
Fixpoint ntt_inner (n j len : nat) (z : Z) (r : list Z) : list Z :=
  match n with
  | O => r
  | S n' =>
      let t := fqmul z (nth (j + len) r 0) in
      let r := <[(j + len)%nat := i16 (nth j r 0 - t)]> r in
      let r := <[j := i16 (nth j r 0 + t)]> r in
      ntt_inner n' (S j) len z r
  end.

(** The loop [for (start = 0; start < 256; start = j + len)]; [j] ends at
    [start + len]. *)
Fixpoint ntt_mid (fuel start k len : nat) (r : list Z) : nat * list Z :=
  match fuel with
  | O => (k, r)
  | S fuel' =>
      if (start <? 256)%nat then
        let z := zeta k in
        ntt_mid fuel' (start + len + len) (k + 1) len (ntt_inner len start len z r)
      else (k, r)
  end.

(** The loop [for (len = 128; len >= 2; len >>= 1)]. *)
Fixpoint ntt_outer (fuel k len : nat) (r : list Z) : list Z :=
  match fuel with
  | O => r
  | S fuel' =>
      if (2 <=? len)%nat then
        let '(k, r) := ntt_mid 129 0 k len r in
        ntt_outer fuel' k (len / 2) r
      else r
  end.

Definition ntt (r : list Z) : list Z := ntt_outer 8 1 128 r.

(** The same loops in [invntt]. *)
Fixpoint invntt_inner (n j len : nat) (z : Z) (r : list Z) : list Z :=
  match n with
  | O => r
  | S n' =>
      let t := nth j r 0 in
      let r := <[j := barrett_reduce (i16 (t + nth (j + len) r 0))]> r in
      let r := <[(j + len)%nat := i16 (nth (j + len) r 0 - t)]> r in
      let r := <[(j + len)%nat := fqmul z (nth (j + len) r 0)]> r in
      invntt_inner n' (S j) len z r
  end.

Fixpoint invntt_mid (fuel start k len : nat) (r : list Z) : nat * list Z :=
  match fuel with
  | O => (k, r)
  | S fuel' =>
      if (start <? 256)%nat then
        let z := zeta k in
        invntt_mid fuel' (start + len + len) (k - 1) len (invntt_inner len start len z r)
      else (k, r)
  end.

Fixpoint invntt_outer (fuel k len : nat) (r : list Z) : list Z :=
  match fuel with
  | O => r
  | S fuel' =>
      if (len <=? 128)%nat then
        let '(k, r) := invntt_mid 129 0 k len r in
        invntt_outer fuel' k (len * 2) r
      else r
  end.

Definition invntt_f : Z := 1441.
(** The last loop multiplies every coefficient by [f]. *)
Definition invntt (r : list Z) : list Z :=
  map (fun x => fqmul x invntt_f) (invntt_outer 8 127 2 r).

Definition basemul (a0 a1 b0 b1 z : Z) : list Z :=
  let r0 := fqmul a1 b1 in
  let r0 := fqmul r0 z in
  let r0 := i16 (r0 + fqmul a0 b0) in
  let r1 := fqmul a0 b1 in
  let r1 := i16 (r1 + fqmul a1 b0) in
  [r0; r1].
