(* ===== verification/KemNttFacts.v ===== *)
(** * The number-theoretic transform of ML-KEM-768

    Montgomery and Barrett reduction (congruence, range, no overflow of [int32_t]);
    the loops of [ntt] and [invntt] as seven levels of butterflies; the transform as a
    ring isomorphism: [invntt] undoes [ntt], and pairwise [basemul] between transforms
    is the product in Z_q[X]/(X^256 + 1). *)
From stdpp Require Import base numbers list option.
From Stdlib Require Import ZArith Lia Setoid Morphisms.
From S2P Require Import Prelude PolyRing Transform KemNtt.

(** ** The modulus *)

#[export] Instance kyber_modulus : Modulus := KYBER_Q.

Lemma eqq_iff x y : x ≡q y <-> exists k, x = y + KYBER_Q * k.
Proof. apply congruent_iff. Qed.

(** The inverse of the Montgomery factor 2^16. *)
Definition RINV : Z := 169.
Lemma R_RINV : 65536 * RINV ≡q 1.
Proof. reflexivity. Qed.

(** ** Reductions *)

Definition int32 (x : Z) : Prop := -2147483648 <= x < 2147483648.
Definition int16 (x : Z) : Prop := -32768 <= x < 32768.

Lemma i16_spec x : int16 (i16 x) /\ exists k, i16 x = x + 65536 * k.
Proof.
  unfold i16, int16. pose proof (Z.mod_pos_bound (x + 32768) 65536).
  pose proof (Z.div_mod (x + 32768) 65536). split; [lia|].
  exists (- ((x + 32768) / 65536)). lia.
Qed.
Lemma i16_id x : int16 x -> i16 x = x.
Proof. unfold i16, int16. intros H. rewrite Z.mod_small; lia. Qed.
Lemma i32_id x : int32 x -> i32 x = x.
Proof. unfold i32, int32. intros H. rewrite Z.mod_small; lia. Qed.

Lemma montgomery_spec a : - KYBER_Q * 32768 <= a < KYBER_Q * 32768 ->
  let t := i16 (i16 a * QINV) in
  int32 (i16 a * QINV) /\ int32 (t * KYBER_Q) /\ int32 (a - t * KYBER_Q) /\
  65536 * montgomery_reduce a = a - t * KYBER_Q /\ - KYBER_Q < montgomery_reduce a < KYBER_Q.
Proof.
  unfold KYBER_Q, QINV. intros Ha. cbv zeta.
  destruct (i16_spec a) as [Hi [k Hk]]. destruct (i16_spec (i16 a * -3327)) as [Ht [k' Hk']].
  unfold montgomery_reduce, KYBER_Q, QINV. unfold int16, int32 in *.
  rewrite (i32_id (i16 a * -3327)) by (unfold int32; lia).
  set (t := i16 (i16 a * -3327)) in *.
  rewrite (i32_id (t * 3329)), (i32_id (a - t * 3329)) by (unfold int32; lia).
  assert (Hd : a - t * 3329 = (169 * a + 3329 * (3327 * k - k')) * 65536) by lia.
  rewrite Hd, Z.shiftr_div_pow2 by lia. change (2 ^ 16) with 65536. rewrite Z.div_mul by lia.
  rewrite (i16_id (169 * a + _)) by (unfold int16; lia). lia.
Qed.

Lemma montgomery_eqq a : - KYBER_Q * 32768 <= a < KYBER_Q * 32768 -> montgomery_reduce a ≡q a * RINV.
Proof.
  intros Ha. destruct (montgomery_spec a Ha) as (_ & _ & _ & H & _).
  apply eqq_iff. unfold KYBER_Q, RINV in *. set (t := i16 _) in *. clearbody t.
  exists (- 3327 * montgomery_reduce a - 169 * t). lia.
Qed.

Lemma barrett_spec a : int16 a ->
  int32 (barrett_v * a) /\ int32 (barrett_v * a + Z.shiftl 1 25) /\
  barrett_reduce a ≡q a /\ - 1664 <= barrett_reduce a <= 1664.
Proof.
  intros Ha. unfold barrett_reduce. change barrett_v with 20159. change (Z.shiftl 1 25) with 33554432.
  unfold int16, int32 in *. rewrite (i32_id (20159 * a)), (i32_id (20159 * a + _)) by (unfold int32; lia).
  rewrite Z.shiftr_div_pow2 by lia. change (2 ^ 26) with 67108864. unfold KYBER_Q.
  pose proof (Z.div_mod (20159 * a + 33554432) 67108864).
  pose proof (Z.mod_pos_bound (20159 * a + 33554432) 67108864).
  set (t := (20159 * a + 33554432) / 67108864) in *.
  rewrite (i16_id t) by (unfold int16; lia). destruct (i16_spec (t * 3329)) as [_ [k Hk]].
  destruct (i16_spec (a - i16 (t * 3329))) as [Hr [k' Hk']]. unfold int16 in Hr.
  assert (E : i16 (a - i16 (t * 3329)) = a - t * 3329) by lia. rewrite E.
  split_and!; try lia. apply eqq_iff. exists (- t). unfold KYBER_Q. lia.
Qed.

(** The two reductions of reduce.c do what their comments promise.  On the range
    -q*2^15 .. q*2^15-1 [montgomery_reduce] gives an integer of -q+1 .. q-1 congruent
    to a * 2^-16 (2^16 times it is congruent to a); on every [int16_t]
    [barrett_reduce] gives the centred representative, between -(q-1)/2 and (q-1)/2;
    and no intermediate product or difference leaves [int]. *)
Theorem reductions_correct (a b : Z) :
  - KYBER_Q * 32768 <= a < KYBER_Q * 32768 -> int16 b ->
  let t := i16 (i16 a * QINV) in
  (65536 * montgomery_reduce a ≡q a /\ - KYBER_Q < montgomery_reduce a < KYBER_Q) /\
  (barrett_reduce b ≡q b /\ - (KYBER_Q - 1) / 2 <= barrett_reduce b <= (KYBER_Q - 1) / 2) /\
  Forall int32 [i16 a * QINV; t * KYBER_Q; a - t * KYBER_Q;
                barrett_v * b; barrett_v * b + Z.shiftl 1 25].
Proof.
  intros Ha Hb. cbv zeta. destruct (montgomery_spec a Ha) as (H1 & H2 & H3 & H4 & H5).
  destruct (barrett_spec b Hb) as (H6 & H7 & H8 & H9). split_and!; try done; try apply H5; try apply H9.
  - rewrite H4. apply eqq_iff. exists (- i16 (i16 a * QINV)). lia.
  - do 5 (constructor; [done|]). constructor.
Qed.

Lemma reductions_correct_witness :
  let a := 109084671 in let b := -32768 in
  (- KYBER_Q * 32768 <= a < KYBER_Q * 32768) /\ int16 b /\
  65536 * montgomery_reduce a ≡q a /\ barrett_reduce b ≡q b.
Proof.
  assert (Ha : - KYBER_Q * 32768 <= 109084671 < KYBER_Q * 32768) by (vm_compute; split; congruence).
  assert (Hb : int16 (-32768)) by (vm_compute; split; congruence).
  pose proof (reductions_correct 109084671 (-32768) Ha Hb) as (H & H' & _).
  cbv zeta. split; [exact Ha|]. split; [exact Hb|]. split; [exact (proj1 H) | exact (proj1 H')].
Defined.

(** ** Products with the roots *)

Definition zt (k : nat) : Z := zeta k * RINV.

Lemma zeta_bound k : - 1664 <= zeta k <= 1664.
Proof.
  destruct (decide (k < 128)%nat) as [Hk|]; [|unfold zeta; rewrite nth_overflow; [lia | cbn; lia]].
  assert (H : forallb (fun k => (-1664 <=? zeta k) && (zeta k <=? 1664)) (seq 0 128) = true)
    by (vm_compute; reflexivity).
  rewrite forallb_forall in H. specialize (H k). rewrite in_seq in H. lia.
Qed.

(** A product with a table entry, or with any factor of at most (q-1)/2. *)
Lemma fqmul_spec z x : - 1664 <= z <= 1664 -> int16 x ->
  fqmul z x ≡q z * RINV * x /\ - 3328 <= fqmul z x <= 3328.
Proof.
  intros Hz Hx. unfold int16 in Hx. assert (Ha : - KYBER_Q * 32768 <= z * x < KYBER_Q * 32768) by (unfold KYBER_Q; nia).
  destruct (montgomery_spec _ Ha) as (_ & _ & _ & _ & H). unfold fqmul. split; [|unfold KYBER_Q in H; lia].
  rewrite montgomery_eqq by done. apply eqq_eq. ring.
Qed.

(** ** Forward: the loops are levels of butterflies *)

(** The butterfly of the code on a block. *)
Definition fwd_op (len k : nat) (b : list Z) : list Z :=
  bfly (fun x y => i16 (x + fqmul (zeta k) y)) (fun x y => i16 (x - fqmul (zeta k) y)) (take len b) (drop len b).
(** A level: [n] blocks of [2 * len] coefficients, the roots taken from index [k] on. *)
Definition level (n k len : nat) : list Z -> list Z := blocks (fwd_op len) (fun k => k + 1)%nat (2 * len) n k.

Lemma length_fwd_op len k b : length b = (2 * len)%nat -> length (fwd_op len k b) = (2 * len)%nat.
Proof. intros Hb. unfold fwd_op. rewrite length_bfly; vlen. Qed.

Lemma ntt_inner_op len k A b C : length b = (2 * len)%nat ->
  ntt_inner len (length A) len (zeta k) (A ++ b ++ C) = A ++ fwd_op len k b ++ C.
Proof.
  intros Hb. apply (inner_block len _ _ (fun n j r => ntt_inner n j len (zeta k) r)); [done | | done].
  intros n A' x B y C' HB. cbn [ntt_inner].
  rewrite two_nth1, two_nth2, two_set2, two_nth1, two_set1 by done. done.
Qed.

Lemma length_level_256 n k len r : (n * (2 * len) = 256)%nat -> length r = 256%nat ->
  length (level n k len r) = 256%nat.
Proof. intros Hn Hr. rewrite <- Hn. apply length_blocks; [apply length_fwd_op | lia]. Qed.
Ltac len256 := repeat (apply length_level_256; [reflexivity|]); assumption.

Lemma ntt_outer_step f n k len r : (2 <= len)%nat -> (n * (2 * len) = 256)%nat ->
  length r = 256%nat -> ntt_outer (S f) k len r = ntt_outer f (k + n) (len / 2) (level n k len r).
Proof.
  intros Hl Hn Hr. cbn [ntt_outer]. rewrite (proj2 (Nat.leb_le _ _)) by done.
  pose proof (mid_blocks (fwd_op len) (fun k => k + 1)%nat (2 * len) (length_fwd_op len) 256
    (fun k j r => ntt_inner len j len (zeta k) r) (fun fuel j k r => ntt_mid fuel j k len r)) as H.
  specialize (H ltac:(intros; cbn [ntt_mid]; replace (start + 2 * len)%nat with (start + len + len)%nat by lia; done)
    (ntt_inner_op len) n 129%nat [] k r).
  cbn [length app] in H. rewrite H by nia. rewrite iter_add. done.
Qed.

Lemma ntt_levels r : length r = 256%nat ->
  ntt r = level 64 64 2 (level 32 32 4 (level 16 16 8 (level 8 8 16 (level 4 4 32 (level 2 2 64
            (level 1 1 128 r)))))).
Proof.
  intros Hr. unfold ntt.
  rewrite (ntt_outer_step 7 1 1 128), (ntt_outer_step 6 2 2 64), (ntt_outer_step 5 4 4 32),
    (ntt_outer_step 4 8 8 16), (ntt_outer_step 3 16 16 8), (ntt_outer_step 2 32 32 4),
    (ntt_outer_step 1 64 64 2) by (lia || len256).
  done.
Qed.

(** ** Forward: bounds and the ideal transform *)

Abbreviation slevel := (Transform.slevel zt).
Abbreviation silevel := (Transform.silevel zt).
Abbreviation sroot := (root_of zt).
Abbreviation blockmul := (block_products zt).

Lemma fwd_op_spec len k B b : B <= 29439 -> bounded B b ->
  bounded (B + 3328) (fwd_op len k b) /\ fwd_op len k b ≡v split_op zt len k b.
Proof.
  intros HB Hb. pose proof (bounded_take B len b Hb) as Hlo. pose proof (bounded_drop B len b Hb) as Hhi.
  unfold fwd_op, bfly, split_op, proj, vadd. rewrite !vscale_zip.
  assert (Hf : forall y, - B <= y <= B -> fqmul (zeta k) y ≡q zt k * y /\ - 3328 <= fqmul (zeta k) y <= 3328)
    by (intros y Hy; apply fqmul_spec; [apply zeta_bound | unfold int16; lia]).
  split.
  - apply bounded_app; eapply bounded_zip_with; try done; intros x y Hx Hy;
      destruct (Hf y Hy) as [_ ?]; rewrite i16_id; unfold int16; lia.
  - apply app_eqv; eapply zip_with_eqv_bounded; try done; intros x y Hx Hy;
      destruct (Hf y Hy) as [E ?]; rewrite i16_id by (unfold int16; lia); rewrite E; apply eqq_eq; ring.
Qed.

Lemma level_spec n k len r B : B <= 29439 -> bounded B r ->
  bounded (B + 3328) (level n k len r) /\ level n k len r ≡v slevel n k len r.
Proof. intros HB. apply blocks_spec. intros k' b. apply fwd_op_spec, HB. Qed.

(** The ideal transform. *)
Definition nt (r : list Z) : list Z :=
  slevel 64 64 2 (slevel 32 32 4 (slevel 16 16 8 (slevel 8 8 16 (slevel 4 4 32 (slevel 2 2 64
    (slevel 1 1 128 r)))))).

#[export] Instance nt_eqv : Proper (eqv ==> eqv) nt.
Proof. intros l k H. unfold nt. rewrite H. reflexivity. Qed.

(** The transform of the code: seven levels grow the coefficients by at most 7 * 3328. *)
Lemma ntt_nt r B : length r = 256%nat -> B <= 9471 -> bounded B r ->
  ntt r ≡v nt r /\ bounded (B + 23296) (ntt r) /\ length (ntt r) = 256%nat.
Proof.
  intros Hr HB Hb. rewrite ntt_levels by done. split_and!; [| |len256].
  all: unfold nt; set (B' := B) in Hb; assert (HB' : B' = B) by done; clearbody B'.
  all: repeat match goal with
  | H : bounded ?C ?l |- context [level ?n ?k ?len ?l] =>
      let Hb := fresh "Hb" in let E := fresh "E" in
      destruct (level_spec n k len l C ltac:(lia) H) as [Hb E];
      revert Hb E; generalize (level n k len l); clear H; intros ? Hb E; rewrite <- ?E; clear E
  end.
  - reflexivity.
  - eapply bounded_mono; [eassumption | lia].
Qed.

(** ** The transform is multiplicative *)

Lemma table_squares n k : (1 <= k)%nat -> (k + n <= 128)%nat -> square_roots zt n k.
Proof.
  intros Hk Hn i Hi. assert (H : forallb (fun k => bool_decide (zt k * zt k ≡q sroot k)) (seq 1 127) = true)
    by (vm_compute; reflexivity).
  rewrite forallb_forall in H. specialize (H i). rewrite in_seq in H.
  eapply bool_decide_eq_true_1, H. lia.
Qed.

Lemma length_slevel_256 n k len r : (n * (2 * len) = 256)%nat -> length r = 256%nat ->
  length (slevel n k len r) = 256%nat.
Proof. intros Hn Hr. rewrite length_slevel; lia. Qed.
Ltac slen256 := repeat (apply length_slevel_256; [reflexivity|]); assumption.

Lemma nt_mul a b : length a = 256%nat -> length b = 256%nat ->
  nt (mulmod (-1) a b) ≡v blockmul 128 128 2 (nt a) (nt b).
Proof.
  intros Ha Hb. assert (E : mulmod (-1) a b = blockmul 1 1 (2 * 128) a b).
  { cbn [block_products]. rewrite app_nil_r, !take_ge by (cbn; lia). done. }
  unfold nt. rewrite E.
  rewrite (slevel_mul zt 1 1 128), (slevel_mul zt 2 2 64), (slevel_mul zt 4 4 32), (slevel_mul zt 8 8 16),
    (slevel_mul zt 16 16 8), (slevel_mul zt 32 32 4), (slevel_mul zt 64 64 2)
    by (first [apply table_squares; lia | lia | slen256 | rewrite length_slevel_256; done]).
  reflexivity.
Qed.

(** ** Inverse: the loops are levels *)

Definition bwd_op (len k : nat) (b : list Z) : list Z :=
  bfly (fun x y => barrett_reduce (i16 (x + y))) (fun x y => fqmul (zeta k) (i16 (y - x))) (take len b) (drop len b).
Definition ilevel (n k len : nat) : list Z -> list Z := blocks (bwd_op len) (fun k => k - 1)%nat (2 * len) n k.

Lemma length_bwd_op len k b : length b = (2 * len)%nat -> length (bwd_op len k b) = (2 * len)%nat.
Proof. intros Hb. unfold bwd_op. rewrite length_bfly; vlen. Qed.

Lemma invntt_inner_op len k A b C : length b = (2 * len)%nat ->
  invntt_inner len (length A) len (zeta k) (A ++ b ++ C) = A ++ bwd_op len k b ++ C.
Proof.
  intros Hb. apply (inner_block len _ _ (fun n j r => invntt_inner n j len (zeta k) r)); [done | | done].
  intros n A' x B y C' HB. cbn [invntt_inner].
  rewrite two_nth1, two_nth2, two_set1, two_nth2, two_set2, two_nth2, two_set2 by done. done.
Qed.

Lemma length_ilevel_256 n k len r : (n * (2 * len) = 256)%nat -> length r = 256%nat ->
  length (ilevel n k len r) = 256%nat.
Proof. intros Hn Hr. rewrite <- Hn. apply length_blocks; [apply length_bwd_op | lia]. Qed.
Ltac ilen256 := repeat (apply length_ilevel_256; [reflexivity|]); assumption.

Lemma invntt_outer_step f n k len r : (0 < len <= 128)%nat -> (n * (2 * len) = 256)%nat ->
  length r = 256%nat -> invntt_outer (S f) k len r = invntt_outer f (k - n) (len * 2) (ilevel n k len r).
Proof.
  intros Hl Hn Hr. cbn [invntt_outer]. rewrite (proj2 (Nat.leb_le _ _)) by lia.
  pose proof (mid_blocks (bwd_op len) (fun k => k - 1)%nat (2 * len) (length_bwd_op len) 256
    (fun k j r => invntt_inner len j len (zeta k) r) (fun fuel j k r => invntt_mid fuel j k len r)) as H.
  specialize (H ltac:(intros; cbn [invntt_mid]; replace (start + 2 * len)%nat with (start + len + len)%nat by lia; done)
    (invntt_inner_op len) n 129%nat [] k r).
  cbn [length app] in H. rewrite H by nia. rewrite iter_sub. done.
Qed.

Lemma invntt_levels r : length r = 256%nat ->
  invntt_outer 8 127 2 r =
    ilevel 1 1 128 (ilevel 2 3 64 (ilevel 4 7 32 (ilevel 8 15 16 (ilevel 16 31 8 (ilevel 32 63 4
      (ilevel 64 127 2 r)))))).
Proof.
  intros Hr.
  rewrite (invntt_outer_step 7 64 127 2), (invntt_outer_step 6 32 63 4), (invntt_outer_step 5 16 31 8),
    (invntt_outer_step 4 8 15 16), (invntt_outer_step 3 4 7 32), (invntt_outer_step 2 2 3 64),
    (invntt_outer_step 1 1 1 128) by (lia || ilen256).
  done.
Qed.

(** ** Inverse: bounds and the ideal inverse *)

Lemma bwd_op_spec len k B b : B <= 16383 -> bounded B b ->
  bounded 3328 (bwd_op len k b) /\ bwd_op len k b ≡v join_op zt len k b.
Proof.
  intros HB Hb. pose proof (bounded_take B len b Hb) as Hlo. pose proof (bounded_drop B len b Hb) as Hhi.
  unfold bwd_op, bfly, join_op. set (lo := take len b) in *. set (hi := drop len b) in *.
  assert (Hi : forall x y, - B <= x <= B -> - B <= y <= B -> i16 (x + y) = x + y /\ i16 (y - x) = y - x)
    by (intros; split; apply i16_id; unfold int16; lia).
  split.
  - apply bounded_app; eapply bounded_zip_with; try done; intros x y Hx Hy;
      destruct (Hi x y Hx Hy) as [E1 E2]; rewrite ?E1, ?E2.
    + destruct (barrett_spec (x + y)) as (_ & _ & _ & ?); [unfold int16; lia|lia].
    + apply fqmul_spec; [apply zeta_bound | unfold int16; lia].
  - apply app_eqv.
    + apply (zip_with_eqv_bounded _ _ B B); try done. intros x y Hx Hy.
      destruct (Hi x y Hx Hy) as [-> _]. apply barrett_spec. unfold int16. lia.
    + rewrite vscale_vsub_zip. apply (zip_with_eqv_bounded _ _ B B); try done. intros x y Hx Hy.
      destruct (Hi x y Hx Hy) as [_ ->]. apply fqmul_spec; [apply zeta_bound | unfold int16; lia].
Qed.

Lemma ilevel_spec n k len r B : B <= 16383 -> bounded B r ->
  bounded 3328 (ilevel n k len r) /\ ilevel n k len r ≡v silevel n k len r.
Proof. intros HB. apply blocks_spec. intros k' b. apply bwd_op_spec, HB. Qed.

(** The ideal inverse, without the final scaling. *)
Definition it (r : list Z) : list Z :=
  silevel 1 1 128 (silevel 2 3 64 (silevel 4 7 32 (silevel 8 15 16 (silevel 16 31 8 (silevel 32 63 4
    (silevel 64 127 2 r)))))).

#[export] Instance it_eqv : Proper (eqv ==> eqv) it.
Proof. intros l k H. unfold it. rewrite H. reflexivity. Qed.

(** The factor of the last loop is 2^16 / 128. *)
Definition inv_scale : Z := invntt_f * RINV.
Lemma inv_scale_128 : 128 * inv_scale ≡q 65536.
Proof. reflexivity. Qed.

Lemma invntt_it r B : length r = 256%nat -> B <= 16383 -> bounded B r ->
  invntt r ≡v vscale inv_scale (it r) /\ bounded 3328 (invntt r) /\ length (invntt r) = 256%nat.
Proof.
  intros Hr HB Hb. unfold invntt. rewrite invntt_levels by done.
  assert (H : forall l m, bounded 3328 l -> l ≡v m ->
    map (fun x => fqmul x invntt_f) l ≡v vscale inv_scale m /\
    bounded 3328 (map (fun x => fqmul x invntt_f) l)).
  { intros l m Hl Hm.
    assert (Hx : forall x, - 3328 <= x <= 3328 -> fqmul x invntt_f ≡q inv_scale * x /\ - 3328 <= fqmul x invntt_f <= 3328).
    { intros x Hx. replace (fqmul x invntt_f) with (fqmul invntt_f x) by (unfold fqmul; f_equal; lia).
      destruct (fqmul_spec invntt_f x) as [E ?]; [vm_compute; split; congruence | unfold int16; lia |].
      split; [exact E | done]. }
    induction Hm as [|x y l m E Hm IH]; [split; constructor|].
    apply Forall_cons_1 in Hl as [Hx' Hl]. destruct (IH Hl). destruct (Hx x Hx'). cbn.
    split; constructor; try done. rewrite <- E. done. }
  assert (Hlen : forall l, length l = 256%nat -> length (map (fun x => fqmul x invntt_f) l) = 256%nat)
    by (intros; rewrite length_map; done).
  assert (Hl : forall n k len l m, bounded 3328 l /\ l ≡v m ->
    bounded 3328 (ilevel n k len l) /\ ilevel n k len l ≡v silevel n k len m).
  { intros n k len l m [Hbl E]. destruct (ilevel_spec n k len l 3328) as [Hb' E']; [lia|done|].
    split; [done|]. rewrite E', E. reflexivity. }
  destruct (Hl 1 1 128 _ _ (Hl 2 3 64 _ _ (Hl 4 7 32 _ _ (Hl 8 15 16 _ _ (Hl 16 31 8 _ _ (Hl 32 63 4 _ _
    (ilevel_spec 64 127 2 r B HB Hb)))))))%nat as [H1 H2].
  destruct (H _ _ H1 H2). split_and!; try done. apply Hlen. ilen256.
Qed.

(** ** The two are inverse, up to 128 *)

Lemma paired_table n : n ∈ [1; 2; 4; 8; 16; 32; 64]%nat -> paired zt n n (2 * n - 1).
Proof.
  intros Hn i Hi.
  assert (H : forallb (fun n => forallb (fun i => bool_decide (zt (2 * n - 1 - i) * zt (n + i) ≡q -1)) (seq 0 n))
                [1; 2; 4; 8; 16; 32; 64]%nat = true) by (vm_compute; reflexivity).
  rewrite forallb_forall in H. specialize (H n). rewrite list_elem_of_In in Hn. specialize (H Hn).
  rewrite forallb_forall in H. eapply bool_decide_eq_true_1, H. apply in_seq. lia.
Qed.

(** *** Linearity *)

Lemma nt_vscale c r : nt (vscale c r) = vscale c (nt r).
Proof. unfold nt. rewrite !slevel_vscale. done. Qed.
Lemma nt_vadd l r : length l = 256%nat -> length r = 256%nat -> nt (vadd l r) = vadd (nt l) (nt r).
Proof.
  intros Hl Hr. unfold nt.
  rewrite !slevel_vadd by (first [done | slen256 | rewrite length_slevel_256; done]). done.
Qed.
Lemma it_vscale c r : it (vscale c r) = vscale c (it r).
Proof. unfold it. rewrite !silevel_vscale. done. Qed.

Lemma length_nt r : length r = 256%nat -> length (nt r) = 256%nat.
Proof. intros Hr. unfold nt. slen256. Qed.

Lemma length_silevel_256 n k len r : (n * (2 * len) = 256)%nat -> length r = 256%nat ->
  length (silevel n k len r) = 256%nat.
Proof. intros Hn Hr. rewrite length_silevel; lia. Qed.
Ltac silen256 := repeat (apply length_silevel_256; [reflexivity|]); assumption.
Lemma length_it r : length r = 256%nat -> length (it r) = 256%nat.
Proof. intros Hr. unfold it. silen256. Qed.

(** The transform is invertible. *)
Lemma it_nt r : length r = 256%nat -> it (nt r) ≡v vscale 128 r.
Proof.
  intros Hr. unfold it, nt.
  assert (H : forall n len c x, n ∈ [1; 2; 4; 8; 16; 32; 64]%nat -> (n * (2 * len) = 256)%nat -> length x = 256%nat ->
    silevel n (2 * n - 1) len (vscale c (slevel n n len x)) ≡v vscale (2 * c) x).
  { intros n len c x Hn Hl Hx. rewrite silevel_vscale.
    rewrite (silevel_slevel zt n n (2 * n - 1)) by (try apply paired_table; done || lia).
    rewrite vscale_vscale. apply eq_subrelation; [apply _|]. f_equal. lia. }
  assert (Hin : forall n, n ∈ [1; 2; 4; 8; 16; 32; 64]%nat <-> In n [1; 2; 4; 8; 16; 32; 64]%nat)
    by (intros; apply list_elem_of_In).
  rewrite <- (vscale_1 (slevel 64 64 2 _)).
  rewrite (H 64%nat 2%nat), (H 32%nat 4%nat), (H 16%nat 8%nat), (H 8%nat 16%nat), (H 4%nat 32%nat),
    (H 2%nat 64%nat), (H 1%nat 128%nat)
    by (first [apply Hin; cbn; tauto | reflexivity | slen256]).
  reflexivity.
Qed.

Lemma nt_it r : length r = 256%nat -> nt (it r) ≡v vscale 128 r.
Proof.
  intros Hr. unfold it, nt.
  assert (H : forall n len c x, n ∈ [1; 2; 4; 8; 16; 32; 64]%nat -> (n * (2 * len) = 256)%nat -> length x = 256%nat ->
    slevel n n len (vscale c (silevel n (2 * n - 1) len x)) ≡v vscale (2 * c) x).
  { intros n len c x Hn Hl Hx. rewrite slevel_vscale.
    rewrite (slevel_silevel zt n n (2 * n - 1)) by (try apply paired_table; done || lia).
    rewrite vscale_vscale. apply eq_subrelation; [apply _|]. f_equal. lia. }
  assert (Hin : forall n, n ∈ [1; 2; 4; 8; 16; 32; 64]%nat <-> In n [1; 2; 4; 8; 16; 32; 64]%nat)
    by (intros; apply list_elem_of_In).
  rewrite <- (vscale_1 (silevel 1 1 128 _)).
  rewrite (H 1%nat 128%nat), (H 2%nat 64%nat), (H 4%nat 32%nat), (H 8%nat 16%nat), (H 16%nat 8%nat),
    (H 32%nat 4%nat), (H 64%nat 2%nat)
    by (first [apply Hin; cbn; tauto | reflexivity | silen256]).
  reflexivity.
Qed.

(** ** The base case *)

Lemma fqmul_12bit a b : - 4095 <= a <= 4095 -> - 4095 <= b <= 4095 ->
  fqmul a b ≡q a * b * RINV /\ - 3328 <= fqmul a b <= 3328.
Proof.
  intros Ha Hb. assert (Hab : - KYBER_Q * 32768 <= a * b < KYBER_Q * 32768) by (unfold KYBER_Q; nia).
  split; [apply montgomery_eqq; done|].
  destruct (montgomery_spec _ Hab) as (_ & _ & _ & _ & H). unfold fqmul, KYBER_Q in *. lia.
Qed.

Lemma basemul_spec a0 a1 b0 b1 z :
  - 4095 <= a0 <= 4095 -> - 4095 <= a1 <= 4095 -> - 4095 <= b0 <= 4095 -> - 4095 <= b1 <= 4095 ->
  - 1664 <= z <= 1664 ->
  basemul a0 a1 b0 b1 z ≡v vscale RINV (mulmod (z * RINV) [a0; a1] [b0; b1]) /\
  bounded 6656 (basemul a0 a1 b0 b1 z).
Proof.
  intros Ha0 Ha1 Hb0 Hb1 Hz. unfold basemul.
  destruct (fqmul_12bit a1 b1 Ha1 Hb1) as [E1 B1]. destruct (fqmul_12bit a0 b0 Ha0 Hb0) as [E2 B2].
  destruct (fqmul_12bit a0 b1 Ha0 Hb1) as [E3 B3]. destruct (fqmul_12bit a1 b0 Ha1 Hb0) as [E4 B4].
  destruct (fqmul_12bit (fqmul a1 b1) z) as [E5 B5]; [lia..|].
  rewrite !i16_id by (unfold int16; lia). split; [|repeat constructor; lia].
  constructor; [|constructor; [|constructor]].
  - rewrite E5, E1, E2. apply eqq_eq. unfold mulx. cbn. ring.
  - rewrite E3, E4. apply eqq_eq. cbn. ring.
Qed.
