(* ===== verification/KemPoly.v ===== *)
(** * ML-KEM-768: polynomials and vectors of polynomials

    PQClean/crypto_kem/ml-kem-768/clean: poly.c, cbd.c, polyvec.c and the comparison
    and conditional moves of verify.c.  A [poly] is the list of its 256 coefficients, a
    [polyvec] a list of 3 polynomials.  A loop that writes every coefficient (or every
    byte) of its result once is a map over the indices in the order of the loop. *)
From stdpp Require Import base numbers list option.
From Stdlib Require Import ZArith Lia.
From S2P Require Import Prelude KemNtt.

Definition poly : Type := list Z.
Definition polyvec : Type := list poly.
Definition coeff (a : poly) (i : nat) : Z := nth i a 0.
Definition vec (a : polyvec) (i : nat) : poly := nth i a [].
Definition byte (a : bytes) (i : nat) : Z := nth i a 0.

(** ** verify.c *)

(** The accumulated difference [r |= a\[i\] ^ b\[i\]]. *)
Definition verify_acc (a b : bytes) (len : nat) : Z :=
  fold_left (fun r i => u8 (Z.lor r (Z.lxor (byte a i) (byte b i)))) (seq 0 len) 0.
Definition verify (a b : bytes) (len : nat) : Z :=
  Z.shiftr (u64 (- verify_acc a b len)) 63.

Definition cmov (r x : bytes) (len : nat) (b : Z) : bytes :=
  let b := u8 (- b) in
  fold_left (fun r i => <[i := u8 (Z.lxor (byte r i) (Z.land b (Z.lxor (byte r i) (byte x i))))]> r)
            (seq 0 len) r.

Definition cmov_int16 (r v b : Z) : Z :=
  let b := u16 (- b) in
  i16 (Z.lxor r (Z.land b (Z.lxor r v))).

(** ** Serialization and compression of a polynomial *)

(** [u += (u >> 15) & KYBER_Q]: the representative between 0 and q-1. *)
Definition to_positive (u : Z) : Z := i16 (u + Z.land (Z.shiftr u 15) KYBER_Q).

(** One coefficient of [poly_compress], four bits. *)
Definition compress4 (c : Z) : Z :=
  let u := to_positive c in
  let d0 := u32 (Z.shiftl u 4) in
  let d0 := u32 (d0 + 1665) in
  let d0 := u32 (d0 * 80635) in
  let d0 := Z.shiftr d0 28 in
  Z.land d0 0xf.

Definition poly_compress (a : poly) : bytes :=
  flat_map (fun i =>
    let t j := compress4 (coeff a (8 * i + j)) in
    [u8 (Z.lor (t 0%nat) (Z.shiftl (t 1%nat) 4));
     u8 (Z.lor (t 2%nat) (Z.shiftl (t 3%nat) 4));
     u8 (Z.lor (t 4%nat) (Z.shiftl (t 5%nat) 4));
     u8 (Z.lor (t 6%nat) (Z.shiftl (t 7%nat) 4))]) (seq 0 (KYBER_N / 8)).

Definition decompress4 (x : Z) : Z := i16 (Z.shiftr (u16 x * KYBER_Q + 8) 4).

Definition poly_decompress (a : bytes) : poly :=
  flat_map (fun i => [decompress4 (Z.land (byte a i) 15); decompress4 (Z.shiftr (byte a i) 4)])
           (seq 0 (KYBER_N / 2)).

(** [t0 += ((int16_t)t0 >> 15) & KYBER_Q] on a [uint16_t]. *)
Definition to_positive16 (c : Z) : Z :=
  let t0 := u16 c in
  u16 (t0 + Z.land (Z.shiftr (i16 t0) 15) KYBER_Q).

Definition poly_tobytes (a : poly) : bytes :=
  flat_map (fun i =>
    let t0 := to_positive16 (coeff a (2 * i)) in
    let t1 := to_positive16 (coeff a (2 * i + 1)) in
    [u8 t0; u8 (Z.lor (Z.shiftr t0 8) (Z.shiftl t1 4)); u8 (Z.shiftr t1 4)]) (seq 0 (KYBER_N / 2)).

(** Two 12-bit integers from three bytes. *)
Definition unpack12 (b0 b1 b2 : Z) : Z * Z :=
  (Z.land (Z.lor b0 (Z.shiftl (u16 b1) 8)) 0xFFF,
   Z.land (Z.lor (Z.shiftr b1 4) (Z.shiftl (u16 b2) 4)) 0xFFF).

Definition poly_frombytes (a : bytes) : poly :=
  flat_map (fun i =>
    let '(c0, c1) := unpack12 (byte a (3 * i)) (byte a (3 * i + 1)) (byte a (3 * i + 2)) in
    [i16 c0; i16 c1]) (seq 0 (KYBER_N / 2)).

Definition poly_frommsg (msg : bytes) : poly :=
  flat_map (fun i => map (fun j =>
    cmov_int16 0 ((KYBER_Q + 1) / 2) (Z.land (Z.shiftr (byte msg i) (Z.of_nat j)) 1)) (seq 0 8))
    (seq 0 (KYBER_N / 8)).

(** One bit of [poly_tomsg]; the coefficient is converted to [uint32_t] as it is. *)
Definition tomsg_bit (c : Z) : Z :=
  let t := u32 c in
  let t := u32 (Z.shiftl t 1) in
  let t := u32 (t + 1665) in
  let t := u32 (t * 80635) in
  let t := Z.shiftr t 28 in
  Z.land t 1.

Definition poly_tomsg (a : poly) : bytes :=
  map (fun i => fold_left (fun m j => u8 (Z.lor m (Z.shiftl (tomsg_bit (coeff a (8 * i + j))) (Z.of_nat j))))
                  (seq 0 8) 0)
      (seq 0 (KYBER_N / 8)).

(** ** cbd.c *)

Definition load32_littleendian (x : bytes) : Z :=
  let r := byte x 0 in
  let r := Z.lor r (Z.shiftl (byte x 1) 8) in
  let r := Z.lor r (Z.shiftl (byte x 2) 16) in
  Z.lor r (Z.shiftl (byte x 3) 24).

(** The loop body for one word of four bytes. *)
Definition cbd2_word (t : Z) : list Z :=
  let d := Z.land t 0x55555555 in
  let d := u32 (d + Z.land (Z.shiftr t 1) 0x55555555) in
  map (fun j =>
    let a := Z.land (Z.shiftr d (4 * Z.of_nat j)) 0x3 in
    let b := Z.land (Z.shiftr d (4 * Z.of_nat j + 2)) 0x3 in
    i16 (a - b)) (seq 0 8).
Definition cbd2 (buf : bytes) : poly :=
  flat_map (fun i => cbd2_word (load32_littleendian (drop (4 * i) buf))) (seq 0 (KYBER_N / 8)).
Definition poly_cbd_eta1 (buf : bytes) : poly := cbd2 buf.
Definition poly_cbd_eta2 (buf : bytes) : poly := cbd2 buf.

(** ** Arithmetic *)

Definition poly_reduce (r : poly) : poly := map barrett_reduce r.
Definition poly_ntt (r : poly) : poly := poly_reduce (ntt r).
Definition poly_invntt_tomont (r : poly) : poly := invntt r.

(** One iteration: four coefficients of the result. *)
Definition basemul_step (a b : poly) (i : nat) : list Z :=
  basemul (coeff a (4 * i)) (coeff a (4 * i + 1)) (coeff b (4 * i)) (coeff b (4 * i + 1)) (zeta (64 + i)) ++
  basemul (coeff a (4 * i + 2)) (coeff a (4 * i + 3)) (coeff b (4 * i + 2)) (coeff b (4 * i + 3))
    (i16 (- zeta (64 + i))).
Definition poly_basemul_montgomery (a b : poly) : poly :=
  flat_map (basemul_step a b) (seq 0 (KYBER_N / 4)).

Definition tomont_f : Z := i16 (2 ^ 32 mod KYBER_Q).
Definition poly_tomont (r : poly) : poly := map (fun x => montgomery_reduce (x * tomont_f)) r.

Definition poly_add (a b : poly) : poly := zip_with (fun x y => i16 (x + y)) a b.
Definition poly_sub (a b : poly) : poly := zip_with (fun x y => i16 (x - y)) a b.

(** ** polyvec.c *)

(** One coefficient of [polyvec_compress], ten bits. *)
Definition compress10 (c : Z) : Z :=
  let t := to_positive16 c in
  let d0 := t in
  let d0 := u64 (Z.shiftl d0 10) in
  let d0 := u64 (d0 + 1665) in
  let d0 := u64 (d0 * 1290167) in
  let d0 := Z.shiftr d0 32 in
  Z.land d0 0x3ff.

Definition pack10 (t0 t1 t2 t3 : Z) : bytes :=
  [u8 t0; u8 (Z.lor (Z.shiftr t0 8) (Z.shiftl t1 2)); u8 (Z.lor (Z.shiftr t1 6) (Z.shiftl t2 4));
   u8 (Z.lor (Z.shiftr t2 4) (Z.shiftl t3 6)); u8 (Z.shiftr t3 2)].

Definition poly_compress10 (a : poly) : bytes :=
  flat_map (fun j =>
    let t k := compress10 (coeff a (4 * j + k)) in
    pack10 (t 0%nat) (t 1%nat) (t 2%nat) (t 3%nat)) (seq 0 (KYBER_N / 4)).
Definition polyvec_compress (a : polyvec) : bytes :=
  flat_map (fun i => poly_compress10 (vec a i)) (seq 0 KYBER_K).

Definition unpack10 (a0 a1 a2 a3 a4 : Z) : list Z :=
  [u16 (Z.lor a0 (Z.shiftl (u16 a1) 8)); u16 (Z.lor (Z.shiftr a1 2) (Z.shiftl (u16 a2) 6));
   u16 (Z.lor (Z.shiftr a2 4) (Z.shiftl (u16 a3) 4)); u16 (Z.lor (Z.shiftr a3 6) (Z.shiftl (u16 a4) 2))].
Definition decompress10 (t : Z) : Z :=
  i16 (Z.shiftr (u32 (u32 (u32 (Z.land t 0x3FF) * KYBER_Q) + 512)) 10).

(** The 320 bytes of one polynomial, five at a time. *)
Definition poly_decompress10 (a : bytes) : poly :=
  flat_map (fun j =>
    map decompress10 (unpack10 (byte a (5 * j)) (byte a (5 * j + 1)) (byte a (5 * j + 2))
                               (byte a (5 * j + 3)) (byte a (5 * j + 4)))) (seq 0 (KYBER_N / 4)).
Definition polyvec_decompress (a : bytes) : polyvec :=
  map (fun i => poly_decompress10 (drop (i * 320) a)) (seq 0 KYBER_K).

Definition polyvec_tobytes (a : polyvec) : bytes :=
  flat_map (fun i => poly_tobytes (vec a i)) (seq 0 KYBER_K).
Definition polyvec_frombytes (a : bytes) : polyvec :=
  map (fun i => poly_frombytes (drop (i * KYBER_POLYBYTES) a)) (seq 0 KYBER_K).
Definition polyvec_ntt (r : polyvec) : polyvec := map poly_ntt r.
Definition polyvec_invntt_tomont (r : polyvec) : polyvec := map poly_invntt_tomont r.

(** The accumulator starts as the first product; the others are added to it. *)
Definition polyvec_basemul_acc_montgomery (a b : polyvec) : poly :=
  let r := poly_basemul_montgomery (vec a 0) (vec b 0) in
  let r := fold_left (fun r i => poly_add r (poly_basemul_montgomery (vec a i) (vec b i)))
             (seq 1 (KYBER_K - 1)) r in
  poly_reduce r.

Definition polyvec_reduce (r : polyvec) : polyvec := map poly_reduce r.
Definition polyvec_add (a b : polyvec) : polyvec := zip_with poly_add a b.
