(* ===== verification/KemPolyFacts.v ===== *)
(** * Polynomial arithmetic of ML-KEM-768

    Lengths, bounds and congruences of the operations of poly.c and polyvec.c, and
    their composition: transforming, multiplying and accumulating in the transformed
    domain, and transforming back is the inner product in Z_q[X]/(X^256 + 1). *)
From stdpp Require Import base numbers list option.
From Stdlib Require Import ZArith Lia Setoid Morphisms.
From S2P Require Import Prelude KemNtt PolyRing Transform KemNttFacts KemPoly SpongeFacts.

#[local] Opaque ntt invntt nt it inv_scale.

(** ** Reduction *)

Definition poly_ok (B : Z) (a : poly) : Prop := length a = 256%nat /\ bounded B a.

Lemma bounded_int16 B l x : bounded B l -> B <= 32767 -> In x l -> int16 x.
Proof.
  intros Hl HB Hx. unfold bounded in Hl. rewrite List.Forall_forall in Hl. specialize (Hl x Hx).
  unfold int16. lia.
Qed.

Lemma poly_reduce_spec a B : B <= 32767 -> bounded B a ->
  poly_reduce a ≡v a /\ bounded 1664 (poly_reduce a).
Proof.
  intros HB Ha. unfold poly_reduce. induction Ha as [|x a Hx Ha [IH IH']]; [split; constructor|].
  destruct (barrett_spec x) as (_ & _ & E & Hb); [unfold int16; lia|].
  split; constructor; done.
Qed.

Lemma poly_reduce_ok a B : B <= 32767 -> poly_ok B a -> poly_ok 1664 (poly_reduce a).
Proof.
  intros HB [Hl Hb]. split; [unfold poly_reduce; rewrite length_map; done|].
  apply (poly_reduce_spec a B); done.
Qed.

Lemma poly_add_spec a b B B' : B + B' <= 32767 -> bounded B a -> bounded B' b ->
  poly_add a b = vadd a b /\ bounded (B + B') (poly_add a b).
Proof.
  intros HB Ha Hb. unfold poly_add, vadd.
  revert b Hb. induction Ha as [|x a Hx Ha IH]; intros b Hb; [split; [done|constructor]|].
  destruct Hb as [|y b Hy Hb]; [split; [done|constructor]|]. cbn.
  destruct (IH b Hb) as [-> IHb]. rewrite i16_id by (unfold int16; lia).
  split; [done|]. constructor; [lia|done].
Qed.
Lemma poly_sub_spec a b B B' : B + B' <= 32767 -> bounded B a -> bounded B' b ->
  poly_sub a b = vsub a b /\ bounded (B + B') (poly_sub a b).
Proof.
  intros HB Ha Hb. unfold poly_sub, vsub.
  revert b Hb. induction Ha as [|x a Hx Ha IH]; intros b Hb; [split; [done|constructor]|].
  destruct Hb as [|y b Hy Hb]; [split; [done|constructor]|]. cbn.
  destruct (IH b Hb) as [-> IHb]. rewrite i16_id by (unfold int16; lia).
  split; [done|]. constructor; [lia|done].
Qed.

(** ** The transform of a polynomial *)

Lemma poly_ntt_spec a B : B <= 9471 -> poly_ok B a ->
  poly_ntt a ≡v nt a /\ poly_ok 1664 (poly_ntt a).
Proof.
  intros HB [Hl Hb]. destruct (ntt_nt a B Hl HB Hb) as (E & Hb' & Hl'). unfold poly_ntt.
  destruct (poly_reduce_spec (ntt a) (B + 23296)) as [E' Hb'']; [lia|done|].
  split; [rewrite E'; done|]. split; [unfold poly_reduce; rewrite length_map; done|done].
Qed.

Lemma poly_invntt_spec a B : B <= 16383 -> poly_ok B a ->
  poly_invntt_tomont a ≡v vscale inv_scale (it a) /\ poly_ok 3328 (poly_invntt_tomont a).
Proof.
  intros HB [Hl Hb]. destruct (invntt_it a B Hl HB Hb) as (E & Hb' & Hl').
  split; [exact E | split; assumption].
Qed.

(** ** Products in the transformed domain *)

Lemma pair_block a i : (i + 2 <= length a)%nat -> take 2 (drop i a) = [coeff a i; coeff a (i + 1)].
Proof.
  intros Hi. unfold coeff. apply eq_at; [cbn [length]; vlen|]. intros j Hj.
  rewrite at_take, at_drop by vlen. assert (Hj' : (j < 2)%nat) by vlen.
  destruct j as [|[|j]]; [rewrite Nat.add_0_r; done | done | lia].
Qed.

Lemma bounded_coeff B a i : 0 <= B -> bounded B a -> - B <= coeff a i <= B.
Proof.
  intros HB Ha. unfold coeff. destruct (decide (i < length a)%nat).
  - apply (Forall_nth (fun x => - B <= x <= B)); done.
  - rewrite nth_overflow by lia. lia.
Qed.

Lemma basemul_step_spec a b s : (s < 64)%nat -> length a = 256%nat -> length b = 256%nat ->
  bounded 4095 a -> bounded 4095 b ->
  basemul_step a b s ≡v vscale RINV (blockmul 2 (128 + 2 * s) 2 (drop (4 * s) a) (drop (4 * s) b)) /\
  bounded 6656 (basemul_step a b s).
Proof.
  intros Hs Hla Hlb Ha Hb. unfold basemul_step.
  assert (Hc : forall i, - (4095) <= coeff a i <= 4095) by (intros; apply (bounded_coeff 4095); [lia|done]).
  assert (Hc' : forall i, - (4095) <= coeff b i <= 4095) by (intros; apply (bounded_coeff 4095); [lia|done]).
  pose proof (zeta_bound (64 + s)) as Hz. rewrite (i16_id (- zeta (64 + s))) by (unfold int16; lia).
  destruct (basemul_spec (coeff a (4 * s)) (coeff a (4 * s + 1)) (coeff b (4 * s)) (coeff b (4 * s + 1))
    (zeta (64 + s))) as [E1 B1]; try apply Hc; try apply Hc'; [done|].
  destruct (basemul_spec (coeff a (4 * s + 2)) (coeff a (4 * s + 3)) (coeff b (4 * s + 2)) (coeff b (4 * s + 3))
    (- zeta (64 + s))) as [E2 B2]; try apply Hc; try apply Hc'; [lia|].
  split; [|apply bounded_app; done].
  rewrite E1, E2. cbn [block_products]. rewrite !drop_drop, !pair_block by lia. rewrite app_nil_r, vscale_app.
  replace (128 + 2 * s)%nat with (2 * (64 + s))%nat by lia. rewrite root_of_odd, root_of_even by lia.
  replace (4 * s + 2 + 1)%nat with (4 * s + 3)%nat by lia.
  replace (- zt (64 + s)) with (- zeta (64 + s) * RINV) by (unfold zt; lia). reflexivity.
Qed.

Lemma blockmul_SS n k m a b :
  blockmul (S (S n)) k m a b = blockmul 2 k m a b ++ blockmul n (k + 1 + 1) m (drop m (drop m a)) (drop m (drop m b)).
Proof. cbn [block_products]. rewrite app_nil_r, <- app_assoc. done. Qed.

Lemma basemul_loop n : forall s a b, (s + n <= 64)%nat -> length a = 256%nat -> length b = 256%nat ->
  bounded 4095 a -> bounded 4095 b ->
  let r := flat_map (basemul_step a b) (seq s n) in
  r ≡v vscale RINV (blockmul (2 * n) (128 + 2 * s) 2 (drop (4 * s) a) (drop (4 * s) b)) /\
  bounded 6656 r /\ length r = (4 * n)%nat.
Proof.
  induction n as [|n IH]; intros s a b Hs Hla Hlb Ha Hb; [split_and!; [reflexivity | constructor | done]|].
  cbn [seq flat_map]. destruct (IH (S s) a b) as (E & Hbd & Hl); try done; [lia|].
  destruct (basemul_step_spec a b s) as [E1 B1]; try done; [lia|].
  split_and!.
  - rewrite E1, E. replace (2 * S n)%nat with (S (S (2 * n))) by lia.
    rewrite (blockmul_SS (2 * n)), vscale_app, !drop_drop.
    replace (4 * s + (2 + 2))%nat with (4 * S s)%nat by lia.
    replace (4 * s + 2 + 2)%nat with (4 * S s)%nat by lia.
    replace (128 + 2 * s + 1 + 1)%nat with (128 + 2 * S s)%nat by lia. reflexivity.
  - apply bounded_app; done.
  - rewrite length_app, Hl. cbn [basemul_step basemul app length]. lia.
Qed.

Lemma poly_basemul_spec a b : poly_ok 4095 a -> poly_ok 4095 b ->
  poly_basemul_montgomery a b ≡v vscale RINV (blockmul 128 128 2 a b) /\
  poly_ok 6656 (poly_basemul_montgomery a b).
Proof.
  intros [Hla Ha] [Hlb Hb]. destruct (basemul_loop 64 0 a b ltac:(lia) Hla Hlb Ha Hb) as (E & Hbd & Hl).
  cbn [Nat.mul] in E. rewrite !drop_0 in E. split; [exact E | split; done].
Qed.

(** The sum of the three products of two vectors, in the transformed domain. *)
Definition dot (a b : polyvec) : list Z :=
  vadd (vadd (blockmul 128 128 2 (vec a 0) (vec b 0)) (blockmul 128 128 2 (vec a 1) (vec b 1)))
       (blockmul 128 128 2 (vec a 2) (vec b 2)).

Definition polyvec_ok (B : Z) (a : polyvec) : Prop := length a = 3%nat /\ Forall (poly_ok B) a.

Lemma vec_ok B a i : polyvec_ok B a -> (i < 3)%nat -> poly_ok B (vec a i).
Proof. intros [Hl Ha] Hi. apply (Forall_nth (poly_ok B)); [done | lia]. Qed.

Lemma polyvec_basemul_acc_spec a b : polyvec_ok 4095 a -> polyvec_ok 4095 b ->
  polyvec_basemul_acc_montgomery a b ≡v vscale RINV (dot a b) /\
  poly_ok 1664 (polyvec_basemul_acc_montgomery a b).
Proof.
  intros Ha Hb. unfold polyvec_basemul_acc_montgomery. cbn [seq KYBER_K Nat.sub fold_left].
  destruct (poly_basemul_spec (vec a 0) (vec b 0)) as [E0 [L0 B0]]; [apply vec_ok; done || lia..|].
  destruct (poly_basemul_spec (vec a 1) (vec b 1)) as [E1 [L1 B1]]; [apply vec_ok; done || lia..|].
  destruct (poly_basemul_spec (vec a 2) (vec b 2)) as [E2 [L2 B2]]; [apply vec_ok; done || lia..|].
  destruct (poly_add_spec _ _ 6656 6656 ltac:(lia) B0 B1) as [Es Bs].
  destruct (poly_add_spec _ _ 13312 6656 ltac:(lia) Bs B2) as [Et Bt].
  destruct (poly_reduce_spec _ 19968 ltac:(lia) Bt) as [Er Br].
  split.
  - rewrite Er, Et, Es, E0, E1, E2, <- !vscale_vadd. reflexivity.
  - split; [|done]. unfold poly_reduce. rewrite length_map, Et, Es, !length_vadd. lia.
Qed.

Lemma poly_tomont_spec a B : B <= 32767 -> poly_ok B a ->
  poly_tomont a ≡v vscale 65536 a /\ poly_ok 3328 (poly_tomont a).
Proof.
  intros HB [Hl Hb]. unfold poly_ok. assert (E : poly_tomont a ≡v vscale 65536 a /\ bounded 3328 (poly_tomont a)).
  { clear Hl. unfold poly_tomont. induction Hb as [|x a Hx Ha [IH IH']]; [split; constructor|].
    destruct (fqmul_spec 1353 x) as [E Hf]; [lia | unfold int16; lia |].
    unfold fqmul in *. change tomont_f with 1353. rewrite Z.mul_comm in E, Hf.
    split; constructor; try done. rewrite E. apply eqq_mul; reflexivity. }
  destruct E as [E Hb']. split_and!; [exact E | unfold poly_tomont; rewrite length_map; done | exact Hb'].
Qed.

(** ** The product of vectors *)

Lemma polyvec_ntt_ok a B : B <= 9471 -> polyvec_ok B a -> polyvec_ok 1664 (polyvec_ntt a).
Proof.
  intros HB [Hl Ha]. split; [unfold polyvec_ntt; rewrite length_map; done|].
  apply List.Forall_map. eapply List.Forall_impl; [|exact Ha]. intros p Hp. cbn.
  apply (poly_ntt_spec p B); done.
Qed.

Lemma vec_ntt a i : (i < length a)%nat -> vec (polyvec_ntt a) i = poly_ntt (vec a i).
Proof.
  intros Hi. unfold vec, polyvec_ntt. rewrite (nth_indep _ [] (poly_ntt [])) by (rewrite length_map; done).
  apply map_nth.
Qed.

Lemma polyvec_ok_mono B B' a : B <= B' -> polyvec_ok B a -> polyvec_ok B' a.
Proof.
  intros HB [Hl Ha]. split; [done|]. eapply List.Forall_impl; [|exact Ha]. intros p [Hp Hb].
  split; [done | eapply bounded_mono; [exact Hb | exact HB]].
Qed.

(** The inner product in Z[X]/(X^256 + 1), by Horner and by coefficients. *)
Definition mdot (a b : polyvec) : list Z :=
  vadd (vadd (mulmod (-1) (vec a 0) (vec b 0)) (mulmod (-1) (vec a 1) (vec b 1)))
       (mulmod (-1) (vec a 2) (vec b 2)).
Definition inner_product (a b : polyvec) : list Z :=
  vadd (vadd (negacyclic (vec a 0) (vec b 0)) (negacyclic (vec a 1) (vec b 1)))
       (negacyclic (vec a 2) (vec b 2)).

Lemma mdot_inner a b B : polyvec_ok B a -> polyvec_ok B b -> mdot a b = inner_product a b.
Proof.
  intros Ha Hb. unfold mdot, inner_product.
  destruct (vec_ok B a 0 Ha), (vec_ok B a 1 Ha), (vec_ok B a 2 Ha); try lia.
  destruct (vec_ok B b 0 Hb), (vec_ok B b 1 Hb), (vec_ok B b 2 Hb); try lia.
  rewrite !mulmod_negacyclic by done. done.
Qed.

Lemma length_mdot a b B : polyvec_ok B b -> length (mdot a b) = 256%nat.
Proof.
  intros Hb. unfold mdot.
  destruct (vec_ok B b 0 Hb), (vec_ok B b 1 Hb), (vec_ok B b 2 Hb); try lia. vlen.
Qed.

Lemma dot_ntt a b B : B <= 9471 -> polyvec_ok B a -> polyvec_ok B b ->
  dot (polyvec_ntt a) (polyvec_ntt b) ≡v nt (mdot a b).
Proof.
  intros HB Ha Hb. pose proof Ha as [La _]. pose proof Hb as [Lb _]. unfold dot, mdot.
  rewrite !vec_ntt by lia.
  pose proof (vec_ok B a 0 Ha ltac:(lia)) as A0. pose proof (vec_ok B a 1 Ha ltac:(lia)) as A1.
  pose proof (vec_ok B a 2 Ha ltac:(lia)) as A2. pose proof (vec_ok B b 0 Hb ltac:(lia)) as B0.
  pose proof (vec_ok B b 1 Hb ltac:(lia)) as B1. pose proof (vec_ok B b 2 Hb ltac:(lia)) as B2.
  rewrite (proj1 (poly_ntt_spec _ B HB A0)), (proj1 (poly_ntt_spec _ B HB A1)), (proj1 (poly_ntt_spec _ B HB A2)).
  rewrite (proj1 (poly_ntt_spec _ B HB B0)), (proj1 (poly_ntt_spec _ B HB B1)), (proj1 (poly_ntt_spec _ B HB B2)).
  destruct A0, A1, A2, B0, B1, B2.
  rewrite <- !nt_mul by done. rewrite <- !nt_vadd by vlen. reflexivity.
Qed.

(** [invntt] of a product left in the Montgomery domain. *)
Lemma invntt_nt a x : poly_ok 1664 a -> a ≡v vscale RINV (nt x) -> length x = 256%nat ->
  poly_invntt_tomont a ≡v x /\ poly_ok 3328 (poly_invntt_tomont a).
Proof.
  intros Ha E Hx. destruct (poly_invntt_spec a 1664) as [E' Ha']; [lia|done|].
  split; [|done]. rewrite E', E, it_vscale, it_nt, !vscale_vscale by done.
  assert (Hs : inv_scale * RINV * 128 ≡q 1).
  { transitivity (128 * inv_scale * RINV); [apply eqq_eq; ring|]. rewrite inv_scale_128. apply R_RINV. }
  rewrite Hs, vscale_1. reflexivity.
Qed.

(** C17: the transform turns the product of polynomials into pairwise products: for
    vectors of three polynomials with coefficients of at most 9471 in absolute value,
    taking [polyvec_ntt] of both, [polyvec_basemul_acc_montgomery], and
    [poly_invntt_tomont] gives, modulo q, the sum of the three products modulo
    X^256 + 1, defined coefficient by coefficient (no transform, no Montgomery factor
    left); no coefficient leaves [int16_t] on the way, and the result is below q. *)
Theorem ntt_inner_product (a b : polyvec) :
  polyvec_ok 9471 a -> polyvec_ok 9471 b ->
  let r := poly_invntt_tomont (polyvec_basemul_acc_montgomery (polyvec_ntt a) (polyvec_ntt b)) in
  r ≡v inner_product a b /\ poly_ok 3328 r.
Proof.
  intros Ha Hb. rewrite <- (mdot_inner a b 9471) by done.
  destruct (polyvec_basemul_acc_spec (polyvec_ntt a) (polyvec_ntt b)) as [E Hok];
    [apply (polyvec_ok_mono 1664); [lia | apply (polyvec_ntt_ok _ 9471); done || lia]..|].
  apply invntt_nt; [done | rewrite E, (dot_ntt a b 9471) by (done || lia); reflexivity |].
  apply (length_mdot a b 9471 Hb).
Qed.

(** [poly_invntt_tomont] undoes [poly_ntt] up to the factor 2^16 that its name
    announces: on a polynomial with coefficients of at most 9471 in absolute value the
    result is congruent to 2^16 times the polynomial, and below q. *)
Theorem invntt_ntt_roundtrip (a : poly) :
  poly_ok 9471 a ->
  poly_invntt_tomont (poly_ntt a) ≡v vscale 65536 a /\ poly_ok 3328 (poly_invntt_tomont (poly_ntt a)).
Proof.
  intros Ha. destruct (poly_ntt_spec a 9471) as [E Hok]; [lia|done|].
  destruct (poly_invntt_spec (poly_ntt a) 1664) as [E' Hok']; [lia|done|].
  split; [|done]. rewrite E', E, it_nt, vscale_vscale by apply Ha.
  rewrite (Z.mul_comm inv_scale), inv_scale_128. reflexivity.
Qed.

Definition sample_poly : poly := map (fun i => Z.of_nat i - 128) (seq 0 256).
Lemma sample_poly_ok : poly_ok 9471 sample_poly.
Proof. split; [reflexivity|]. apply List.Forall_map, List.Forall_forall. intros i Hi. apply in_seq in Hi. cbn. lia. Qed.

Lemma invntt_ntt_roundtrip_witness :
  poly_ok 9471 sample_poly /\ poly_invntt_tomont (poly_ntt sample_poly) ≡v vscale 65536 sample_poly.
Proof.
  pose proof sample_poly_ok as H. split; [exact H|]. exact (proj1 (invntt_ntt_roundtrip sample_poly H)).
Defined.

Lemma ntt_inner_product_witness :
  let a := [sample_poly; sample_poly; sample_poly] in
  polyvec_ok 9471 a /\
  poly_invntt_tomont (polyvec_basemul_acc_montgomery (polyvec_ntt a) (polyvec_ntt a)) ≡v inner_product a a.
Proof.
  assert (H : polyvec_ok 9471 [sample_poly; sample_poly; sample_poly])
    by (split; [reflexivity | do 3 (constructor; [apply sample_poly_ok|]); constructor]).
  split; [exact H|]. exact (proj1 (ntt_inner_product _ _ H H)).
Defined.
