(* ===== verification/KemCodecFacts.v ===== *)
(** * Encodings of ML-KEM-768

    Byte serialization of polynomials and its round trips, compression against the
    rounded quotient it replaces and its error, the message encoding with its tolerance
    to noise, centred binomial sampling against FIPS 203, and the constant-time
    comparison and conditional moves. *)
From stdpp Require Import base numbers list option.
From Stdlib Require Import ZArith Lia.
From S2P Require Import Prelude PolyRing Transform BlockCodec KemNtt KemNttFacts KemPoly KemPolyFacts KeccakFacts SpongeFacts.

(** ** Serialization *)

Lemma unpack12_spec b0 b1 b2 : is_byte b0 -> is_byte b1 -> is_byte b2 ->
  unpack12 b0 b1 b2 = (b0 + 256 * (b1 mod 16), b1 / 16 + 16 * b2).
Proof.
  unfold is_byte. intros H0 H1 H2. unfold unpack12, u16. rewrite !(Z.mod_small _ 65536) by lia.
  rewrite shiftr_div by lia. change (2 ^ 4) with 16.
  rewrite (lor_mul b0 b1 8), (lor_mul (b1 / 16) b2 4) by (try change (2 ^ 4) with 16; dlia).
  rewrite !land_FFF. change (2 ^ 8) with 256. change (2 ^ 4) with 16. f_equal; dlia.
Qed.

Lemma to_positive16_spec c : - KYBER_Q <= c < 4096 -> to_positive16 c = if c <? 0 then c + KYBER_Q else c.
Proof.
  unfold KYBER_Q. intros Hc. unfold to_positive16, u16. destruct (Z.ltb_spec c 0).
  - assert (E : i16 (c mod 65536) = c) by (unfold i16; dlia). rewrite E.
    assert (Hs : Z.shiftr c 15 = -1) by (rewrite shiftr_div by lia; change (2 ^ 15) with 32768; dlia).
    rewrite Hs. change (Z.land (-1) KYBER_Q) with 3329. dlia.
  - assert (E : i16 (c mod 65536) = c) by (unfold i16; dlia). rewrite E.
    assert (Hs : Z.shiftr c 15 = 0) by (rewrite shiftr_div by lia; change (2 ^ 15) with 32768; dlia).
    rewrite Hs. change (Z.land 0 KYBER_Q) with 0. dlia.
Qed.

(** The three bytes of two 12-bit integers. *)
Lemma pack12_spec t0 t1 : 0 <= t0 < 4096 -> 0 <= t1 < 4096 ->
  [u8 t0; u8 (Z.lor (Z.shiftr t0 8) (Z.shiftl t1 4)); u8 (Z.shiftr t1 4)] =
    [t0 mod 256; t0 / 256 + 16 * (t1 mod 16); t1 / 16].
Proof.
  intros H0 H1. unfold u8. rewrite !shiftr_div by lia. change (2 ^ 8) with 256. change (2 ^ 4) with 16.
  rewrite lor_mul by (try change (2 ^ 4) with 16; dlia). change (2 ^ 4) with 16. repeat f_equal; dlia.
Qed.

Lemma at_tobytes a i : (i < 128)%nat -> bounded 4095 a ->
  (forall j, - KYBER_Q <= coeff a j) ->
  let t j := if coeff a j <? 0 then coeff a j + KYBER_Q else coeff a j in
  let t0 := t (2 * i)%nat in let t1 := t (2 * i + 1)%nat in
  at_ (poly_tobytes a) (3 * i) = t0 mod 256 /\
  at_ (poly_tobytes a) (3 * i + 1) = t0 / 256 + 16 * (t1 mod 16) /\
  at_ (poly_tobytes a) (3 * i + 2) = t1 / 16.
Proof.
  intros Hi Hb Hq t t0 t1.
  assert (Ht : forall j, to_positive16 (coeff a j) = t j /\ 0 <= t j < 4096).
  { intros j. pose proof (bounded_coeff 4095 a j ltac:(lia) Hb). specialize (Hq j).
    rewrite to_positive16_spec by lia. unfold t, KYBER_Q in *. destruct (Z.ltb_spec (coeff a j) 0); lia. }
  destruct (Ht (2 * i)%nat) as [E0 R0]. destruct (Ht (2 * i + 1)%nat) as [E1 R1].
  pose proof (pack12_spec t0 t1 R0 R1) as Hp. injection Hp as P1 P2.
  unfold poly_tobytes. rewrite <- (Nat.add_0_r (3 * i)) at 1.
  rewrite !(at_flat_map_seq _ 3) by (done || lia). cbn [at_ nth]. rewrite E0, E1.
  change (t (2 * i)%nat) with t0. change (t (2 * i + 1)%nat) with t1. rewrite P1, P2. done.
Qed.

Lemma length_tobytes a : length (poly_tobytes a) = 384%nat.
Proof. unfold poly_tobytes. rewrite (length_flat_map_seq _ 3) by done. done. Qed.
Lemma length_frombytes b : length (poly_frombytes b) = 256%nat.
Proof. unfold poly_frombytes. rewrite (length_flat_map_seq _ 2) by done. done. Qed.

Lemma frombytes_at b i : (i < 128)%nat -> bytes_ok b ->
  coeff (poly_frombytes b) (2 * i) = byte b (3 * i) + 256 * (byte b (3 * i + 1) mod 16) /\
  coeff (poly_frombytes b) (2 * i + 1) = byte b (3 * i + 1) / 16 + 16 * byte b (3 * i + 2).
Proof.
  intros Hi Hb. assert (Hx : forall j, is_byte (byte b j)) by (intros; apply nth_byte; done).
  change (coeff (poly_frombytes b)) with (at_ (poly_frombytes b)).
  unfold poly_frombytes. rewrite <- (Nat.add_0_r (2 * i)) at 1.
  rewrite !(at_flat_map_seq _ 2) by (done || lia). rewrite unpack12_spec by done. cbn [at_ nth].
  pose proof (Hx (3 * i)%nat). pose proof (Hx (3 * i + 1)%nat). pose proof (Hx (3 * i + 2)%nat).
  unfold is_byte in *. rewrite !i16_id by (unfold int16; dlia). done.
Qed.

Lemma frombytes_bounded b : bytes_ok b -> Forall (fun x => 0 <= x < 4096) (poly_frombytes b).
Proof.
  intros Hb. apply (Forall_blocks _ _ 2 128); [lia | apply length_frombytes |]. intros i j Hi Hj.
  destruct (frombytes_at b i Hi Hb) as [E0 E1].
  assert (Hx : forall j, is_byte (byte b j)) by (intros; apply nth_byte; done).
  pose proof (Hx (3 * i)%nat). pose proof (Hx (3 * i + 1)%nat). pose proof (Hx (3 * i + 2)%nat).
  unfold is_byte in *. change (coeff (poly_frombytes b)) with (at_ (poly_frombytes b)) in *.
  destruct j as [|[|j]]; [rewrite Nat.add_0_r, E0 | rewrite E1 | lia]; dlia.
Qed.

Lemma frombytes_tobytes a : length a = 256%nat -> Forall (fun c => - KYBER_Q <= c < KYBER_Q) a ->
  poly_frombytes (poly_tobytes a) = map (fun c => c mod KYBER_Q) a.
Proof.
  intros Hl Ha. assert (Hc : forall j, - KYBER_Q <= coeff a j < KYBER_Q).
  { intros j. unfold coeff. destruct (decide (j < length a)%nat).
    - apply (Forall_nth (fun c => - KYBER_Q <= c < KYBER_Q)); done.
    - rewrite nth_overflow by lia. done. }
  assert (Hb : bounded 4095 a).
  { eapply List.Forall_impl; [|exact Ha]. unfold KYBER_Q. cbn. lia. }
  assert (Hbytes : bytes_ok (poly_tobytes a)).
  { apply (Forall_blocks _ _ 3 128); [lia | apply length_tobytes |]. intros i j Hi Hj.
    unfold poly_tobytes. rewrite (at_flat_map_seq _ 3) by (done || lia).
    destruct j as [|[|[|j]]]; [apply u8_byte..|lia]. }
  apply (eq_blocks _ _ 2 128); [lia | apply length_frombytes | rewrite length_map; done |].
  intros i j Hi Hj.
  destruct (frombytes_at (poly_tobytes a) i Hi Hbytes) as [E0 E1].
  destruct (at_tobytes a i Hi Hb (fun j => proj1 (Hc j))) as (T0 & T1 & T2).
  change (byte (poly_tobytes a)) with (at_ (poly_tobytes a)) in E0, E1. rewrite T0, T1, T2 in *.
  assert (Hm : forall k, (k < 256)%nat -> at_ (map (fun c => c mod KYBER_Q) a) k = coeff a k mod KYBER_Q).
  { intros k Hk. unfold at_. rewrite (nth_indep _ 0 (0 mod KYBER_Q)) by (rewrite length_map; lia).
    apply (map_nth (fun c => c mod KYBER_Q)). }
  rewrite Hm by lia. pose proof (Hc (2 * i)%nat). pose proof (Hc (2 * i + 1)%nat). unfold KYBER_Q in *.
  destruct j as [|[|j]]; [rewrite Nat.add_0_r | | lia].
  - change (at_ (poly_frombytes (poly_tobytes a)) (2 * i)) with (coeff (poly_frombytes (poly_tobytes a)) (2 * i)).
    rewrite E0. destruct (Z.ltb_spec (coeff a (2 * i)) 0), (Z.ltb_spec (coeff a (2 * i + 1)) 0); dlia.
  - change (at_ (poly_frombytes (poly_tobytes a)) (2 * i + 1)) with (coeff (poly_frombytes (poly_tobytes a)) (2 * i + 1)).
    rewrite E1. destruct (Z.ltb_spec (coeff a (2 * i)) 0), (Z.ltb_spec (coeff a (2 * i + 1)) 0); dlia.
Qed.

Lemma tobytes_frombytes b : length b = 384%nat -> bytes_ok b -> poly_tobytes (poly_frombytes b) = b.
Proof.
  intros Hl Hb. pose proof (frombytes_bounded b Hb) as Hf. set (a := poly_frombytes b) in *.
  assert (Hc : forall j, 0 <= coeff a j < 4096).
  { intros j. unfold coeff. destruct (decide (j < length a)%nat).
    - apply (Forall_nth (fun c => 0 <= c < 4096)); done.
    - rewrite nth_overflow by lia. lia. }
  assert (Hbd : bounded 4095 a) by (eapply List.Forall_impl; [|exact Hf]; cbn; lia).
  apply (eq_blocks _ _ 3 128); [lia | apply length_tobytes | done |]. intros i j Hi Hj.
  destruct (frombytes_at b i Hi Hb) as [E0 E1]. fold a in E0, E1.
  destruct (at_tobytes a i Hi Hbd) as (T0 & T1 & T2); [intros k; specialize (Hc k); unfold KYBER_Q; lia|].
  pose proof (Hc (2 * i)%nat). pose proof (Hc (2 * i + 1)%nat).
  assert (Hx : forall j, is_byte (byte b j)) by (intros; apply nth_byte; done).
  pose proof (Hx (3 * i)%nat). pose proof (Hx (3 * i + 1)%nat). pose proof (Hx (3 * i + 2)%nat).
  change (at_ b) with (byte b). unfold is_byte in *.
  rewrite (proj2 (Z.ltb_ge (coeff a (2 * i)) 0)), (proj2 (Z.ltb_ge (coeff a (2 * i + 1)) 0)), E0, E1 in * by lia.
  destruct j as [|[|[|j]]]; [rewrite Nat.add_0_r, T0 | rewrite T1 | rewrite T2 | lia]; dlia.
Qed.

(** Serialization of polynomials.  Writing a polynomial whose coefficients lie
    between -q and q-1 and reading it back gives the representatives between 0 and
    q-1; and every buffer of 384 bytes is written back unchanged after being read,
    also when it holds coefficients of q or more, which reading does not reduce. *)
Theorem poly_bytes_roundtrip (a : poly) (b : bytes) :
  length a = 256%nat -> Forall (fun c => - KYBER_Q <= c < KYBER_Q) a ->
  length b = 384%nat -> bytes_ok b ->
  poly_frombytes (poly_tobytes a) = map (fun c => c mod KYBER_Q) a /\
  poly_tobytes (poly_frombytes b) = b.
Proof. intros. split; [apply frombytes_tobytes | apply tobytes_frombytes]; done. Qed.

(** ** Compression *)

(** The integers from [lo] on, for exhaustive checks. *)
Definition zrange (lo : Z) (n : nat) : list Z := map (fun i => lo + Z.of_nat i) (seq 0 n).
Lemma in_zrange lo n x : lo <= x < lo + Z.of_nat n -> In x (zrange lo n).
Proof.
  intros Hx. apply in_map_iff. exists (Z.to_nat (x - lo)). split; [lia|]. apply in_seq. lia.
Qed.
(** A decidable statement on a range, by evaluation. *)
Lemma range_check (P : Z -> bool) lo n x :
  forallb P (zrange lo n) = true -> lo <= x < lo + Z.of_nat n -> P x = true.
Proof. intros H Hx. rewrite forallb_forall in H. apply H, in_zrange, Hx. Qed.

(** The centred representative modulo q. *)
Definition cmod (x : Z) : Z := (x + 1664) mod KYBER_Q - 1664.

(** Compression as the comment in the code has it: a rounded quotient. *)
Definition round_compress (d c : Z) : Z := ((2 ^ d * (c mod KYBER_Q) + KYBER_Q / 2) / KYBER_Q) mod 2 ^ d.

Lemma cmod_small z d : z mod KYBER_Q = d mod KYBER_Q -> - 1664 <= d <= 1664 -> cmod z = d.
Proof. unfold cmod, KYBER_Q. intros H Hd. dlia. Qed.

(** Products modulo 2^w of reduced operands. *)
Lemma wrap_affine w x a b m : 0 < w ->
  ((x * a) mod w + b) mod w * m mod w = ((x * a + b) * m) mod w.
Proof. intros Hw. rewrite Z.add_mod_idemp_l by lia. apply Z.mul_mod_idemp_l. lia. Qed.

(** The quotient by q of the rounded scaled coefficient, as a multiplication by the
    reciprocal: the error of the reciprocal is below the distance to the next integer. *)
Lemma recip4 u : 0 <= u < 3329 -> (u * 16 + 1665) * 80635 / 268435456 = (16 * u + 1664) / 3329.
Proof.
  intros Hu. pose proof (Z.div_mod (16 * u + 1664) 3329 ltac:(lia)) as E.
  pose proof (Z.mod_pos_bound (16 * u + 1664) 3329 ltac:(lia)) as R.
  set (k := (16 * u + 1664) / 3329) in *. set (r := (16 * u + 1664) mod 3329) in *.
  symmetry. apply (Z.div_unique _ _ _ (80635 * (r + 1) - 1541 * k)); lia.
Qed.
Lemma recip10 u : 0 <= u < 3329 -> (u * 1024 + 1665) * 1290167 / 4294967296 = (1024 * u + 1664) / 3329.
Proof.
  intros Hu. pose proof (Z.div_mod (1024 * u + 1664) 3329 ltac:(lia)) as E.
  pose proof (Z.mod_pos_bound (1024 * u + 1664) 3329 ltac:(lia)) as R.
  set (k := (1024 * u + 1664) / 3329) in *. set (r := (1024 * u + 1664) mod 3329) in *.
  symmetry. apply (Z.div_unique _ _ _ (1290167 * (r + 1) - 1353 * k)); lia.
Qed.

Lemma to_positive_spec c : - KYBER_Q <= c < KYBER_Q -> to_positive c = c mod KYBER_Q.
Proof.
  unfold KYBER_Q. intros Hc. unfold to_positive, KYBER_Q. rewrite shiftr_div by lia. change (2 ^ 15) with 32768.
  destruct (Z.ltb_spec c 0).
  - replace (c / 32768) with (-1) by dlia. change (Z.land (-1) 3329) with 3329. unfold i16. dlia.
  - replace (c / 32768) with 0 by dlia. rewrite Z.land_0_l. unfold i16. dlia.
Qed.
Lemma to_positive16_mod c : - KYBER_Q <= c < KYBER_Q -> to_positive16 c = c mod KYBER_Q.
Proof.
  intros Hc. rewrite to_positive16_spec by (unfold KYBER_Q in *; lia). unfold KYBER_Q in *.
  destruct (Z.ltb_spec c 0); dlia.
Qed.

Lemma compress4_round c : - KYBER_Q <= c < KYBER_Q -> compress4 c = round_compress 4 c.
Proof.
  intros Hc. unfold compress4, round_compress. cbv zeta. rewrite to_positive_spec by done.
  rewrite land_15, shiftr_div, Z.shiftl_mul_pow2 by lia. change (2 ^ 28) with 268435456. change (2 ^ 4) with 16.
  assert (Hu : 0 <= c mod KYBER_Q < 3329) by (apply Z.mod_pos_bound; done).
  generalize dependent (c mod KYBER_Q). intros u Hu. unfold u32. rewrite wrap_affine by lia.
  change (KYBER_Q / 2) with 1664. change KYBER_Q with 3329. rewrite <- (recip4 u Hu).
  change 4294967296 with (268435456 * 16). rewrite Z.rem_mul_r by lia.
  set (x := (u * 16 + 1665) * 80635). dlia.
Qed.
Lemma compress10_round c : - KYBER_Q <= c < KYBER_Q -> compress10 c = round_compress 10 c.
Proof.
  intros Hc. unfold compress10, round_compress. cbv zeta. rewrite to_positive16_mod by done.
  rewrite land_3FF, shiftr_div, Z.shiftl_mul_pow2 by lia. change (2 ^ 32) with 4294967296. change (2 ^ 10) with 1024.
  assert (Hu : 0 <= c mod KYBER_Q < 3329) by (apply Z.mod_pos_bound; done).
  generalize dependent (c mod KYBER_Q). intros u Hu. unfold u64. rewrite wrap_affine by lia.
  change (KYBER_Q / 2) with 1664. change KYBER_Q with 3329. rewrite <- (recip10 u Hu).
  rewrite (Z.mod_small ((u * 1024 + 1665) * 1290167)) by lia. done.
Qed.

Lemma compress4_spec c : - KYBER_Q <= c < KYBER_Q ->
  compress4 c = round_compress 4 c /\ 0 <= compress4 c < 16 /\
  0 <= decompress4 (compress4 c) <= KYBER_Q /\ - 104 <= cmod (decompress4 (compress4 c) - c) <= 104.
Proof.
  intros Hc. rewrite compress4_round by done. split; [done|]. unfold round_compress. change (2 ^ 4) with 16.
  change (KYBER_Q / 2) with 1664. change KYBER_Q with 3329 in *.
  assert (Hu : 0 <= c mod 3329 < 3329) by (apply Z.mod_pos_bound; done).
  assert (Ec : exists z, c = c mod 3329 + 3329 * z) by (exists (c / 3329); dlia).
  generalize dependent (c mod 3329). intros u Hu [z Ec].
  assert (Hk : 0 <= (16 * u + 1664) / 3329 <= 16) by dlia.
  assert (Hd : forall k, 0 <= k < 16 -> decompress4 k = (3329 * k + 8) / 16).
  { intros k Hk'. unfold decompress4, u16. rewrite shiftr_div by lia. change (2 ^ 4) with 16. change KYBER_Q with 3329.
    rewrite i16_id by (unfold int16; dlia). dlia. }
  assert (Hm : 0 <= (16 * u + 1664) / 3329 mod 16 < 16) by (apply Z.mod_pos_bound; lia).
  split; [done|]. rewrite Hd by done. split; [dlia|].
  destruct (Z.eq_dec ((16 * u + 1664) / 3329) 16) as [E|E].
  - rewrite E. change ((3329 * (16 mod 16) + 8) / 16) with 0.
    rewrite (cmod_small _ (3329 - u)); unfold KYBER_Q; dlia.
  - rewrite (Z.mod_small _ 16) by lia. set (k := (16 * u + 1664) / 3329) in *.
    assert (Hkr : 3329 * k <= 16 * u + 1664 < 3329 * k + 3329) by (unfold k; dlia).
    rewrite (cmod_small _ ((3329 * k + 8) / 16 - u)); unfold KYBER_Q; dlia.
Qed.

Lemma compress10_spec c : - KYBER_Q <= c < KYBER_Q ->
  compress10 c = round_compress 10 c /\ 0 <= compress10 c < 1024 /\
  0 <= decompress10 (compress10 c) <= KYBER_Q /\ - 2 <= cmod (decompress10 (compress10 c) - c) <= 2.
Proof.
  intros Hc. rewrite compress10_round by done. split; [done|]. unfold round_compress. change (2 ^ 10) with 1024.
  change (KYBER_Q / 2) with 1664. change KYBER_Q with 3329 in *.
  assert (Hu : 0 <= c mod 3329 < 3329) by (apply Z.mod_pos_bound; done).
  assert (Ec : exists z, c = c mod 3329 + 3329 * z) by (exists (c / 3329); dlia).
  generalize dependent (c mod 3329). intros u Hu [z Ec].
  assert (Hk : 0 <= (1024 * u + 1664) / 3329 <= 1024) by dlia.
  assert (Hd : forall k, 0 <= k < 1024 -> decompress10 k = (3329 * k + 512) / 1024).
  { intros k Hk'. unfold decompress10, u32. rewrite land_3FF, shiftr_div by lia. change (2 ^ 10) with 1024.
    change KYBER_Q with 3329. rewrite (Z.mod_small k 1024), (Z.mod_small k), (Z.mod_small (k * 3329)),
      (Z.mod_small (k * 3329 + 512)) by lia. rewrite i16_id by (unfold int16; dlia). f_equal. lia. }
  assert (Hm : 0 <= (1024 * u + 1664) / 3329 mod 1024 < 1024) by (apply Z.mod_pos_bound; lia).
  split; [done|]. rewrite Hd by done. split; [dlia|].
  destruct (Z.eq_dec ((1024 * u + 1664) / 3329) 1024) as [E|E].
  - rewrite E. change ((3329 * (1024 mod 1024) + 512) / 1024) with 0.
    rewrite (cmod_small _ (3329 - u)); unfold KYBER_Q; dlia.
  - rewrite (Z.mod_small _ 1024) by lia. set (k := (1024 * u + 1664) / 3329) in *.
    assert (Hkr : 3329 * k <= 1024 * u + 1664 < 3329 * k + 3329) by (unfold k; dlia).
    rewrite (cmod_small _ ((3329 * k + 512) / 1024 - u)); unfold KYBER_Q; dlia.
Qed.

Lemma length_compress a : length (poly_compress a) = 128%nat.
Proof. unfold poly_compress. rewrite (length_flat_map_seq _ 4) by done. done. Qed.
Lemma length_decompress b : length (poly_decompress b) = 256%nat.
Proof. unfold poly_decompress. rewrite (length_flat_map_seq _ 2) by done. done. Qed.
Lemma length_compress10 a : length (poly_compress10 a) = 320%nat.
Proof. unfold poly_compress10. rewrite (length_flat_map_seq _ 5) by done. done. Qed.
Lemma length_decompress10 b : length (poly_decompress10 b) = 256%nat.
Proof. unfold poly_decompress10. rewrite (length_flat_map_seq _ 4) by done. done. Qed.

Definition in_q (a : poly) : Prop := Forall (fun c => - KYBER_Q <= c < KYBER_Q) a.
Lemma in_q_coeff a j : in_q a -> - KYBER_Q <= coeff a j < KYBER_Q.
Proof.
  intros Ha. unfold coeff. destruct (decide (j < length a)%nat).
  - apply (Forall_nth (fun c => - KYBER_Q <= c < KYBER_Q)); done.
  - rewrite nth_overflow by lia. done.
Qed.

(** Byte [k] of the compressed polynomial holds coefficients [2k] and [2k+1]. *)
Lemma compress_at a k : (k < 128)%nat -> in_q a ->
  at_ (poly_compress a) k = compress4 (coeff a (2 * k)) + 16 * compress4 (coeff a (2 * k + 1)).
Proof.
  intros Hk Ha. assert (Hc : forall j, 0 <= compress4 (coeff a j) < 16)
    by (intros j; apply compress4_spec, in_q_coeff; done).
  rewrite (Nat.div_mod_eq k 4). pose proof (Nat.mod_upper_bound k 4). unfold poly_compress. change (KYBER_N / 8)%nat with 32%nat.
  rewrite (at_flat_map_seq _ 4) by (first [done | apply (Nat.mod_upper_bound k 4); lia | apply Nat.Div0.div_lt_upper_bound; lia]).
  assert (Hp : forall i j, u8 (Z.lor (compress4 (coeff a i)) (Z.shiftl (compress4 (coeff a j)) 4)) =
                 compress4 (coeff a i) + 16 * compress4 (coeff a j)).
  { intros i j. pose proof (Hc i). pose proof (Hc j). rewrite (lor_mul _ _ 4) by (try change (2 ^ 4) with 16; lia).
    unfold u8. rewrite Z.mod_small; change (2 ^ 4) with 16; lia. }
  destruct (k mod 4)%nat as [|[|[|[|?]]]]; [..|lia]; cbn [at_ nth]; rewrite Hp;
    (f_equal; [|f_equal]; do 2 f_equal; lia).
Qed.

(** Compressing and decompressing acts on each coefficient. *)
Lemma decompress_compress a : length a = 256%nat -> in_q a ->
  poly_decompress (poly_compress a) = map (fun c => decompress4 (compress4 c)) a.
Proof.
  intros Hl Ha. assert (Hc : forall j, 0 <= compress4 (coeff a j) < 16)
    by (intros j; apply compress4_spec, in_q_coeff; done).
  apply (eq_blocks _ _ 2 128); [lia | apply length_decompress | by rewrite length_map |]. intros k j Hk Hj.
  assert (Hm : at_ (map (fun c => decompress4 (compress4 c)) a) (2 * k + j) =
               decompress4 (compress4 (coeff a (2 * k + j)))).
  { unfold at_. rewrite (nth_indep _ 0 (decompress4 (compress4 0))) by (rewrite length_map; lia).
    apply (map_nth (fun c => decompress4 (compress4 c))). }
  rewrite Hm. unfold poly_decompress. rewrite (at_flat_map_seq _ 2) by (done || lia).
  change (byte (poly_compress a)) with (at_ (poly_compress a)). rewrite compress_at by done.
  rewrite land_15, shiftr_div by lia. change (2 ^ 4) with 16.
  pose proof (Hc (2 * k)%nat). pose proof (Hc (2 * k + 1)%nat).
  destruct j as [|[|j]]; [| | lia]; cbn [at_ nth]; f_equal; [rewrite Nat.add_0_r|]; dlia.
Qed.

(** Four coefficients of ten bits in five bytes. *)
Lemma unpack10_pack10 t0 t1 t2 t3 : 0 <= t0 < 1024 -> 0 <= t1 < 1024 -> 0 <= t2 < 1024 -> 0 <= t3 < 1024 ->
  match pack10 t0 t1 t2 t3 with
  | [a0; a1; a2; a3; a4] => map (fun t => t mod 1024) (unpack10 a0 a1 a2 a3 a4) = [t0; t1; t2; t3]
  | _ => False
  end.
Proof.
  intros H0 H1 H2 H3. unfold pack10, unpack10, u8, u16. cbn [map]. rewrite !shiftr_div by lia.
  change (2 ^ 8) with 256. change (2 ^ 6) with 64. change (2 ^ 4) with 16. change (2 ^ 2) with 4.
  rewrite (lor_mul (t0 / 256) t1 2), (lor_mul (t1 / 64) t2 4), (lor_mul (t2 / 16) t3 6)
    by (try change (2 ^ 2) with 4; try change (2 ^ 4) with 16; try change (2 ^ 6) with 64; dlia).
  change (2 ^ 6) with 64. change (2 ^ 4) with 16. change (2 ^ 2) with 4.
  rewrite !lor_mul by (try change (2 ^ 2) with 4; try change (2 ^ 4) with 16; try change (2 ^ 6) with 64;
    try change (2 ^ 8) with 256; dlia).
  change (2 ^ 8) with 256. change (2 ^ 6) with 64. change (2 ^ 4) with 16. change (2 ^ 2) with 4.
  repeat f_equal; dlia.
Qed.

Lemma decompress10_mod t : decompress10 t = decompress10 (t mod 1024).
Proof. unfold decompress10. rewrite !land_3FF, Z.mod_mod by lia. done. Qed.

Lemma at_map (f : Z -> Z) l k : (k < length l)%nat -> at_ (map f l) k = f (at_ l k).
Proof. intros Hk. unfold at_. rewrite (nth_indep _ 0 (f 0)) by (rewrite length_map; lia). apply map_nth. Qed.

Lemma decompress_compress10 a : length a = 256%nat -> in_q a ->
  poly_decompress10 (poly_compress10 a) = map (fun c => decompress10 (compress10 c)) a.
Proof.
  intros Hl Ha. assert (Hc : forall j, 0 <= compress10 (coeff a j) < 1024)
    by (intros j; apply compress10_spec, in_q_coeff; done).
  apply (eq_blocks _ _ 4 64); [lia | apply length_decompress10 | by rewrite length_map |]. intros i j Hi Hj.
  rewrite at_map by lia. unfold poly_decompress10. rewrite (at_flat_map_seq _ 4) by (done || lia).
  change (byte (poly_compress10 a)) with (at_ (poly_compress10 a)). unfold poly_compress10.
  rewrite <- (Nat.add_0_r (5 * i)) at 1. rewrite !(at_flat_map_seq _ 5) by (done || lia).
  pose proof (unpack10_pack10 _ _ _ _ (Hc (4 * i + 0)%nat) (Hc (4 * i + 1)%nat) (Hc (4 * i + 2)%nat)
                (Hc (4 * i + 3)%nat)) as Hp. cbv beta zeta. unfold pack10 in *. cbn [at_ nth].
  change (at_ a) with (coeff a).
  transitivity (at_ (map decompress10 (map (fun c => compress10 (coeff a (4 * i + c))) [0; 1; 2; 3]%nat)) j).
  - f_equal. etransitivity; [|exact (f_equal (map decompress10) Hp)]. rewrite map_map. apply map_ext, decompress10_mod.
  - destruct j as [|[|[|[|j]]]]; [done..|lia].
Qed.

(** The bytes of vector element [i] start at [i * m]. *)
Lemma drop_flat_map_seq (F : nat -> list Z) m n i : (forall j, length (F j) = m) -> (i < n)%nat ->
  drop (i * m) (flat_map F (seq 0 n)) = F i ++ flat_map F (seq (S i) (n - S i)).
Proof.
  intros HF Hi. enough (H : forall s, drop (i * m) (flat_map F (seq s n)) =
    F (s + i)%nat ++ flat_map F (seq (S (s + i)) (n - S i))) by apply (H 0%nat).
  revert i Hi. induction n as [|n IH]; intros [|i] Hi s; [lia | lia | |]; cbn [seq flat_map].
  - rewrite Nat.add_0_r, Nat.sub_succ, Nat.sub_0_r. done.
  - rewrite drop_app_ge by (rewrite HF; lia). rewrite HF.
    replace (S i * m - m)%nat with (i * m)%nat by lia. rewrite IH by lia.
    replace (S s + i)%nat with (s + S i)%nat by lia. done.
Qed.

Lemma byte_app_l a b k : (k < length a)%nat -> byte (a ++ b) k = byte a k.
Proof. intros. unfold byte. apply app_nth1. done. Qed.

Lemma frombytes_app a b : (384 <= length a)%nat -> poly_frombytes (a ++ b) = poly_frombytes a.
Proof.
  intros Ha. unfold poly_frombytes. rewrite !flat_map_concat_map. f_equal. apply map_ext_in. intros i Hi.
  apply in_seq in Hi. change (KYBER_N / 2)%nat with 128%nat in Hi. rewrite !byte_app_l by lia. done.
Qed.
Lemma decompress10_app a b : (320 <= length a)%nat -> poly_decompress10 (a ++ b) = poly_decompress10 a.
Proof.
  intros Ha. unfold poly_decompress10. rewrite !flat_map_concat_map. f_equal. apply map_ext_in. intros i Hi.
  apply in_seq in Hi. change (KYBER_N / 4)%nat with 64%nat in Hi. rewrite !byte_app_l by lia. done.
Qed.
Lemma decompress_app a b : (128 <= length a)%nat -> poly_decompress (a ++ b) = poly_decompress a.
Proof.
  intros Ha. unfold poly_decompress. rewrite !flat_map_concat_map. f_equal. apply map_ext_in. intros i Hi.
  apply in_seq in Hi. change (KYBER_N / 2)%nat with 128%nat in Hi. rewrite !byte_app_l by lia. done.
Qed.

Lemma vec_split {A} (f : poly -> A) (a : polyvec) : length a = 3%nat ->
  map (fun i => f (vec a i)) (seq 0 3) = map f a.
Proof. destruct a as [|a0 [|a1 [|a2 [|? ?]]]]; intros H; try discriminate H. done. Qed.

Lemma vec_Forall (P : poly -> Prop) (a : polyvec) i : Forall P a -> (i < length a)%nat -> P (vec a i).
Proof. intros Ha Hi. rewrite List.Forall_nth in Ha. apply Ha. done. Qed.

Lemma vec_map (f : poly -> poly) (a : polyvec) i : (i < length a)%nat -> vec (map f a) i = f (vec a i).
Proof. revert i. induction a as [|x a IH]; intros [|i] Hi; cbn in Hi; [lia.. | done | apply IH; lia]. Qed.

Lemma polyvec_frombytes_tobytes (a : polyvec) : length a = 3%nat -> Forall (fun p : poly => length p = 256%nat /\ in_q p) a ->
  polyvec_frombytes (polyvec_tobytes a) = map (map (fun c => c mod KYBER_Q)) a.
Proof.
  intros Hl Ha. unfold polyvec_frombytes, polyvec_tobytes. rewrite <- vec_split by done. apply map_ext_in.
  intros i Hi. apply in_seq in Hi. change KYBER_K with 3%nat in *. change KYBER_POLYBYTES with 384%nat.
  rewrite (drop_flat_map_seq (fun i => poly_tobytes (vec a i)) 384) by (first [intros; apply length_tobytes | lia]).
  rewrite frombytes_app by (rewrite length_tobytes; lia).
  destruct (vec_Forall _ a i Ha ltac:(lia)). apply frombytes_tobytes; done.
Qed.
Lemma polyvec_decompress_compress (a : polyvec) : length a = 3%nat -> Forall (fun p : poly => length p = 256%nat /\ in_q p) a ->
  polyvec_decompress (polyvec_compress a) = map (map (fun c => decompress10 (compress10 c))) a.
Proof.
  intros Hl Ha. unfold polyvec_decompress, polyvec_compress. rewrite <- vec_split by done. apply map_ext_in.
  intros i Hi. apply in_seq in Hi. change KYBER_K with 3%nat in *.
  rewrite (drop_flat_map_seq (fun i => poly_compress10 (vec a i)) 320) by (first [intros; apply length_compress10 | lia]).
  rewrite decompress10_app by (rewrite length_compress10; lia).
  destruct (vec_Forall _ a i Ha ltac:(lia)). apply decompress_compress10; done.
Qed.

(** Whatever follows the serialized vector does not matter. *)
Lemma polyvec_frombytes_app a b : length a = 1152%nat -> polyvec_frombytes (a ++ b) = polyvec_frombytes a.
Proof.
  intros Ha. unfold polyvec_frombytes. apply map_ext_in. intros i Hi%in_seq. change KYBER_K with 3%nat in Hi.
  change KYBER_POLYBYTES with 384%nat. rewrite drop_app_le by lia. apply frombytes_app. rewrite length_drop. lia.
Qed.
Lemma polyvec_decompress_app a b : length a = 960%nat -> polyvec_decompress (a ++ b) = polyvec_decompress a.
Proof.
  intros Ha. unfold polyvec_decompress. apply map_ext_in. intros i Hi%in_seq. change KYBER_K with 3%nat in Hi.
  rewrite drop_app_le by lia. apply decompress10_app. rewrite length_drop. lia.
Qed.
Lemma length_polyvec_tobytes a : length (polyvec_tobytes a) = 1152%nat.
Proof. unfold polyvec_tobytes. rewrite (length_flat_map_seq _ 384); [done | intros; apply length_tobytes]. Qed.
Lemma length_polyvec_compress a : length (polyvec_compress a) = 960%nat.
Proof. unfold polyvec_compress. rewrite (length_flat_map_seq _ 320); [done | intros; apply length_compress10]. Qed.

(** C38: compression.  Packing a vector (10 bits per coefficient) or a polynomial
    (4 bits) and unpacking it gives in every coefficient the decompression of the
    rounded quotient that the comment in the code states, which the code computes by
    a multiplication and a shift; and the result is within 2, or within 104, of the
    coefficient modulo q. *)
Theorem compression_correct (a : polyvec) (v : poly) (i j : nat) :
  length a = 3%nat -> Forall (fun p : poly => length p = 256%nat /\ in_q p) a ->
  length v = 256%nat -> in_q v -> (i < 3)%nat -> (j < 256)%nat ->
  let x := coeff (vec a i) j in
  let x' := coeff (vec (polyvec_decompress (polyvec_compress a)) i) j in
  let y := coeff v j in
  let y' := coeff (poly_decompress (poly_compress v)) j in
  length (polyvec_compress a) = KYBER_POLYVECCOMPRESSEDBYTES /\
  x' = decompress10 (round_compress 10 x) /\ - 2 <= cmod (x' - x) <= 2 /\
  length (poly_compress v) = KYBER_POLYCOMPRESSEDBYTES /\
  y' = decompress4 (round_compress 4 y) /\ - 104 <= cmod (y' - y) <= 104.
Proof.
  intros Hl Ha Hv Hvq Hi Hj x x' y y'.
  destruct (vec_Forall _ a i Ha ltac:(lia)) as [Hli Hqi].
  assert (Ex : x' = decompress10 (compress10 x)).
  { unfold x'. rewrite polyvec_decompress_compress, vec_map by (first [done | lia]).
    apply (at_map (fun c => decompress10 (compress10 c))). rewrite Hli. done. }
  assert (Ey : y' = decompress4 (compress4 y)).
  { unfold y'. rewrite decompress_compress by done. apply (at_map (fun c => decompress4 (compress4 c))). lia. }
  destruct (compress10_spec x (in_q_coeff _ _ Hqi)) as (Cx & _ & _ & Bx).
  destruct (compress4_spec y (in_q_coeff _ _ Hvq)) as (Cy & _ & _ & By').
  rewrite Ex, Ey, <- Cx, <- Cy, length_compress. unfold polyvec_compress.
  rewrite (length_flat_map_seq _ 320) by (intros; apply length_compress10). done.
Qed.

(** ** Messages *)

Lemma tomsg_bit_spec c : - 1664 <= c <= 1664 -> tomsg_bit c = if Z.abs c <=? 832 then 0 else 1.
Proof.
  intros Hc. unfold tomsg_bit, u32. cbv zeta. rewrite land_1, shiftr_div, Z.shiftl_mul_pow2 by lia.
  change (2 ^ 28) with 268435456. change (2 ^ 1) with 2. rewrite wrap_affine by lia.
  assert (Ew : ((c mod 4294967296 * 2 + 1665) * 80635) mod 4294967296 = ((c * 2 + 1665) * 80635) mod 4294967296).
  { rewrite (Z.mod_eq c) by lia. generalize (c / 4294967296). intros q.
    replace (((c - 4294967296 * q) * 2 + 1665) * 80635) with ((c * 2 + 1665) * 80635 + (- q * 161270) * 4294967296) by ring.
    apply Z_mod_plus_full. }
  rewrite Ew. clear Ew.
  change 4294967296 with (268435456 * 16). rewrite Z.rem_mul_r by lia.
  assert (E : (c * 2 + 1665) * 80635 / 268435456 = if c <? -832 then -1 else if c <=? 832 then 0 else 1).
  { destruct (Z.ltb_spec c (-832)); [|destruct (Z.leb_spec c 832)]; dlia. }
  set (x := (c * 2 + 1665) * 80635) in *. clearbody x.
  replace ((x mod 268435456 + 268435456 * ((x / 268435456) mod 16)) / 268435456) with ((x / 268435456) mod 16) by dlia.
  rewrite E. destruct (Z.ltb_spec c (-832)), (Z.leb_spec c 832), (Z.leb_spec (Z.abs c) 832); done || lia.
Qed.

(** The bits of a byte, put together in the order of the loop. *)
Lemma byte_of_bits x : is_byte x ->
  fold_left (fun m j => u8 (Z.lor m (Z.shiftl (Z.land (Z.shiftr x (Z.of_nat j)) 1) (Z.of_nat j)))) (seq 0 8) 0 = x.
Proof.
  intros Hx. apply Z.eqb_eq. apply (range_check (fun x => fold_left (fun m j => u8 (Z.lor m
    (Z.shiftl (Z.land (Z.shiftr x (Z.of_nat j)) 1) (Z.of_nat j)))) (seq 0 8) 0 =? x) 0 256);
    [vm_compute; reflexivity | unfold is_byte in Hx; lia].
Qed.

Lemma frommsg_at m i j : (i < 32)%nat -> (j < 8)%nat ->
  coeff (poly_frommsg m) (8 * i + j) =
    cmov_int16 0 1665 (Z.land (Z.shiftr (byte m i) (Z.of_nat j)) 1).
Proof.
  intros Hi Hj. change (coeff (poly_frommsg m)) with (at_ (poly_frommsg m)). unfold poly_frommsg.
  rewrite (at_flat_map_seq _ 8) by (first [intros; by rewrite length_map, length_seq | done]).
  unfold at_. rewrite (nth_indep _ 0 (cmov_int16 0 ((KYBER_Q + 1) / 2)
    (Z.land (Z.shiftr (byte m i) (Z.of_nat 0)) 1))) by (rewrite length_map, length_seq; lia).
  rewrite (map_nth (fun j => cmov_int16 0 ((KYBER_Q + 1) / 2) (Z.land (Z.shiftr (byte m i) (Z.of_nat j)) 1))).
  rewrite seq_nth by lia. done.
Qed.

(** A coefficient holding a message bit and noise rounds to the bit. *)
Lemma tomsg_bit_noise b e c : b = 0 \/ b = 1 -> - 831 <= e <= 831 -> - 1664 <= c <= 1664 ->
  c ≡q cmov_int16 0 1665 b + e -> tomsg_bit c = b.
Proof.
  intros Hb He Hc H. apply eqq_iff in H as [k H]. rewrite tomsg_bit_spec by done. unfold KYBER_Q in H.
  destruct Hb as [-> | ->]; [change (cmov_int16 0 1665 0) with 0 in H | change (cmov_int16 0 1665 1) with 1665 in H];
    destruct (Z.leb_spec (Z.abs c) 832); try done; lia.
Qed.

Lemma length_frommsg m : length (poly_frommsg m) = 256%nat.
Proof. unfold poly_frommsg. rewrite (length_flat_map_seq _ 8); [done | intros; by rewrite length_map, length_seq]. Qed.

(** Reading a message off a polynomial that is the message's polynomial plus noise of
    absolute value at most 831 modulo q gives the message. *)
Lemma tomsg_noise m e a : length m = 32%nat -> bytes_ok m -> length a = 256%nat -> length e = 256%nat ->
  bounded 1664 a -> bounded 831 e -> eqv a (vadd (poly_frommsg m) e) -> poly_tomsg a = m.
Proof.
  intros Hl Hm Hla Hle Ha He Heq.
  apply eq_at; [unfold poly_tomsg; rewrite length_map, length_seq; done|].
  unfold poly_tomsg at 1. rewrite length_map, length_seq. change (KYBER_N / 8)%nat with 32%nat. intros i Hi.
  unfold poly_tomsg. rewrite at_map_seq by done.
  rewrite <- (byte_of_bits (at_ m i)) by (apply nth_byte; done).
  enough (H : forall s n x, (s + n <= 8)%nat ->
    fold_left (fun m j => u8 (Z.lor m (Z.shiftl (tomsg_bit (coeff a (8 * i + j))) (Z.of_nat j)))) (seq s n) x =
    fold_left (fun m' j => u8 (Z.lor m' (Z.shiftl (Z.land (Z.shiftr (at_ m i) (Z.of_nat j)) 1) (Z.of_nat j))))
      (seq s n) x) by (apply H; lia).
  intros s n. revert s. induction n as [|n IH]; intros s x Hn; [done|]. cbn [seq fold_left].
  rewrite IH by lia. do 3 f_equal. f_equal. change (at_ m i) with (byte m i).
  apply (tomsg_bit_noise _ (coeff e (8 * i + s))).
  - rewrite land_1. dlia.
  - apply (bounded_coeff 831); [lia | done].
  - apply (bounded_coeff 1664); [lia | done].
  - rewrite <- frommsg_at by lia. change coeff with at_. rewrite (at_eqv _ _ _ Heq), at_vadd; [reflexivity|].
    rewrite length_frommsg. done.
Qed.

(** Message encoding.  A message survives its encoding as a polynomial when noise
    of absolute value at most 831 modulo q is added to every coefficient and the sum is
    reduced before it is read. *)
Theorem message_noise_tolerance (m : bytes) (e a : poly) :
  length m = KYBER_INDCPA_MSGBYTES -> bytes_ok m -> length e = 256%nat -> bounded 831 e ->
  bounded 32767 a -> eqv a (vadd (poly_frommsg m) e) ->
  poly_tomsg (poly_reduce a) = m.
Proof.
  intros Hl Hm Hle He Ha Heq.
  assert (Hla : length a = 256%nat)
    by (rewrite (eqv_length _ _ Heq), length_vadd, length_frommsg, Hle; done).
  destruct (poly_reduce_spec a 32767 ltac:(lia) Ha) as [Hr Hb].
  apply (tomsg_noise m e); try done; [unfold poly_reduce; by rewrite length_map | etransitivity; done].
Qed.

(** ** Centred binomial sampling *)

(** Bit [k] of a buffer, as FIPS 203's BytesToBits numbers them. *)
Definition buf_bit (b : bytes) (k : nat) : Z := Z.b2z (Z.testbit (byte b (k / 8)) (Z.of_nat (k mod 8))).

(** The sums of adjacent bits of all nibbles at once, with the mask's top [k] nibbles. *)
Fixpoint mask5 (k : nat) : Z := match k with O => 0 | S k => 16 * mask5 k + 5 end.
Definition pair_sums (M t : Z) : Z := Z.land t M + Z.land (Z.shiftr t 1) M.
Definition nib (n : Z) : Z := Z.land n 5 + Z.land (n / 2) 5.

Lemma mask5_pos k : 0 <= mask5 k.
Proof. induction k; cbn [mask5]; lia. Qed.

Lemma land_nibble q n M : 0 <= n < 16 -> Z.land (16 * q + n) (16 * M + 5) = 16 * Z.land q M + Z.land n 5.
Proof.
  intros Hn. assert (E : forall a b, 0 <= b < 16 -> 16 * a + b = Z.lor b (Z.shiftl a 4))
    by (intros; rewrite lor_mul by (try change (2 ^ 4) with 16; lia); lia).
  assert (B : 0 <= Z.land n 5 < 16).
  { apply (range_check (fun n => (0 <=? Z.land n 5) && (Z.land n 5 <? 16)) 0 16 n) in Hn; [|reflexivity].
    rewrite andb_true_iff in Hn. lia. }
  rewrite (E q), (E M), (E (Z.land q M)) by lia. apply Z.bits_inj'. intros i Hi.
  rewrite Z.land_spec, !Z.lor_spec, Z.land_spec, !Z.shiftl_spec, Z.land_spec by lia.
  destruct (Z.ltb_spec i 4).
  - rewrite !(Z.testbit_neg_r _ (i - 4)), !orb_false_r by lia. done.
  - rewrite !(testbit_above n 4 i), (testbit_above 5 4 i) by (try change (2 ^ 4) with 16; lia). done.
Qed.

Lemma pair_sums_nibble k q n : 0 <= q -> 0 <= n < 16 ->
  pair_sums (mask5 (S k)) (16 * q + n) = 16 * pair_sums (mask5 k) q + nib n.
Proof.
  intros Hq Hn. unfold pair_sums, nib. cbn [mask5]. rewrite !shiftr_div by lia. change (2 ^ 1) with 2.
  rewrite land_nibble by lia.
  replace ((16 * q + n) / 2) with (16 * (q / 2) + (8 * (q mod 2) + n / 2)) by dlia.
  rewrite land_nibble by dlia.
  assert (E : Z.land (8 * (q mod 2) + n / 2) 5 = Z.land (n / 2) 5); [|lia].
  assert (Hm : q mod 2 = 0 \/ q mod 2 = 1) by dlia. destruct Hm as [-> | ->]; [f_equal; lia|].
  apply Z.eqb_eq, (range_check (fun n => Z.land (8 * 1 + n / 2) 5 =? Z.land (n / 2) 5) 0 16 n);
    [reflexivity | lia].
Qed.

Lemma nib_bound n : 0 <= n < 16 -> 0 <= nib n < 16.
Proof.
  intros Hn. apply (range_check (fun n => (0 <=? nib n) && (nib n <? 16)) 0 16 n) in Hn; [|reflexivity].
  rewrite andb_true_iff in Hn. lia.
Qed.

Lemma pair_sums_at k : forall t j, 0 <= t -> (j < k)%nat ->
  pair_sums (mask5 k) t / 16 ^ Z.of_nat j mod 16 = nib (t / 16 ^ Z.of_nat j mod 16).
Proof.
  induction k as [|k IH]; intros t j Ht Hj; [lia|].
  pose proof (nib_bound (t mod 16) ltac:(dlia)) as Hb.
  rewrite (Z.div_mod t 16) at 1 by lia. rewrite pair_sums_nibble by dlia.
  destruct j as [|j].
  - change (16 ^ Z.of_nat 0) with 1. rewrite !Z.div_1_r. dlia.
  - replace (16 ^ Z.of_nat (S j)) with (16 * 16 ^ Z.of_nat j) by (rewrite Nat2Z.inj_succ, Z.pow_succ_r; lia).
    rewrite <- !Z.div_div by lia. rewrite <- (IH (t / 16) j) by (dlia || lia).
    do 2 f_equal. dlia.
Qed.

Lemma pair_sums_bound k : forall t, 0 <= t -> 0 <= pair_sums (mask5 k) t < 16 ^ Z.of_nat k.
Proof.
  induction k as [|k IH]; intros t Ht.
  - unfold pair_sums. cbn [mask5]. rewrite !Z.land_0_r. lia.
  - rewrite (Z.div_mod t 16) by lia. rewrite pair_sums_nibble by dlia. specialize (IH (t / 16) ltac:(dlia)).
    pose proof (nib_bound (t mod 16) ltac:(dlia)). rewrite Nat2Z.inj_succ, Z.pow_succ_r by lia. lia.
Qed.

(** What two adjacent fields of a nibble's sums hold. *)
Lemma nib_bits n : 0 <= n < 16 ->
  nib n mod 4 - nib n / 4 mod 4 = Z.b2z (Z.testbit n 0) + Z.b2z (Z.testbit n 1) - Z.b2z (Z.testbit n 2) - Z.b2z (Z.testbit n 3).
Proof.
  intros Hn. apply Z.eqb_eq, (range_check (fun n => nib n mod 4 - nib n / 4 mod 4 =?
    Z.b2z (Z.testbit n 0) + Z.b2z (Z.testbit n 1) - Z.b2z (Z.testbit n 2) - Z.b2z (Z.testbit n 3)) 0 16 n);
    [reflexivity | lia].
Qed.

Lemma land_3 x : Z.land x 0x3 = x mod 4.
Proof. exact (land_mod x 2 ltac:(lia)). Qed.

Lemma cbd2_word_at t j : 0 <= t < 4294967296 -> (j < 8)%nat ->
  at_ (cbd2_word t) j = let n := t / 16 ^ Z.of_nat j mod 16 in
    Z.b2z (Z.testbit n 0) + Z.b2z (Z.testbit n 1) - Z.b2z (Z.testbit n 2) - Z.b2z (Z.testbit n 3).
Proof.
  intros Ht Hj. unfold cbd2_word. rewrite at_map_seq by done.
  change 0x55555555 with (mask5 8). fold (pair_sums (mask5 8) t).
  pose proof (pair_sums_bound 8 t ltac:(lia)) as Hp. change (16 ^ Z.of_nat 8) with 4294967296 in Hp.
  unfold u32. rewrite Z.mod_small by lia. rewrite !land_3, !shiftr_div by lia. cbv zeta.
  rewrite <- nib_bits by dlia. rewrite <- (pair_sums_at 8) by lia.
  replace (2 ^ (4 * Z.of_nat j)) with (16 ^ Z.of_nat j) by (rewrite Z.pow_mul_r by lia; done).
  rewrite Z.pow_add_r by lia. replace (2 ^ (4 * Z.of_nat j)) with (16 ^ Z.of_nat j) by (rewrite Z.pow_mul_r by lia; done).
  rewrite <- Z.div_div by lia. change (2 ^ 2) with 4. generalize (pair_sums (mask5 8) t / 16 ^ Z.of_nat j). intros x.
  rewrite i16_id by (unfold int16; dlia). dlia.
Qed.

Lemma load32_spec x : (forall i, is_byte (byte x i)) ->
  load32_littleendian x = byte x 0 + 256 * (byte x 1 + 256 * (byte x 2 + 256 * byte x 3)).
Proof.
  intros Hx. unfold load32_littleendian. pose proof (Hx 0%nat). pose proof (Hx 1%nat). pose proof (Hx 2%nat).
  unfold is_byte in *. rewrite (lor_mul (byte x 0) _ 8) by (try change (2 ^ 8) with 256; lia).
  change (2 ^ 8) with 256. rewrite (lor_mul _ (byte x 2) 16) by (try change (2 ^ 16) with 65536; lia).
  change (2 ^ 16) with 65536. rewrite (lor_mul _ _ 24) by (try change (2 ^ 24) with 16777216; lia).
  change (2 ^ 24) with 16777216. lia.
Qed.

Lemma load32_nibble x j : (forall i, is_byte (byte x i)) -> (j < 8)%nat ->
  load32_littleendian x / 16 ^ Z.of_nat j mod 16 = byte x (j / 2) / 16 ^ Z.of_nat (j mod 2) mod 16.
Proof.
  intros Hx Hj. rewrite load32_spec by done. pose proof (Hx 0%nat). pose proof (Hx 1%nat).
  pose proof (Hx 2%nat). pose proof (Hx 3%nat). unfold is_byte in *.
  do 8 (destruct j as [|j]; [match goal with |- context [16 ^ ?p] => let v := eval vm_compute in (16 ^ p) in
    change (16 ^ p) with v end; match goal with |- _ = byte x ?a / ?b mod 16 =>
    let a' := eval vm_compute in a in let b' := eval vm_compute in b in
    change (byte x a / b) with (byte x a' / b') end; dlia|]). lia.
Qed.

Lemma testbit_nibble x p b : 0 <= p -> 0 <= b < 4 ->
  Z.testbit (x / 16 ^ p mod 16) b = Z.testbit x (4 * p + b).
Proof.
  intros Hp Hb. change 16 with (2 ^ 4) at 2. rewrite Z.mod_pow2_bits_low by lia.
  replace (16 ^ p) with (2 ^ (4 * p)) by (rewrite Z.pow_mul_r by lia; done).
  rewrite Z.div_pow2_bits by lia. f_equal. lia.
Qed.

Lemma byte_drop b k j : byte (drop k b) j = byte b (k + j).
Proof. apply at_drop. Qed.

Lemma cbd2_at buf i : bytes_ok buf -> (i < 256)%nat ->
  coeff (cbd2 buf) i = buf_bit buf (4 * i) + buf_bit buf (4 * i + 1) - buf_bit buf (4 * i + 2) - buf_bit buf (4 * i + 3).
Proof.
  intros Hb Hi. change (coeff (cbd2 buf) i) with (at_ (cbd2 buf) i).
  pose proof (Nat.mod_upper_bound i 8 ltac:(lia)) as Hj.
  rewrite (Nat.div_mod_eq i 8). set (w := (i / 8)%nat) in *. set (j := (i mod 8)%nat) in *.
  assert (Hw : (w < 32)%nat) by (apply Nat.Div0.div_lt_upper_bound; lia).
  unfold cbd2. rewrite (at_flat_map_seq _ 8) by (first [intros; unfold cbd2_word; by rewrite length_map, length_seq | done]).
  assert (Hx : forall k, is_byte (byte (drop (4 * w) buf) k)) by (intros k; rewrite byte_drop; apply nth_byte; done).
  rewrite cbd2_word_at; [|rewrite load32_spec by done; unfold is_byte in Hx; pose proof (Hx 0%nat);
    pose proof (Hx 1%nat); pose proof (Hx 2%nat); pose proof (Hx 3%nat); lia | done].
  cbv zeta. rewrite load32_nibble, byte_drop by done. rewrite !testbit_nibble by lia. unfold buf_bit.
  assert (E : forall c, (c < 4)%nat -> ((4 * (8 * w + j) + c) / 8 = 4 * w + j / 2)%nat /\
    ((4 * (8 * w + j) + c) mod 8 = 4 * (j mod 2) + c)%nat).
  { intros c Hc. pose proof (Nat.div_mod_eq j 2). pose proof (Nat.mod_upper_bound j 2 ltac:(lia)).
    split; [symmetry; apply (Nat.div_unique _ 8 _ (4 * (j mod 2) + c)) |
      symmetry; apply (Nat.mod_unique _ 8 (4 * w + j / 2))]; lia. }
  replace (4 * (8 * w + j))%nat with (4 * (8 * w + j) + 0)%nat at 1 2 by lia.
  destruct (E 0%nat ltac:(lia)) as [-> ->]. destruct (E 1%nat ltac:(lia)) as [-> ->].
  destruct (E 2%nat ltac:(lia)) as [-> ->]. destruct (E 3%nat ltac:(lia)) as [-> ->].
  rewrite !Nat2Z.inj_add, !Nat2Z.inj_mul. done.
Qed.

Lemma length_cbd2 buf : length (cbd2 buf) = 256%nat.
Proof.
  unfold cbd2. rewrite (length_flat_map_seq _ 8); [done|]. intros. unfold cbd2_word.
  by rewrite length_map, length_seq.
Qed.

Lemma buf_bit_01 b k : 0 <= buf_bit b k <= 1.
Proof. unfold buf_bit. destruct (Z.testbit _ _); cbn; lia. Qed.

Lemma cbd2_bounded buf : bytes_ok buf -> bounded 2 (cbd2 buf).
Proof.
  intros Hb. apply List.Forall_nth. intros i d Hi. rewrite (nth_indep _ d 0) by done.
  change (nth i (cbd2 buf) 0) with (coeff (cbd2 buf) i). rewrite length_cbd2 in Hi. rewrite cbd2_at by done.
  pose proof (buf_bit_01 buf (4 * i)). pose proof (buf_bit_01 buf (4 * i + 1)).
  pose proof (buf_bit_01 buf (4 * i + 2)). pose proof (buf_bit_01 buf (4 * i + 3)). lia.
Qed.

Lemma cbd2_ok buf : bytes_ok buf -> poly_ok 2 (cbd2 buf).
Proof. intros. split; [apply length_cbd2 | apply cbd2_bounded; done]. Qed.

(** C40: noise sampling is the SamplePolyCBD of FIPS 203 with parameter 2: coefficient
    [i] is the sum of bits [4i] and [4i+1] of the buffer minus the sum of bits [4i+2]
    and [4i+3].  The code computes the eight coefficients of a 32-bit word at once. *)
Theorem cbd_sample_poly (buf : bytes) :
  bytes_ok buf ->
  poly_cbd_eta1 buf = map (fun i => buf_bit buf (4 * i) + buf_bit buf (4 * i + 1)
                                     - buf_bit buf (4 * i + 2) - buf_bit buf (4 * i + 3)) (seq 0 KYBER_N) /\
  poly_cbd_eta2 buf = poly_cbd_eta1 buf /\ bounded (Z.of_nat KYBER_ETA1) (poly_cbd_eta1 buf).
Proof.
  intros Hb. split; [|split; [done | apply cbd2_bounded; done]].
  apply eq_at; [unfold poly_cbd_eta1; rewrite length_cbd2, length_map, length_seq; done|].
  intros i Hi. unfold poly_cbd_eta1 in *. rewrite length_cbd2 in Hi. rewrite at_map_seq by done.
  apply cbd2_at; done.
Qed.

(** ** Comparison and conditional moves *)

Lemma u8_lor x y : is_byte x -> is_byte y -> u8 (Z.lor x y) = Z.lor x y /\ is_byte (Z.lor x y).
Proof.
  unfold is_byte. intros Hx Hy. assert (H : 0 <= Z.lor x y < 256); [|split; [apply Z.mod_small|]; done].
  split; [apply Z.lor_nonneg; lia|]. change 256 with (2 ^ 8).
  destruct (decide (Z.lor x y = 0)) as [->|Hz]; [done|].
  apply Z.log2_lt_pow2; [pose proof (proj2 (Z.lor_nonneg x y)); lia|]. rewrite Z.log2_lor by lia.
  pose proof (Z.log2_le_mono x 255). pose proof (Z.log2_le_mono y 255).
  change (Z.log2 255) with 7 in *. lia.
Qed.

Lemma lxor_byte x y : is_byte x -> is_byte y -> is_byte (Z.lxor x y).
Proof.
  unfold is_byte. intros Hx Hy. split; [apply Z.lxor_nonneg; lia|].
  destruct (decide (Z.lxor x y = 0)) as [->|Hz]; [done|]. change 256 with (2 ^ 8).
  assert (0 <= Z.lxor x y) by (apply Z.lxor_nonneg; lia).
  apply Z.log2_lt_pow2; [lia|]. pose proof (Z.log2_lxor x y ltac:(lia) ltac:(lia)).
  pose proof (Z.log2_le_mono x 255 ltac:(lia)). pose proof (Z.log2_le_mono y 255 ltac:(lia)).
  change (Z.log2 255) with 7 in *. lia.
Qed.

Lemma verify_loop a b n : bytes_ok a -> bytes_ok b -> forall s r, is_byte r ->
  let r' := fold_left (fun r i => u8 (Z.lor r (Z.lxor (byte a i) (byte b i)))) (seq s n) r in
  is_byte r' /\ (r' = 0 <-> r = 0 /\ forall i, (s <= i < s + n)%nat -> byte a i = byte b i).
Proof.
  intros Ha Hb. induction n as [|n IH]; intros s r Hr; cbn [seq fold_left].
  - split; [done|]. split; [intros ->; split; [done | intros; lia] | intros [? _]; done].
  - destruct (u8_lor r (Z.lxor (byte a s) (byte b s)) Hr (lxor_byte _ _ (nth_byte a s Ha) (nth_byte b s Hb)))
      as [-> Hb']. destruct (IH (S s) _ Hb') as [H1 H2]. split; [done|]. rewrite H2, Z.lor_eq_0_iff, Z.lxor_eq_0_iff.
    split.
    + intros [[-> E] H]. split; [done|]. intros i Hi. destruct (decide (i = s)) as [->|]; [done | apply H; lia].
    + intros [-> H]. split; [split; [done | apply H; lia] | intros i Hi; apply H; lia].
Qed.

Lemma verify_spec a b len : bytes_ok a -> bytes_ok b -> length a = len -> length b = len ->
  verify a b len = if decide (a = b) then 0 else 1.
Proof.
  intros Ha Hb Hla Hlb. unfold verify. destruct (verify_loop a b len Ha Hb 0%nat 0) as [Hr H]; [done|].
  fold (verify_acc a b len) in *. unfold is_byte in Hr. rewrite shiftr_div by lia. unfold u64.
  change (2 ^ 63) with 9223372036854775808.
  destruct (decide (a = b)) as [->|Hne].
  - rewrite (proj2 H) by done. done.
  - assert (verify_acc a b len <> 0) by (intros E; apply Hne, eq_at; [lia|]; intros i Hi; apply H; lia). dlia.
Qed.

Lemma cmov_byte r x b : is_byte r -> is_byte x -> b = 0 \/ b = 1 ->
  u8 (Z.lxor r (Z.land (u8 (- b)) (Z.lxor r x))) = if decide (b = 0) then r else x.
Proof.
  intros Hr Hx [-> | ->]; cbn [decide].
  - change (u8 (Z.opp 0)) with 0. rewrite Z.land_0_l, Z.lxor_0_r. apply Z.mod_small. done.
  - change (u8 (Z.opp 1)) with (Z.ones 8). rewrite Z.land_comm, land_mod by lia. change (2 ^ 8) with 256.
    rewrite (Z.mod_small (Z.lxor r x)) by (apply lxor_byte; done).
    rewrite <- Z.lxor_assoc, Z.lxor_nilpotent, Z.lxor_0_l. apply Z.mod_small. done.
Qed.

Lemma byte_insert r i v k : (i < length r)%nat -> byte (<[i := v]> r) k = if decide (k = i) then v else byte r k.
Proof.
  intros Hi. unfold byte. rewrite !nth_lookup.
  destruct (decide (k = i)) as [->|Hk]; [rewrite list_lookup_insert_eq by done | rewrite list_lookup_insert_ne by done]; done.
Qed.

Lemma cmov_loop x b n : bytes_ok x -> b = 0 \/ b = 1 -> forall s r, bytes_ok r -> (s + n <= length r)%nat ->
  let r' := fold_left (fun r i => <[i := u8 (Z.lxor (byte r i) (Z.land (u8 (- b)) (Z.lxor (byte r i) (byte x i))))]> r) (seq s n) r in
  length r' = length r /\
  forall k, byte r' k = if (b =? 1) && (s <=? k)%nat && (k <? s + n)%nat then byte x k else byte r k.
Proof.
  intros Hx Hb. induction n as [|n IH]; intros s r Hr Hl; cbn [seq fold_left].
  - split; [done|]. intros k. destruct (Nat.leb_spec s k), (Nat.ltb_spec k (s + 0)); rewrite ?andb_false_r; done || lia.
  - rewrite cmov_byte by (first [done | apply nth_byte; done]).
    set (v := if decide (b = 0) then byte r s else byte x s).
    destruct (IH (S s) (<[s := v]> r)) as [H1 H2].
    + apply Forall_insert; [done|]. unfold v. destruct (decide _); apply nth_byte; done.
    + rewrite length_insert. lia.
    + rewrite length_insert in H1. split; [done|]. intros k. rewrite H2, byte_insert by lia. unfold v.
      destruct Hb as [-> | ->]; cbn [Z.eqb andb decide].
      * destruct (decide (k = s)) as [->|]; done.
      * destruct (Nat.leb_spec (S s) k), (Nat.leb_spec s k), (Nat.ltb_spec k (S s + n)), (Nat.ltb_spec k (s + S n)),
          (decide (k = s)) as [->|]; done || lia.
Qed.

Lemma cmov_spec r x len b : bytes_ok r -> bytes_ok x -> length r = len -> length x = len -> b = 0 \/ b = 1 ->
  cmov r x len b = if decide (b = 0) then r else x.
Proof.
  intros Hr Hx Hlr Hlx Hb. destruct (cmov_loop x b len Hx Hb 0%nat r Hr ltac:(lia)) as [Hl H].
  unfold cmov. destruct (decide (b = 0)) as [E|E]; apply eq_at; try lia; intros k Hk; rewrite H.
  - subst b. done.
  - destruct Hb as [|Eb]; [done|]. rewrite Eb, (proj2 (Nat.ltb_lt k (0 + len))) by lia. done.
Qed.

(** Only the first [len] bytes of the second buffer are read. *)
Lemma cmov_prefix r x y len b : (len <= length x)%nat -> cmov r (x ++ y) len b = cmov r x len b.
Proof.
  intros Hx. unfold cmov. enough (H : forall s n r, (s + n <= length x)%nat ->
    fold_left (fun r i => <[i := u8 (Z.lxor (byte r i) (Z.land (u8 (- b)) (Z.lxor (byte r i) (byte (x ++ y) i))))]> r) (seq s n) r =
    fold_left (fun r i => <[i := u8 (Z.lxor (byte r i) (Z.land (u8 (- b)) (Z.lxor (byte r i) (byte x i))))]> r) (seq s n) r)
    by (apply H; lia).
  intros s n. revert s. induction n as [|n IH]; intros s r' Hn; [done|]. cbn [seq fold_left].
  rewrite byte_app_l by lia. apply IH. lia.
Qed.

Lemma cmov_int16_spec r v b : int16 r -> int16 v -> b = 0 \/ b = 1 -> cmov_int16 r v b = if decide (b = 0) then r else v.
Proof.
  intros Hr Hv [-> | ->]; unfold cmov_int16.
  - change (u16 (Z.opp 0)) with 0. rewrite Z.land_0_l, Z.lxor_0_r. apply i16_id. done.
  - change (u16 (Z.opp 1)) with (Z.ones 16). cbn [decide].
    assert (E : forall x y, x mod 65536 = y mod 65536 -> i16 x = i16 y) by (intros x y H; unfold i16; dlia).
    rewrite (E _ v); [apply i16_id; done|]. change 65536 with (2 ^ 16). rewrite <- !Z.land_ones by lia.
    apply Z.bits_inj'. intros i Hi. rewrite !Z.land_spec, Z.lxor_spec, Z.land_spec, Z.lxor_spec.
    destruct (Z.testbit r i), (Z.testbit v i), (Z.testbit (Z.ones 16) i); done.
Qed.

(** Comparison and conditional moves without branches.  [verify] is 0 on equal
    buffers and 1 on any others; [cmov] and [cmov_int16] keep the first value when the
    flag is 0 and give the second one when it is 1. *)
Theorem constant_time_select (a b : bytes) (x y f : Z) :
  bytes_ok a -> bytes_ok b -> length a = length b -> int16 x -> int16 y -> f = 0 \/ f = 1 ->
  verify a b (length a) = (if decide (a = b) then 0 else 1) /\
  cmov a b (length a) f = (if decide (f = 0) then a else b) /\
  cmov_int16 x y f = (if decide (f = 0) then x else y).
Proof.
  intros Ha Hb Hl Hx Hy Hf.
  split; [apply verify_spec | split; [apply cmov_spec | apply cmov_int16_spec]]; done.
Qed.

(** ** Witnesses *)

Definition sample_bytes (n : nat) : bytes := map (fun i => Z.of_nat (i * 37) mod 256) (seq 0 n).
Lemma sample_bytes_ok n : bytes_ok (sample_bytes n).
Proof. apply List.Forall_map, List.Forall_forall. intros i _. unfold is_byte. dlia. Qed.

Lemma sample_poly_in_q : length sample_poly = 256%nat /\ in_q sample_poly.
Proof.
  split; [reflexivity|]. apply List.Forall_map, List.Forall_forall. intros i Hi. apply in_seq in Hi.
  unfold KYBER_Q. cbn. lia.
Qed.

Lemma poly_bytes_roundtrip_witness :
  poly_frombytes (poly_tobytes sample_poly) = map (fun c => c mod KYBER_Q) sample_poly /\
  poly_tobytes (poly_frombytes (sample_bytes 384)) = sample_bytes 384.
Proof.
  exact (poly_bytes_roundtrip sample_poly (sample_bytes 384) (proj1 sample_poly_in_q) (proj2 sample_poly_in_q)
           eq_refl (sample_bytes_ok 384)).
Defined.

Lemma compression_correct_witness :
  let a := [sample_poly; sample_poly; sample_poly] in
  length (polyvec_compress a) = 960%nat /\
  - 2 <= cmod (coeff (vec (polyvec_decompress (polyvec_compress a)) 1) 5 - (-123)) <= 2.
Proof.
  pose proof sample_poly_in_q as H.
  assert (Ha : Forall (fun p : poly => length p = 256%nat /\ in_q p) [sample_poly; sample_poly; sample_poly])
    by (do 3 (constructor; [exact H|]); constructor).
  destruct (compression_correct [sample_poly; sample_poly; sample_poly] sample_poly 1 5 eq_refl Ha (proj1 H)
              (proj2 H) ltac:(lia) ltac:(lia)) as (H1 & _ & H2 & _).
  split; [exact H1 | exact H2].
Defined.

Lemma message_noise_tolerance_witness :
  poly_tomsg (poly_reduce (vadd (poly_frommsg (sample_bytes 32)) sample_poly)) = sample_bytes 32.
Proof.
  apply (message_noise_tolerance (sample_bytes 32) sample_poly).
  - reflexivity.
  - apply sample_bytes_ok.
  - reflexivity.
  - apply List.Forall_map, List.Forall_forall. intros i Hi. apply in_seq in Hi. cbn. lia.
  - apply List.Forall_forall. intros x Hx.
    assert (E : forallb (fun x => (-32767 <=? x) && (x <=? 32767)) (vadd (poly_frommsg (sample_bytes 32)) sample_poly) = true)
      by (vm_compute; reflexivity).
    rewrite forallb_forall in E. specialize (E x Hx). rewrite andb_true_iff in E. lia.
  - reflexivity.
Defined.

Lemma cbd_sample_poly_witness : bounded 2 (poly_cbd_eta1 (sample_bytes 128)).
Proof. exact (proj2 (proj2 (cbd_sample_poly (sample_bytes 128) (sample_bytes_ok 128)))). Defined.

Lemma constant_time_select_witness :
  verify [1; 2] [1; 3] 2 = 1 /\ cmov [1; 2] [1; 3] 2 1 = [1; 3] /\ cmov_int16 0 1665 1 = 1665.
Proof.
  apply (constant_time_select [1; 2] [1; 3] 0 1665 1);
    [repeat constructor; done .. | reflexivity | split; done | split; done | right; reflexivity].
Defined.
