(* ===== verification/Kem.v ===== *)
(** * ML-KEM-768: the encryption scheme and the key encapsulation mechanism

    PQClean/crypto_kem/ml-kem-768/clean: symmetric.h and symmetric-shake.c (the hash,
    the pseudo-random function and the extendable-output function, as a class that the
    Keccak functions implement), the noise sampling of poly.c, indcpa.c and kem.c.

    The loop of [gen_matrix] that squeezes one more block until 256 candidates have
    been accepted has no bound in the code: it runs with fuel here, and [None] is "still
    running".  [randombytes] is a parameter: it fills a buffer and returns a code that
    kem.c does not look at. *)
From stdpp Require Import base numbers list option.
From Stdlib Require Import ZArith Lia.
From S2P Require Import Prelude Keccak KemNtt KemPoly.

(** ** symmetric.h *)

Class Symmetric := {
  xof_state : Type;
  xof_absorb : bytes -> Z -> Z -> xof_state;               (* seed, x, y *)
  xof_squeezeblocks : nat -> xof_state -> bytes * xof_state;
  prf : nat -> bytes -> Z -> bytes;                        (* outlen, key, nonce *)
  hash_h : bytes -> bytes;
  hash_g : bytes -> bytes;
  rkprf : bytes -> bytes -> bytes                          (* key, ciphertext *)
}.

Definition XOF_BLOCKBYTES : nat := SHAKE128_RATE.

(** *** symmetric-shake.c *)

Definition kyber_shake128_absorb (seed : bytes) (x y : Z) : list Z :=
  let extseed := take KYBER_SYMBYTES seed ++ [x; y] in
  shake128_absorb extseed.

Definition kyber_shake256_prf (outlen : nat) (key : bytes) (nonce : Z) : bytes :=
  let extkey := take KYBER_SYMBYTES key ++ [nonce] in
  shake256 outlen extkey.

Definition kyber_shake256_rkprf (key input : bytes) : bytes :=
  let s := shake256_inc_init in
  let s := shake256_inc_absorb s (take KYBER_SYMBYTES key) in
  let s := shake256_inc_absorb s (take KYBER_CIPHERTEXTBYTES input) in
  let s := shake256_inc_finalize s in
  fst (shake256_inc_squeeze KYBER_SSBYTES s).

(** The macros of symmetric.h. *)
Definition symmetric_shake : Symmetric := {|
  xof_state := list Z;
  xof_absorb := kyber_shake128_absorb;
  xof_squeezeblocks := shake128_squeezeblocks;
  prf := kyber_shake256_prf;
  hash_h := sha3_256;
  hash_g := sha3_512;
  rkprf := kyber_shake256_rkprf
|}.

(** ** indcpa.c: packing *)

Definition pack_pk (pk : polyvec) (seed : bytes) : bytes :=
  polyvec_tobytes pk ++ take KYBER_SYMBYTES seed.
Definition unpack_pk (packedpk : bytes) : polyvec * bytes :=
  (polyvec_frombytes packedpk, take KYBER_SYMBYTES (drop KYBER_POLYVECBYTES packedpk)).
Definition pack_sk (sk : polyvec) : bytes := polyvec_tobytes sk.
Definition unpack_sk (packedsk : bytes) : polyvec := polyvec_frombytes packedsk.
Definition pack_ciphertext (b : polyvec) (v : poly) : bytes := polyvec_compress b ++ poly_compress v.
Definition unpack_ciphertext (c : bytes) : polyvec * poly :=
  (polyvec_decompress c, poly_decompress (drop KYBER_POLYVECCOMPRESSEDBYTES c)).

(** ** Rejection sampling *)

(** [len] integers are still wanted; [buf] is what is left of the buffer. *)
Fixpoint rej_uniform (len : nat) (buf : bytes) : list Z :=
  match buf with
  | b0 :: b1 :: b2 :: buf' =>
      if (0 <? len)%nat then
        let '(val0, val1) := unpack12 b0 b1 b2 in
        let r0 := if val0 <? KYBER_Q then [val0] else [] in
        let len := (len - length r0)%nat in
        let r1 := if (0 <? len)%nat && (val1 <? KYBER_Q) then [val1] else [] in
        r0 ++ r1 ++ rej_uniform (len - length r1) buf'
      else []
  | _ => []
  end.

Definition GEN_MATRIX_NBLOCKS : nat :=
  Z.to_nat ((12 * Z.of_nat KYBER_N / 8 * Z.shiftl 1 12 / KYBER_Q + Z.of_nat XOF_BLOCKBYTES) /
            Z.of_nat XOF_BLOCKBYTES).

Section symmetric.
Context {S : Symmetric} (fuel : nat).

(** The [while (ctr < KYBER_N)] loop. *)
Fixpoint gen_refill (fuel : nat) (coeffs : list Z) (state : xof_state) : option poly :=
  if (length coeffs <? KYBER_N)%nat then
    match fuel with
    | O => None
    | Datatypes.S fuel =>
        let '(buf, state) := xof_squeezeblocks 1 state in
        gen_refill fuel (coeffs ++ rej_uniform (KYBER_N - length coeffs) buf) state
    end
  else Some coeffs.

(** The body of the two loops: one entry of the matrix. *)
Definition gen_entry (seed : bytes) (x y : Z) : option poly :=
  let state := xof_absorb seed x y in
  let '(buf, state) := xof_squeezeblocks GEN_MATRIX_NBLOCKS state in
  gen_refill fuel (rej_uniform KYBER_N buf) state.

Definition gen_matrix (seed : bytes) (transposed : bool) : option (list polyvec) :=
  mapM (fun i => mapM (fun j =>
    if transposed then gen_entry seed (u8 (Z.of_nat i)) (u8 (Z.of_nat j))
    else gen_entry seed (u8 (Z.of_nat j)) (u8 (Z.of_nat i))) (seq 0 KYBER_K)) (seq 0 KYBER_K).
Definition gen_a (seed : bytes) : option (list polyvec) := gen_matrix seed false.
Definition gen_at (seed : bytes) : option (list polyvec) := gen_matrix seed true.

(** ** poly.c: noise *)

Definition poly_getnoise_eta1 (seed : bytes) (nonce : Z) : poly :=
  poly_cbd_eta1 (prf (KYBER_ETA1 * KYBER_N / 4) seed nonce).
Definition poly_getnoise_eta2 (seed : bytes) (nonce : Z) : poly :=
  poly_cbd_eta2 (prf (KYBER_ETA2 * KYBER_N / 4) seed nonce).

(** The loops [for (i...) getnoise(&x.vec\[i\], seed, nonce++)]. *)
Definition noise_vec (getnoise : bytes -> Z -> poly) (seed : bytes) (nonce : nat) : polyvec :=
  map (fun i => getnoise seed (u8 (Z.of_nat i))) (seq nonce KYBER_K).

(** ** indcpa.c: the encryption scheme *)

(** The public seed and the noise seed of the coins. *)
Definition keypair_seeds (coins : bytes) : bytes * bytes :=
  let buf := take KYBER_SYMBYTES coins ++ [Z.of_nat KYBER_K] in
  let buf := hash_g buf in
  (take KYBER_SYMBYTES buf, drop KYBER_SYMBYTES buf).

Definition indcpa_keypair_derand (coins : bytes) : option (bytes * bytes) :=
  let '(publicseed, noiseseed) := keypair_seeds coins in
  a ← gen_a publicseed;
  let skpv := noise_vec poly_getnoise_eta1 noiseseed 0 in
  let e := noise_vec poly_getnoise_eta1 noiseseed KYBER_K in
  let skpv := polyvec_ntt skpv in
  let e := polyvec_ntt e in
  let pkpv := map (fun ai => poly_tomont (polyvec_basemul_acc_montgomery ai skpv)) a in
  let pkpv := polyvec_add pkpv e in
  let pkpv := polyvec_reduce pkpv in
  Some (pack_pk pkpv publicseed, pack_sk skpv).

(** [indcpa_enc] up to the compression: the two polynomial parts of the ciphertext. *)
Definition indcpa_enc_polys (m pk coins : bytes) : option (polyvec * poly) :=
  let '(pkpv, seed) := unpack_pk pk in
  let k := poly_frommsg m in
  at_ ← gen_at seed;
  let sp := noise_vec poly_getnoise_eta1 coins 0 in
  let ep := noise_vec poly_getnoise_eta2 coins KYBER_K in
  let epp := poly_getnoise_eta2 coins (u8 (Z.of_nat (2 * KYBER_K))) in
  let sp := polyvec_ntt sp in
  let b := map (fun ai => polyvec_basemul_acc_montgomery ai sp) at_ in
  let v := polyvec_basemul_acc_montgomery pkpv sp in
  let b := polyvec_invntt_tomont b in
  let v := poly_invntt_tomont v in
  let b := polyvec_add b ep in
  let v := poly_add v epp in
  let v := poly_add v k in
  let b := polyvec_reduce b in
  let v := poly_reduce v in
  Some (b, v).
Definition indcpa_enc (m pk coins : bytes) : option bytes :=
  '(b, v) ← indcpa_enc_polys m pk coins;
  Some (pack_ciphertext b v).

Definition indcpa_dec (c sk : bytes) : bytes :=
  let '(b, v) := unpack_ciphertext c in
  let skpv := unpack_sk sk in
  let b := polyvec_ntt b in
  let mp := polyvec_basemul_acc_montgomery skpv b in
  let mp := poly_invntt_tomont mp in
  let mp := poly_sub v mp in
  let mp := poly_reduce mp in
  poly_tomsg mp.

(** ** kem.c *)

Definition crypto_kem_keypair_derand (coins : bytes) : option (bytes * bytes) :=
  '(pk, sk) ← indcpa_keypair_derand coins;
  let sk := sk ++ pk ++ hash_h pk ++ take KYBER_SYMBYTES (drop KYBER_SYMBYTES coins) in
  Some (pk, sk).

Definition crypto_kem_enc_derand (pk coins : bytes) : option (bytes * bytes) :=
  let buf := take KYBER_SYMBYTES coins ++ hash_h pk in
  let kr := hash_g buf in
  ct ← indcpa_enc (take KYBER_SYMBYTES buf) pk (drop KYBER_SYMBYTES kr);
  let ss := take KYBER_SYMBYTES kr in
  Some (ct, ss).

Definition crypto_kem_dec (ct sk : bytes) : option bytes :=
  let pk := take KYBER_PUBLICKEYBYTES (drop KYBER_INDCPA_SECRETKEYBYTES sk) in
  let buf := indcpa_dec ct sk in
  let buf := buf ++ take KYBER_SYMBYTES (drop (KYBER_SECRETKEYBYTES - 2 * KYBER_SYMBYTES) sk) in
  let kr := hash_g buf in
  cmp ← indcpa_enc (take KYBER_SYMBYTES buf) pk (drop KYBER_SYMBYTES kr);
  let fail := verify ct cmp KYBER_CIPHERTEXTBYTES in
  let ss := rkprf (drop (KYBER_SECRETKEYBYTES - KYBER_SYMBYTES) sk) ct in
  Some (cmov ss kr KYBER_SYMBYTES (u8 (1 - fail))).

(** [randombytes] returns a code and leaves [n] bytes in the buffer. *)
Context {rng : Type} (randombytes : nat -> rng -> Z * bytes * rng).

Definition crypto_kem_keypair (r : rng) : option (bytes * bytes) * rng :=
  let '(_, coins, r) := randombytes (2 * KYBER_SYMBYTES)%nat r in
  (crypto_kem_keypair_derand coins, r).
Definition crypto_kem_enc (pk : bytes) (r : rng) : option (bytes * bytes) * rng :=
  let '(_, coins, r) := randombytes KYBER_SYMBYTES r in
  (crypto_kem_enc_derand pk coins, r).
End symmetric.
