(* ===== verification/KemSymmetric.v ===== *)
(** * ML-KEM-768: what the scheme relies on from its hash functions

    The laws of the interface of symmetric.h, as a class; the Keccak functions satisfy
    them (and are the functions FIPS 203 names); a small instance for evaluation; and
    the sampling of the public matrix, against FIPS 203's SampleNTT. *)
From stdpp Require Import base numbers list option.
From Stdlib Require Import ZArith Lia.
From S2P Require Import Prelude Keccak KeccakFacts SpongeFacts KemNtt PolyRing Transform KemNttFacts KemPoly KemPolyFacts BlockCodec KemCodecFacts Kem.
Import Sponge.

(** Buffers of a given length. *)
Definition bytes_n (n : nat) (b : bytes) : Prop := length b = n /\ bytes_ok b.

Class SymmetricLaws (S : Symmetric) := {
  xof_stream : xof_state -> nat -> Z;
  xof_stream_byte st k : is_byte (xof_stream st k);
  xof_squeeze n st : exists st',
    xof_squeezeblocks n st = (map (xof_stream st) (seq 0 (n * XOF_BLOCKBYTES)), st') /\
    forall k, xof_stream st' k = xof_stream st (n * XOF_BLOCKBYTES + k)%nat;
  prf_ok n key nonce : bytes_n n (prf n key nonce);
  hash_h_ok m : bytes_n 32 (hash_h m);
  hash_g_ok m : bytes_n 64 (hash_g m);
  rkprf_ok key ct : bytes_ok key -> bytes_ok ct -> bytes_n 32 (rkprf key ct)
}.

(** ** The Keccak functions *)

#[local] Opaque KeccakF1600_StatePermute keccak_absorb.

Lemma out_bytes r s k n : bytes_n n (out r s k n).
Proof.
  split; [unfold out; rewrite length_map, length_seq; done|]. apply List.Forall_map, List.Forall_forall.
  intros i _. apply u8_byte.
Qed.

Lemma shake256_bytes d m : bytes_n d (shake256 d m).
Proof.
  assert (E : shake256 d m = out 136 (shake256_absorb m) 0 d); [|rewrite E; apply out_bytes].
  rewrite <- (shake_out 136) by (done || lia). reflexivity.
Qed.

Lemma squeeze_one_bytes r n s : (r mod 8 = 0)%nat -> (0 < r <= 192)%nat -> (n <= r)%nat ->
  bytes_n n (take n (fst (keccak_squeezeblocks 1 s r))).
Proof. intros H8 Hr Hn. rewrite (squeeze_one r H8 Hr) by done. apply out_bytes. Qed.

Lemma rkprf_shake256 key ct : bytes_ok key -> bytes_ok ct ->
  kyber_shake256_rkprf key ct = sponge 136 0x1F (take 32 key ++ take KYBER_CIPHERTEXTBYTES ct) 32.
Proof.
  intros Hk Hc. pose proof (inc_stream 136 0x1F [take 32 key; take KYBER_CIPHERTEXTBYTES ct] [32%nat]
    eq_refl ltac:(lia) ltac:(lia) ltac:(repeat constructor; apply Forall_take; done)) as H.
  cbn [fold_left concat squeeze_all sum_list] in H. rewrite (app_nil_r (take KYBER_CIPHERTEXTBYTES ct)) in H.
  change (id 32%nat + 0)%nat with 32%nat in H. rewrite <- H.
  unfold kyber_shake256_rkprf, shake256_inc_squeeze, shake256_inc_finalize, shake256_inc_absorb, shake256_inc_init,
    SHAKE256_RATE, KYBER_SSBYTES, KYBER_SYMBYTES.
  destruct (keccak_inc_squeeze 32 _ 136) as [o c]. cbn [fst concat]. rewrite app_nil_r. done.
Qed.

Lemma sponge_bytes r p m d : (r mod 8 = 0)%nat -> (0 < r <= 192)%nat -> 0 <= p < 128 -> bytes_ok m ->
  bytes_n d (sponge r p m d).
Proof. intros H8 Hr Hp Hm. rewrite (sponge_out r H8 Hr) by done. apply out_bytes. Qed.

#[export] Program Instance symmetric_shake_laws : SymmetricLaws symmetric_shake := {|
  xof_stream := fun st k => xof_byte 168 st k
|}.
Next Obligation. intros st k. apply u8_byte. Qed.
Next Obligation.
  intros n st. cbn [xof_squeezeblocks symmetric_shake]. unfold shake128_squeezeblocks, SHAKE128_RATE, XOF_BLOCKBYTES.
  rewrite (squeezeblocks_spec 168) by (done || lia). eexists. split; [reflexivity|]. intros k.
  pose proof (out_iter 168 eq_refl ltac:(lia) n st k 1) as H. unfold out in H. cbn [seq map] in H.
  injection H as H. exact H.
Qed.
Next Obligation. intros n key nonce. apply shake256_bytes. Qed.
Next Obligation. intros m. apply (squeeze_one_bytes 136 32); [done | lia | lia]. Qed.
Next Obligation. intros m. apply (squeeze_one_bytes 72 64); [done | lia | lia]. Qed.
Next Obligation.
  intros key ct Hk Hc. cbn [rkprf symmetric_shake]. rewrite rkprf_shake256 by done.
  apply sponge_bytes; [done | lia | lia |]. apply Forall_app_2; apply Forall_take; done.
Qed.

(** The functions behind symmetric.h are those of FIPS 203: H is SHA3-256, G is
    SHA3-512, the pseudo-random function is SHAKE256 of the key and the nonce, J is
    SHAKE256 of the rejection key and the ciphertext (computed incrementally), and the
    bytes that successive [xof_squeezeblocks] calls return are those of SHAKE128 of the
    seed and the two indices. *)
Theorem symmetric_fips203 (seed key ct m : bytes) (x y nonce : Z) (n d : nat) :
  bytes_n 32 seed -> bytes_n 32 key -> bytes_n KYBER_CIPHERTEXTBYTES ct -> bytes_ok m ->
  is_byte x -> is_byte y -> is_byte nonce ->
  let S := symmetric_shake in
  hash_h m = sponge 136 0x06 m 32 /\ hash_g m = sponge 72 0x06 m 64 /\
  prf d key nonce = sponge 136 0x1F (key ++ [nonce]) d /\
  rkprf key ct = sponge 136 0x1F (key ++ ct) 32 /\
  fst (xof_squeezeblocks n (xof_absorb seed x y)) = sponge 168 0x1F (seed ++ [x; y]) (n * 168).
Proof.
  intros [Hls Hs] [Hlk Hk] [Hlc Hc] Hm Hx Hy Hn S. cbn [hash_h hash_g prf rkprf xof_squeezeblocks xof_absorb S symmetric_shake].
  split_and!.
  - rewrite <- sponge_hash by (done || lia). reflexivity.
  - rewrite <- sponge_hash by (done || lia). reflexivity.
  - unfold kyber_shake256_prf, KYBER_SYMBYTES. rewrite take_ge by lia. apply shake256_out.
    apply Forall_app_2; [done | repeat constructor; apply Hn].
  - rewrite rkprf_shake256 by done. rewrite !take_ge by lia. done.
  - unfold kyber_shake128_absorb, KYBER_SYMBYTES, shake128_squeezeblocks, shake128_absorb, SHAKE128_RATE.
    rewrite take_ge by lia. rewrite (squeezeblocks_spec 168), (sponge_out 168) by (first [done | lia |
      apply Forall_app_2; [done | repeat constructor; apply Hx || apply Hy]]). done.
Qed.

Lemma symmetric_fips203_witness :
  let S := symmetric_shake in
  rkprf (sample_bytes 32) (sample_bytes 1088) = sponge 136 0x1F (sample_bytes 32 ++ sample_bytes 1088) 32.
Proof.
  assert (Hb : forall n, bytes_n n (sample_bytes n))
    by (intros n; split; [unfold sample_bytes; rewrite length_map, length_seq; done | apply sample_bytes_ok]).
  apply (symmetric_fips203 (sample_bytes 32) (sample_bytes 32) (sample_bytes 1088) [] 0 0 0 0 0);
    try apply Hb; try done; constructor.
Defined.

(** ** A small instance *)

Module ToySym.
Definition h (m : bytes) : Z := fold_left (fun a b => (a * 31 + b + 7) mod 65521) m 1.
(** Bytes whose halves are below 13, so that every 12-bit integer made of three of
    them is below q. *)
Definition stream (x : Z) (k : nat) : Z :=
    let v := ((x + Z.of_nat k) * (x + 3 * Z.of_nat k + 5) / 16) mod 169 in 16 * (v / 13) + v mod 13.
(** Bytes whose centred binomial samples are 2, 0, 0, ... *)
Definition sparse (n : nat) : bytes := take n (3 :: replicate n 0).
Definition digest (n : nat) (m : bytes) : bytes := map (stream (h m)) (seq 0 n).
End ToySym.

Definition toy_symmetric : Symmetric := {|
  xof_state := Z * nat;
  xof_absorb := fun seed x y => (ToySym.h (take 32 seed ++ [x; y]), 0%nat);
  xof_squeezeblocks := fun n st =>
    (map (fun k => ToySym.stream (fst st) (snd st + k)) (seq 0 (n * XOF_BLOCKBYTES)),
     (fst st, snd st + n * XOF_BLOCKBYTES)%nat);
  prf := fun n key nonce => ToySym.sparse n;
  hash_h := ToySym.digest 32;
  hash_g := ToySym.digest 64;
  rkprf := fun key ct => ToySym.digest 32 (key ++ ct)
|}.

Lemma toy_stream_halves x k : 0 <= ToySym.stream x k / 16 < 13 /\ 0 <= ToySym.stream x k mod 16 < 13.
Proof. unfold ToySym.stream. generalize ((x + Z.of_nat k) * (x + 3 * Z.of_nat k + 5) / 16). intros y. cbv zeta. dlia. Qed.
Lemma toy_stream_byte x k : is_byte (ToySym.stream x k).
Proof. pose proof (toy_stream_halves x k). unfold is_byte. dlia. Qed.

Lemma toy_digest_bytes n m : bytes_n n (ToySym.digest n m).
Proof.
  split; [unfold ToySym.digest; rewrite length_map, length_seq; done|].
  apply List.Forall_map, List.Forall_forall. intros i _. apply toy_stream_byte.
Qed.

Lemma toy_sparse_bytes n : bytes_n n (ToySym.sparse n).
Proof.
  unfold ToySym.sparse. split; [rewrite length_take; cbn [length]; rewrite length_replicate; lia|].
  apply Forall_take. constructor; [done|]. induction n; [constructor|]. cbn [replicate]. constructor; done.
Qed.

#[export] Program Instance toy_symmetric_laws : SymmetricLaws toy_symmetric := {|
  xof_stream := fun st k => ToySym.stream (fst st) (snd st + k)
|}.
Next Obligation. intros st k. apply toy_stream_byte. Qed.
Next Obligation.
  intros n st. eexists. split; [reflexivity|]. intros k. cbn [fst snd]. f_equal. lia.
Qed.
Next Obligation. intros. apply toy_sparse_bytes. Qed.
Next Obligation. intros. apply toy_digest_bytes. Qed.
Next Obligation. intros. apply toy_digest_bytes. Qed.
Next Obligation. intros. apply toy_digest_bytes. Qed.

(** ** Rejection sampling *)

(** The 12-bit integers of a buffer, two in every three bytes, and those below q. *)
Fixpoint candidates (b : bytes) : list Z :=
  match b with
  | b0 :: b1 :: b2 :: b' => b0 + 256 * (b1 mod 16) :: b1 / 16 + 16 * b2 :: candidates b'
  | _ => []
  end.
Definition accepted (b : bytes) : list Z := List.filter (fun c => c <? KYBER_Q) (candidates b).

(** Induction three bytes at a time. *)
Lemma triple_ind (P : bytes -> Prop) :
  (forall b, (length b < 3)%nat -> P b) ->
  (forall b0 b1 b2 b, P b -> P (b0 :: b1 :: b2 :: b)) -> forall b, P b.
Proof.
  intros Hs Ht b. enough (H : forall n b, (length b <= n)%nat -> P b) by (apply (H (length b)); lia).
  clear b. intros n. induction n as [|n IH]; intros b Hb; [apply Hs; lia|].
  destruct b as [|b0 [|b1 [|b2 b]]]; [apply Hs; cbn; lia..|]. apply Ht, IH. cbn in Hb. lia.
Qed.

Lemma rej_uniform_spec b : bytes_ok b -> forall len, rej_uniform len b = take len (accepted b).
Proof.
  induction b as [b Hs|b0 b1 b2 b IH] using triple_ind; intros Hb len.
  - destruct b as [|? [|? [|? ?]]]; try (cbn in Hs; lia); unfold accepted; cbn [candidates List.filter];
      rewrite take_nil; done.
  - apply Forall_cons_1 in Hb as [H0 Hb]. apply Forall_cons_1 in Hb as [H1 Hb].
    apply Forall_cons_1 in Hb as [H2 Hb]. cbn [rej_uniform]. rewrite unpack12_spec by done.
    unfold accepted. cbn [candidates List.filter]. fold (accepted b).
    generalize (b0 + 256 * (b1 mod 16)) as v0, (b1 / 16 + 16 * b2) as v1. intros v0 v1.
    destruct len as [|[|len]]; [done|..]; destruct (v0 <? KYBER_Q), (v1 <? KYBER_Q);
      cbn [Nat.ltb Nat.leb Nat.sub length andb app]; rewrite IH by done; cbn [firstn];
      rewrite ?Nat.sub_0_r; done.
Qed.

Lemma candidates_app a b : (length a mod 3 = 0)%nat -> candidates (a ++ b) = candidates a ++ candidates b.
Proof.
  induction a as [a Hs|b0 b1 b2 a IH] using triple_ind; intros Ha.
  - destruct a as [|? [|? [|? ?]]]; try (cbn in Ha; lia); [done|]. cbn in Hs. lia.
  - cbn [app candidates]. rewrite IH; [done|]. cbn [length] in Ha.
    replace (Datatypes.S (Datatypes.S (Datatypes.S (length a)))) with (length a + 1 * 3)%nat in Ha by lia.
    rewrite Nat.Div0.mod_add in Ha. done.
Qed.

Lemma accepted_app a b : (length a mod 3 = 0)%nat -> accepted (a ++ b) = accepted a ++ accepted b.
Proof. intros Ha. unfold accepted. rewrite candidates_app by done. apply List.filter_app. Qed.

Section sampling.
Context {S : Symmetric} {SL : SymmetricLaws S}.

Lemma stream_bytes (st : xof_state) k n : bytes_ok (map (xof_stream st) (seq k n)).
Proof. apply List.Forall_map, List.Forall_forall. intros i _. apply xof_stream_byte. Qed.

(** The integers accepted from the first blocks of a stream: what [gen_matrix] has
    drawn after its first squeeze and [k] more. *)
Definition drawn (st : xof_state) (k : nat) : list Z :=
  accepted (map (xof_stream st) (seq 0 ((GEN_MATRIX_NBLOCKS + k) * XOF_BLOCKBYTES))).

(** SampleNTT of FIPS 203, on the part of the stream that [k] refills give. *)
Definition sample_ntt (k : nat) (st : xof_state) : option poly :=
  if (KYBER_N <=? length (drawn st k))%nat then Some (take KYBER_N (drawn st k)) else None.

Lemma drawn_step st k : exists more,
  drawn st (Datatypes.S k) = drawn st k ++ accepted more /\
  more = map (xof_stream st) (seq ((GEN_MATRIX_NBLOCKS + k) * XOF_BLOCKBYTES) XOF_BLOCKBYTES).
Proof.
  eexists. split; [|reflexivity]. unfold drawn.
  replace ((GEN_MATRIX_NBLOCKS + Datatypes.S k) * XOF_BLOCKBYTES)%nat
    with ((GEN_MATRIX_NBLOCKS + k) * XOF_BLOCKBYTES + XOF_BLOCKBYTES)%nat by lia.
  rewrite seq_app, map_app. apply accepted_app. rewrite length_map, length_seq.
  change XOF_BLOCKBYTES with (56 * 3)%nat. rewrite Nat.mul_assoc. apply Nat.Div0.mod_mul.
Qed.
Lemma drawn_grows st j k : (j <= k)%nat -> exists l, drawn st k = drawn st j ++ l.
Proof.
  induction 1 as [|k Hk [l IH]]; [exists []; by rewrite app_nil_r|].
  destruct (drawn_step st k) as (m & -> & _). exists (l ++ accepted m). rewrite IH, app_assoc. done.
Qed.

Lemma stream_shift st st' o n : (forall i, xof_stream st' i = xof_stream st (o + i)%nat) ->
  map (xof_stream st) (seq o n) = map (xof_stream st') (seq 0 n).
Proof.
  intros H. pose proof (fmap_add_seq o 0 n) as E. rewrite Nat.add_0_r in E. rewrite <- E.
  change (Nat.add o <$> seq 0 n) with (map (Nat.add o) (seq 0 n)). rewrite map_map.
  apply map_ext. intros i. symmetry. apply H.
Qed.

Lemma drawn_0 st : drawn st 0 = accepted (map (xof_stream st) (seq 0 (GEN_MATRIX_NBLOCKS * XOF_BLOCKBYTES))).
Proof. unfold drawn. rewrite Nat.add_0_r. done. Qed.

Lemma accepted_range b : bytes_ok b -> Forall (fun c => 0 <= c < KYBER_Q) (accepted b).
Proof.
  intros Hb. apply List.Forall_forall. intros c Hc. apply List.filter_In in Hc as [Hc Hq].
  split; [|lia]. clear Hq. induction b as [b Hs|b0 b1 b2 b IH] using triple_ind.
  - destruct b as [|? [|? [|? ?]]]; try (cbn in Hs; lia); done.
  - apply Forall_cons_1 in Hb as [H0 Hb]. apply Forall_cons_1 in Hb as [H1 Hb].
    apply Forall_cons_1 in Hb as [H2 Hb]. unfold is_byte in *. cbn [candidates] in Hc.
    destruct Hc as [<- | [<- | Hc]]; [dlia.. | apply IH; done].
Qed.
Lemma drawn_range st k : Forall (fun c => 0 <= c < KYBER_Q) (drawn st k).
Proof. apply accepted_range, stream_bytes. Qed.

#[local] Opaque GEN_MATRIX_NBLOCKS XOF_BLOCKBYTES KYBER_N drawn.

Lemma gen_refill_stop f a st : (KYBER_N <= length a)%nat -> gen_refill f a st = Some a.
Proof. intros H. destruct f; cbn [gen_refill]; rewrite (proj2 (Nat.ltb_ge _ _) H); done. Qed.
Lemma gen_refill_fail a st : (length a < KYBER_N)%nat -> gen_refill 0 a st = None.
Proof. intros H. cbn [gen_refill]. rewrite (proj2 (Nat.ltb_lt _ _) H). done. Qed.
Lemma gen_refill_more f a st buf st' : (length a < KYBER_N)%nat -> xof_squeezeblocks 1 st = (buf, st') ->
  gen_refill (Datatypes.S f) a st = gen_refill f (a ++ rej_uniform (KYBER_N - length a) buf) st'.
Proof. intros H E. cbn [gen_refill]. rewrite (proj2 (Nat.ltb_lt _ _) H), E. done. Qed.

(** The loop, after [k] refills, with [fuel] more allowed. *)
Lemma gen_refill_spec st fuel : forall k st',
  (forall i, xof_stream st' i = xof_stream st ((GEN_MATRIX_NBLOCKS + k) * XOF_BLOCKBYTES + i)%nat) ->
  gen_refill fuel (take KYBER_N (drawn st k)) st' = sample_ntt (k + fuel) st.
Proof.
  induction fuel as [|fuel IH]; intros k st' Hst; unfold sample_ntt;
    destruct (Nat.le_gt_cases KYBER_N (length (drawn st k))) as [Hge|Hlt].
  - rewrite gen_refill_stop by (rewrite length_take; lia). rewrite Nat.add_0_r, (proj2 (Nat.leb_le _ _) Hge). done.
  - rewrite gen_refill_fail by (rewrite length_take; lia). rewrite Nat.add_0_r, (proj2 (Nat.leb_gt _ _) Hlt). done.
  - rewrite gen_refill_stop by (rewrite length_take; lia).
    destruct (drawn_grows st k (k + Datatypes.S fuel)) as [l ->]; [lia|].
    rewrite take_app_le by lia. rewrite (proj2 (Nat.leb_le KYBER_N _)) by (rewrite length_app; lia). done.
  - destruct (xof_squeeze 1 st') as (st'' & E & Hs). rewrite Nat.mul_1_l in E, Hs.
    erewrite gen_refill_more; [|rewrite length_take; lia | exact E]. rewrite length_take.
    rewrite rej_uniform_spec by apply stream_bytes.
    destruct (drawn_step st k) as (m & Hd & Hm).
    rewrite <- (stream_shift st st' _ _ Hst), <- Hm.
    replace (KYBER_N - KYBER_N `min` length (drawn st k))%nat with (KYBER_N - length (drawn st k))%nat by lia.
    rewrite <- take_app, <- Hd. rewrite (IH (Datatypes.S k) st'').
    + rewrite Nat.add_succ_r. done.
    + intros i. rewrite Hs, Hst. f_equal. lia.
Qed.

Context (fuel : nat).

Lemma gen_entry_spec seed x y : gen_entry fuel seed x y = sample_ntt fuel (xof_absorb seed x y).
Proof.
  unfold gen_entry. destruct (xof_squeeze GEN_MATRIX_NBLOCKS (xof_absorb seed x y)) as (st' & -> & Hs).
  rewrite rej_uniform_spec by apply stream_bytes.
  pose proof (gen_refill_spec (xof_absorb seed x y) fuel 0 st') as H. rewrite drawn_0, Nat.add_0_l, Nat.add_0_r in H. apply H. intros i. apply Hs.
Qed.

Lemma mapM_ext_in {A B} (f g : A -> option B) l : (forall x, In x l -> f x = g x) -> mapM f l = mapM g l.
Proof.
  intros H. induction l as [|x l IH]; [done|].
  change (f x ≫= (fun y => mapM f l ≫= fun k => Some (y :: k)) = g x ≫= (fun y => mapM g l ≫= fun k => Some (y :: k))).
  rewrite (H x) by (left; done). rewrite IH by (intros; apply H; right; done). done.
Qed.

(** The matrix of FIPS 203: entry (i, j) is drawn from the stream of the seed and the
    bytes j and i. *)
Definition fips203_matrix (seed : bytes) : option (list polyvec) :=
  mapM (fun i => mapM (fun j => sample_ntt fuel (xof_absorb seed (Z.of_nat j) (Z.of_nat i))) (seq 0 3)) (seq 0 3).

(** Every stream holds enough integers below q in what the loop may read. *)
Definition enough (seed : bytes) : Prop :=
  forall i j, (i < 3)%nat -> (j < 3)%nat ->
    (KYBER_N <= length (drawn (xof_absorb seed (Z.of_nat j) (Z.of_nat i)) fuel))%nat.

Definition entry (a : list polyvec) (i j : nat) : poly := vec (nth i a []) j.

Lemma gen_matrix_entries seed t a : gen_matrix fuel seed t = Some a ->
  length a = 3%nat /\ forall i, (i < 3)%nat -> length (nth i a []) = 3%nat /\
  forall j, (j < 3)%nat ->
    sample_ntt fuel (if t then xof_absorb seed (Z.of_nat i) (Z.of_nat j) else xof_absorb seed (Z.of_nat j) (Z.of_nat i))
      = Some (entry a i j).
Proof.
  intros H. unfold gen_matrix in H. apply mapM_Some_1 in H. pose proof (Forall2_length H) as Hl.
  split; [done|]. intros i Hi. rewrite Forall2_lookup in H. specialize (H i).
  rewrite lookup_seq_lt in H by done. inversion H as [? r Hr Ea Eb|]; subst. clear H.
  apply mapM_Some_1 in Hr. pose proof (Forall2_length Hr) as Hl'. 
  rewrite nth_lookup, <- Eb. cbn [default]. split; [done|]. intros j Hj. rewrite Forall2_lookup in Hr. specialize (Hr j).
  rewrite lookup_seq_lt in Hr by done. inversion Hr as [? p Hp Ec Ed|]; subst.
  unfold entry, vec. rewrite (nth_lookup_Some a i [] r), (nth_lookup_Some r j [] p) by done.
  rewrite <- Hp. destruct t; rewrite gen_entry_spec, !u8_small by (unfold is_byte; lia); done.
Qed.

Lemma sample_ntt_ok k st p : sample_ntt k st = Some p -> length p = 256%nat /\ Forall (fun c => 0 <= c < KYBER_Q) p.
Proof.
  unfold sample_ntt. destruct (Nat.leb_spec KYBER_N (length (drawn st k))); [|done].
  intros [= <-]. split; [rewrite length_take; change 256%nat with KYBER_N; lia|].
  apply Forall_take, drawn_range.
Qed.

Lemma gen_matrix_total seed t :
  (forall i j, (i < 3)%nat -> (j < 3)%nat ->
    is_Some (sample_ntt fuel (xof_absorb seed (Z.of_nat i) (Z.of_nat j)))) ->
  is_Some (gen_matrix fuel seed t).
Proof.
  intros H. unfold gen_matrix. apply mapM_is_Some_2, List.Forall_forall. intros i Hi%in_seq.
  apply mapM_is_Some_2, List.Forall_forall. intros j Hj%in_seq. change KYBER_K with 3%nat in *. cbv beta.
  destruct t; unfold compose; rewrite gen_entry_spec, !u8_small by (unfold is_byte; lia); apply H; lia.
Qed.

Lemma gen_at_transpose seed a a' : gen_matrix fuel seed false = Some a -> gen_matrix fuel seed true = Some a' ->
  forall i j, (i < 3)%nat -> (j < 3)%nat -> entry a' i j = entry a j i.
Proof.
  intros Ha Ha' i j Hi Hj. destruct (gen_matrix_entries seed false a Ha) as [_ He].
  destruct (gen_matrix_entries seed true a' Ha') as [_ He'].
  destruct (He j Hj) as [_ Hs]. specialize (Hs i Hi). destruct (He' i Hi) as [_ Hs']. specialize (Hs' j Hj).
  cbv beta iota in Hs, Hs'. congruence.
Qed.

(** C16: the public matrix.  [gen_a] is the matrix of FIPS 203, whose entry (i, j) is the
    first 256 integers below q among the 12-bit integers of the stream for the seed and
    the bytes j, i; [gen_at] succeeds when [gen_a] does and is its transpose; and the
    loops stop when every stream holds 256 such integers in the blocks they may read. *)
Theorem gen_matrix_sample_ntt (seed : bytes) :
  gen_a fuel seed = fips203_matrix seed /\
  (forall a, gen_a fuel seed = Some a -> exists a', gen_at fuel seed = Some a' /\
    forall i j, (i < 3)%nat -> (j < 3)%nat -> entry a' i j = entry a j i) /\
  (enough seed -> exists a, gen_a fuel seed = Some a).
Proof.
  split_and!.
  - unfold gen_a, gen_matrix, fips203_matrix. change (seq 0 KYBER_K) with [0; 1; 2]%nat. change (seq 0 3) with [0; 1; 2]%nat.
    apply mapM_ext_in. intros i Hi. apply mapM_ext_in. intros j Hj.
    rewrite gen_entry_spec, !u8_small; [done|..]; unfold is_byte; cbn in Hi, Hj; lia.
  - intros a Ha. destruct (gen_matrix_entries seed false a Ha) as [_ He].
    destruct (gen_matrix_total seed true) as [a' Ha'].
    { intros i j Hi Hj. destruct (He j Hj) as [_ Hs]. rewrite (Hs i Hi). done. }
    exists a'. split; [done|]. apply (gen_at_transpose seed); done.
  - intros Hen. destruct (gen_matrix_total seed false) as [a Ha]; [|exists a; done].
    intros i j Hi Hj. specialize (Hen j i Hj Hi). unfold sample_ntt. rewrite (proj2 (Nat.leb_le _ _) Hen). done.
Qed.
End sampling.

(** Every seed of the small instance gives a matrix from the first blocks. *)
Lemma halves_accepted b : Forall (fun x => 0 <= x / 16 < 13 /\ 0 <= x mod 16 < 13) b -> length (accepted b) = (2 * (length b / 3))%nat.
Proof.
  induction b as [b Hs|b0 b1 b2 b IH] using triple_ind; intros Hb.
  - destruct b as [|? [|? [|? ?]]]; try (cbn in Hs; lia); done.
  - apply Forall_cons_1 in Hb as [H0 Hb]. apply Forall_cons_1 in Hb as [H1 Hb].
    apply Forall_cons_1 in Hb as [H2 Hb]. unfold accepted. cbn [candidates List.filter].
    rewrite (proj2 (Z.ltb_lt _ _)) by (unfold KYBER_Q; dlia).
    rewrite (proj2 (Z.ltb_lt _ _)) by (unfold KYBER_Q; dlia).
    cbn [length]. fold (accepted b). rewrite IH by done.
    change (Datatypes.S (Datatypes.S (Datatypes.S (length b)))) with (3 + length b)%nat.
    replace ((3 + length b) / 3)%nat with (Datatypes.S (length b / 3)); [lia|].
    replace (3 + length b)%nat with (length b + 1 * 3)%nat by lia. rewrite Nat.div_add by lia. lia.
Qed.
Lemma toy_enough fuel seed : enough (S := toy_symmetric) fuel seed.
Proof.
  intros i j Hi Hj. generalize (xof_absorb (Symmetric := toy_symmetric) seed (Z.of_nat j) (Z.of_nat i)). intros st.
  destruct (drawn_grows (S := toy_symmetric) st 0 fuel ltac:(lia)) as [l ->]. rewrite length_app, drawn_0.
  rewrite halves_accepted.
  - rewrite length_map, length_seq. change (2 * (GEN_MATRIX_NBLOCKS * XOF_BLOCKBYTES / 3))%nat with 336%nat.
    change KYBER_N with 256%nat. lia.
  - apply List.Forall_map, List.Forall_forall. intros k _. apply toy_stream_halves.
Qed.

Lemma gen_matrix_sample_ntt_witness :
  exists a, gen_a (S := toy_symmetric) 0 (sample_bytes 32) = Some a.
Proof.
  apply (gen_matrix_sample_ntt (S := toy_symmetric) (SL := toy_symmetric_laws) 0 (sample_bytes 32)).
  apply toy_enough.
Defined.
