(* ===== verification/KemScheme.v ===== *)
(** * ML-KEM-768: decryption undoes encryption

    The algebra of the encryption scheme in the transformed domain, the polynomials that
    key generation, encryption and decryption compute up to congruence modulo q, and the
    noise that decryption has to remove. *)
From stdpp Require Import base numbers list option.
From Stdlib Require Import ZArith Lia Setoid Morphisms.
From S2P Require Import Prelude KemNtt PolyRing Transform KemNttFacts KemPoly KemPolyFacts BlockCodec KemCodecFacts Kem KemSymmetric.

(** ** Products in the transformed domain, pair by pair *)

Lemma at_pair z (a b : list Z) : length a = 2%nat -> length b = 2%nat ->
  mulmod z a b = [at_ a 0 * at_ b 0 + z * (at_ a 1 * at_ b 1); at_ a 0 * at_ b 1 + at_ a 1 * at_ b 0].
Proof.
  intros Ha Hb. destruct a as [|a0 [|a1 [|? ?]]]; try discriminate Ha.
  destruct b as [|b0 [|b1 [|? ?]]]; try discriminate Hb.
  cbn. f_equal; [ring|]. f_equal. ring.
Qed.

Lemma at_blockmul n : forall k a b i, (i < n)%nat -> length a = (n * 2)%nat -> length b = (n * 2)%nat ->
  at_ (blockmul n k 2 a b) (2 * i) =
    at_ a (2 * i) * at_ b (2 * i) + sroot (k + i) * (at_ a (2 * i + 1) * at_ b (2 * i + 1)) /\
  at_ (blockmul n k 2 a b) (2 * i + 1) =
    at_ a (2 * i) * at_ b (2 * i + 1) + at_ a (2 * i + 1) * at_ b (2 * i).
Proof.
  induction n as [|n IH]; intros k a b i Hi Ha Hb; [lia|]. cbn [block_products].
  rewrite at_pair by vlen. rewrite !at_take by lia. destruct i as [|i].
  - rewrite Nat.add_0_r. done.
  - destruct (IH (k + 1)%nat (drop 2 a) (drop 2 b) i) as [E0 E1]; [lia | vlen | vlen |].
    rewrite !at_app_r by (cbn [length]; lia). cbn [length].
    replace (2 * Datatypes.S i - 2)%nat with (2 * i)%nat by lia.
    replace (2 * Datatypes.S i + 1 - 2)%nat with (2 * i + 1)%nat by lia.
    rewrite E0, E1, !at_drop. replace (2 + (2 * i + 1))%nat with (2 * Datatypes.S i + 1)%nat by lia.
    replace (2 + 2 * i)%nat with (2 * Datatypes.S i)%nat by lia.
    replace (k + 1 + i)%nat with (k + Datatypes.S i)%nat by lia. done.
Qed.

Abbreviation bm := (blockmul 128 128 2).
Lemma length_bm a b : length b = 256%nat -> length (bm a b) = 256%nat.
Proof. intros. rewrite length_block_products; done. Qed.

(** Vectors of three polynomials of 256 coefficients. *)
Definition vlen3 (a : polyvec) : Prop := length a = 3%nat /\ Forall (fun p : poly => length p = 256%nat) a.
Lemma vlen3_vec a i : vlen3 a -> (i < 3)%nat -> length (vec a i) = 256%nat.
Proof. intros [Hl Ha] Hi. apply (vec_Forall (fun p : poly => length p = 256%nat)); [done | lia]. Qed.
Lemma polyvec_ok_vlen3 B a : polyvec_ok B a -> vlen3 a.
Proof. intros [Hl Ha]. split; [done|]. eapply List.Forall_impl; [|exact Ha]. intros p [Hp _]. exact Hp. Qed.

Lemma length_dot a b : vlen3 b -> length (dot a b) = 256%nat.
Proof.
  intros Hb. unfold dot. rewrite !length_vadd, !length_bm by (apply vlen3_vec; [done | lia]). done.
Qed.

Lemma at_dot_even a b i : vlen3 a -> vlen3 b -> (i < 128)%nat ->
  let p j := at_ (vec a j) (2 * i) * at_ (vec b j) (2 * i) +
             sroot (128 + i) * (at_ (vec a j) (2 * i + 1) * at_ (vec b j) (2 * i + 1)) in
  at_ (dot a b) (2 * i) = p 0%nat + p 1%nat + p 2%nat.
Proof.
  intros Ha Hb Hi p. pose proof (fun j => vlen3_vec a j Ha) as La. pose proof (fun j => vlen3_vec b j Hb) as Lb.
  pose proof (fun j Hj => length_bm (vec a j) (vec b j) (Lb j Hj)) as Lm.
  unfold dot. rewrite !at_vadd by (rewrite ?length_vadd, !Lm by lia; done).
  pose proof (fun j Hj => proj1 (at_blockmul 128 128 (vec a j) (vec b j) i Hi (La j Hj) (Lb j Hj))) as H.
  rewrite !H by lia. done.
Qed.
Lemma at_dot_odd a b i : vlen3 a -> vlen3 b -> (i < 128)%nat ->
  let p j := at_ (vec a j) (2 * i) * at_ (vec b j) (2 * i + 1) + at_ (vec a j) (2 * i + 1) * at_ (vec b j) (2 * i) in
  at_ (dot a b) (2 * i + 1) = p 0%nat + p 1%nat + p 2%nat.
Proof.
  intros Ha Hb Hi p. pose proof (fun j => vlen3_vec a j Ha) as La. pose proof (fun j => vlen3_vec b j Hb) as Lb.
  pose proof (fun j Hj => length_bm (vec a j) (vec b j) (Lb j Hj)) as Lm.
  unfold dot. rewrite !at_vadd by (rewrite ?length_vadd, !Lm by lia; done).
  pose proof (fun j Hj => proj2 (at_blockmul 128 128 (vec a j) (vec b j) i Hi (La j Hj) (Lb j Hj))) as H.
  rewrite !H by lia. done.
Qed.

(** [t = A s + e] and [w = A^T r] give [t r - s w = e r]. *)
Lemma dot_cancel (A AT : list polyvec) (s r e : polyvec) :
  (forall i, (i < 3)%nat -> vlen3 (nth i A []) /\ vlen3 (nth i AT [])) ->
  (forall i j, (i < 3)%nat -> (j < 3)%nat -> entry AT i j = entry A j i) ->
  vlen3 s -> vlen3 r -> vlen3 e ->
  let t := [vadd (dot (nth 0 A []) s) (vec e 0); vadd (dot (nth 1 A []) s) (vec e 1); vadd (dot (nth 2 A []) s) (vec e 2)] in
  let w := [dot (nth 0 AT []) r; dot (nth 1 AT []) r; dot (nth 2 AT []) r] in
  dot t r = vadd (dot s w) (dot e r).
Proof.
  intros HA HT Hs Hr He t w.
  assert (Le : forall i, (i < 3)%nat -> length (vec e i) = 256%nat) by (intros; apply vlen3_vec; done).
  assert (Ht : vlen3 t) by (split; [done|]; unfold t; repeat constructor; rewrite length_vadd, length_dot, Le by (done || lia); done).
  assert (Hw : vlen3 w) by (split; [done|]; unfold w; repeat constructor; apply length_dot; done).
  apply (eq_blocks _ _ 2 128); [lia | apply length_dot; done | rewrite length_vadd, !length_dot by done; done |].
  intros i j Hi Hj. rewrite at_vadd by (rewrite !length_dot; done).
  assert (Ht' : forall k, (k < 3)%nat -> forall x, at_ (vec t k) x = at_ (dot (nth k A []) s) x + at_ (vec e k) x).
  { intros k Hk x. destruct k as [|[|[|k]]]; [..|lia]; apply at_vadd; rewrite length_dot, Le by (done || lia); done. }
  assert (Hw' : forall k, (k < 3)%nat -> vec w k = dot (nth k AT []) r)
    by (intros k Hk; destruct k as [|[|[|k]]]; [done..|lia]).
  assert (HT' : forall k l, (k < 3)%nat -> (l < 3)%nat -> vec (nth k AT []) l = vec (nth l A []) k) by (intros; apply HT; done).
  pose proof (fun k Hk => proj1 (HA k Hk)) as LA. pose proof (fun k Hk => proj2 (HA k Hk)) as LT.
  destruct j as [|[|j]]; [rewrite !Nat.add_0_r | | lia].
  - rewrite !at_dot_even by done. cbv beta zeta. rewrite !Ht', !Hw' by lia.
    rewrite !at_dot_even, !at_dot_odd by (first [done | apply LA; lia | apply LT; lia]). cbv beta zeta.
    rewrite !HT' by lia. ring.
  - rewrite !at_dot_odd by done. cbv beta zeta. rewrite !Ht', !Hw' by lia.
    rewrite !at_dot_even, !at_dot_odd by (first [done | apply LA; lia | apply LT; lia]). cbv beta zeta.
    rewrite !HT' by lia. ring.
Qed.

(** ** Vectors up to congruence *)

Definition eqpv : polyvec -> polyvec -> Prop := Forall2 eqv.
#[export] Instance vec_eqpv : Proper (eqpv ==> eq ==> eqv) vec.
Proof.
  intros a b H i _ <-. revert i. induction H as [|p p' a b Hp H IH]; intros i; [destruct i; reflexivity|].
  destruct i as [|i]; [exact Hp | exact (IH i)].
Qed.
#[export] Instance dot_eqpv : Proper (eqpv ==> eqpv ==> eqv) dot.
Proof. intros a a' Ha b b' Hb. unfold dot. rewrite Ha, Hb. reflexivity. Qed.

Lemma eqpv_vec (a b : polyvec) : length a = 3%nat -> length b = 3%nat ->
  (forall i, (i < 3)%nat -> eqv (vec a i) (vec b i)) -> eqpv a b.
Proof.
  intros Ha Hb H. destruct a as [|a0 [|a1 [|a2 [|? ?]]]]; try discriminate Ha.
  destruct b as [|b0 [|b1 [|b2 [|? ?]]]]; try discriminate Hb.
  repeat constructor; [apply (H 0%nat) | apply (H 1%nat) | apply (H 2%nat)]; lia.
Qed.

(** ** The transform is one-to-one *)

Lemma nt_inj x y : length x = 256%nat -> length y = 256%nat -> eqv (nt x) (nt y) -> eqv x y.
Proof.
  intros Hx Hy H. assert (E : eqv (vscale 128 x) (vscale 128 y)) by (rewrite <- !it_nt by done; rewrite H; reflexivity).
  assert (R : forall l, eqv (vscale 3303 (vscale 128 l)) l).
  { intros l. rewrite vscale_vscale. transitivity (vscale 1 l); [|rewrite vscale_1; reflexivity].
    apply vscale_eqv; reflexivity. }
  rewrite <- (R x), <- (R y), E. reflexivity.
Qed.

Lemma nt_invntt a y : poly_ok 1664 a -> eqv a (vscale RINV y) -> length y = 256%nat ->
  eqv (nt (poly_invntt_tomont a)) y /\ poly_ok 3328 (poly_invntt_tomont a).
Proof.
  intros Ha E Hy. destruct (poly_invntt_spec a 1664) as [E' Hok]; [lia | done |]. split; [|done].
  rewrite E', nt_vscale, nt_it by apply Ha. rewrite E, !vscale_vscale.
  transitivity (vscale 1 y); [|rewrite vscale_1; reflexivity]. apply vscale_eqv; reflexivity.
Qed.

Definition hat (a : polyvec) : polyvec := map nt a.
Lemma vec_hat a i : vlen3 a -> (i < 3)%nat -> vec (hat a) i = nt (vec a i).
Proof. intros [Hl _] Hi. apply vec_map. lia. Qed.
Lemma vlen3_hat a : vlen3 a -> vlen3 (hat a).
Proof.
  intros [Hl Ha]. split; [unfold hat; rewrite length_map; done|]. apply List.Forall_map.
  eapply List.Forall_impl; [|exact Ha]. intros p Hp. apply length_nt, Hp.
Qed.

Lemma dot_hat s x : vlen3 s -> vlen3 x -> eqv (dot (hat s) (hat x)) (nt (mdot s x)).
Proof.
  intros Hs Hx. unfold dot, mdot. rewrite !vec_hat by (done || lia).
  pose proof (fun i => vlen3_vec s i Hs) as Ls. pose proof (fun i => vlen3_vec x i Hx) as Lx.
  rewrite !nt_vadd by (rewrite ?length_vadd, !length_mulmod, !Lx by lia; done).
  rewrite !nt_mul by (first [apply Ls; lia | apply Lx; lia]). reflexivity.
Qed.

Lemma polyvec_ntt_hat a B : B <= 9471 -> polyvec_ok B a -> eqpv (polyvec_ntt a) (hat a) /\ polyvec_ok 1664 (polyvec_ntt a).
Proof.
  intros HB Ha. split; [|apply (polyvec_ntt_ok a B); done].
  pose proof (polyvec_ok_vlen3 _ _ Ha) as Hl. apply eqpv_vec.
  - unfold polyvec_ntt. rewrite length_map. apply Ha.
  - unfold hat. rewrite length_map. apply Ha.
  - intros i Hi. rewrite vec_hat, vec_ntt by (first [done | destruct Ha; lia]).
    apply (poly_ntt_spec _ B HB), vec_ok; done.
Qed.

(** The products with a transformed vector, left in the Montgomery domain, and then
    transformed back or scaled back. *)
Lemma invntt_dot a b x : polyvec_ok 4095 a -> polyvec_ok 4095 b -> eqv (dot a b) x -> length x = 256%nat ->
  eqv (nt (poly_invntt_tomont (polyvec_basemul_acc_montgomery a b))) x /\
  poly_ok 3328 (poly_invntt_tomont (polyvec_basemul_acc_montgomery a b)).
Proof.
  intros Ha Hb E Hx. destruct (polyvec_basemul_acc_spec a b Ha Hb) as [E' Hok].
  apply nt_invntt; [done | rewrite E', E; reflexivity | done].
Qed.

Lemma tomont_dot a b : polyvec_ok 4095 a -> polyvec_ok 4095 b ->
  eqv (poly_tomont (polyvec_basemul_acc_montgomery a b)) (dot a b) /\
  poly_ok 3328 (poly_tomont (polyvec_basemul_acc_montgomery a b)).
Proof.
  intros Ha Hb. destruct (polyvec_basemul_acc_spec a b Ha Hb) as [E Hok].
  destruct (poly_tomont_spec _ 1664 ltac:(lia) Hok) as [E' Hok']. split; [|done].
  rewrite E', E, vscale_vscale, R_RINV, vscale_1. reflexivity.
Qed.

(** ** Serialized vectors *)

Definition modq (p : poly) : poly := map (fun c => c mod KYBER_Q) p.
Lemma modq_eqv p : eqv (modq p) p.
Proof.
  induction p as [|c p IH]; [constructor|]. constructor; [|exact IH]. unfold eqq. apply Z.mod_mod. done.
Qed.
Lemma modq_ok B p : poly_ok B p -> poly_ok 3328 (modq p).
Proof.
  intros [Hl _]. split; [unfold modq; rewrite length_map; done|]. apply List.Forall_map, List.Forall_forall.
  intros c _. unfold KYBER_Q. dlia.
Qed.
Lemma polyvec_modq a B : polyvec_ok B a -> eqpv (map modq a) a /\ polyvec_ok 3328 (map modq a).
Proof.
  intros [Hl Ha]. split.
  - clear Hl. induction Ha as [|p a Hp Ha IH]; [constructor|]. constructor; [apply modq_eqv | exact IH].
  - split; [rewrite length_map; done|]. apply List.Forall_map. eapply List.Forall_impl; [|exact Ha].
    intros p Hp. apply (modq_ok B), Hp.
Qed.

Lemma poly_ok_in_q B p : B <= 3328 -> poly_ok B p -> length p = 256%nat /\ in_q p.
Proof.
  intros HB [Hl Hp]. split; [done|]. eapply List.Forall_impl; [|exact Hp]. unfold KYBER_Q. cbn. lia.
Qed.
Lemma polyvec_ok_in_q B a : B <= 3328 -> polyvec_ok B a -> Forall (fun p : poly => length p = 256%nat /\ in_q p) a.
Proof. intros HB [_ Ha]. eapply List.Forall_impl; [|exact Ha]. intros p. apply poly_ok_in_q, HB. Qed.

(** ** Vectors by element *)

Lemma nth_map_vec (f : polyvec -> poly) (a : list polyvec) i : (i < length a)%nat ->
  vec (map f a) i = f (nth i a []).
Proof. revert i. induction a as [|x a IH]; intros [|i] Hi; cbn in Hi; [lia.. | done | apply IH; lia]. Qed.

Lemma vec_polyvec_add (a b : polyvec) i : (i < length a)%nat -> (i < length b)%nat ->
  vec (polyvec_add a b) i = poly_add (vec a i) (vec b i).
Proof.
  revert b i. induction a as [|x a IH]; intros [|y b] [|i] Ha Hb; cbn in Ha, Hb; try lia; [done|].
  apply (IH b i); lia.
Qed.

Lemma polyvec_ok_intro B (a : polyvec) : length a = 3%nat -> (forall i, (i < 3)%nat -> poly_ok B (vec a i)) -> polyvec_ok B a.
Proof.
  intros Hl H. split; [done|]. destruct a as [|a0 [|a1 [|a2 [|? ?]]]]; try discriminate Hl.
  repeat constructor; try apply (H 0%nat); try apply (H 1%nat); try apply (H 2%nat); lia.
Qed.

(** Adding an error to a polynomial and reducing. *)
Lemma reduce_add a b B B' : B + B' <= 32767 -> poly_ok B a -> poly_ok B' b ->
  eqv (poly_reduce (poly_add a b)) (vadd a b) /\ poly_ok 1664 (poly_reduce (poly_add a b)).
Proof.
  intros HB [La Ha] [Lb Hb]. destruct (poly_add_spec a b B B' HB Ha Hb) as [E Hs].
  assert (Hok : poly_ok (B + B') (poly_add a b)) by (split; [rewrite E, length_vadd; lia | done]).
  split; [|apply (poly_reduce_ok _ (B + B')); done].
  rewrite (proj1 (poly_reduce_spec _ (B + B') HB Hs)), E. reflexivity.
Qed.

(** [a * s + e] for each row of a matrix, reduced. *)
Lemma reduce_add_vec (x : polyvec) (e : polyvec) B B' : B + B' <= 32767 -> polyvec_ok B x -> polyvec_ok B' e ->
  let t := polyvec_reduce (polyvec_add x e) in
  polyvec_ok 1664 t /\ forall i, (i < 3)%nat -> eqv (vec t i) (vadd (vec x i) (vec e i)).
Proof.
  intros HB Hx He t. pose proof Hx as [Lx _]. pose proof He as [Le _].
  assert (Ls : length (polyvec_add x e) = 3%nat) by (unfold polyvec_add; rewrite length_zip_with; lia).
  assert (Hv : forall i, (i < 3)%nat -> vec t i = poly_reduce (poly_add (vec x i) (vec e i))).
  { intros i Hi. unfold t, polyvec_reduce. rewrite vec_map, vec_polyvec_add by lia. done. }
  assert (H : forall i, (i < 3)%nat -> eqv (vec t i) (vadd (vec x i) (vec e i)) /\ poly_ok 1664 (vec t i)).
  { intros i Hi. rewrite Hv by done. apply (reduce_add _ _ B B'); [done | apply vec_ok; done..]. }
  split; [|intros i Hi; apply H; done].
  apply polyvec_ok_intro; [unfold t, polyvec_reduce; rewrite length_map; done | intros i Hi; apply H; done].
Qed.

Lemma vec_zip_with (f : poly -> poly -> poly) (a b : polyvec) i : (i < length a)%nat -> (i < length b)%nat ->
  vec (zip_with f a b) i = f (vec a i) (vec b i).
Proof.
  revert b i. induction a as [|x a IH]; intros [|y b] [|i] Ha Hb; cbn in Ha, Hb; try lia; [done|].
  apply (IH b i); lia.
Qed.

Lemma length_zip3 (f : poly -> poly -> poly) (a b : polyvec) : length a = 3%nat -> length b = 3%nat ->
  length (zip_with f a b) = 3%nat.
Proof. intros Ha Hb. rewrite length_zip_with, Ha, Hb. done. Qed.

Lemma nt_vsub l r : length l = 256%nat -> length r = 256%nat -> nt (vsub l r) = vsub (nt l) (nt r).
Proof.
  intros Hl Hr.
  assert (E : forall a b, length a = length b -> vsub a b = vadd a (vscale (-1) b)) by (intros a b E; vring).
  rewrite E, nt_vadd, nt_vscale, <- E by (rewrite ?length_vscale, ?length_nt by done; congruence). done.
Qed.

(** [dot] is additive in its second argument. *)
Lemma dot_vadd_r s a b : vlen3 s -> vlen3 a -> vlen3 b ->
  dot s (zip_with vadd a b) = vadd (dot s a) (dot s b).
Proof.
  intros Hs Ha Hb. pose proof Ha as [La _]. pose proof Hb as [Lb _].
  pose proof (fun j => vlen3_vec a j Ha) as Ea. pose proof (fun j => vlen3_vec b j Hb) as Eb.
  assert (Hv : forall j, (j < 3)%nat -> vec (zip_with vadd a b) j = vadd (vec a j) (vec b j))
    by (intros; apply vec_zip_with; lia).
  assert (Hz : vlen3 (zip_with vadd a b)).
  { split; [apply length_zip3; done|].
    destruct a as [|a0 [|a1 [|a2 [|? ?]]]]; try discriminate La. destruct b as [|b0 [|b1 [|b2 [|? ?]]]]; try discriminate Lb.
    pose proof (Ea 0%nat); pose proof (Ea 1%nat); pose proof (Ea 2%nat). pose proof (Eb 0%nat); pose proof (Eb 1%nat);
    pose proof (Eb 2%nat). cbn in *. repeat constructor; rewrite length_vadd; lia. }
  assert (Hat : forall j x, (j < 3)%nat -> at_ (vec (zip_with vadd a b) j) x = at_ (vec a j) x + at_ (vec b j) x)
    by (intros j x Hj; rewrite Hv by done; apply at_vadd; rewrite Ea, Eb by done; done).
  apply (eq_blocks _ _ 2 128); [lia | apply length_dot; done | rewrite length_vadd, !length_dot by done; done |].
  intros i j Hi Hj. rewrite at_vadd by (rewrite !length_dot; done).
  destruct j as [|[|j]]; [rewrite !Nat.add_0_r, !at_dot_even by done | rewrite !at_dot_odd by done | lia];
    cbv beta zeta; rewrite !Hat by lia; ring.
Qed.

Section scheme.
Context {S : Symmetric} {SL : SymmetricLaws S} (fuel : nat).

Lemma getnoise1_ok seed nonce : poly_ok 2 (poly_getnoise_eta1 seed nonce).
Proof. apply cbd2_ok, prf_ok. Qed.
Lemma getnoise2_ok seed nonce : poly_ok 2 (poly_getnoise_eta2 seed nonce).
Proof. apply cbd2_ok, prf_ok. Qed.

Lemma noise_vec_ok f seed n : (forall s k, poly_ok 2 (f s k)) -> polyvec_ok 2 (noise_vec f seed n).
Proof.
  intros Hf. split; [unfold noise_vec; rewrite length_map, length_seq; done|].
  apply List.Forall_map, List.Forall_forall. intros i _. apply Hf.
Qed.

(** The secret and the error of a key pair. *)
Definition key_secret (coins : bytes) : polyvec := noise_vec poly_getnoise_eta1 (snd (keypair_seeds coins)) 0.
Definition key_error (coins : bytes) : polyvec := noise_vec poly_getnoise_eta1 (snd (keypair_seeds coins)) KYBER_K.
(** The ephemeral secret and the two errors of an encryption. *)
Definition enc_secret (coins : bytes) : polyvec := noise_vec poly_getnoise_eta1 coins 0.
Definition enc_error (coins : bytes) : polyvec := noise_vec poly_getnoise_eta2 coins KYBER_K.
Definition enc_error2 (coins : bytes) : poly := poly_getnoise_eta2 coins (u8 (Z.of_nat (2 * KYBER_K))).

Lemma samples_ok coins :
  polyvec_ok 2 (key_secret coins) /\ polyvec_ok 2 (key_error coins) /\ polyvec_ok 2 (enc_secret coins) /\
  polyvec_ok 2 (enc_error coins) /\ poly_ok 2 (enc_error2 coins).
Proof.
  split; [|split; [|split; [|split]]]; [apply noise_vec_ok, getnoise1_ok.. | apply noise_vec_ok, getnoise2_ok |
    unfold enc_error2; apply getnoise2_ok].
Qed.

Lemma seeds_bytes coins : bytes_n 32 (fst (keypair_seeds coins)) /\ bytes_n 32 (snd (keypair_seeds coins)).
Proof.
  destruct (hash_g_ok (take KYBER_SYMBYTES coins ++ [Z.of_nat KYBER_K])) as [Hl Hb].
  unfold keypair_seeds. cbn [fst snd]. unfold bytes_n. rewrite length_take, length_drop, Hl.
  split; (split; [done|]); [apply Forall_take | apply Forall_drop]; done.
Qed.

(** The rows of a generated matrix. *)
Definition matrix_ok (a : list polyvec) : Prop := length a = 3%nat /\ forall i, (i < 3)%nat -> polyvec_ok 3328 (nth i a []).

Lemma gen_matrix_ok seed t a : gen_matrix fuel seed t = Some a -> matrix_ok a.
Proof.
  intros Ha. destruct (gen_matrix_entries fuel seed t a Ha) as [Hl He]. split; [done|]. intros i Hi.
  destruct (He i Hi) as [Hli Hs]. apply polyvec_ok_intro; [done|]. intros j Hj.
  destruct (sample_ntt_ok _ _ _ (Hs j Hj)) as [Lp Hp]. split; [exact Lp|].
  eapply List.Forall_impl; [|exact Hp]. unfold KYBER_Q. cbn. lia.
Qed.

(** ** What the three operations compute *)

Lemma Some_pair {A B} (a a' : A) (b b' : B) : Some (a, b) = Some (a', b') -> a = a' /\ b = b'.
Proof. intros [= -> ->]. done. Qed.
#[local] Opaque ntt invntt poly_basemul_montgomery cbd2 poly_reduce poly_add barrett_reduce montgomery_reduce noise_vec
  poly_frommsg.

Lemma keypair_spec coins pk sk : indcpa_keypair_derand fuel coins = Some (pk, sk) ->
  let rho := fst (keypair_seeds coins) in
  exists a t, gen_a fuel rho = Some a /\ pk = pack_pk t rho /\ sk = pack_sk (polyvec_ntt (key_secret coins)) /\
    polyvec_ok 1664 t /\
    forall i, (i < 3)%nat -> eqv (vec t i) (vadd (dot (nth i a []) (hat (key_secret coins))) (nt (vec (key_error coins) i))).
Proof.
  intros H rho. unfold indcpa_keypair_derand in H. destruct (samples_ok coins) as (Hs & He & _).
  rewrite (surjective_pairing (keypair_seeds coins)) in H. fold rho in H.
  destruct (gen_a fuel rho) as [a|] eqn:Ea; [|done]. cbn [mbind option_bind] in H.
  fold (key_secret coins) in H. fold (key_error coins) in H.
  apply Some_pair in H as [<- <-]. destruct (gen_matrix_ok rho false a Ea) as [La Ha].
  destruct (polyvec_ntt_hat _ 2 ltac:(lia) Hs) as [Es Hs']. destruct (polyvec_ntt_hat _ 2 ltac:(lia) He) as [Ee He'].
  set (x := map (fun ai => poly_tomont (polyvec_basemul_acc_montgomery ai (polyvec_ntt (key_secret coins)))) a).
  assert (Hx : forall i, (i < 3)%nat -> eqv (vec x i) (dot (nth i a []) (polyvec_ntt (key_secret coins))) /\ poly_ok 3328 (vec x i)).
  { intros i Hi. unfold x. rewrite nth_map_vec by lia.
    apply tomont_dot; [apply (polyvec_ok_mono 3328); [lia | apply Ha, Hi] | apply (polyvec_ok_mono 1664); [lia | exact Hs']]. }
  assert (Hxo : polyvec_ok 3328 x) by (apply polyvec_ok_intro; [unfold x; rewrite length_map; done | apply Hx]).
  destruct (reduce_add_vec x (polyvec_ntt (key_error coins)) 3328 1664 ltac:(lia) Hxo He') as [Ht Et].
  exists a, (polyvec_reduce (polyvec_add x (polyvec_ntt (key_error coins)))).
  split; [done | split; [done | split; [done | split; [done|]]]]. intros i Hi.
  rewrite (Et i Hi), (proj1 (Hx i Hi)), Es, Ee, vec_hat by (first [apply (polyvec_ok_vlen3 2), He | exact Hi]). reflexivity.
Qed.

Lemma frommsg_ok m : poly_ok 1665 (poly_frommsg m).
Proof.
  split; [apply length_frommsg|]. apply (Forall_blocks _ _ 8 32); [lia | apply length_frommsg|].
  intros i j Hi Hj. change (at_ (poly_frommsg m)) with (coeff (poly_frommsg m)). rewrite frommsg_at by done.
  rewrite land_1. assert (H : byte m i ≫ Z.of_nat j mod 2 = 0 \/ byte m i ≫ Z.of_nat j mod 2 = 1) by dlia.
  destruct H as [-> | ->]; vm_compute; split; congruence.
Qed.

Lemma unpack_pack_pk t rho B : B <= 3328 -> polyvec_ok B t -> length rho = 32%nat ->
  unpack_pk (pack_pk t rho) = (map modq t, rho).
Proof.
  intros HB Ht Hr. unfold unpack_pk, pack_pk. rewrite polyvec_frombytes_app by apply length_polyvec_tobytes.
  rewrite polyvec_frombytes_tobytes by (first [apply Ht | apply (polyvec_ok_in_q B); done]).
  rewrite drop_app_length' by (rewrite length_polyvec_tobytes; done).
  unfold KYBER_SYMBYTES. rewrite (take_ge rho 32), take_ge by (rewrite ?(take_ge rho 32); lia). done.
Qed.

Lemma enc_polys_spec m t rho coins u v : length rho = 32%nat -> polyvec_ok 1664 t ->
  indcpa_enc_polys fuel m (pack_pk t rho) coins = Some (u, v) ->
  let r := hat (enc_secret coins) in
  exists a, gen_at fuel rho = Some a /\ polyvec_ok 1664 u /\ poly_ok 1664 v /\
    (forall i, (i < 3)%nat -> eqv (nt (vec u i)) (vadd (dot (nth i a []) r) (nt (vec (enc_error coins) i)))) /\
    eqv (nt v) (vadd (vadd (dot t r) (nt (enc_error2 coins))) (nt (poly_frommsg m))).
Proof.
  intros Hrho Ht H r. unfold indcpa_enc_polys in H. destruct (samples_ok coins) as (_ & _ & Hr & He & He2).
  rewrite (unpack_pack_pk t rho 1664) in H by (done || lia).
  destruct (gen_at fuel rho) as [a|] eqn:Ea; [|done]. cbn [mbind option_bind] in H.
  fold (enc_secret coins) in H. fold (enc_error coins) in H. fold (enc_error2 coins) in H.
  apply Some_pair in H as [Eu Ev]. destruct (gen_matrix_ok rho true a Ea) as [La Ha].
  destruct (polyvec_ntt_hat _ 2 ltac:(lia) Hr) as [Er Hr']. fold r in Er. set (sp := polyvec_ntt (enc_secret coins)) in *.
  assert (Hsp : polyvec_ok 4095 sp) by (apply (polyvec_ok_mono 1664); [lia | exact Hr']).
  pose proof (polyvec_ok_vlen3 _ _ Hsp) as Lsp.
  set (b := polyvec_invntt_tomont (map (fun ai => polyvec_basemul_acc_montgomery ai sp) a)) in *.
  assert (Hb : forall i, (i < 3)%nat -> eqv (nt (vec b i)) (dot (nth i a []) r) /\ poly_ok 3328 (vec b i)).
  { intros i Hi. unfold b, polyvec_invntt_tomont. rewrite vec_map by (rewrite length_map; lia). rewrite nth_map_vec by lia.
    apply invntt_dot; [apply (polyvec_ok_mono 3328); [lia | apply Ha, Hi] | exact Hsp | rewrite Er; reflexivity |].
    apply length_dot, vlen3_hat, (polyvec_ok_vlen3 2), Hr. }
  assert (Lb : length b = 3%nat) by (unfold b, polyvec_invntt_tomont; rewrite !length_map; done).
  destruct (reduce_add_vec b (enc_error coins) 3328 2 ltac:(lia) (polyvec_ok_intro _ _ Lb (fun i Hi => proj2 (Hb i Hi))) He) as [Hu Eu'].
  destruct (polyvec_modq t 1664 Ht) as [Et Ht'].
  destruct (invntt_dot (map modq t) sp (dot t r)) as [Ev1 Hv1];
    [apply (polyvec_ok_mono 3328); [lia | exact Ht'] | exact Hsp | rewrite Et, Er; reflexivity |
     apply length_dot, vlen3_hat, (polyvec_ok_vlen3 2), Hr |].
  destruct He2 as [Le2 Be2]. destruct Hv1 as [Lv1 Bv1]. destruct (frommsg_ok m) as [Lk Bk].
  destruct (poly_add_spec _ _ 3328 2 ltac:(lia) Bv1 Be2) as [Ev2 Bv2].
  assert (Lv2 : length (poly_add (poly_invntt_tomont (polyvec_basemul_acc_montgomery (map modq t) sp)) (enc_error2 coins)) = 256%nat)
    by (rewrite Ev2, length_vadd; lia).
  destruct (reduce_add _ _ 3330 1665 ltac:(lia) (conj Lv2 Bv2) (conj Lk Bk)) as [Ev3 Hv3].
  exists a. split; [done|]. subst u v. split; [done | split; [done | split]].
  - intros i Hi. rewrite (Eu' i Hi), nt_vadd, (proj1 (Hb i Hi)); [reflexivity | apply (proj2 (Hb i Hi)) |].
    apply (vec_ok 2 _ _ He Hi).
  - rewrite Ev3, Ev2, !nt_vadd, Ev1 by (rewrite ?length_vadd; lia). reflexivity.
Qed.

(** What decompression makes of a vector and of a polynomial. *)
Definition recv_u (u : polyvec) : polyvec := polyvec_decompress (polyvec_compress u).
Definition recv_v (v : poly) : poly := poly_decompress (poly_compress v).

Lemma recv_u_ok u : polyvec_ok 1664 u -> polyvec_ok 3329 (recv_u u).
Proof.
  intros Hu. pose proof (polyvec_ok_in_q 1664 u ltac:(lia) Hu) as Hq. unfold recv_u.
  rewrite polyvec_decompress_compress by (first [apply Hu | exact Hq]).
  split; [rewrite length_map; apply Hu|]. apply List.Forall_map. eapply List.Forall_impl; [|exact Hq].
  intros p [Lp Hp]. split; [rewrite length_map; exact Lp|]. apply List.Forall_map. eapply List.Forall_impl; [|exact Hp].
  intros c Hc. destruct (compress10_spec c Hc) as (_ & _ & H & _). unfold KYBER_Q in H. lia.
Qed.
Lemma recv_v_ok v : poly_ok 1664 v -> poly_ok 3329 (recv_v v).
Proof.
  intros Hv. destruct (poly_ok_in_q 1664 v ltac:(lia) Hv) as [Lv Hq]. unfold recv_v.
  rewrite decompress_compress by (first [exact Lv | exact Hq]).
  split; [rewrite length_map; exact Lv|]. apply List.Forall_map. eapply List.Forall_impl; [|exact Hq].
  intros c Hc. destruct (compress4_spec c Hc) as (_ & _ & H & _). unfold KYBER_Q in H. lia.
Qed.

Lemma dec_spec s u v : polyvec_ok 1664 s -> polyvec_ok 1664 u -> poly_ok 1664 v ->
  exists mp, indcpa_dec (pack_ciphertext u v) (pack_sk s) = poly_tomsg mp /\ poly_ok 1664 mp /\
    eqv (nt mp) (vsub (nt (recv_v v)) (dot s (hat (recv_u u)))).
Proof.
  intros Hs Hu Hv. pose proof (recv_u_ok u Hu) as Hu'. pose proof (recv_v_ok v Hv) as [Lv' Bv'].
  unfold indcpa_dec, unpack_ciphertext, pack_ciphertext, unpack_sk, pack_sk.
  rewrite polyvec_decompress_app by apply length_polyvec_compress.
  rewrite drop_app_length' by (rewrite length_polyvec_compress; done).
  rewrite polyvec_frombytes_tobytes by (first [apply Hs | apply (polyvec_ok_in_q 1664); [lia | exact Hs]]).
  fold (recv_u u). fold (recv_v v). change (map (map (fun c => c mod KYBER_Q)) s) with (map modq s).
  destruct (polyvec_modq s 1664 Hs) as [Es Hs']. destruct (polyvec_ntt_hat _ 3329 ltac:(lia) Hu') as [Eu Hu''].
  destruct (invntt_dot (map modq s) (polyvec_ntt (recv_u u)) (dot s (hat (recv_u u)))) as [E1 [L1 B1]];
    [apply (polyvec_ok_mono 3328); [lia | exact Hs'] | apply (polyvec_ok_mono 1664); [lia | exact Hu''] |
     rewrite Es, Eu; reflexivity | apply length_dot, vlen3_hat, (polyvec_ok_vlen3 3329), Hu' |].
  destruct (poly_sub_spec _ _ 3329 3328 ltac:(lia) Bv' B1) as [E2 B2].
  set (d := poly_sub _ _) in *.
  assert (L2 : length d = 256%nat) by (rewrite E2, length_vsub; lia).
  destruct (poly_reduce_spec d 6657 ltac:(lia) B2) as [E3 _].
  exists (poly_reduce d). split; [reflexivity|]. split; [apply (poly_reduce_ok _ 6657); [lia | split; [exact L2 | exact B2]]|].
  rewrite E3, E2, (nt_vsub _ _ Lv' L1), E1. reflexivity.
Qed.

(** The noise that decryption sees: the error times the ephemeral secret, the second
    error and the rounding of v, less the secret times the first error and the rounding
    of u; products modulo X^256 + 1. *)
Definition kem_noise (s e r e1 : polyvec) (e2 : poly) (u : polyvec) (v : poly) : list Z :=
  vsub (vadd (inner_product e r) (vadd e2 (vsub (recv_v v) v)))
       (inner_product s (zip_with vadd e1 (zip_with vsub (recv_u u) u))).

Definition decryption_noise (kcoins m pk coins : bytes) : option (list Z) :=
  '(u, v) ← indcpa_enc_polys fuel m pk coins;
  Some (kem_noise (key_secret kcoins) (key_error kcoins) (enc_secret coins) (enc_error coins)
                  (enc_error2 coins) u v).

(** The first error and the rounding of u, together. *)
Definition u_error (e1 u : polyvec) : polyvec := zip_with vadd e1 (zip_with vsub (recv_u u) u).

Lemma u_error_ok e1 u : polyvec_ok 2 e1 -> polyvec_ok 1664 u ->
  polyvec_ok 4995 (u_error e1 u) /\
  forall i, (i < 3)%nat -> vec (u_error e1 u) i = vadd (vec e1 i) (vsub (vec (recv_u u) i) (vec u i)).
Proof.
  intros He Hu. pose proof (recv_u_ok u Hu) as Hr. destruct He as [Le He], Hu as [Lu Hu], Hr as [Lr Hr].
  assert (Hv : forall i, (i < 3)%nat -> vec (u_error e1 u) i = vadd (vec e1 i) (vsub (vec (recv_u u) i) (vec u i))).
  { intros i Hi. unfold u_error. rewrite (vec_zip_with vadd), (vec_zip_with vsub);
      [done | lia | lia | lia | rewrite (length_zip3 vsub) by done; lia]. }
  split; [|exact Hv]. apply polyvec_ok_intro; [apply (length_zip3 vadd); [exact Le | apply (length_zip3 vsub); done]|].
  intros i Hi. rewrite (Hv i Hi).
  destruct (vec_ok 2 e1 i (conj Le He) Hi) as [L1 B1]. destruct (vec_ok 1664 u i (conj Lu Hu) Hi) as [L2 B2].
  destruct (vec_ok 3329 (recv_u u) i (conj Lr Hr) Hi) as [L3 B3].
  split; [rewrite length_vadd, length_vsub; lia|].
  apply (bounded_zip_with 2 4993 4995); [exact B1 | | intros; lia].
  apply (bounded_zip_with 3329 1664 4993); [exact B3 | exact B2 | intros; lia].
Qed.

Lemma vadd_vsub l k : length l = length k -> l = vadd k (vsub l k).
Proof. intros H. vring. Qed.
Lemma vadd_assoc l k m : length l = length k -> length k = length m -> vadd l (vadd k m) = vadd (vadd l k) m.
Proof. intros H H'. vring. Qed.

(** Adding up the parts, in the transformed domain. *)
Lemma noise_algebra (n k e2 cv er sx sw : list Z) :
  length n = 256%nat -> length k = 256%nat -> length e2 = 256%nat -> length cv = 256%nat ->
  length er = 256%nat -> length sx = 256%nat -> length sw = 256%nat ->
  eqv n (vsub (vadd (vadd (vadd (vadd sw er) e2) k) cv) (vadd sw sx)) ->
  eqv n (vadd k (vsub (vadd er (vadd e2 cv)) sx)).
Proof.
  intros Hn Hk He Hc Her Hsx Hsw E. rewrite E. apply eq_subrelation; [apply _|]. vring.
Qed.

Lemma length_inner_product a b B : polyvec_ok B a -> polyvec_ok B b -> length (inner_product a b) = 256%nat.
Proof. intros Ha Hb. rewrite <- (mdot_inner a b B) by done. apply (length_mdot a b B), Hb. Qed.

Lemma dot_inner a b B B' : polyvec_ok B a -> polyvec_ok B b -> B <= B' ->
  eqv (dot (hat a) (hat b)) (nt (inner_product a b)).
Proof.
  intros Ha Hb _. rewrite <- (mdot_inner a b B) by done. apply dot_hat; apply (polyvec_ok_vlen3 B); done.
Qed.

(** The transposed matrix times the ephemeral secret. *)
Definition row_products (a' : list polyvec) (r : polyvec) : polyvec :=
  [dot (nth 0 a' []) r; dot (nth 1 a' []) r; dot (nth 2 a' []) r].

Lemma row_products_ok a' r : vlen3 r ->
  vlen3 (row_products a' r) /\ forall i, (i < 3)%nat -> vec (row_products a' r) i = dot (nth i a' []) r.
Proof.
  intros Hr. split.
  - split; [done|]. repeat constructor; apply length_dot, Hr.
  - intros [|[|[|i]]] Hi; [done..|lia].
Qed.

Lemma matrix_vlen3 a i : matrix_ok a -> (i < 3)%nat -> vlen3 (nth i a []).
Proof. intros [_ Ha] Hi. apply (polyvec_ok_vlen3 3328), Ha, Hi. Qed.

Lemma key_side (s e r t : polyvec) (a a' : list polyvec) :
  polyvec_ok 2 s -> polyvec_ok 2 e -> polyvec_ok 2 r -> polyvec_ok 1664 t -> matrix_ok a -> matrix_ok a' ->
  (forall i j, (i < 3)%nat -> (j < 3)%nat -> entry a' i j = entry a j i) ->
  (forall i, (i < 3)%nat -> eqv (vec t i) (vadd (dot (nth i a []) (hat s)) (nt (vec e i)))) ->
  eqv (dot t (hat r)) (vadd (dot (hat s) (row_products a' (hat r))) (nt (inner_product e r))).
Proof.
  intros Hs He Hr Ht Ha Ha' HT Et.
  pose proof (polyvec_ok_vlen3 2 s Hs) as Vs. pose proof (polyvec_ok_vlen3 2 e He) as Ve.
  pose proof (polyvec_ok_vlen3 2 r Hr) as Vr.
  rewrite <- (dot_inner e r 2 2 He Hr ltac:(lia)).
  pose proof (dot_cancel a a' (hat s) (hat r) (hat e)
    (fun i Hi => conj (matrix_vlen3 a i Ha Hi) (matrix_vlen3 a' i Ha' Hi)) HT
    (vlen3_hat s Vs) (vlen3_hat r Vr) (vlen3_hat e Ve)) as H.
  cbv zeta in H. fold (row_products a' (hat r)) in H. rewrite <- H. apply dot_eqpv; [|reflexivity].
  apply eqpv_vec; [apply Ht | done |]. intros i Hi. rewrite (Et i Hi), <- (vec_hat e i Ve Hi).
  destruct i as [|[|[|i]]]; [reflexivity..|lia].
Qed.

Lemma ct_side (s r e1 u : polyvec) (a' : list polyvec) :
  polyvec_ok 2 s -> polyvec_ok 2 r -> polyvec_ok 2 e1 -> polyvec_ok 1664 u -> matrix_ok a' ->
  (forall i, (i < 3)%nat -> eqv (nt (vec u i)) (vadd (dot (nth i a' []) (hat r)) (nt (vec e1 i)))) ->
  eqv (dot (hat s) (hat (recv_u u)))
      (vadd (dot (hat s) (row_products a' (hat r))) (nt (inner_product s (u_error e1 u)))).
Proof.
  intros Hs Hr He1 Hu Ha' Eu. destruct (u_error_ok e1 u He1 Hu) as [Hx Ex].
  pose proof (recv_u_ok u Hu) as Hru. pose proof (polyvec_ok_vlen3 2 s Hs) as Vs.
  pose proof (polyvec_ok_vlen3 _ _ Hx) as Vx. pose proof (polyvec_ok_vlen3 _ _ Hru) as Vru.
  destruct (row_products_ok a' (hat r) (vlen3_hat r (polyvec_ok_vlen3 2 r Hr))) as [VW EW].
  rewrite <- (dot_inner s (u_error e1 u) 4995 4995 (polyvec_ok_mono 2 4995 s ltac:(lia) Hs) Hx ltac:(lia)).
  rewrite <- (dot_vadd_r (hat s) _ _ (vlen3_hat s Vs) VW (vlen3_hat _ Vx)).
  apply dot_eqpv; [reflexivity|]. apply eqpv_vec; [apply (vlen3_hat _ Vru) |
    apply (length_zip3 vadd); [apply VW | apply (vlen3_hat _ Vx)] |].
  intros i Hi. rewrite (vec_zip_with vadd) by (first [exact Hi | rewrite (proj1 (vlen3_hat _ Vx)); exact Hi]).
  rewrite (vec_hat _ i Vru Hi), (vec_hat _ i Vx Hi), (EW i Hi), (Ex i Hi).
  pose proof (vlen3_vec _ i Vru Hi) as L1. pose proof (vlen3_vec u i (polyvec_ok_vlen3 _ _ Hu) Hi) as L2.
  pose proof (vlen3_vec e1 i (polyvec_ok_vlen3 _ _ He1) Hi) as L3.
  rewrite nt_vadd, nt_vsub by (rewrite ?length_vsub; lia).
  assert (E : nt (vec (recv_u u) i) = vadd (nt (vec u i)) (vsub (nt (vec (recv_u u) i)) (nt (vec u i))))
    by (apply vadd_vsub; rewrite !length_nt by done; done).
  rewrite E at 1. rewrite vadd_assoc; [apply vadd_eqv; [apply Eu, Hi | reflexivity]|..].
  - rewrite (length_dot _ _ (vlen3_hat r (polyvec_ok_vlen3 2 r Hr))), length_nt by done. done.
  - rewrite length_vsub, !length_nt by done. done.
Qed.

(** The decrypted polynomial is the message's polynomial plus the noise. *)
Lemma decrypted_poly (s e r e1 u t : polyvec) (e2 v k mp : poly) (a a' : list polyvec) :
  polyvec_ok 2 s -> polyvec_ok 2 e -> polyvec_ok 2 r -> polyvec_ok 2 e1 -> poly_ok 2 e2 ->
  poly_ok 1665 k -> polyvec_ok 1664 u -> poly_ok 1664 v -> poly_ok 1664 mp -> polyvec_ok 1664 t ->
  matrix_ok a -> matrix_ok a' ->
  (forall i j, (i < 3)%nat -> (j < 3)%nat -> entry a' i j = entry a j i) ->
  (forall i, (i < 3)%nat -> eqv (vec t i) (vadd (dot (nth i a []) (hat s)) (nt (vec e i)))) ->
  (forall i, (i < 3)%nat -> eqv (nt (vec u i)) (vadd (dot (nth i a' []) (hat r)) (nt (vec e1 i)))) ->
  eqv (nt v) (vadd (vadd (dot t (hat r)) (nt e2)) (nt k)) ->
  eqv (nt mp) (vsub (nt (recv_v v)) (dot (hat s) (hat (recv_u u)))) ->
  eqv mp (vadd k (kem_noise s e r e1 e2 u v)).
Proof.
  intros Hs He Hr He1 [Le2 _] [Lk _] Hu Hv [Lmp _] Ht Ha Ha' HT Et Eu Ev Emp.
  pose proof (recv_v_ok v Hv) as [Lrv _]. destruct Hv as [Lv _]. destruct (u_error_ok e1 u He1 Hu) as [Hx _].
  pose proof (length_inner_product e r 2 He Hr) as L1.
  pose proof (length_inner_product s _ 4995 (polyvec_ok_mono 2 4995 s ltac:(lia) Hs) Hx) as L2.
  unfold kem_noise. fold (u_error e1 u).
  assert (Lcv : length (vsub (recv_v v) v) = 256%nat) by (rewrite length_vsub; lia).
  apply nt_inj; [done | rewrite !length_vadd, length_vsub, !length_vadd; lia |].
  rewrite !nt_vadd, nt_vsub, !nt_vadd by (rewrite ?length_vsub, ?length_vadd; lia).
  apply (noise_algebra _ _ _ _ _ _ (dot (hat s) (row_products a' (hat r)))); try (apply length_nt; done).
  - apply length_dot, row_products_ok, vlen3_hat, (polyvec_ok_vlen3 2), Hr.
  - rewrite Emp, (ct_side s r e1 u a') by done. rewrite <- (key_side s e r t a a'), <- Ev by done.
    assert (E : recv_v v = vadd v (vsub (recv_v v) v)) by (apply vadd_vsub; lia).
    rewrite E at 1. rewrite nt_vadd by done. reflexivity.
Qed.

Lemma bounded_cmod_eqv w : eqv w (map cmod w).
Proof.
  induction w as [|x w IH]; [constructor|]. constructor; [|exact IH]. apply eqq_iff.
  exists ((x + 1664) / KYBER_Q). unfold cmod, KYBER_Q. dlia.
Qed.

(** Decryption returns the message when the noise is small enough. *)
Lemma indcpa_dec_enc (kcoins m coins pk sk c : bytes) (w : list Z) :
  bytes_n KYBER_INDCPA_MSGBYTES m ->
  indcpa_keypair_derand fuel kcoins = Some (pk, sk) -> indcpa_enc fuel m pk coins = Some c ->
  decryption_noise kcoins m pk coins = Some w -> bounded 831 (map cmod w) ->
  indcpa_dec c sk = m.
Proof.
  intros [Lm Bm] Hk Hc Hw Hb. destruct (keypair_spec kcoins pk sk Hk) as (a & t & Ea & -> & -> & Ht & Et).
  unfold indcpa_enc in Hc. unfold decryption_noise in Hw.
  destruct (indcpa_enc_polys fuel m (pack_pk t (fst (keypair_seeds kcoins))) coins) as [[u v]|] eqn:Ep; [|done].
  cbn [mbind option_bind] in Hc, Hw. injection Hc as <-. injection Hw as <-.
  destruct (seeds_bytes kcoins) as [[Lrho _] _].
  destruct (enc_polys_spec m t _ coins u v Lrho Ht Ep) as (a' & Ea' & Hu & Hv & Eu & Ev).
  destruct (samples_ok kcoins) as (Hs & He & _). destruct (samples_ok coins) as (_ & _ & Hr & He1 & He2).
  destruct (polyvec_ntt_hat _ 2 ltac:(lia) Hs) as [Es Hs'].
  destruct (dec_spec (polyvec_ntt (key_secret kcoins)) u v Hs' Hu Hv) as (mp & -> & Hmp & Emp).
  rewrite Es in Emp.
  pose proof (decrypted_poly _ _ _ _ _ _ _ _ _ _ a a' Hs He Hr He1 He2 (frommsg_ok m) Hu Hv Hmp Ht
    (gen_matrix_ok _ false a Ea) (gen_matrix_ok _ true a' Ea') (gen_at_transpose fuel _ a a' Ea Ea') Et Eu Ev Emp) as H.
  pose proof (eqv_length _ _ H) as Lw. rewrite length_vadd, (proj1 Hmp), length_frommsg in Lw.
  pose proof (bounded_cmod_eqv (kem_noise (key_secret kcoins) (key_error kcoins) (enc_secret coins)
    (enc_error coins) (enc_error2 coins) u v)) as Ew.
  apply (tomsg_noise m (map cmod (kem_noise (key_secret kcoins) (key_error kcoins) (enc_secret coins)
    (enc_error coins) (enc_error2 coins) u v))); try apply Hmp; try done.
  - rewrite length_map. pose proof (length_inner_product _ _ 2 He Hr). unfold kem_noise in *.
    rewrite length_vsub, length_vadd in *. lia.
  - rewrite H, <- Ew. reflexivity.
Qed.
End scheme.
