(* ===== verification/KemFacts.v ===== *)
(** * ML-KEM-768: the key encapsulation mechanism

    Key pairs and ciphertexts have the sizes of the interface and are always produced
    when the matrix can be sampled; both sides derive the same secret when decryption
    recovers the message; any other ciphertext gives the rejection key; and kem.c does
    not notice a random generator that fails. *)
From stdpp Require Import base numbers list option.
From Stdlib Require Import ZArith Lia.
From S2P Require Import Prelude KemNtt PolyRing Transform KemNttFacts KemPoly KemPolyFacts BlockCodec KemCodecFacts Kem KemSymmetric KemScheme.

#[local] Opaque ntt invntt poly_basemul_montgomery cbd2 poly_reduce poly_add noise_vec poly_frommsg.

Lemma length_pack_pk t rho : length rho = 32%nat -> length (pack_pk t rho) = KYBER_PUBLICKEYBYTES.
Proof.
  intros Hr. unfold pack_pk. rewrite length_app, length_polyvec_tobytes, length_take, Hr. reflexivity.
Qed.
Lemma length_pack_ciphertext u v : length (pack_ciphertext u v) = KYBER_CIPHERTEXTBYTES.
Proof. unfold pack_ciphertext. rewrite length_app, length_polyvec_compress, length_compress. reflexivity. Qed.

Lemma bytes_ok_flat_map (F : nat -> bytes) n : (forall i, bytes_ok (F i)) -> bytes_ok (flat_map F (seq 0 n)).
Proof.
  intros H. generalize 0%nat. induction n as [|n IH]; intros s; [constructor|]. cbn [seq flat_map].
  apply Forall_app_2; [apply H | apply IH].
Qed.
Lemma bytes_ok_pack_ciphertext u v : bytes_ok (pack_ciphertext u v).
Proof.
  unfold pack_ciphertext. apply Forall_app_2; unfold polyvec_compress, poly_compress, poly_compress10;
    repeat (apply bytes_ok_flat_map; intros); unfold pack10; repeat (constructor; [apply u8_byte|]); constructor.
Qed.
Lemma bytes_ok_polyvec_tobytes a : bytes_ok (polyvec_tobytes a).
Proof.
  unfold polyvec_tobytes, poly_tobytes. repeat (apply bytes_ok_flat_map; intros).
  repeat (constructor; [apply u8_byte|]); constructor.
Qed.

(** Decryption reads the first 1152 bytes of the key only. *)
Lemma indcpa_dec_app c sk rest : length sk = KYBER_INDCPA_SECRETKEYBYTES -> indcpa_dec c (sk ++ rest) = indcpa_dec c sk.
Proof. intros Hl. unfold indcpa_dec, unpack_sk. rewrite polyvec_frombytes_app by done. done. Qed.

Section kem.
Context {S : Symmetric} {SL : SymmetricLaws S} (fuel : nat).

Lemma indcpa_enc_bytes m pk coins c : indcpa_enc fuel m pk coins = Some c -> bytes_n KYBER_CIPHERTEXTBYTES c.
Proof.
  unfold indcpa_enc. destruct (indcpa_enc_polys fuel m pk coins) as [[u v]|]; [|done].
  cbn [mbind option_bind]. intros [= <-]. split; [apply length_pack_ciphertext | apply bytes_ok_pack_ciphertext].
Qed.

Lemma indcpa_keypair_bytes coins pk sk : indcpa_keypair_derand fuel coins = Some (pk, sk) ->
  bytes_n KYBER_PUBLICKEYBYTES pk /\ bytes_n KYBER_INDCPA_SECRETKEYBYTES sk.
Proof.
  intros H. destruct (keypair_spec fuel coins pk sk H) as (a & t & _ & -> & -> & _ & _).
  destruct (seeds_bytes coins) as [[Lr Br] _]. split; (split; [|]).
  - apply length_pack_pk, Lr.
  - unfold pack_pk. apply Forall_app_2; [apply bytes_ok_polyvec_tobytes | apply Forall_take, Br].
  - apply length_polyvec_tobytes.
  - apply bytes_ok_polyvec_tobytes.
Qed.

(** The parts of a decapsulation key. *)
Lemma secret_key_parts (dk ek h z : bytes) : length dk = KYBER_INDCPA_SECRETKEYBYTES -> length ek = KYBER_PUBLICKEYBYTES ->
  length h = 32%nat -> length z = 32%nat ->
  let sk := dk ++ ek ++ h ++ z in
  take KYBER_PUBLICKEYBYTES (drop KYBER_INDCPA_SECRETKEYBYTES sk) = ek /\
  take KYBER_SYMBYTES (drop (KYBER_SECRETKEYBYTES - 2 * KYBER_SYMBYTES) sk) = h /\
  drop (KYBER_SECRETKEYBYTES - KYBER_SYMBYTES) sk = z.
Proof.
  change KYBER_INDCPA_SECRETKEYBYTES with 1152%nat. change KYBER_PUBLICKEYBYTES with 1184%nat.
  change (KYBER_SECRETKEYBYTES - 2 * KYBER_SYMBYTES)%nat with 2336%nat.
  change (KYBER_SECRETKEYBYTES - KYBER_SYMBYTES)%nat with 2368%nat. change KYBER_SYMBYTES with 32%nat.
  intros H1 H2 H3 H4 sk. unfold sk. split_and!.
  - rewrite drop_app_length' by lia. apply take_app_length'. lia.
  - rewrite app_assoc, drop_app_length' by (rewrite length_app; lia). apply take_app_length'. lia.
  - rewrite app_assoc, app_assoc, drop_app_length' by (rewrite !length_app; lia). done.
Qed.

(** Decapsulation, on a key given by its parts. *)
Lemma kem_dec_parts (dk ek h z ct : bytes) : bytes_n KYBER_INDCPA_SECRETKEYBYTES dk -> bytes_n KYBER_PUBLICKEYBYTES ek ->
  bytes_n 32 h -> bytes_n 32 z -> bytes_n KYBER_CIPHERTEXTBYTES ct ->
  let m := indcpa_dec ct dk in
  let kr := hash_g (m ++ h) in
  crypto_kem_dec fuel ct (dk ++ ek ++ h ++ z) =
    (c ← indcpa_enc fuel m ek (drop 32 kr); Some (if decide (ct = c) then take 32 kr else rkprf z ct)).
Proof.
  intros [Ld Bd] [Le Be] [Lh Bh] [Lz Bz] [Lc Bc] m kr. unfold crypto_kem_dec.
  destruct (secret_key_parts dk ek h z Ld Le Lh Lz) as (-> & -> & ->). rewrite indcpa_dec_app by done. fold m.
  assert (Lm : length m = 32%nat) by (unfold m, indcpa_dec, poly_tomsg; destruct (unpack_ciphertext ct);
    rewrite length_map, length_seq; done).
  unfold KYBER_SYMBYTES. rewrite take_app_length' by done. fold kr.
  destruct (indcpa_enc fuel m ek (drop 32 kr)) as [c|] eqn:Ec; [|done]. cbn [mbind option_bind]. f_equal.
  destruct (indcpa_enc_bytes _ _ _ _ Ec) as [Lc' Bc'].
  rewrite verify_spec by done. destruct (rkprf_ok z ct Bz Bc) as [Lr Br]. destruct (hash_g_ok (m ++ h)) as [Lk Bk].
  fold kr in Lk, Bk.
  assert (E : forall f, f = 0 \/ f = 1 -> cmov (rkprf z ct) kr 32 f = if decide (f = 0) then rkprf z ct else take 32 kr).
  { intros f Hf. rewrite <- (take_drop 32 kr) at 1. rewrite cmov_prefix by (rewrite ?length_take; lia).
    apply cmov_spec; try done; [apply Forall_take; done | rewrite length_take; lia]. }
  destruct (decide (ct = c)).
  - change (u8 (1 - 0)) with 1. rewrite E by tauto. done.
  - change (u8 (1 - 1)) with 0. rewrite E by tauto. done.
Qed.

Lemma kem_keypair_parts kcoins pk sk : bytes_n 64 kcoins -> crypto_kem_keypair_derand fuel kcoins = Some (pk, sk) ->
  exists dk, indcpa_keypair_derand fuel kcoins = Some (pk, dk) /\ sk = dk ++ pk ++ hash_h pk ++ drop 32 kcoins /\
    bytes_n KYBER_PUBLICKEYBYTES pk /\ bytes_n KYBER_INDCPA_SECRETKEYBYTES dk /\ bytes_n 32 (drop 32 kcoins).
Proof.
  intros [Lk Bk]. unfold crypto_kem_keypair_derand.
  destruct (indcpa_keypair_derand fuel kcoins) as [[pk' dk]|] eqn:E; [|done]. cbn [mbind option_bind].
  intros H. apply Some_pair in H as [<- <-]. exists dk. destruct (indcpa_keypair_bytes _ _ _ E) as [Hp Hd].
  split; [done|]. split; [|split; [exact Hp | split; [exact Hd|]]].
  - unfold KYBER_SYMBYTES. rewrite (take_ge (drop 32 kcoins)) by (rewrite length_drop; lia). done.
  - split; [rewrite length_drop; lia | apply Forall_drop, Bk].
Qed.

Lemma kem_keypair_of kcoins pk dk : indcpa_keypair_derand fuel kcoins = Some (pk, dk) ->
  crypto_kem_keypair_derand fuel kcoins = Some (pk, dk ++ pk ++ hash_h pk ++ take 32 (drop 32 kcoins)).
Proof. intros E. unfold crypto_kem_keypair_derand. rewrite E. reflexivity. Qed.
Lemma kem_enc_of pk coins ct : bytes_n 32 coins ->
  indcpa_enc fuel coins pk (drop 32 (hash_g (coins ++ hash_h pk))) = Some ct ->
  crypto_kem_enc_derand fuel pk coins = Some (ct, take 32 (hash_g (coins ++ hash_h pk))).
Proof.
  intros [Lc _] E. unfold crypto_kem_enc_derand, KYBER_SYMBYTES. rewrite (take_ge coins) by lia.
  rewrite take_app_length' by done. rewrite E. reflexivity.
Qed.
Lemma decryption_noise_some kcoins m pk coins ct : indcpa_enc fuel m pk coins = Some ct ->
  exists w, decryption_noise fuel kcoins m pk coins = Some w.
Proof.
  unfold indcpa_enc, decryption_noise. destruct (indcpa_enc_polys fuel m pk coins) as [[u v]|]; [|done].
  intros _. eexists. reflexivity.
Qed.

(** The matrix can be sampled from the seed of the key pair. *)
Definition kem_enough (kcoins : bytes) : Prop := enough fuel (fst (keypair_seeds kcoins)).

Lemma gen_both rho : enough fuel rho -> is_Some (gen_a fuel rho) /\ is_Some (gen_at fuel rho).
Proof.
  intros He. split; apply gen_matrix_total; intros i j Hi Hj; specialize (He j i Hj Hi); unfold sample_ntt;
    rewrite (proj2 (Nat.leb_le _ _) He); done.
Qed.

Lemma indcpa_keypair_total kcoins : kem_enough kcoins -> exists t dk,
  indcpa_keypair_derand fuel kcoins = Some (pack_pk t (fst (keypair_seeds kcoins)), dk) /\ polyvec_ok 1664 t.
Proof.
  intros He. destruct (gen_both _ He) as [[a Ea] _].
  destruct (indcpa_keypair_derand fuel kcoins) as [[pk dk]|] eqn:E.
  - destruct (keypair_spec fuel kcoins pk dk E) as (a' & t & _ & -> & _ & Ht & _). exists t, dk. split; [done|exact Ht].
  - exfalso. unfold indcpa_keypair_derand in E. rewrite (surjective_pairing (keypair_seeds kcoins)) in E.
    rewrite Ea in E. cbn [mbind option_bind] in E. discriminate E.
Qed.

Lemma indcpa_enc_total m t rho coins : enough fuel rho -> length rho = 32%nat -> polyvec_ok 1664 t ->
  exists c, indcpa_enc fuel m (pack_pk t rho) coins = Some c /\ bytes_n KYBER_CIPHERTEXTBYTES c.
Proof.
  intros He Lr Ht. destruct (gen_both _ He) as [_ [a Ea]].
  destruct (indcpa_enc fuel m (pack_pk t rho) coins) as [c|] eqn:E; [exists c; split; [done | apply (indcpa_enc_bytes _ _ _ _ E)]|].
  exfalso. unfold indcpa_enc, indcpa_enc_polys in E. rewrite (unpack_pack_pk t rho 1664) in E by (done || lia).
  rewrite Ea in E. cbn [mbind option_bind] in E. discriminate E.
Qed.

Lemma kem_agrees (kcoins coins pk sk ct ss : bytes) (w : list Z) :
  bytes_n 64 kcoins -> bytes_n 32 coins ->
  crypto_kem_keypair_derand fuel kcoins = Some (pk, sk) ->
  crypto_kem_enc_derand fuel pk coins = Some (ct, ss) ->
  decryption_noise fuel kcoins coins pk (drop 32 (hash_g (coins ++ hash_h pk))) = Some w ->
  bounded 831 (map cmod w) ->
  crypto_kem_dec fuel ct sk = Some ss.
Proof.
  intros Hkc Hc Hk He Hw Hb. destruct (kem_keypair_parts _ _ _ Hkc Hk) as (dk & Ek & -> & Hpk & Hdk & Hz).
  unfold crypto_kem_enc_derand, KYBER_SYMBYTES in He. destruct Hc as [Lc Bc].
  rewrite (take_ge coins) in He by lia. rewrite take_app_length' in He by done.
  destruct (indcpa_enc fuel coins pk _) as [c|] eqn:Ec; [|done]. cbn [mbind option_bind] in He.
  apply Some_pair in He as [<- <-].
  rewrite kem_dec_parts; [|exact Hdk | exact Hpk | apply hash_h_ok | exact Hz | apply (indcpa_enc_bytes _ _ _ _ Ec)].
  rewrite (indcpa_dec_enc fuel kcoins coins _ pk dk c w (conj Lc Bc) Ek Ec Hw Hb).
  rewrite Ec. cbn [mbind option_bind]. rewrite decide_True by done. done.
Qed.

(** C10: the mechanism agrees.  When a key pair and an encapsulation under its public
    key have been produced, and the noise that the two sets of coins give is at most 831
    in absolute value modulo q in every coefficient, decapsulation returns the secret
    that the encapsulation returned. *)
Theorem kem_agreement (kcoins coins pk sk ct ss : bytes) (w : list Z) :
  bytes_n 64 kcoins -> bytes_n 32 coins ->
  crypto_kem_keypair_derand fuel kcoins = Some (pk, sk) ->
  crypto_kem_enc_derand fuel pk coins = Some (ct, ss) ->
  decryption_noise fuel kcoins coins pk (drop 32 (hash_g (coins ++ hash_h pk))) = Some w ->
  bounded 831 (map cmod w) ->
  crypto_kem_dec fuel ct sk = Some ss.
Proof. apply kem_agrees. Qed.

(** C11: decapsulation with implicit rejection.  On any ciphertext of the right length and
    any key laid out as a decapsulation key, the message is decrypted and encrypted
    again; the result is the derived key exactly when this gives the ciphertext back, and
    the pseudo-random function of the rejection key and the ciphertext otherwise. *)
Theorem kem_implicit_rejection (dk ek h z ct c : bytes) :
  bytes_n KYBER_INDCPA_SECRETKEYBYTES dk -> bytes_n KYBER_PUBLICKEYBYTES ek ->
  bytes_n 32 h -> bytes_n 32 z -> bytes_n KYBER_CIPHERTEXTBYTES ct ->
  let m := indcpa_dec ct dk in
  let kr := hash_g (m ++ h) in
  indcpa_enc fuel m ek (drop 32 kr) = Some c ->
  (ct = c -> crypto_kem_dec fuel ct (dk ++ ek ++ h ++ z) = Some (take 32 kr)) /\
  (ct <> c -> crypto_kem_dec fuel ct (dk ++ ek ++ h ++ z) = Some (rkprf z ct)).
Proof.
  intros Hd He Hh Hz Hc m kr E. rewrite kem_dec_parts by done. fold m. fold kr. rewrite E. cbn [mbind option_bind].
  split; intros H; [rewrite decide_True by done | rewrite decide_False by done]; done.
Qed.

(** C39: the mechanism is total when the matrix can be sampled: key generation returns a
    public key of 1184 bytes and a key of 2400 bytes that holds the public key, its hash
    and the rejection key; encapsulation under it returns 1088 and 32 bytes for all
    coins; and decapsulation returns 32 bytes for every ciphertext. *)
Theorem kem_total (kcoins : bytes) :
  bytes_n 64 kcoins -> kem_enough kcoins ->
  exists pk dk, let sk := dk ++ pk ++ hash_h pk ++ drop 32 kcoins in
    crypto_kem_keypair_derand fuel kcoins = Some (pk, sk) /\ bytes_n 1184 pk /\ length sk = 2400%nat /\
    (forall coins, exists ct ss, crypto_kem_enc_derand fuel pk coins = Some (ct, ss) /\ bytes_n 1088 ct /\ bytes_n 32 ss) /\
    (forall ct, bytes_n 1088 ct -> exists ss, crypto_kem_dec fuel ct sk = Some ss /\ bytes_n 32 ss).
Proof.
  intros Hkc He. destruct (indcpa_keypair_total kcoins He) as (t & dk & Ek & Ht).
  destruct (seeds_bytes kcoins) as [[Lr Br] _]. set (pk := pack_pk t (fst (keypair_seeds kcoins))) in *.
  exists pk, dk. intros sk. destruct (indcpa_keypair_bytes _ _ _ Ek) as [Hpk Hdk].
  assert (Hk : crypto_kem_keypair_derand fuel kcoins = Some (pk, sk)).
  { unfold crypto_kem_keypair_derand. rewrite Ek. cbn [mbind option_bind]. unfold KYBER_SYMBYTES.
    rewrite (take_ge (drop 32 kcoins)) by (rewrite length_drop, (proj1 Hkc); lia). done. }
  assert (Hg : forall x, bytes_n 32 (take 32 (hash_g x))).
  { intros x. destruct (hash_g_ok x) as [Lg Bg]. split; [rewrite length_take; lia | apply Forall_take, Bg]. }
  assert (Hz : bytes_n 32 (drop 32 kcoins))
    by (destruct Hkc as [L B]; split; [rewrite length_drop; lia | apply Forall_drop, B]).
  split; [exact Hk | split; [exact Hpk | split; [|split]]].
  - unfold sk. rewrite !length_app, (proj1 Hpk), (proj1 Hdk), (proj1 (hash_h_ok pk)), (proj1 Hz). reflexivity.
  - intros coins. unfold crypto_kem_enc_derand, KYBER_SYMBYTES. set (buf := take 32 coins ++ hash_h pk). set (kr := hash_g buf). set (m := take 32 buf).
    destruct (indcpa_enc_total m t _ (drop 32 kr) He Lr Ht) as (c & Ec & Hc). fold pk in Ec. rewrite Ec.
    exists c, (take 32 kr). split; [reflexivity | split; [exact Hc | apply Hg]].
  - intros ct Hct. unfold sk. rewrite kem_dec_parts; [|exact Hdk | exact Hpk | apply hash_h_ok | exact Hz | exact Hct].
    set (m := indcpa_dec ct dk). destruct (indcpa_enc_total m t _ (drop 32 (hash_g (m ++ hash_h pk))) He Lr Ht) as (c & Ec & _).
    fold pk in Ec. rewrite Ec. cbn [mbind option_bind]. eexists. split; [reflexivity|].
    destruct (decide (ct = c)); [apply Hg | apply rkprf_ok; [apply Hz | apply Hct]].
Qed.

(** kem.c does not look at the code that [randombytes] returns: a generator that fails
    and leaves its buffer as it was gives a key pair, and an encapsulation, all the same. *)
Theorem kem_ignores_rng_status {rng : Type} (rb : nat -> rng -> Z * bytes * rng) (status : Z) (pk : bytes) (r : rng) :
  let failing n r := let '(_, b, r') := rb n r in (status, b, r') in
  crypto_kem_keypair fuel failing r = crypto_kem_keypair fuel rb r /\
  crypto_kem_enc fuel failing pk r = crypto_kem_enc fuel rb pk r.
Proof.
  intros failing. unfold crypto_kem_keypair, crypto_kem_enc, failing.
  destruct (rb (2 * KYBER_SYMBYTES)%nat r) as [[? ?] ?]. destruct (rb KYBER_SYMBYTES r) as [[? ?] ?]. done.
Qed.
End kem.

(** ** A concrete instance: secrets and errors with one small coefficient *)

Lemma mulmod_zeros n s b : mulmod s (replicate n 0) b = replicate (length b) 0.
Proof.
  induction n as [|n IH]; [done|]. cbn [replicate mulmod]. rewrite IH.
  apply eq_at; [rewrite length_vadd, length_vscale, length_mulx, !length_replicate; lia|].
  intros i Hi. rewrite length_vadd, length_vscale, length_mulx, length_replicate in Hi.
  rewrite at_vadd by (rewrite length_vscale, length_mulx, length_replicate; done).
  rewrite at_vscale, at_mulx by (rewrite length_replicate; lia). rewrite !at_replicate.
  destruct (i =? 0)%nat; lia.
Qed.
Lemma mulmod_const n c s b : mulmod s (c :: replicate n 0) b = vscale c b.
Proof.
  cbn [mulmod]. rewrite mulmod_zeros.
  apply eq_at; [rewrite length_vadd, length_vscale, length_mulx, length_replicate; lia|].
  intros i Hi. rewrite length_vadd, length_vscale, length_mulx, length_replicate in Hi.
  rewrite at_vadd by (rewrite length_vscale, length_mulx, length_replicate; done).
  rewrite at_mulx by (rewrite length_replicate; lia). rewrite !at_replicate. destruct (i =? 0)%nat; lia.
Qed.

Definition sparse_poly : poly := 2 :: replicate 255 0.
Definition sparse_vec : polyvec := [sparse_poly; sparse_poly; sparse_poly].

Lemma sparse_sample : cbd2 (ToySym.sparse 128) = sparse_poly.
Proof. vm_compute. reflexivity. Qed.

Lemma sparse_vec_ok : polyvec_ok 2 sparse_vec.
Proof.
  assert (H : poly_ok 2 sparse_poly).
  { rewrite <- sparse_sample. apply cbd2_ok, toy_sparse_bytes. }
  split; [done | do 3 (constructor; [exact H|]); constructor].
Qed.

Lemma sparse_inner x B : 2 <= B -> polyvec_ok B x ->
  inner_product sparse_vec x = vadd (vadd (vscale 2 (vec x 0)) (vscale 2 (vec x 1))) (vscale 2 (vec x 2)).
Proof.
  intros HB Hx. rewrite <- (mdot_inner sparse_vec x B (polyvec_ok_mono 2 B _ HB sparse_vec_ok) Hx). unfold mdot.
  change (vec sparse_vec 0) with sparse_poly. change (vec sparse_vec 1) with sparse_poly.
  change (vec sparse_vec 2) with sparse_poly. unfold sparse_poly. rewrite !mulmod_const. done.
Qed.

(** What rounding leaves is small modulo q. *)
Lemma recv_u_error u i j : polyvec_ok 1664 u -> (i < 3)%nat -> (j < 256)%nat ->
  - 2 <= cmod (at_ (vec (recv_u u) i) j - at_ (vec u i) j) <= 2.
Proof.
  intros Hu Hi Hj. pose proof (polyvec_ok_in_q 1664 u ltac:(lia) Hu) as Hq. destruct (vec_Forall _ u i Hq) as [Lp Hp];
    [rewrite (proj1 Hu); done|].
  unfold recv_u. rewrite polyvec_decompress_compress by (first [apply Hu | exact Hq]).
  rewrite vec_map by (rewrite (proj1 Hu); done). rewrite (at_map (fun c => decompress10 (compress10 c))) by lia.
  apply compress10_spec, (in_q_coeff (vec u i)), Hp.
Qed.
Lemma recv_v_error v j : poly_ok 1664 v -> (j < 256)%nat -> - 104 <= cmod (at_ (recv_v v) j - at_ v j) <= 104.
Proof.
  intros Hv Hj. destruct (poly_ok_in_q 1664 v ltac:(lia) Hv) as [Lv Hq].
  unfold recv_v. rewrite decompress_compress by (first [exact Lv | exact Hq]).
  rewrite (at_map (fun c => decompress4 (compress4 c))) by lia. apply compress4_spec, (in_q_coeff v), Hq.
Qed.

Lemma sparse_at j : 0 <= at_ sparse_poly j <= 2.
Proof. destruct j as [|j]; [cbn; lia|]. change (at_ sparse_poly (S j)) with (at_ (replicate 255 0) j). rewrite at_replicate. lia. Qed.

Lemma cmod_eqq x : x ≡q cmod x.
Proof. apply eqq_iff. exists ((x + 1664) / KYBER_Q). unfold cmod, KYBER_Q. dlia. Qed.

Lemma noise_at (a x0 x1 x2 rv v : list Z) j :
  length a = 256%nat -> length x0 = 256%nat -> length x1 = 256%nat -> length x2 = 256%nat -> length rv = 256%nat ->
  length v = 256%nat ->
  at_ (vsub (vadd (vadd (vadd (vscale 2 a) (vscale 2 a)) (vscale 2 a)) (vadd a (vsub rv v)))
            (vadd (vadd (vscale 2 x0) (vscale 2 x1)) (vscale 2 x2))) j =
  2 * at_ a j + 2 * at_ a j + 2 * at_ a j + (at_ a j + (at_ rv j - at_ v j)) -
    (2 * at_ x0 j + 2 * at_ x1 j + 2 * at_ x2 j).
Proof.
  intros. repeat first [rewrite at_vsub by vlen | rewrite at_vadd by vlen | rewrite at_vscale]. done.
Qed.

Lemma sparse_noise u v : polyvec_ok 1664 u -> poly_ok 1664 v ->
  bounded 831 (map cmod (kem_noise sparse_vec sparse_vec sparse_vec sparse_vec sparse_poly u v)).
Proof.
  intros Hu Hv. destruct (u_error_ok sparse_vec u sparse_vec_ok Hu) as [Hx Ex].
  unfold kem_noise. fold (u_error sparse_vec u).
  rewrite (sparse_inner sparse_vec 2 ltac:(lia) sparse_vec_ok), (sparse_inner _ 4995 ltac:(lia) Hx).
  change (vec sparse_vec 0) with sparse_poly. change (vec sparse_vec 1) with sparse_poly.
  change (vec sparse_vec 2) with sparse_poly.
  pose proof (fun i => vlen3_vec _ i (polyvec_ok_vlen3 _ _ Hx)) as Lx.
  pose proof (fun i => vlen3_vec _ i (polyvec_ok_vlen3 _ _ Hu)) as Lu.
  pose proof (fun i => vlen3_vec _ i (polyvec_ok_vlen3 _ _ (recv_u_ok u Hu))) as Lru.
  pose proof (proj1 (recv_v_ok v Hv)) as Lrv. pose proof (proj1 Hv) as Lv.
  assert (Ls : length sparse_poly = 256%nat) by done.
  apply List.Forall_map, List.Forall_nth. intros j d Hj. rewrite (nth_indep _ d 0) by done.
  repeat rewrite ?length_vsub, ?length_vadd, ?length_vscale in Hj. rewrite !Lx, Ls, Lrv, Lv in Hj by lia.
  assert (Hj' : (j < 256)%nat) by lia. clear Hj. change (nth j ?l 0) with (at_ l j).
  rewrite noise_at by (first [exact Ls | apply Lx; lia | exact Lrv | exact Lv]).
  assert (Hxi : forall i, (i < 3)%nat -> exists z, at_ (vec (u_error sparse_vec u) i) j ≡q z /\ - 2 <= z <= 4).
  { intros i Hi. rewrite (Ex i Hi), at_vadd, at_vsub by (rewrite ?length_vsub, ?Lu, ?Lru by done;
      destruct i as [|[|[|i]]]; done || lia).
    exists (at_ (vec sparse_vec i) j + cmod (at_ (vec (recv_u u) i) j - at_ (vec u i) j)).
    split; [rewrite <- cmod_eqq; reflexivity|]. pose proof (recv_u_error u i j Hu Hi Hj').
    assert (0 <= at_ (vec sparse_vec i) j <= 2) by (destruct i as [|[|[|i]]]; try apply (sparse_at j); lia). lia. }
  destruct (Hxi 0%nat ltac:(lia)) as (z0 & E0 & B0). destruct (Hxi 1%nat ltac:(lia)) as (z1 & E1 & B1).
  destruct (Hxi 2%nat ltac:(lia)) as (z2 & E2 & B2). pose proof (recv_v_error v j Hv Hj'). pose proof (sparse_at j).
  set (sj := at_ sparse_poly j) in *.
  rewrite (cmod_small _ (2 * sj + 2 * sj + 2 * sj + (sj + cmod (at_ (recv_v v) j - at_ v j)) -
    (2 * z0 + 2 * z1 + 2 * z2))); [lia | | lia].
  lazymatch goal with |- ?x mod KYBER_Q = ?y mod KYBER_Q => change (x ≡q y) end.
  rewrite E0, E1, E2, <- cmod_eqq. reflexivity.
Qed.

Section sparse.
#[local] Existing Instance toy_symmetric.
#[local] Existing Instance toy_symmetric_laws.

Lemma sparse_noise_vec (f : bytes -> Z -> poly) seed n : (forall s k, f s k = sparse_poly) ->
  noise_vec f seed n = sparse_vec.
Proof.
  intros Hf. Transparent noise_vec. unfold noise_vec. Opaque noise_vec. change KYBER_K with 3%nat. cbn [seq map].
  rewrite !Hf. done.
Qed.
Lemma sparse_getnoise seed nonce :
  poly_getnoise_eta1 seed nonce = sparse_poly /\ poly_getnoise_eta2 seed nonce = sparse_poly.
Proof. split; apply sparse_sample. Qed.

Lemma sparse_decryption_noise fuel kcoins m pk coins w t rho : length rho = 32%nat -> polyvec_ok 1664 t ->
  pk = pack_pk t rho -> decryption_noise fuel kcoins m pk coins = Some w -> bounded 831 (map cmod w).
Proof.
  intros Lr Ht -> H. unfold decryption_noise in H.
  destruct (indcpa_enc_polys fuel m (pack_pk t rho) coins) as [[u v]|] eqn:E; [|done].
  cbn [mbind option_bind] in H. injection H as <-.
  destruct (enc_polys_spec fuel m t rho coins u v Lr Ht E) as (a & _ & Hu & Hv & _).
  assert (N1 : forall seed n, noise_vec poly_getnoise_eta1 seed n = sparse_vec)
    by (intros; apply sparse_noise_vec; intros; apply sparse_getnoise).
  assert (N2 : forall seed n, noise_vec poly_getnoise_eta2 seed n = sparse_vec)
    by (intros; apply sparse_noise_vec; intros; apply sparse_getnoise).
  unfold key_secret, key_error, enc_secret, enc_error, enc_error2. rewrite ?N1, ?N2, (proj2 (sparse_getnoise _ _)).
  apply sparse_noise; done.
Qed.

Lemma sample_enough : kem_enough 0 (sample_bytes 64).
Proof. exact (toy_enough 0 (fst (keypair_seeds (sample_bytes 64)))). Qed.
Lemma sample_bytes_n n : bytes_n n (sample_bytes n).
Proof. split; [unfold sample_bytes; rewrite length_map, length_seq; done | apply sample_bytes_ok]. Qed.

(** A key pair and an encapsulation under it, with their noise. *)
Lemma sample_exchange : exists pk sk ct ss w,
  crypto_kem_keypair_derand 0 (sample_bytes 64) = Some (pk, sk) /\
  crypto_kem_enc_derand 0 pk (sample_bytes 32) = Some (ct, ss) /\
  decryption_noise 0 (sample_bytes 64) (sample_bytes 32) pk (drop 32 (hash_g (sample_bytes 32 ++ hash_h pk))) = Some w /\
  bounded 831 (map cmod w).
Proof.
  destruct (indcpa_keypair_total 0 (sample_bytes 64) sample_enough) as (t & dk & Ek & Ht).
  destruct (seeds_bytes (sample_bytes 64)) as [[Lr _] _]. set (rho := fst _) in *. set (pk := pack_pk t rho) in *.
  destruct (indcpa_enc_total 0 (sample_bytes 32) t rho (drop 32 (hash_g (sample_bytes 32 ++ hash_h pk))) sample_enough Lr Ht)
    as (ct & Ec & _). fold pk in Ec.
  destruct (decryption_noise_some 0 (sample_bytes 64) _ _ _ _ Ec) as [w Ew].
  eexists pk, _, ct, _, w. split; [exact (kem_keypair_of 0 _ _ _ Ek)|].
  split; [exact (kem_enc_of 0 _ _ _ (sample_bytes_n 32) Ec)|].
  split; [exact Ew | exact (sparse_decryption_noise 0 _ _ pk _ w t rho Lr Ht eq_refl Ew)].
Qed.
End sparse.

Lemma kem_agreement_witness : exists pk sk ct ss,
  crypto_kem_keypair_derand (S := toy_symmetric) 0 (sample_bytes 64) = Some (pk, sk) /\
  crypto_kem_enc_derand (S := toy_symmetric) 0 pk (sample_bytes 32) = Some (ct, ss) /\
  crypto_kem_dec (S := toy_symmetric) 0 ct sk = Some ss.
Proof.
  destruct sample_exchange as (pk & sk & ct & ss & w & Hk & He & Hw & Hb). exists pk, sk, ct, ss.
  split; [exact Hk | split; [exact He|]].
  exact (kem_agreement (SL := toy_symmetric_laws) 0 (sample_bytes 64) (sample_bytes 32) pk sk ct ss w
           (sample_bytes_n 64) (sample_bytes_n 32) Hk He Hw Hb).
Defined.

Lemma kem_total_witness : exists pk dk,
  crypto_kem_keypair_derand (S := toy_symmetric) 0 (sample_bytes 64) =
    Some (pk, dk ++ pk ++ hash_h (Symmetric := toy_symmetric) pk ++ drop 32 (sample_bytes 64)).
Proof.
  destruct (kem_total (SL := toy_symmetric_laws) 0 (sample_bytes 64) (sample_bytes_n 64) sample_enough)
    as (pk & dk & H & _).
  exists pk, dk. exact H.
Defined.

Lemma kem_implicit_rejection_witness : exists ek ct c ss,
  let m := indcpa_dec ct (sample_bytes 1152) in
  let kr := hash_g (Symmetric := toy_symmetric) (m ++ sample_bytes 32) in
  indcpa_enc (S := toy_symmetric) 0 m ek (drop 32 kr) = Some c /\
  crypto_kem_dec (S := toy_symmetric) 0 ct (sample_bytes 1152 ++ ek ++ sample_bytes 32 ++ sample_bytes 32) = Some ss /\
  (ct = c /\ ss = take 32 kr \/ ct <> c /\ ss = rkprf (Symmetric := toy_symmetric) (sample_bytes 32) ct).
Proof.
  destruct (indcpa_keypair_total (SL := toy_symmetric_laws) 0 (sample_bytes 64) sample_enough) as (t & dk & Ek & Ht).
  destruct (seeds_bytes (SL := toy_symmetric_laws) (sample_bytes 64)) as [[Lr _] _].
  destruct (indcpa_keypair_bytes (SL := toy_symmetric_laws) 0 _ _ _ Ek) as [Hpk _].
  set (m := indcpa_dec (sample_bytes 1088) (sample_bytes 1152)).
  set (kr := hash_g (Symmetric := toy_symmetric) (m ++ sample_bytes 32)).
  destruct (indcpa_enc_total (SL := toy_symmetric_laws) 0 m t _ (drop 32 kr) sample_enough Lr Ht) as (c & Ec & _).
  destruct (kem_implicit_rejection (SL := toy_symmetric_laws) 0 (sample_bytes 1152) _ (sample_bytes 32)
    (sample_bytes 32) (sample_bytes 1088) c (sample_bytes_n 1152) Hpk (sample_bytes_n 32)
    (sample_bytes_n 32) (sample_bytes_n 1088) Ec) as [H1 H2].
  destruct (decide (sample_bytes 1088 = c)) as [E|E].
  - eexists _, (sample_bytes 1088), c, _. split; [exact Ec | split; [exact (H1 E) | left; split; [exact E | reflexivity]]].
  - eexists _, (sample_bytes 1088), c, _. split; [exact Ec | split; [exact (H2 E) | right; split; [exact E | reflexivity]]].
Defined.
