(* ===== verification/DsaNtt.v ===== *)
(** * ML-DSA-44: reduction, rounding and the number-theoretic transform

    PQClean/crypto_sign/ml-dsa-44/clean: params.h, reduce.c, rounding.c, ntt.c.  An
    [int32_t] is an integer between -2^31 and 2^31 - 1; the places where the code converts
    are written out.  The loops of the transforms keep the code's counters and bounds; their
    fuel is the largest number of iterations. *)
From stdpp Require Import base numbers list option.
From Stdlib Require Import ZArith Lia.
From S2P Require Import Prelude.

(** ** params.h *)

Definition SEEDBYTES : nat := 32.
Definition CRHBYTES : nat := 64.
Definition TRBYTES : nat := 64.
Definition RNDBYTES : nat := 32.
Definition N : nat := 256.
Definition Q : Z := 8380417.
Definition D : Z := 13.
Definition K : nat := 4.
Definition L : nat := 4.
Definition ETA : Z := 2.
Definition TAU : nat := 39.
Definition BETA : Z := 78.
Definition GAMMA1 : Z := Z.shiftl 1 17.
Definition GAMMA2 : Z := (Q - 1) / 88.
Definition OMEGA : nat := 80.
Definition CTILDEBYTES : nat := 32.
Definition POLYT1_PACKEDBYTES : nat := 320.
Definition POLYT0_PACKEDBYTES : nat := 416.
Definition POLYZ_PACKEDBYTES : nat := 576.
Definition POLYW1_PACKEDBYTES : nat := 192.
Definition POLYETA_PACKEDBYTES : nat := 96.
Definition CRYPTO_PUBLICKEYBYTES : nat := SEEDBYTES + K * POLYT1_PACKEDBYTES.
Definition CRYPTO_SECRETKEYBYTES : nat :=
  2 * SEEDBYTES + TRBYTES + L * POLYETA_PACKEDBYTES + K * POLYETA_PACKEDBYTES + K * POLYT0_PACKEDBYTES.
Definition CRYPTO_BYTES : nat := CTILDEBYTES + L * POLYZ_PACKEDBYTES + (OMEGA + K).

(** ** reduce.c *)

Definition QINV : Z := 58728449.

(** The product with [QINV] wraps modulo 2^64 before it is cut to 32 bits. *)
Definition montgomery_reduce (a : Z) : Z :=
  let t := i32 (u64 (u64 a * u64 QINV)) in
  i32 (Z.shiftr (i64 (a - i64 (t * Q))) 32).

Definition reduce32 (a : Z) : Z :=
  let t := Z.shiftr (i32 (a + Z.shiftl 1 22)) 23 in
  i32 (a - i32 (t * Q)).

Definition caddq (a : Z) : Z := i32 (a + Z.land (Z.shiftr a 31) Q).
Definition freeze (a : Z) : Z := caddq (reduce32 a).

(** ** rounding.c *)

(** The functions return the high part first. *)
Definition power2round (a : Z) : Z * Z :=
  let a1 := Z.shiftr (i32 (i32 (a + Z.shiftl 1 (D - 1)) - 1)) D in
  let a0 := i32 (a - i32 (Z.shiftl a1 D)) in
  (a1, a0).

Definition decompose (a : Z) : Z * Z :=
  let a1 := Z.shiftr (i32 (a + 127)) 7 in
  let a1 := Z.shiftr (i32 (i32 (a1 * 11275) + Z.shiftl 1 23)) 24 in
  let a1 := Z.lxor a1 (Z.land (Z.shiftr (i32 (43 - a1)) 31) a1) in
  let a0 := i32 (a - i32 (i32 (a1 * 2) * GAMMA2)) in
  let a0 := i32 (a0 - Z.land (Z.shiftr (i32 ((Q - 1) / 2 - a0)) 31) Q) in
  (a1, a0).

Definition make_hint (a0 a1 : Z) : Z :=
  if (GAMMA2 <? a0) || (a0 <? - GAMMA2) || ((a0 =? - GAMMA2) && negb (a1 =? 0)) then 1 else 0.

Definition use_hint (a hint : Z) : Z :=
  let '(a1, a0) := decompose a in
  if hint =? 0 then a1
  else if 0 <? a0 then
    if a1 =? 43 then 0 else a1 + 1
  else if a1 =? 0 then 43 else a1 - 1.

(** ** ntt.c *)

Definition zetas : list Z := [
  0; 25847; -2608894; -518909; 237124; -777960; -876248; 466468;
  1826347; 2353451; -359251; -2091905; 3119733; -2884855; 3111497; 2680103;
  2725464; 1024112; -1079900; 3585928; -549488; -1119584; 2619752; -2108549;
  -2118186; -3859737; -1399561; -3277672; 1757237; -19422; 4010497; 280005;
  2706023; 95776; 3077325; 3530437; -1661693; -3592148; -2537516; 3915439;
  -3861115; -3043716; 3574422; -2867647; 3539968; -300467; 2348700; -539299;
  -1699267; -1643818; 3505694; -3821735; 3507263; -2140649; -1600420; 3699596;
  811944; 531354; 954230; 3881043; 3900724; -2556880; 2071892; -2797779;
  -3930395; -1528703; -3677745; -3041255; -1452451; 3475950; 2176455; -1585221;
  -1257611; 1939314; -4083598; -1000202; -3190144; -3157330; -3632928; 126922;
  3412210; -983419; 2147896; 2715295; -2967645; -3693493; -411027; -2477047;
  -671102; -1228525; -22981; -1308169; -381987; 1349076; 1852771; -1430430;
  -3343383; 264944; 508951; 3097992; 44288; -1100098; 904516; 3958618;
  -3724342; -8578; 1653064; -3249728; 2389356; -210977; 759969; -1316856;
  189548; -3553272; 3159746; -1851402; -2409325; -177440; 1315589; 1341330;
  1285669; -1584928; -812732; -1439742; -3019102; -3881060; -3628969; 3839961;
  2091667; 3407706; 2316500; 3817976; -3342478; 2244091; -2446433; -3562462;
  266997; 2434439; -1235728; 3513181; -3520352; -3759364; -1197226; -3193378;
  900702; 1859098; 909542; 819034; 495491; -1613174; -43260; -522500;
  -655327; -3122442; 2031748; 3207046; -3556995; -525098; -768622; -3595838;
  342297; 286988; -2437823; 4108315; 3437287; -3342277; 1735879; 203044;
  2842341; 2691481; -2590150; 1265009; 4055324; 1247620; 2486353; 1595974;
  -3767016; 1250494; 2635921; -3548272; -2994039; 1869119; 1903435; -1050970;
  -1333058; 1237275; -3318210; -1430225; -451100; 1312455; 3306115; -1962642;
  -1279661; 1917081; -2546312; -1374803; 1500165; 777191; 2235880; 3406031;
  -542412; -2831860; -1671176; -1846953; -2584293; -3724270; 594136; -3776993;
  -2013608; 2432395; 2454455; -164721; 1957272; 3369112; 185531; -1207385;
  -3183426; 162844; 1616392; 3014001; 810149; 1652634; -3694233; -1799107;
  -3038916; 3523897; 3866901; 269760; 2213111; -975884; 1717735; 472078;
  -426683; 1723600; -1803090; 1910376; -1667432; -1104333; -260646; -3833893;
  -2939036; -2235985; -420899; -2286327; 183443; -976891; 1612842; -3545687;
  -554416; 3919660; -48306; -1362209; 3937738; 1400424; -846154; 1976782].
Definition zeta (k : nat) : Z := nth k zetas 0.

(** The loop [for (j = start; j < start + len; ++j)] of [ntt], [n] iterations from [j] on. *)
Fixpoint ntt_inner (n j len : nat) (z : Z) (a : list Z) : list Z :=
  match n with
  | O => a
  | S n' =>
      let t := montgomery_reduce (z * nth (j + len) a 0) in
      let a := <[(j + len)%nat := i32 (nth j a 0 - t)]> a in
      let a := <[j := i32 (nth j a 0 + t)]> a in
      ntt_inner n' (S j) len z a
  end.

(** The loop [for (start = 0; start < N; start = j + len)], with [zetas\[++k\]]. *)
Fixpoint ntt_mid (fuel start k len : nat) (a : list Z) : nat * list Z :=
  match fuel with
  | O => (k, a)
  | S fuel' =>
      if (start <? N)%nat then
        let k := S k in
        ntt_mid fuel' (start + len + len) k len (ntt_inner len start len (zeta k) a)
      else (k, a)
  end.

(** The loop [for (len = 128; len > 0; len >>= 1)]. *)
Fixpoint ntt_outer (fuel k len : nat) (a : list Z) : list Z :=
  match fuel with
  | O => a
  | S fuel' =>
      if (0 <? len)%nat then
        let '(k, a) := ntt_mid 129 0 k len a in
        ntt_outer fuel' k (len / 2) a
      else a
  end.

Definition ntt (a : list Z) : list Z := ntt_outer 9 0 128 a.

(** The same loops in [invntt_tomont]. *)
Fixpoint invntt_inner (n j len : nat) (z : Z) (a : list Z) : list Z :=
  match n with
  | O => a
  | S n' =>
      let t := nth j a 0 in
      let a := <[j := i32 (t + nth (j + len) a 0)]> a in
      let a := <[(j + len)%nat := i32 (t - nth (j + len) a 0)]> a in
      let a := <[(j + len)%nat := montgomery_reduce (z * nth (j + len) a 0)]> a in
      invntt_inner n' (S j) len z a
  end.

(** [zeta = -zetas\[--k\]]. *)
Fixpoint invntt_mid (fuel start k len : nat) (a : list Z) : nat * list Z :=
  match fuel with
  | O => (k, a)
  | S fuel' =>
      if (start <? N)%nat then
        let k := (k - 1)%nat in
        invntt_mid fuel' (start + len + len) k len (invntt_inner len start len (i32 (- zeta k)) a)
      else (k, a)
  end.

(** The loop [for (len = 1; len < N; len <<= 1)]. *)
Fixpoint invntt_outer (fuel k len : nat) (a : list Z) : list Z :=
  match fuel with
  | O => a
  | S fuel' =>
      if (len <? N)%nat then
        let '(k, a) := invntt_mid 129 0 k len a in
        invntt_outer fuel' k (len * 2) a
      else a
  end.

Definition invntt_f : Z := 41978.
Definition invntt_tomont (a : list Z) : list Z :=
  map (fun x => montgomery_reduce (invntt_f * x)) (invntt_outer 9 256 1 a).
