(* ===== verification/DsaNttFacts.v ===== *)
(** * Reduction and the number-theoretic transform of ML-DSA-44

    Montgomery reduction and [reduce32] (congruence, range, no overflow); the loops of
    [ntt] and [invntt_tomont] as eight levels of butterflies, without overflow of
    [int32_t]; the transform as a change of representation: [invntt_tomont] undoes [ntt],
    and the coefficientwise product of transforms is the product modulo X^256 + 1. *)
From stdpp Require Import base numbers list option.
From Stdlib Require Import ZArith Lia Setoid Morphisms.
From S2P Require Import Prelude PolyRing Transform DsaNtt.

(** ** The modulus *)

#[export] Instance dsa_modulus : Modulus := Q.

Lemma modq_iff x y : x ≡q y <-> exists k, x = y + Q * k.
Proof. apply congruent_iff. Qed.

(** The inverse of the Montgomery factor 2^32. *)
Definition RINV : Z := 8265825.
Lemma R_RINV_dsa : 4294967296 * RINV ≡q 1.
Proof. reflexivity. Qed.

(** ** Reductions *)

Definition in32 (x : Z) : Prop := -2147483648 <= x < 2147483648.
Definition in64 (x : Z) : Prop := -9223372036854775808 <= x < 9223372036854775808.

Lemma i32_in x : in32 x -> i32 x = x.
Proof. unfold i32, in32. intros H. rewrite Z.mod_small; lia. Qed.
Lemma i64_in x : in64 x -> i64 x = x.
Proof. unfold i64, in64. intros H. rewrite Z.mod_small; lia. Qed.
Lemma i32_cong x : in32 (i32 x) /\ exists k, i32 x = x + 4294967296 * k.
Proof.
  unfold i32, in32. pose proof (Z.mod_pos_bound (x + 2147483648) 4294967296).
  pose proof (Z.div_mod (x + 2147483648) 4294967296). split; [lia|].
  exists (- ((x + 2147483648) / 4294967296)). lia.
Qed.

(** The multiplier of a Montgomery reduction is a * QINV modulo 2^32. *)
Lemma mont_factor a : exists k, i32 (u64 (u64 a * u64 QINV)) = a * QINV + 4294967296 * k.
Proof.
  destruct (i32_cong (u64 (u64 a * u64 QINV))) as [_ [k Hk]]. rewrite Hk. unfold u64.
  change (QINV mod 18446744073709551616) with QINV.
  pose proof (Z.div_mod a 18446744073709551616). pose proof (Z.div_mod (a mod 18446744073709551616 * QINV) 18446744073709551616).
  exists (k - 4294967296 * ((a mod 18446744073709551616 * QINV) / 18446744073709551616)
            - 4294967296 * QINV * (a / 18446744073709551616)). unfold QINV in *. lia.
Qed.

(** The congruence, and a bound that follows the input's. *)
Lemma dsa_montgomery_spec a B : 0 <= B <= 2147483647 * Q -> - B <= a <= B ->
  4294967296 * montgomery_reduce a ≡q a /\
  - (B + 2147483648 * Q) <= 4294967296 * montgomery_reduce a <= B + 2147483648 * Q.
Proof.
  intros HB Ha. destruct (mont_factor a) as [k Hk]. destruct (i32_cong (u64 (u64 a * u64 QINV))) as [Ht _].
  unfold montgomery_reduce. set (t := i32 (u64 (u64 a * u64 QINV))) in *. unfold in32 in Ht.
  unfold Q, QINV in *. rewrite (i64_in (t * 8380417)), (i64_in (a - t * 8380417)) by (unfold in64; lia).
  assert (Hd : a - t * 8380417 = (- (114592 * a) - 8380417 * k) * 4294967296) by lia.
  rewrite Hd, Z.shiftr_div_pow2 by lia. change (2 ^ 32) with 4294967296. rewrite Z.div_mul by lia.
  rewrite (i32_in (- (114592 * a) - _)) by (unfold in32; lia).
  split; [|lia]. apply modq_iff. exists (- t). unfold Q. lia.
Qed.

Lemma montgomery_mod a B : 0 <= B <= 2147483647 * Q -> - B <= a <= B -> montgomery_reduce a ≡q a * RINV.
Proof.
  intros HB Ha. destruct (dsa_montgomery_spec a B HB Ha) as [H _].
  transitivity (4294967296 * montgomery_reduce a * RINV); [|rewrite H; reflexivity].
  transitivity (4294967296 * RINV * montgomery_reduce a); [rewrite R_RINV_dsa; apply eqq_eq; ring | apply eqq_eq; ring].
Qed.

Lemma reduce32_spec a : - 2147483648 <= a <= 2143289343 ->
  reduce32 a ≡q a /\ - 6283009 <= reduce32 a <= 6283008.
Proof.
  intros Ha. unfold reduce32. change (Z.shiftl 1 22) with 4194304.
  rewrite (i32_in (a + 4194304)) by (unfold in32; lia). rewrite Z.shiftr_div_pow2 by lia.
  change (2 ^ 23) with 8388608. unfold Q.
  pose proof (Z.div_mod (a + 4194304) 8388608). pose proof (Z.mod_pos_bound (a + 4194304) 8388608).
  set (t := (a + 4194304) / 8388608) in *.
  rewrite (i32_in (t * _)), i32_in by (unfold in32; lia). split; [|lia].
  apply modq_iff. exists (- t). unfold Q. lia.
Qed.

(** The comment of [reduce32] promises at least -6283008. *)
Lemma reduce32_below_its_bound : reduce32 (-2143289344) = -6283009.
Proof. reflexivity. Qed.

Lemma caddq_spec a : - Q < a < Q -> caddq a ≡q a /\ 0 <= caddq a < Q.
Proof.
  unfold Q. intros Ha. unfold caddq. rewrite Z.shiftr_div_pow2 by lia. change (2 ^ 31) with 2147483648.
  destruct (Z.ltb_spec a 0).
  - assert (E : a / 2147483648 = -1) by (Z.div_mod_to_equations; lia). rewrite E, Z.land_m1_l. unfold Q.
    rewrite i32_in by (unfold in32; lia). split; [|lia]. apply modq_iff. exists 1. unfold Q. lia.
  - rewrite Z.div_small, Z.land_0_l, Z.add_0_r, i32_in by (unfold in32; lia). split; [reflexivity | lia].
Qed.

(** The reductions of reduce.c.  On
    -(2^31-1)q .. (2^31-1)q [montgomery_reduce] gives an integer of -q+1 .. q-1 that is
    congruent to a * 2^-32 (2^32 times it is congruent to a); on -2^31 .. 2^31-2^22-1 [reduce32]
    gives a congruent integer of -6283009 .. 6283008 and [freeze] the representative between 0 and q-1; on -q+1 .. q-1 [caddq] gives the
    representative between 0 and q-1. *)
Theorem dsa_reductions_correct (a b c : Z) :
  - (2147483647 * Q) <= a <= 2147483647 * Q -> - 2147483648 <= b <= 2143289343 -> - Q < c < Q ->
  (4294967296 * montgomery_reduce a ≡q a /\ - Q < montgomery_reduce a < Q) /\
  (reduce32 b ≡q b /\ - 6283009 <= reduce32 b <= 6283008 /\ freeze b = b mod Q) /\
  caddq c = c mod Q.
Proof.
  assert (Hm : forall c, - Q < c < Q -> caddq c = c mod Q).
  { intros x Hx. destruct (caddq_spec x Hx) as [E ?]. rewrite <- (Z.mod_small (caddq x) Q) by done. exact E. }
  intros Ha Hb Hc. destruct (reduce32_spec b Hb) as [Eb Rb]. split; [|split; [|apply Hm, Hc]].
  - destruct (dsa_montgomery_spec a (2147483647 * Q)) as [E ?]; [unfold Q; lia | exact Ha|].
    split; [exact E|]. unfold Q in *. lia.
  - split; [exact Eb|]. split; [exact Rb|]. unfold freeze. rewrite Hm by (unfold Q; lia). exact Eb.
Qed.

Lemma dsa_reductions_correct_witness :
  4294967296 * montgomery_reduce (-2147483647 * Q) ≡q -2147483647 * Q /\ reduce32 2143289343 ≡q 2143289343 /\
  caddq (-1) = -1 mod Q.
Proof.
  destruct (dsa_reductions_correct (-2147483647 * Q) 2143289343 (-1)) as ([H _] & [H' _] & H'').
  - unfold Q. lia.
  - lia.
  - unfold Q. lia.
  - split; [exact H | split; [exact H' | exact H'']].
Defined.

(** ** Products with the roots *)

Definition zt (k : nat) : Z := zeta k * RINV.

Lemma zeta_range k : - 4190208 <= zeta k <= 4190208.
Proof.
  destruct (decide (k < 256)%nat) as [Hk|]; [|unfold zeta; rewrite nth_overflow; [lia | cbn; lia]].
  assert (H : forallb (fun k => (-4190208 <=? zeta k) && (zeta k <=? 4190208)) (seq 0 256) = true)
    by (vm_compute; reflexivity).
  rewrite forallb_forall in H. specialize (H k). rewrite in_seq in H. lia.
Qed.

(** Any factor of at most (q-1)/2 in absolute value. *)
Lemma mont_mul z x : - 4190208 <= z <= 4190208 -> in32 x ->
  montgomery_reduce (z * x) ≡q z * RINV * x /\ - 8380416 <= montgomery_reduce (z * x) <= 8380416.
Proof.
  intros Hz Hx. unfold in32 in Hx. assert (Ha : - (4190208 * 2147483648) <= z * x <= 4190208 * 2147483648) by nia.
  split.
  - rewrite (montgomery_mod _ (4190208 * 2147483648)) by (unfold Q; lia). apply eqq_eq. ring.
  - destruct (dsa_montgomery_spec (z * x) (4190208 * 2147483648)) as [_ H]; [unfold Q; lia | done|]. unfold Q in H. lia.
Qed.

(** ** Forward: the loops are levels of butterflies *)

Definition fwd_op (len k : nat) (b : list Z) : list Z :=
  bfly (fun x y => i32 (x + montgomery_reduce (zeta k * y))) (fun x y => i32 (x - montgomery_reduce (zeta k * y)))
    (take len b) (drop len b).
Definition level (n k len : nat) : list Z -> list Z := blocks (fwd_op len) (fun k => k + 1)%nat (2 * len) n k.

Lemma length_fwd len k b : length b = (2 * len)%nat -> length (fwd_op len k b) = (2 * len)%nat.
Proof. intros Hb. unfold fwd_op. rewrite length_bfly; vlen. Qed.

Lemma ntt_inner_fwd len k A b C : length b = (2 * len)%nat ->
  ntt_inner len (length A) len (zeta k) (A ++ b ++ C) = A ++ fwd_op len k b ++ C.
Proof.
  intros Hb. apply (inner_block len _ _ (fun n j r => ntt_inner n j len (zeta k) r)); [done | | done].
  intros n A' x B y C' HB. cbn [ntt_inner].
  rewrite two_nth1, two_nth2, two_set2, two_nth1, two_set1 by done. done.
Qed.

Lemma length_level_N n k len r : (n * (2 * len) = 256)%nat -> length r = 256%nat ->
  length (level n k len r) = 256%nat.
Proof. intros Hn Hr. rewrite <- Hn. apply length_blocks; [apply length_fwd | lia]. Qed.
Ltac lenN := repeat (apply length_level_N; [reflexivity|]); assumption.

Lemma ntt_outer_level f n k len r : (1 <= len)%nat -> (n * (2 * len) = 256)%nat ->
  length r = 256%nat -> ntt_outer (S f) k len r = ntt_outer f (k + n) (len / 2) (level n (k + 1) len r).
Proof.
  intros Hl Hn Hr. cbn [ntt_outer]. rewrite (proj2 (Nat.ltb_lt _ _)) by lia.
  pose proof (mid_blocks (fun k => fwd_op len (k + 1)) (fun k => k + 1)%nat (2 * len) (fun k => length_fwd len (k + 1)) 256
    (fun k j r => ntt_inner len j len (zeta (k + 1)) r) (fun fuel j k r => ntt_mid fuel j k len r)) as H.
  specialize (H ltac:(intros fuel start k' r'; cbn [ntt_mid]; rewrite <- (Nat.add_1_r k');
      replace (start + 2 * len)%nat with (start + len + len)%nat by lia; done)
    (fun k => ntt_inner_fwd len (k + 1)) n 129%nat [] k r).
  cbn [length app] in H. rewrite H by nia. rewrite iter_add.
  unfold level. rewrite <- (blocks_shift (fwd_op len) (fun k => k + 1)%nat). done.
Qed.

Lemma dsa_ntt_levels r : length r = 256%nat ->
  ntt r = level 128 128 1 (level 64 64 2 (level 32 32 4 (level 16 16 8 (level 8 8 16 (level 4 4 32 (level 2 2 64
            (level 1 1 128 r))))))).
Proof.
  intros Hr. unfold ntt.
  rewrite (ntt_outer_level 8 1 0 128), (ntt_outer_level 7 2 1 64), (ntt_outer_level 6 4 3 32),
    (ntt_outer_level 5 8 7 16), (ntt_outer_level 4 16 15 8), (ntt_outer_level 3 32 31 4),
    (ntt_outer_level 2 64 63 2), (ntt_outer_level 1 128 127 1) by (lia || lenN).
  done.
Qed.

(** ** Forward: bounds and the ideal transform *)

Abbreviation slev := (slevel zt).
Abbreviation silev := (silevel zt).

Lemma dsa_fwd_op_spec len k B b : B <= 2100000000 -> bounded B b ->
  bounded (B + 8380416) (fwd_op len k b) /\ fwd_op len k b ≡v split_op zt len k b.
Proof.
  intros HB Hb. pose proof (bounded_take B len b Hb) as Hlo. pose proof (bounded_drop B len b Hb) as Hhi.
  unfold fwd_op, bfly, split_op, proj, vadd. rewrite !vscale_zip.
  assert (Hf : forall y, - B <= y <= B -> montgomery_reduce (zeta k * y) ≡q zt k * y /\
      - 8380416 <= montgomery_reduce (zeta k * y) <= 8380416)
    by (intros y Hy; apply mont_mul; [apply zeta_range | unfold in32; lia]).
  split.
  - apply bounded_app; eapply bounded_zip_with; try done; intros x y Hx Hy;
      destruct (Hf y Hy) as [_ ?]; rewrite i32_in; unfold in32; lia.
  - apply app_eqv; eapply zip_with_eqv_bounded; try done; intros x y Hx Hy;
      destruct (Hf y Hy) as [E ?]; rewrite i32_in by (unfold in32; lia); rewrite E; apply eqq_eq; ring.
Qed.
Lemma dsa_level_spec n k len r s B : B <= 2100000000 -> bounded B r /\ r ≡v s ->
  bounded (B + 8380416) (level n k len r) /\ level n k len r ≡v slev n k len s.
Proof.
  intros HB [Hb E]. destruct (blocks_spec (fwd_op len) (split_op zt len) (fun k => k + 1)%nat (2 * len) B (B + 8380416) n
    (fun k b => dsa_fwd_op_spec len k B b HB) k r Hb) as [Hb' E'].
  split; [exact Hb'|]. transitivity (slev n k len r); [exact E' | rewrite E; reflexivity].
Qed.

(** The ideal transform. *)
Definition nt (r : list Z) : list Z :=
  slev 128 128 1 (slev 64 64 2 (slev 32 32 4 (slev 16 16 8 (slev 8 8 16 (slev 4 4 32 (slev 2 2 64
    (slev 1 1 128 r))))))).

#[export] Instance nt_eqv : Proper (eqv ==> eqv) nt.
Proof. intros l k H. unfold nt. rewrite H. reflexivity. Qed.

(** Eight levels grow the coefficients by at most 8 (q - 1). *)
Lemma ntt_spec r B : length r = 256%nat -> B <= 2000000000 -> bounded B r ->
  ntt r ≡v nt r /\ bounded (B + 67043328) (ntt r) /\ length (ntt r) = 256%nat.
Proof.
  intros Hr HB Hb. rewrite dsa_ntt_levels by done.
  enough (H : bounded (B + 67043328) (level 128 128 1 (level 64 64 2 (level 32 32 4 (level 16 16 8 (level 8 8 16
      (level 4 4 32 (level 2 2 64 (level 1 1 128 r)))))))) /\
    level 128 128 1 (level 64 64 2 (level 32 32 4 (level 16 16 8 (level 8 8 16 (level 4 4 32 (level 2 2 64
      (level 1 1 128 r))))))) ≡v nt r) by (split; [apply H | split; [apply H | lenN]]).
  unfold nt. replace (B + 67043328) with (B + 8380416 + 8380416 + 8380416 + 8380416 + 8380416 + 8380416 + 8380416 + 8380416) by lia.
  do 8 (apply dsa_level_spec; [lia|]). split; [exact Hb | reflexivity].
Qed.

(** ** The transform is multiplicative *)

Lemma dsa_table_squares n k : (1 <= k)%nat -> (k + n <= 256)%nat -> square_roots zt n k.
Proof.
  intros Hk Hn i Hi. assert (H : forallb (fun k => bool_decide (zt k * zt k ≡q root_of zt k)) (seq 1 255) = true)
    by (vm_compute; reflexivity).
  rewrite forallb_forall in H. specialize (H i). rewrite in_seq in H.
  eapply bool_decide_eq_true_1, H. lia.
Qed.

Lemma length_slev n k len r : (n * (2 * len) = 256)%nat -> length r = 256%nat -> length (slev n k len r) = 256%nat.
Proof. intros Hn Hr. rewrite length_slevel; lia. Qed.
Ltac slenN := repeat (apply length_slev; [reflexivity|]); assumption.
Lemma length_nt_dsa r : length r = 256%nat -> length (nt r) = 256%nat.
Proof. intros Hr. unfold nt. slenN. Qed.

(** The coefficientwise product. *)
Definition vmul (a b : list Z) : list Z := zip_with Z.mul a b.
#[export] Instance vmul_eqv : Proper (eqv ==> eqv ==> eqv) vmul.
Proof. apply zip_with_eqv, _. Qed.

Lemma block_products_1 n : forall k a b, length a = n -> length b = n -> block_products zt n k 1 a b = vmul a b.
Proof.
  induction n as [|n IH]; intros k [|x a] [|y b] Ha Hb; try done. cbn [block_products].
  change (take 1 (x :: a)) with [x]. change (take 1 (y :: b)) with [y].
  change (drop 1 (x :: a)) with a. change (drop 1 (y :: b)) with b.
  rewrite IH by (cbn in Ha, Hb; lia). unfold mulx, vmul. cbn. f_equal. ring.
Qed.

Lemma nt_vmul a b : length a = 256%nat -> length b = 256%nat -> nt (mulmod (-1) a b) ≡v vmul (nt a) (nt b).
Proof.
  intros Ha Hb. assert (E : mulmod (-1) a b = block_products zt 1 1 (2 * 128) a b).
  { cbn [block_products]. rewrite app_nil_r, !take_ge by (cbn; lia). done. }
  rewrite <- (block_products_1 256 256) by (apply length_nt_dsa; done).
  unfold nt. rewrite E.
  rewrite (slevel_mul zt 1 1 128), (slevel_mul zt 2 2 64), (slevel_mul zt 4 4 32), (slevel_mul zt 8 8 16),
    (slevel_mul zt 16 16 8), (slevel_mul zt 32 32 4), (slevel_mul zt 64 64 2), (slevel_mul zt 128 128 1)
    by (first [apply dsa_table_squares; lia | lia | slenN | rewrite length_slev; done]).
  reflexivity.
Qed.

(** ** Inverse: the loops are levels *)

Definition bwd_op (len k : nat) (b : list Z) : list Z :=
  bfly (fun x y => i32 (x + y)) (fun x y => montgomery_reduce (i32 (- zeta k) * i32 (x - y))) (take len b) (drop len b).
Definition ilevel (n k len : nat) : list Z -> list Z := blocks (bwd_op len) (fun k => k - 1)%nat (2 * len) n k.

Lemma length_bwd len k b : length b = (2 * len)%nat -> length (bwd_op len k b) = (2 * len)%nat.
Proof. intros Hb. unfold bwd_op. rewrite length_bfly; vlen. Qed.

Lemma invntt_inner_bwd len k A b C : length b = (2 * len)%nat ->
  invntt_inner len (length A) len (i32 (- zeta k)) (A ++ b ++ C) = A ++ bwd_op len k b ++ C.
Proof.
  intros Hb. apply (inner_block len _ _ (fun n j r => invntt_inner n j len (i32 (- zeta k)) r)); [done | | done].
  intros n A' x B y C' HB. cbn [invntt_inner].
  rewrite two_nth1, two_nth2, two_set1, two_nth2, two_set2, two_nth2, two_set2 by done. done.
Qed.

Lemma length_ilevel_N n k len r : (n * (2 * len) = 256)%nat -> length r = 256%nat ->
  length (ilevel n k len r) = 256%nat.
Proof. intros Hn Hr. rewrite <- Hn. apply length_blocks; [apply length_bwd | lia]. Qed.
Ltac ilenN := repeat (apply length_ilevel_N; [reflexivity|]); assumption.

Lemma invntt_outer_level f n k len r : (0 < len <= 128)%nat -> (n * (2 * len) = 256)%nat ->
  length r = 256%nat -> invntt_outer (S f) k len r = invntt_outer f (k - n) (len * 2) (ilevel n (k - 1) len r).
Proof.
  intros Hl Hn Hr. cbn [invntt_outer]. change N with 256%nat. rewrite (proj2 (Nat.ltb_lt _ _)) by lia.
  pose proof (mid_blocks (fun k => bwd_op len (k - 1)) (fun k => k - 1)%nat (2 * len) (fun k => length_bwd len (k - 1)) 256
    (fun k j r => invntt_inner len j len (i32 (- zeta (k - 1))) r) (fun fuel j k r => invntt_mid fuel j k len r)) as H.
  specialize (H ltac:(intros fuel start k' r'; cbn [invntt_mid];
      replace (start + 2 * len)%nat with (start + len + len)%nat by lia; done)
    (fun k => invntt_inner_bwd len (k - 1)) n 129%nat [] k r).
  cbn [length app] in H. rewrite H by nia. rewrite iter_sub.
  unfold ilevel. rewrite <- (blocks_shift (bwd_op len) (fun k => k - 1)%nat). done.
Qed.

Lemma invntt_levels_dsa r : length r = 256%nat ->
  invntt_outer 9 256 1 r =
    ilevel 1 1 128 (ilevel 2 3 64 (ilevel 4 7 32 (ilevel 8 15 16 (ilevel 16 31 8 (ilevel 32 63 4
      (ilevel 64 127 2 (ilevel 128 255 1 r))))))).
Proof.
  intros Hr.
  rewrite (invntt_outer_level 8 128 256 1), (invntt_outer_level 7 64 128 2), (invntt_outer_level 6 32 64 4),
    (invntt_outer_level 5 16 32 8), (invntt_outer_level 4 8 16 16), (invntt_outer_level 3 4 8 32),
    (invntt_outer_level 2 2 4 64), (invntt_outer_level 1 1 2 128) by (lia || ilenN).
  done.
Qed.

(** ** Inverse: bounds and the ideal inverse *)

(** Sums double the bound; the differences are reduced below q. *)
Lemma dsa_bwd_op_spec len k B b : 8380416 <= B <= 1073741823 -> bounded B b ->
  bounded (2 * B) (bwd_op len k b) /\ bwd_op len k b ≡v join_op zt len k b.
Proof.
  intros HB Hb. pose proof (bounded_take B len b Hb) as Hlo. pose proof (bounded_drop B len b Hb) as Hhi.
  unfold bwd_op, bfly, join_op. set (lo := take len b) in *. set (hi := drop len b) in *.
  pose proof (zeta_range k) as Hz. rewrite (i32_in (- zeta k)) by (unfold in32; lia).
  assert (Hi : forall x y, - B <= x <= B -> - B <= y <= B -> i32 (x + y) = x + y /\ i32 (x - y) = x - y)
    by (intros; split; apply i32_in; unfold in32; lia).
  split.
  - apply bounded_app; eapply bounded_zip_with; try done; intros x y Hx Hy;
      destruct (Hi x y Hx Hy) as [E1 E2]; rewrite ?E1, ?E2; [lia|].
    destruct (mont_mul (- zeta k) (x - y)) as [_ ?]; [lia | unfold in32; lia | lia].
  - apply app_eqv.
    + apply (zip_with_eqv_bounded _ _ B B); try done. intros x y Hx Hy.
      destruct (Hi x y Hx Hy) as [-> _]. reflexivity.
    + rewrite vscale_vsub_zip. apply (zip_with_eqv_bounded _ _ B B); try done. intros x y Hx Hy.
      destruct (Hi x y Hx Hy) as [_ ->].
      destruct (mont_mul (- zeta k) (x - y)) as [E _]; [lia | unfold in32; lia |].
      rewrite E. apply eqq_eq. unfold zt. ring.
Qed.
Lemma ilevel_spec_dsa n k len r s B : 8380416 <= B <= 1073741823 -> bounded B r /\ r ≡v s ->
  bounded (2 * B) (ilevel n k len r) /\ ilevel n k len r ≡v silev n k len s.
Proof.
  intros HB [Hb E]. destruct (blocks_spec (bwd_op len) (join_op zt len) (fun k => k - 1)%nat (2 * len) B (2 * B) n
    (fun k b => dsa_bwd_op_spec len k B b HB) k r Hb) as [Hb' E'].
  split; [exact Hb'|]. transitivity (silev n k len r); [exact E' | rewrite E; reflexivity].
Qed.

(** The ideal inverse, without the final scaling. *)
Definition it (r : list Z) : list Z :=
  silev 1 1 128 (silev 2 3 64 (silev 4 7 32 (silev 8 15 16 (silev 16 31 8 (silev 32 63 4
    (silev 64 127 2 (silev 128 255 1 r))))))).

#[export] Instance it_eqv : Proper (eqv ==> eqv) it.
Proof. intros l k H. unfold it. rewrite H. reflexivity. Qed.

(** The factor of the last loop is 2^32 / 256. *)
Definition inv_scale : Z := invntt_f * RINV.
Lemma inv_scale_256 : 256 * inv_scale ≡q 4294967296.
Proof. reflexivity. Qed.

Lemma invntt_spec r : length r = 256%nat -> bounded 8380416 r ->
  invntt_tomont r ≡v vscale inv_scale (it r) /\ bounded 4211197 (invntt_tomont r) /\ length (invntt_tomont r) = 256%nat.
Proof.
  intros Hr Hb. unfold invntt_tomont. rewrite invntt_levels_dsa by done.
  assert (H : bounded 2145386496 (ilevel 1 1 128 (ilevel 2 3 64 (ilevel 4 7 32 (ilevel 8 15 16 (ilevel 16 31 8 (ilevel 32 63 4
      (ilevel 64 127 2 (ilevel 128 255 1 r)))))))) /\
    ilevel 1 1 128 (ilevel 2 3 64 (ilevel 4 7 32 (ilevel 8 15 16 (ilevel 16 31 8 (ilevel 32 63 4
      (ilevel 64 127 2 (ilevel 128 255 1 r))))))) ≡v it r).
  { unfold it. change 2145386496 with (2 * (2 * (2 * (2 * (2 * (2 * (2 * (2 * 8380416)))))))).
    do 8 (apply ilevel_spec_dsa; [lia|]). split; [exact Hb | reflexivity]. }
  assert (Hl : length (ilevel 1 1 128 (ilevel 2 3 64 (ilevel 4 7 32 (ilevel 8 15 16 (ilevel 16 31 8 (ilevel 32 63 4
      (ilevel 64 127 2 (ilevel 128 255 1 r)))))))) = 256%nat) by ilenN.
  revert H Hl. generalize (ilevel 1 1 128 (ilevel 2 3 64 (ilevel 4 7 32 (ilevel 8 15 16 (ilevel 16 31 8 (ilevel 32 63 4
      (ilevel 64 127 2 (ilevel 128 255 1 r)))))))). intros x [Hx E] Hl.
  assert (Hm : forall y, - 2145386496 <= y <= 2145386496 ->
    montgomery_reduce (invntt_f * y) ≡q inv_scale * y /\ - 4211197 <= montgomery_reduce (invntt_f * y) <= 4211197).
  { intros y Hy. unfold invntt_f. split.
    - rewrite (montgomery_mod _ (41978 * 2145386496)) by (unfold Q; lia). apply eqq_eq. unfold inv_scale, invntt_f. ring.
    - destruct (dsa_montgomery_spec (41978 * y) (41978 * 2145386496)) as [_ H]; [unfold Q; lia | lia|]. unfold Q in H. lia. }
  split; [|split; [|rewrite length_map; done]].
  - rewrite <- E. unfold vscale. eapply map_eqv_bounded; [exact Hx|]. intros y Hy. apply Hm, Hy.
  - eapply bounded_map; [exact Hx|]. intros y Hy. apply Hm, Hy.
Qed.

(** ** The two are inverse, up to 256 *)

Abbreviation sizes := [1; 2; 4; 8; 16; 32; 64; 128]%nat.

Lemma dsa_paired n : In n sizes -> paired zt n n (2 * n - 1).
Proof.
  intros Hn i Hi.
  assert (H : forallb (fun n => forallb (fun i => bool_decide (zt (2 * n - 1 - i) * zt (n + i) ≡q -1)) (seq 0 n))
                sizes = true) by (vm_compute; reflexivity).
  rewrite forallb_forall in H. specialize (H n Hn).
  rewrite forallb_forall in H. eapply bool_decide_eq_true_1, H. apply in_seq. lia.
Qed.

Lemma nt_vadd_dsa l r : length l = 256%nat -> length r = 256%nat -> nt (vadd l r) = vadd (nt l) (nt r).
Proof.
  intros Hl Hr. unfold nt.
  rewrite !slevel_vadd by (first [done | slenN | rewrite length_slev; done]). done.
Qed.
Lemma nt_vscale_dsa c r : nt (vscale c r) = vscale c (nt r).
Proof. unfold nt. rewrite !slevel_vscale. done. Qed.
Lemma it_vscale_dsa c r : it (vscale c r) = vscale c (it r).
Proof. unfold it. rewrite !silevel_vscale. done. Qed.

Lemma length_silev n k len r : (n * (2 * len) = 256)%nat -> length r = 256%nat -> length (silev n k len r) = 256%nat.
Proof. intros Hn Hr. rewrite length_silevel; lia. Qed.
Ltac silenN := repeat (apply length_silev; [reflexivity|]); assumption.
Lemma length_it_dsa r : length r = 256%nat -> length (it r) = 256%nat.
Proof. intros Hr. unfold it. silenN. Qed.

Lemma silev_slev n len c x : In n sizes -> (n * (2 * len) = 256)%nat -> length x = 256%nat ->
  silev n (2 * n - 1) len (vscale c (slev n n len x)) ≡v vscale (2 * c) x.
Proof.
  intros Hn Hl Hx. rewrite silevel_vscale, (silevel_slevel zt n n (2 * n - 1)) by (try apply dsa_paired; done || lia).
  rewrite vscale_vscale. apply eq_subrelation; [apply _|]. f_equal. lia.
Qed.
Lemma slev_silev n len c x : In n sizes -> (n * (2 * len) = 256)%nat -> length x = 256%nat ->
  slev n n len (vscale c (silev n (2 * n - 1) len x)) ≡v vscale (2 * c) x.
Proof.
  intros Hn Hl Hx. rewrite slevel_vscale, (slevel_silevel zt n n (2 * n - 1)) by (try apply dsa_paired; done || lia).
  rewrite vscale_vscale. apply eq_subrelation; [apply _|]. f_equal. lia.
Qed.

Ltac level_side :=
  lazymatch goal with
  | |- In _ _ => cbn; tauto
  | |- length _ = _ => first [slenN | silenN]
  | |- _ => reflexivity
  end.

Lemma it_nt_dsa r : length r = 256%nat -> it (nt r) ≡v vscale 256 r.
Proof.
  intros Hr. unfold it, nt. rewrite <- (vscale_1 (slev 128 128 1 _)).
  rewrite (silev_slev 128 1), (silev_slev 64 2), (silev_slev 32 4), (silev_slev 16 8), (silev_slev 8 16),
    (silev_slev 4 32), (silev_slev 2 64), (silev_slev 1 128) by level_side.
  reflexivity.
Qed.
Lemma nt_it_dsa r : length r = 256%nat -> nt (it r) ≡v vscale 256 r.
Proof.
  intros Hr. unfold it, nt. rewrite <- (vscale_1 (silev 1 1 128 _)).
  rewrite (slev_silev 1 128), (slev_silev 2 64), (slev_silev 4 32), (slev_silev 8 16), (slev_silev 16 8),
    (slev_silev 32 4), (slev_silev 64 2), (slev_silev 128 1) by level_side.
  reflexivity.
Qed.

(** Transforming back a product left with the factor 2^-32: its transform is the product. *)
Lemma nt_invntt_dsa a y : length a = 256%nat -> bounded 8380416 a -> a ≡v vscale RINV y -> length y = 256%nat ->
  nt (invntt_tomont a) ≡v y.
Proof.
  intros Ha Hb E Hy. destruct (invntt_spec a Ha Hb) as (E' & _ & _).
  rewrite E', E, it_vscale_dsa, vscale_vscale, nt_vscale_dsa, nt_it_dsa, vscale_vscale by done.
  assert (Hs : inv_scale * RINV * 256 ≡q 1).
  { transitivity (256 * inv_scale * RINV); [apply eqq_eq; ring|]. rewrite inv_scale_256. apply R_RINV_dsa. }
  rewrite Hs, vscale_1. reflexivity.
Qed.

(** The transform is injective modulo q. *)
Lemma nt_inj_dsa x y : length x = 256%nat -> length y = 256%nat -> nt x ≡v nt y -> x ≡v y.
Proof.
  intros Hx Hy H. assert (E : vscale 256 x ≡v vscale 256 y) by (rewrite <- !it_nt_dsa by done; rewrite H; reflexivity).
  assert (E' : forall l, vscale 8347681 (vscale 256 l) ≡v l).
  { intros l. rewrite vscale_vscale. transitivity (vscale 1 l); [|rewrite vscale_1; reflexivity].
    apply vscale_eqv; [reflexivity | reflexivity]. }
  rewrite <- (E' x), E. apply E'.
Qed.
