(* ===== verification/DsaRoundFacts.v ===== *)
(** * Rounding and hints of ML-DSA-44

    [power2round] and [decompose] split a coefficient as FIPS 204 says; the hint bit that a
    signer computes from the low and high parts lets a verifier recover the high part from
    a coefficient it can compute, whatever small amount has been moved. *)
From stdpp Require Import base numbers list option.
From Stdlib Require Import ZArith Lia.
From S2P Require Import Prelude PolyRing Transform BlockCodec DsaNtt DsaNttFacts.

Lemma gamma2_eq : GAMMA2 = 95232.
Proof. reflexivity. Qed.

(** ** Splitting by 2^13 *)

(** Beyond the representatives 0 .. q-1 the function is exact on a little more. *)
Lemma power2round_spec a : 0 <= a < Q -> let '(a1, a0) := power2round a in
  a = a1 * 8192 + a0 /\ 0 <= a1 < 1024 /\ - 4096 < a0 <= 4096.
Proof.
  unfold Q. intros Ha. unfold power2round. change (Z.shiftl 1 (D - 1)) with 4096. change D with 13.
  rewrite (i32_in (a + 4096)), (i32_in (a + 4096 - 1)) by (unfold in32; lia).
  rewrite shiftr_div by lia. change (2 ^ 13) with 8192.
  set (a1 := (a + 4096 - 1) / 8192). assert (H : 8192 * a1 <= a + 4096 - 1 < 8192 * a1 + 8192) by (unfold a1; dlia).
  rewrite Z.shiftl_mul_pow2 by lia. change (2 ^ 13) with 8192.
  rewrite (i32_in (a1 * 8192)), (i32_in (a - a1 * 8192)) by (unfold in32; lia). lia.
Qed.

(** ** Splitting by 2 * GAMMA2 *)

(** The multiplication by 11275 and shift by 24 is the rounded quotient by 2 * GAMMA2. *)
Lemma decompose_quotient a : 0 <= a < Q ->
  Z.shiftr (i32 (i32 (Z.shiftr (i32 (a + 127)) 7 * 11275) + Z.shiftl 1 23)) 24 = (a + 95231) / 190464.
Proof.
  unfold Q. intros Ha. change (Z.shiftl 1 23) with 8388608.
  rewrite (i32_in (a + 127)) by (unfold in32; lia). rewrite (shiftr_div _ 7) by lia. change (2 ^ 7) with 128.
  set (c := (a + 127) / 128). assert (Hc : 128 * c <= a + 127 < 128 * c + 128) by (unfold c; dlia).
  rewrite (i32_in (c * 11275)), (i32_in (c * 11275 + 8388608)) by (unfold in32; lia).
  rewrite shiftr_div by lia. change (2 ^ 24) with 16777216.
  set (n := (a + 95231) / 190464). assert (Hn : 190464 * n <= a + 95231 < 190464 * n + 190464) by (unfold n; dlia).
  symmetry. apply (Z.div_unique_pos _ _ _ (c * 11275 + 8388608 - 16777216 * n)); lia.
Qed.

(** The specification of FIPS 204, with the exception for the last interval. *)
Definition decomposed (a a1 a0 : Z) : Prop :=
  0 <= a1 < 44 /\
  (a = a1 * 190464 + a0 /\ - 95232 < a0 <= 95232 \/
   a1 = 0 /\ a0 = a - Q /\ - 95232 <= a0 < 0).

Lemma decompose_spec a : 0 <= a < Q -> let '(a1, a0) := decompose a in decomposed a a1 a0.
Proof.
  intros Ha. unfold decompose. rewrite decompose_quotient by done. unfold Q in Ha.
  set (n := (a + 95231) / 190464). assert (Hn : 190464 * n <= a + 95231 < 190464 * n + 190464) by (unfold n; dlia).
  rewrite (i32_in (43 - n)) by (unfold in32; lia). rewrite (shiftr_div (43 - n)) by lia. change (2 ^ 31) with 2147483648.
  change ((Q - 1) / 2) with 4190208. rewrite gamma2_eq. unfold decomposed, Q.
  destruct (decide (n <= 43)).
  - assert (E : (43 - n) / 2147483648 = 0) by dlia. rewrite E, Z.land_0_l, Z.lxor_0_r.
    rewrite (i32_in (n * 2)), (i32_in (n * 2 * 95232)), (i32_in (a - n * 2 * 95232)) by (unfold in32; lia).
    rewrite (i32_in (4190208 - _)), shiftr_div by (unfold in32; lia). change (2 ^ 31) with 2147483648.
    assert (E' : (4190208 - (a - n * 2 * 95232)) / 2147483648 = 0) by dlia. rewrite E', Z.land_0_l.
    rewrite i32_in by (unfold in32; lia). lia.
  - assert (n = 44) as -> by lia. assert (E : (43 - 44) / 2147483648 = -1) by reflexivity.
    rewrite E, Z.land_m1_l, Z.lxor_nilpotent. change (i32 (0 * 2)) with 0. change (i32 (0 * 95232)) with 0.
    rewrite Z.sub_0_r, (i32_in a) by (unfold in32; lia).
    rewrite (i32_in (4190208 - a)), shiftr_div by (unfold in32; lia). change (2 ^ 31) with 2147483648.
    assert (E' : (4190208 - a) / 2147483648 = -1) by dlia. rewrite E', Z.land_m1_l.
    rewrite i32_in by (unfold in32; lia). lia.
Qed.

(** The decomposition is unique. *)
Lemma decomposed_unique a a1 a0 b1 b0 : 0 <= a < Q -> decomposed a a1 a0 -> decomposed a b1 b0 -> a1 = b1 /\ a0 = b0.
Proof. unfold decomposed, Q. intros Ha H H'. lia. Qed.

Lemma decompose_eq a a1 a0 : 0 <= a < Q -> decomposed a a1 a0 -> decompose a = (a1, a0).
Proof.
  intros Ha H. pose proof (decompose_spec a Ha) as H'. destruct (decompose a) as [b1 b0].
  destruct (decomposed_unique a a1 a0 b1 b0 Ha H H') as [-> ->]. done.
Qed.

(** ** Hints *)

(** The verifier's coefficient [v] is congruent to [w1 * 2 * GAMMA2 + x]; from [v] and the
    hint on [x] and [w1] it recovers [w1]. *)
Lemma use_make_hint v w1 x : 0 <= v < Q -> 0 <= w1 < 44 -> - 190464 < x < 190464 ->
  v ≡q w1 * 190464 + x -> use_hint v (make_hint x w1) = w1.
Proof.
  intros Hv Hw Hx E. apply modq_iff in E as [k E]. unfold Q in Hv, E.
  unfold use_hint, make_hint. rewrite gamma2_eq. change (- (95232)) with (-95232).
  assert (Hd : exists d1 d0, decompose v = (d1, d0) /\ decomposed v d1 d0).
  { pose proof (decompose_spec v Hv) as H. destruct (decompose v) as [d1 d0]. eauto. }
  destruct Hd as (d1 & d0 & -> & Hd). unfold decomposed, Q in Hd.
  destruct (Z.ltb_spec 95232 x), (Z.ltb_spec x (-95232)), (Z.eqb_spec x (-95232)), (Z.eqb_spec w1 0);
    cbn [orb andb negb]; cbn iota; try change (1 =? 0) with false; try change (0 =? 0) with true; cbn iota;
    try (destruct (Z.ltb_spec 0 d0); [destruct (Z.eqb_spec d1 43) | destruct (Z.eqb_spec d1 0)]); lia.
Qed.

(** C18: hints.  For every coefficient r in 0 .. q-1 [decompose] returns high bits r1 in
    0 .. 43 and low bits r0 with r = r1 * 2 * GAMMA2 + r0 and r0 in -GAMMA2+1 .. GAMMA2,
    except that on the last GAMMA2 representatives r1 is 0 and r0 is r - q, in -GAMMA2 .. -1; and
    for every x with |x| < 2 * GAMMA2, using the hint [make_hint] gives for r0 + x and r1
    on the representative of r + x recovers r1, as long as r0 + x stays below 2 * GAMMA2. *)
Theorem hint_recovers_high_bits (r x : Z) :
  0 <= r < Q -> let '(r1, r0) := decompose r in
  decomposed r r1 r0 /\
  (- 2 * GAMMA2 < r0 + x < 2 * GAMMA2 -> use_hint ((r + x) mod Q) (make_hint (r0 + x) r1) = r1).
Proof.
  intros Hr. pose proof (decompose_spec r Hr) as H. destruct (decompose r) as [r1 r0]. split; [exact H|].
  rewrite gamma2_eq. intros Hx. pose proof H as [H1 H']. apply use_make_hint; [apply Z.mod_pos_bound; done | done | lia |].
  unfold eqq. unfold modulus, dsa_modulus. rewrite Z.mod_mod by done.
  apply (proj2 (modq_iff _ _)). destruct H' as [[-> _]|(-> & -> & _)]; [exists 0; lia | exists 1; lia].
Qed.

Lemma hint_recovers_high_bits_witness :
  decompose 8285186 = (0, -95231) /\ use_hint ((8285186 + -50000) mod Q) (make_hint (-95231 + -50000) 0) = 0.
Proof.
  assert (Hr : 0 <= 8285186 < Q) by (vm_compute; split; congruence).
  split; [reflexivity|].
  exact (proj2 (hint_recovers_high_bits 8285186 (-50000) Hr) ltac:(vm_compute; split; reflexivity)).
Defined.
