(* ===== verification/DsaPoly.v ===== *)
(** * ML-DSA-44: polynomials and vectors of polynomials

    PQClean/crypto_sign/ml-dsa-44/clean: poly.c and polyvec.c, except the sampling
    functions, which are in Dsa.  A [poly] is the list of its 256 coefficients, a
    [polyvecl] or [polyveck] a list of 4 polynomials.  A loop that writes every
    coefficient (or every byte) of its result once is a map over the indices in the
    order of the loop. *)
From stdpp Require Import base numbers list option.
From Stdlib Require Import ZArith Lia.
From S2P Require Import Prelude DsaNtt.

Definition poly : Type := list Z.
Definition polyvecl : Type := list poly.
Definition polyveck : Type := list poly.
Definition coeff (a : poly) (i : nat) : Z := nth i a 0.
Definition vec (a : list poly) (i : nat) : poly := nth i a [].
Definition byte (a : bytes) (i : nat) : Z := nth i a 0.

(** ** poly.c: arithmetic *)

Definition poly_reduce (a : poly) : poly := map reduce32 a.
Definition poly_caddq (a : poly) : poly := map caddq a.
Definition poly_add (a b : poly) : poly := zip_with (fun x y => i32 (x + y)) a b.
Definition poly_sub (a b : poly) : poly := zip_with (fun x y => i32 (x - y)) a b.
Definition poly_shiftl (a : poly) : poly := map (fun x => i32 (Z.shiftl x D)) a.
Definition poly_ntt (a : poly) : poly := ntt a.
Definition poly_invntt_tomont (a : poly) : poly := invntt_tomont a.
Definition poly_pointwise_montgomery (a b : poly) : poly := zip_with (fun x y => montgomery_reduce (x * y)) a b.

(** ** poly.c: rounding *)

(** High parts, then low parts. *)
Definition poly_power2round (a : poly) : poly * poly :=
  (map (fun x => fst (power2round x)) a, map (fun x => snd (power2round x)) a).
Definition poly_decompose (a : poly) : poly * poly :=
  (map (fun x => fst (decompose x)) a, map (fun x => snd (decompose x)) a).

(** The hints and their sum. *)
Definition poly_make_hint (a0 a1 : poly) : poly * Z :=
  let h := zip_with make_hint a0 a1 in
  (h, fold_left (fun s x => u32 (s + x)) h 0).
Definition poly_use_hint (a h : poly) : poly := zip_with use_hint a h.

(** The absolute value, without a branch on the sign. *)
Definition chk_abs (x : Z) : Z :=
  let t := Z.shiftr x 31 in
  i32 (x - Z.land t (i32 (2 * x))).
(** [true] is the return value 1. *)
Definition poly_chknorm (a : poly) (B : Z) : bool :=
  if (Q - 1) / 8 <? B then true
  else existsb (fun x => B <=? chk_abs x) a.

(** ** poly.c: bit packing *)

(** Each loop body encodes or decodes one block. *)
Definition polyeta_pack_block (c : nat -> Z) : bytes :=
  let t j := u8 (ETA - c j) in
  let t0 := t 0%nat in let t1 := t 1%nat in let t2 := t 2%nat in let t3 := t 3%nat in
  let t4 := t 4%nat in let t5 := t 5%nat in let t6 := t 6%nat in let t7 := t 7%nat in
  [u8 (Z.lor (Z.lor t0 (Z.shiftl t1 3)) (Z.shiftl t2 6));
   u8 (Z.lor (Z.lor (Z.lor (Z.shiftr t2 2) (Z.shiftl t3 1)) (Z.shiftl t4 4)) (Z.shiftl t5 7));
   u8 (Z.lor (Z.lor (Z.shiftr t5 1) (Z.shiftl t6 2)) (Z.shiftl t7 5))].
Definition polyeta_pack (a : poly) : bytes :=
  flat_map (fun i => polyeta_pack_block (fun j => coeff a (8 * i + j))) (seq 0 (N / 8)).

Definition polyeta_unpack_block (b : nat -> Z) : list Z :=
  let b0 := b 0%nat in let b1 := b 1%nat in let b2 := b 2%nat in
  map (fun c => ETA - c)
    [Z.land b0 7; Z.land (Z.shiftr b0 3) 7; Z.land (Z.lor (Z.shiftr b0 6) (Z.shiftl b1 2)) 7;
     Z.land (Z.shiftr b1 1) 7; Z.land (Z.shiftr b1 4) 7; Z.land (Z.lor (Z.shiftr b1 7) (Z.shiftl b2 1)) 7;
     Z.land (Z.shiftr b2 2) 7; Z.land (Z.shiftr b2 5) 7].
Definition polyeta_unpack (a : bytes) : poly :=
  flat_map (fun i => polyeta_unpack_block (fun j => byte a (3 * i + j))) (seq 0 (N / 8)).

Definition polyt1_pack_block (c : nat -> Z) : bytes :=
  let c0 := c 0%nat in let c1 := c 1%nat in let c2 := c 2%nat in let c3 := c 3%nat in
  [u8 c0; u8 (Z.lor (Z.shiftr c0 8) (i32 (Z.shiftl c1 2))); u8 (Z.lor (Z.shiftr c1 6) (i32 (Z.shiftl c2 4)));
   u8 (Z.lor (Z.shiftr c2 4) (i32 (Z.shiftl c3 6))); u8 (Z.shiftr c3 2)].
Definition polyt1_pack (a : poly) : bytes :=
  flat_map (fun i => polyt1_pack_block (fun j => coeff a (4 * i + j))) (seq 0 (N / 4)).

Definition polyt1_unpack_block (b : nat -> Z) : list Z :=
  let b0 := b 0%nat in let b1 := b 1%nat in let b2 := b 2%nat in let b3 := b 3%nat in let b4 := b 4%nat in
  [Z.land (Z.lor b0 (Z.shiftl b1 8)) 0x3FF; Z.land (Z.lor (Z.shiftr b1 2) (Z.shiftl b2 6)) 0x3FF;
   Z.land (Z.lor (Z.shiftr b2 4) (Z.shiftl b3 4)) 0x3FF; Z.land (Z.lor (Z.shiftr b3 6) (Z.shiftl b4 2)) 0x3FF].
Definition polyt1_unpack (a : bytes) : poly :=
  flat_map (fun i => polyt1_unpack_block (fun j => byte a (5 * i + j))) (seq 0 (N / 4)).

Definition polyt0_pack_block (c : nat -> Z) : bytes :=
  let t j := u32 (Z.shiftl 1 (D - 1) - c j) in
  let t0 := t 0%nat in let t1 := t 1%nat in let t2 := t 2%nat in let t3 := t 3%nat in
  let t4 := t 4%nat in let t5 := t 5%nat in let t6 := t 6%nat in let t7 := t 7%nat in
  [u8 t0;
   Z.lor (u8 (Z.shiftr t0 8)) (u8 (Z.shiftl t1 5));
   u8 (Z.shiftr t1 3);
   Z.lor (u8 (Z.shiftr t1 11)) (u8 (Z.shiftl t2 2));
   Z.lor (u8 (Z.shiftr t2 6)) (u8 (Z.shiftl t3 7));
   u8 (Z.shiftr t3 1);
   Z.lor (u8 (Z.shiftr t3 9)) (u8 (Z.shiftl t4 4));
   u8 (Z.shiftr t4 4);
   Z.lor (u8 (Z.shiftr t4 12)) (u8 (Z.shiftl t5 1));
   Z.lor (u8 (Z.shiftr t5 7)) (u8 (Z.shiftl t6 6));
   u8 (Z.shiftr t6 2);
   Z.lor (u8 (Z.shiftr t6 10)) (u8 (Z.shiftl t7 3));
   u8 (Z.shiftr t7 5)].
Definition polyt0_pack (a : poly) : bytes :=
  flat_map (fun i => polyt0_pack_block (fun j => coeff a (8 * i + j))) (seq 0 (N / 8)).

Definition polyt0_unpack_block (b : nat -> Z) : list Z :=
  let b0 := b 0%nat in let b1 := b 1%nat in let b2 := b 2%nat in let b3 := b 3%nat in
  let b4 := b 4%nat in let b5 := b 5%nat in let b6 := b 6%nat in let b7 := b 7%nat in
  let b8 := b 8%nat in let b9 := b 9%nat in let b10 := b 10%nat in let b11 := b 11%nat in
  let b12 := b 12%nat in
  map (fun c => Z.shiftl 1 (D - 1) - c)
    [Z.land (Z.lor b0 (Z.shiftl b1 8)) 0x1FFF;
     Z.land (Z.lor (Z.lor (Z.shiftr b1 5) (Z.shiftl b2 3)) (Z.shiftl b3 11)) 0x1FFF;
     Z.land (Z.lor (Z.shiftr b3 2) (Z.shiftl b4 6)) 0x1FFF;
     Z.land (Z.lor (Z.lor (Z.shiftr b4 7) (Z.shiftl b5 1)) (Z.shiftl b6 9)) 0x1FFF;
     Z.land (Z.lor (Z.lor (Z.shiftr b6 4) (Z.shiftl b7 4)) (Z.shiftl b8 12)) 0x1FFF;
     Z.land (Z.lor (Z.shiftr b8 1) (Z.shiftl b9 7)) 0x1FFF;
     Z.land (Z.lor (Z.lor (Z.shiftr b9 6) (Z.shiftl b10 2)) (Z.shiftl b11 10)) 0x1FFF;
     Z.land (Z.lor (Z.shiftr b11 3) (Z.shiftl b12 5)) 0x1FFF].
Definition polyt0_unpack (a : bytes) : poly :=
  flat_map (fun i => polyt0_unpack_block (fun j => byte a (13 * i + j))) (seq 0 (N / 8)).

Definition polyz_pack_block (c : nat -> Z) : bytes :=
  let t j := u32 (GAMMA1 - c j) in
  let t0 := t 0%nat in let t1 := t 1%nat in let t2 := t 2%nat in let t3 := t 3%nat in
  [u8 t0; u8 (Z.shiftr t0 8); Z.lor (u8 (Z.shiftr t0 16)) (u8 (Z.shiftl t1 2));
   u8 (Z.shiftr t1 6); Z.lor (u8 (Z.shiftr t1 14)) (u8 (Z.shiftl t2 4));
   u8 (Z.shiftr t2 4); Z.lor (u8 (Z.shiftr t2 12)) (u8 (Z.shiftl t3 6));
   u8 (Z.shiftr t3 2); u8 (Z.shiftr t3 10)].
Definition polyz_pack (a : poly) : bytes :=
  flat_map (fun i => polyz_pack_block (fun j => coeff a (4 * i + j))) (seq 0 (N / 4)).

Definition polyz_unpack_block (b : nat -> Z) : list Z :=
  let b0 := b 0%nat in let b1 := b 1%nat in let b2 := b 2%nat in let b3 := b 3%nat in
  let b4 := b 4%nat in let b5 := b 5%nat in let b6 := b 6%nat in let b7 := b 7%nat in let b8 := b 8%nat in
  map (fun c => GAMMA1 - c)
    [Z.land (Z.lor (Z.lor b0 (Z.shiftl b1 8)) (Z.shiftl b2 16)) 0x3FFFF;
     Z.land (Z.lor (Z.lor (Z.shiftr b2 2) (Z.shiftl b3 6)) (Z.shiftl b4 14)) 0x3FFFF;
     Z.land (Z.lor (Z.lor (Z.shiftr b4 4) (Z.shiftl b5 4)) (Z.shiftl b6 12)) 0x3FFFF;
     Z.land (Z.lor (Z.lor (Z.shiftr b6 6) (Z.shiftl b7 2)) (Z.shiftl b8 10)) 0x3FFFF].
Definition polyz_unpack (a : bytes) : poly :=
  flat_map (fun i => polyz_unpack_block (fun j => byte a (9 * i + j))) (seq 0 (N / 4)).

Definition polyw1_pack (a : poly) : bytes :=
  flat_map (fun i =>
    let c j := coeff a (4 * i + j) in
    let c0 := c 0%nat in let c1 := c 1%nat in let c2 := c 2%nat in let c3 := c 3%nat in
    [Z.lor (u8 c0) (u8 (Z.shiftl c1 6)); Z.lor (u8 (Z.shiftr c1 2)) (u8 (Z.shiftl c2 4));
     Z.lor (u8 (Z.shiftr c2 4)) (u8 (Z.shiftl c3 2))]) (seq 0 (N / 4)).

(** ** polyvec.c *)

Definition polyvecl_reduce (v : polyvecl) : polyvecl := map poly_reduce v.
Definition polyvecl_add (u v : polyvecl) : polyvecl := zip_with poly_add u v.
Definition polyvecl_ntt (v : polyvecl) : polyvecl := map poly_ntt v.
Definition polyvecl_invntt_tomont (v : polyvecl) : polyvecl := map poly_invntt_tomont v.
Definition polyvecl_pointwise_poly_montgomery (a : poly) (v : polyvecl) : polyvecl :=
  map (poly_pointwise_montgomery a) v.
(** The accumulator starts as the first product; the others are added to it. *)
Definition polyvecl_pointwise_acc_montgomery (u v : polyvecl) : poly :=
  let w := poly_pointwise_montgomery (vec u 0) (vec v 0) in
  fold_left (fun w i => poly_add w (poly_pointwise_montgomery (vec u i) (vec v i))) (seq 1 (L - 1)) w.
Definition polyvecl_chknorm (v : polyvecl) (bound : Z) : bool := existsb (fun p => poly_chknorm p bound) v.

Definition polyveck_reduce (v : polyveck) : polyveck := map poly_reduce v.
Definition polyveck_caddq (v : polyveck) : polyveck := map poly_caddq v.
Definition polyveck_add (u v : polyveck) : polyveck := zip_with poly_add u v.
Definition polyveck_sub (u v : polyveck) : polyveck := zip_with poly_sub u v.
Definition polyveck_shiftl (v : polyveck) : polyveck := map poly_shiftl v.
Definition polyveck_ntt (v : polyveck) : polyveck := map poly_ntt v.
Definition polyveck_invntt_tomont (v : polyveck) : polyveck := map poly_invntt_tomont v.
Definition polyveck_pointwise_poly_montgomery (a : poly) (v : polyveck) : polyveck :=
  map (poly_pointwise_montgomery a) v.
Definition polyveck_chknorm (v : polyveck) (bound : Z) : bool := existsb (fun p => poly_chknorm p bound) v.
Definition polyveck_power2round (v : polyveck) : polyveck * polyveck :=
  (map (fun p => fst (poly_power2round p)) v, map (fun p => snd (poly_power2round p)) v).
Definition polyveck_decompose (v : polyveck) : polyveck * polyveck :=
  (map (fun p => fst (poly_decompose p)) v, map (fun p => snd (poly_decompose p)) v).
Definition polyveck_make_hint (v0 v1 : polyveck) : polyveck * Z :=
  let h := zip_with poly_make_hint v0 v1 in
  (map fst h, fold_left (fun s x => u32 (s + snd x)) h 0).
Definition polyveck_use_hint (v h : polyveck) : polyveck := zip_with poly_use_hint v h.
Definition polyveck_pack_w1 (w1 : polyveck) : bytes := flat_map polyw1_pack w1.

Definition polyvec_matrix_pointwise_montgomery (mat : list polyvecl) (v : polyvecl) : polyveck :=
  map (fun row => polyvecl_pointwise_acc_montgomery row v) mat.
