(* ===== verification/Dsa.v ===== *)
(** * ML-DSA-44: sampling, packing and the signature scheme

    PQClean/crypto_sign/ml-dsa-44/clean: symmetric.h and symmetric-shake.c, the sampling
    functions of poly.c and polyvec.c, packing.c and sign.c.  The calls of fips202.h are
    a class that the Keccak functions implement.

    Four loops have no bound in the code: the two that squeeze one more block until 256
    candidates have been accepted, the rejection in [poly_challenge], and the attempts of
    a signature ([goto rej]).  They run with fuel here, and [None] is "still running".
    [randombytes] is a parameter: it fills a buffer and returns a code that sign.c does not
    look at. *)
From stdpp Require Import base numbers list option.
From Stdlib Require Import ZArith Lia.
From S2P Require Import Prelude Keccak DsaNtt DsaPoly.

(** ** fips202.h and symmetric.h *)

Class Shake := {
  inc128 : Type;                                     (* shake128incctx *)
  inc128_init : inc128;
  inc128_absorb : inc128 -> bytes -> inc128;
  inc128_finalize : inc128 -> inc128;
  inc128_squeeze : nat -> inc128 -> bytes * inc128;
  inc256 : Type;                                     (* shake256incctx *)
  inc256_init : inc256;
  inc256_absorb : inc256 -> bytes -> inc256;
  inc256_finalize : inc256 -> inc256;
  inc256_squeeze : nat -> inc256 -> bytes * inc256;
  hash256 : nat -> bytes -> bytes                    (* shake256 *)
}.

(** The functions of fips202.c. *)
Definition fips202_shake : Shake := {|
  inc128 := keccak_inc;
  inc128_init := shake128_inc_init;
  inc128_absorb := shake128_inc_absorb;
  inc128_finalize := shake128_inc_finalize;
  inc128_squeeze := shake128_inc_squeeze;
  inc256 := keccak_inc;
  inc256_init := shake256_inc_init;
  inc256_absorb := shake256_inc_absorb;
  inc256_finalize := shake256_inc_finalize;
  inc256_squeeze := shake256_inc_squeeze;
  hash256 := shake256
|}.

(** ** poly.c: rejection sampling *)

(** [len] coefficients are still wanted; [buf] is what is left of the buffer. *)
Fixpoint rej_uniform (len : nat) (buf : bytes) : list Z :=
  match buf with
  | b0 :: b1 :: b2 :: buf' =>
      if (0 <? len)%nat then
        let t := Z.land (Z.lor (Z.lor b0 (Z.shiftl b1 8)) (Z.shiftl b2 16)) 0x7FFFFF in
        if t <? Q then t :: rej_uniform (len - 1) buf' else rej_uniform len buf'
      else []
  | _ => []
  end.

(** [t - (205 * t >> 10) * 5] is the remainder modulo 5. *)
Definition eta_mod5 (t : Z) : Z := u32 (t - u32 (Z.shiftr (u32 (205 * t)) 10 * 5)).

Fixpoint rej_eta (len : nat) (buf : bytes) : list Z :=
  match buf with
  | b :: buf' =>
      if (0 <? len)%nat then
        let t0 := Z.land b 0x0F in
        let t1 := Z.shiftr b 4 in
        let r0 := if t0 <? 15 then [i32 (u32 (2 - eta_mod5 t0))] else [] in
        let len := (len - length r0)%nat in
        let r1 := if (t1 <? 15) && (0 <? len)%nat then [i32 (u32 (2 - eta_mod5 t1))] else [] in
        r0 ++ r1 ++ rej_eta (len - length r1) buf'
      else []
  | [] => []
  end.

Definition STREAM128_BLOCKBYTES : nat := SHAKE128_RATE.
Definition STREAM256_BLOCKBYTES : nat := SHAKE256_RATE.
Definition POLY_UNIFORM_NBLOCKS : nat := (768 + STREAM128_BLOCKBYTES - 1) / STREAM128_BLOCKBYTES.
Definition POLY_UNIFORM_ETA_NBLOCKS : nat := (136 + STREAM256_BLOCKBYTES - 1) / STREAM256_BLOCKBYTES.
Definition POLY_UNIFORM_GAMMA1_NBLOCKS : nat := (POLYZ_PACKEDBYTES + STREAM256_BLOCKBYTES - 1) / STREAM256_BLOCKBYTES.

Section shake.
Context {H : Shake} (fuel : nat).

Definition stream128_init (seed : bytes) (nonce : Z) : inc128 :=
  let t := [u8 nonce; u8 (Z.shiftr nonce 8)] in
  inc128_finalize (inc128_absorb (inc128_absorb inc128_init (take SEEDBYTES seed)) t).
Definition stream256_init (seed : bytes) (nonce : Z) : inc256 :=
  let t := [u8 nonce; u8 (Z.shiftr nonce 8)] in
  inc256_finalize (inc256_absorb (inc256_absorb inc256_init (take CRHBYTES seed)) t).
Definition stream128_squeezeblocks (n : nat) (s : inc128) : bytes * inc128 := inc128_squeeze (n * STREAM128_BLOCKBYTES) s.
Definition stream256_squeezeblocks (n : nat) (s : inc256) : bytes * inc256 := inc256_squeeze (n * STREAM256_BLOCKBYTES) s.

(** The [while (ctr < N)] loop of [poly_uniform]: the bytes that did not make a whole
    candidate are moved to the front of the buffer. *)
Fixpoint uniform_refill (fuel : nat) (coeffs : list Z) (buf : bytes) (state : inc128) : option poly :=
  if (length coeffs <? N)%nat then
    match fuel with
    | O => None
    | S fuel =>
        let off := (length buf mod 3)%nat in
        let '(block, state) := stream128_squeezeblocks 1 state in
        let buf := drop (length buf - off) buf ++ block in
        uniform_refill fuel (coeffs ++ rej_uniform (N - length coeffs) buf) buf state
    end
  else Some coeffs.
Definition poly_uniform (seed : bytes) (nonce : Z) : option poly :=
  let state := stream128_init seed nonce in
  let '(buf, state) := stream128_squeezeblocks POLY_UNIFORM_NBLOCKS state in
  uniform_refill fuel (rej_uniform N buf) buf state.

Fixpoint eta_refill (fuel : nat) (coeffs : list Z) (state : inc256) : option poly :=
  if (length coeffs <? N)%nat then
    match fuel with
    | O => None
    | S fuel =>
        let '(buf, state) := stream256_squeezeblocks 1 state in
        eta_refill fuel (coeffs ++ rej_eta (N - length coeffs) buf) state
    end
  else Some coeffs.
Definition poly_uniform_eta (seed : bytes) (nonce : Z) : option poly :=
  let state := stream256_init seed nonce in
  let '(buf, state) := stream256_squeezeblocks POLY_UNIFORM_ETA_NBLOCKS state in
  eta_refill fuel (rej_eta N buf) state.

Definition poly_uniform_gamma1 (seed : bytes) (nonce : Z) : poly :=
  let state := stream256_init seed nonce in
  let '(buf, _) := stream256_squeezeblocks POLY_UNIFORM_GAMMA1_NBLOCKS state in
  polyz_unpack buf.

(** The buffer of [poly_challenge], the position in it, and the hash state. *)
Abbreviation source := (bytes * nat * inc256)%type.
(** The [do ... while (b > i)] loop. *)
Fixpoint challenge_index (fuel : nat) (i : Z) (s : source) : option (Z * source) :=
  match fuel with
  | O => None
  | S fuel =>
      let '(buf, pos, state) := s in
      let '(buf, pos, state) :=
        if (SHAKE256_RATE <=? pos)%nat then
          let '(buf, state) := inc256_squeeze SHAKE256_RATE state in (buf, 0%nat, state)
        else (buf, pos, state) in
      let b := byte buf pos in
      let pos := S pos in
      if i <? b then challenge_index fuel i (buf, pos, state) else Some (b, (buf, pos, state))
  end.

(** [n] iterations of [for (i = N - TAU; i < N; ++i)] from [i] on. *)
Fixpoint challenge_loop (n i : nat) (c : poly) (signs : Z) (s : source) : option poly :=
  match n with
  | O => Some c
  | S n' =>
      '(b, s) ← challenge_index fuel (Z.of_nat i) s;
      let b := Z.to_nat b in
      let c := <[i := coeff c b]> c in
      let c := <[b := i32 (u64 (1 - 2 * Z.land signs 1))]> c in
      challenge_loop n' (S i) c (Z.shiftr signs 1) s
  end.
Definition poly_challenge (seed : bytes) : option poly :=
  let state := inc256_finalize (inc256_absorb inc256_init (take CTILDEBYTES seed)) in
  let '(buf, state) := inc256_squeeze SHAKE256_RATE state in
  let signs := fold_left (fun s i => Z.lor s (u64 (Z.shiftl (byte buf i) (8 * Z.of_nat i)))) (seq 0 8) 0 in
  challenge_loop TAU (N - TAU) (replicate N 0) signs (buf, 8%nat, state).

(** ** polyvec.c: sampling *)

Definition polyvec_matrix_expand (rho : bytes) : option (list polyvecl) :=
  mapM (fun i => mapM (fun j => poly_uniform rho (u16 (Z.shiftl (Z.of_nat i) 8 + Z.of_nat j))) (seq 0 L)) (seq 0 K).
Definition polyvecl_uniform_eta (seed : bytes) (nonce : nat) : option polyvecl :=
  mapM (fun i => poly_uniform_eta seed (u16 (Z.of_nat i))) (seq nonce L).
Definition polyveck_uniform_eta (seed : bytes) (nonce : nat) : option polyveck :=
  mapM (fun i => poly_uniform_eta seed (u16 (Z.of_nat i))) (seq nonce K).
Definition polyvecl_uniform_gamma1 (seed : bytes) (nonce : Z) : polyvecl :=
  map (fun i => poly_uniform_gamma1 seed (u16 (Z.of_nat L * nonce + Z.of_nat i))) (seq 0 L).
End shake.

(** ** packing.c *)

(** The [n]-th array of [size] bytes. *)
Definition nth_array (a : bytes) (size n : nat) : bytes := drop (n * size) a.

Definition pack_pk (rho : bytes) (t1 : polyveck) : bytes := take SEEDBYTES rho ++ flat_map polyt1_pack t1.
Definition unpack_pk (pk : bytes) : bytes * polyveck :=
  let rho := take SEEDBYTES pk in
  let pk := drop SEEDBYTES pk in
  (rho, map (fun i => polyt1_unpack (nth_array pk POLYT1_PACKEDBYTES i)) (seq 0 K)).

Definition pack_sk (rho tr key : bytes) (t0 : polyveck) (s1 : polyvecl) (s2 : polyveck) : bytes :=
  take SEEDBYTES rho ++ take SEEDBYTES key ++ take TRBYTES tr ++
  flat_map polyeta_pack s1 ++ flat_map polyeta_pack s2 ++ flat_map polyt0_pack t0.

Record secret_key := {
  sk_rho : bytes; sk_tr : bytes; sk_key : bytes;
  sk_t0 : polyveck; sk_s1 : polyvecl; sk_s2 : polyveck
}.
Definition unpack_sk (sk : bytes) : secret_key :=
  let rho := take SEEDBYTES sk in
  let sk := drop SEEDBYTES sk in
  let key := take SEEDBYTES sk in
  let sk := drop SEEDBYTES sk in
  let tr := take TRBYTES sk in
  let sk := drop TRBYTES sk in
  let s1 := map (fun i => polyeta_unpack (nth_array sk POLYETA_PACKEDBYTES i)) (seq 0 L) in
  let sk := drop (L * POLYETA_PACKEDBYTES) sk in
  let s2 := map (fun i => polyeta_unpack (nth_array sk POLYETA_PACKEDBYTES i)) (seq 0 K) in
  let sk := drop (K * POLYETA_PACKEDBYTES) sk in
  let t0 := map (fun i => polyt0_unpack (nth_array sk POLYT0_PACKEDBYTES i)) (seq 0 K) in
  {| sk_rho := rho; sk_tr := tr; sk_key := key; sk_t0 := t0; sk_s1 := s1; sk_s2 := s2 |}.

(** The indices of the non-zero coefficients of one row, written from position [k] on. *)
Definition pack_hint_row (h : poly) (st : bytes * nat) : bytes * nat :=
  fold_left (fun st j => let '(sig, k) := st in
    if coeff h j =? 0 then (sig, k) else (<[k := u8 (Z.of_nat j)]> sig, S k)) (seq 0 N) st.
Definition pack_hints (h : polyveck) : bytes :=
  fst (fold_left (fun st i =>
    let '(sig, k) := pack_hint_row (vec h i) st in
    (<[(OMEGA + i)%nat := u8 (Z.of_nat k)]> sig, k)) (seq 0 K) (replicate (OMEGA + K) 0, 0%nat)).
Definition pack_sig (c : bytes) (z : polyvecl) (h : polyveck) : bytes :=
  take CTILDEBYTES c ++ flat_map polyz_pack z ++ pack_hints h.

(** [for (j = k; j < sig\[OMEGA + i\]; ++j)], [n] iterations from [j] on; [None] is the
    return value 1. *)
Fixpoint unpack_hint_row (sig : bytes) (n j k : nat) (h : poly) : option poly :=
  match n with
  | O => Some h
  | S n' =>
      if (k <? j)%nat && (byte sig j <=? byte sig (j - 1)) then None
      else unpack_hint_row sig n' (S j) k (<[Z.to_nat (byte sig j) := 1]> h)
  end.
(** [n] rows from row [i] on, and the check that the unused positions are zero. *)
Fixpoint unpack_hint_rows (sig : bytes) (n i k : nat) : option polyveck :=
  match n with
  | O => if existsb (fun j => negb (byte sig j =? 0)) (seq k (OMEGA - k)) then None else Some []
  | S n' =>
      let e := byte sig (OMEGA + i) in
      if (e <? Z.of_nat k) || (Z.of_nat OMEGA <? e) then None
      else
        h ← unpack_hint_row sig (Z.to_nat e - k) k k (replicate N 0);
        hs ← unpack_hint_rows sig n' (S i) (Z.to_nat e);
        Some (h :: hs)
  end.
Definition unpack_sig (sig : bytes) : option (bytes * polyvecl * polyveck) :=
  let c := take CTILDEBYTES sig in
  let sig := drop CTILDEBYTES sig in
  let z := map (fun i => polyz_unpack (nth_array sig POLYZ_PACKEDBYTES i)) (seq 0 L) in
  let sig := drop (L * POLYZ_PACKEDBYTES) sig in
  h ← unpack_hint_rows sig K 0 0;
  Some (c, z, h).

(** ** sign.c *)

Section sign.
Context {H : Shake} (fuel : nat) {rng : Type} (randombytes : nat -> rng -> Z * bytes * rng).

(** rho, rhoprime and key from 32 random bytes. *)
Definition keypair_seeds (rnd : bytes) : bytes * bytes * bytes :=
  let seedbuf := take SEEDBYTES rnd ++ [Z.of_nat K; Z.of_nat L] in
  let seedbuf := hash256 (2 * SEEDBYTES + CRHBYTES) seedbuf in
  let rho := take SEEDBYTES seedbuf in
  let rhoprime := take CRHBYTES (drop SEEDBYTES seedbuf) in
  let key := drop CRHBYTES (drop SEEDBYTES seedbuf) in
  (rho, rhoprime, key).

Definition keypair_from (rnd : bytes) : option (bytes * bytes) :=
  let '(rho, rhoprime, key) := keypair_seeds rnd in
  mat ← polyvec_matrix_expand fuel rho;
  s1 ← polyvecl_uniform_eta fuel rhoprime 0;
  s2 ← polyveck_uniform_eta fuel rhoprime L;
  let s1hat := polyvecl_ntt s1 in
  let t1 := polyvec_matrix_pointwise_montgomery mat s1hat in
  let t1 := polyveck_reduce t1 in
  let t1 := polyveck_invntt_tomont t1 in
  let t1 := polyveck_add t1 s2 in
  let t1 := polyveck_caddq t1 in
  let '(t1, t0) := polyveck_power2round t1 in
  let pk := pack_pk rho t1 in
  let tr := hash256 TRBYTES (take CRYPTO_PUBLICKEYBYTES pk) in
  let sk := pack_sk rho tr key t0 s1 s2 in
  Some (pk, sk).
Definition crypto_sign_keypair (r : rng) : option (bytes * bytes) * rng :=
  let '(_, rnd, r) := randombytes SEEDBYTES r in
  (keypair_from rnd, r).

(** [mu]: the hash of [tr], the context and the message. *)
Definition message_hash (tr m ctx : bytes) : bytes :=
  let mu := [0; u8 (zlen ctx)] in
  let state := inc256_absorb inc256_init (take TRBYTES tr) in
  let state := inc256_absorb state mu in
  let state := inc256_absorb state ctx in
  let state := inc256_absorb state m in
  fst (inc256_squeeze CRHBYTES (inc256_finalize state)).
(** The challenge hash of [mu] and the packed high bits. *)
Definition commitment_hash (mu w1 : bytes) : bytes :=
  let state := inc256_absorb inc256_init (take CRHBYTES mu) in
  let state := inc256_absorb state w1 in
  fst (inc256_squeeze CTILDEBYTES (inc256_finalize state)).

(** One attempt, from the label [rej]: [Some None] is [goto rej]. *)
Definition sign_attempt (mat : list polyvecl) (s1 : polyvecl) (s2 t0 : polyveck) (mu rhoprime : bytes) (nonce : Z) :
    option (option bytes) :=
  let y := polyvecl_uniform_gamma1 rhoprime nonce in
  let z := polyvecl_ntt y in
  let w1 := polyvec_matrix_pointwise_montgomery mat z in
  let w1 := polyveck_reduce w1 in
  let w1 := polyveck_invntt_tomont w1 in
  let w1 := polyveck_caddq w1 in
  let '(w1, w0) := polyveck_decompose w1 in
  let sig := polyveck_pack_w1 w1 in
  let sig := commitment_hash mu sig in
  cp ← poly_challenge fuel sig;
  let cp := poly_ntt cp in
  let z := polyvecl_pointwise_poly_montgomery cp s1 in
  let z := polyvecl_invntt_tomont z in
  let z := polyvecl_add z y in
  let z := polyvecl_reduce z in
  if polyvecl_chknorm z (GAMMA1 - BETA) then Some None else
  let h := polyveck_pointwise_poly_montgomery cp s2 in
  let h := polyveck_invntt_tomont h in
  let w0 := polyveck_sub w0 h in
  let w0 := polyveck_reduce w0 in
  if polyveck_chknorm w0 (GAMMA2 - BETA) then Some None else
  let h := polyveck_pointwise_poly_montgomery cp t0 in
  let h := polyveck_invntt_tomont h in
  let h := polyveck_reduce h in
  if polyveck_chknorm h GAMMA2 then Some None else
  let w0 := polyveck_add w0 h in
  let '(h, n) := polyveck_make_hint w0 w1 in
  if Z.of_nat OMEGA <? n then Some None else
  Some (Some (pack_sig sig z h)).

(** The loop of [goto rej]; [nonce] is a [uint16_t]. *)
Fixpoint sign_loop (fuel : nat) (attempt : Z -> option (option bytes)) (nonce : Z) : option bytes :=
  match fuel with
  | O => None
  | S fuel =>
      r ← attempt nonce;
      match r with
      | Some sig => Some sig
      | None => sign_loop fuel attempt (u16 (nonce + 1))
      end
  end.

(** [Some (Err (-1))] is a context that is too long. *)
Definition crypto_sign_signature_ctx (m ctx sk : bytes) (r : rng) : option (res bytes) * rng :=
  if 255 <? zlen ctx then (Some (Err (-1)), r) else
  let k := unpack_sk sk in
  let mu := message_hash (sk_tr k) m ctx in
  let '(_, rnd, r) := randombytes RNDBYTES r in
  let rhoprime := hash256 CRHBYTES (sk_key k ++ take RNDBYTES rnd ++ mu) in
  (mat ← polyvec_matrix_expand fuel (sk_rho k);
   let s1 := polyvecl_ntt (sk_s1 k) in
   let s2 := polyveck_ntt (sk_s2 k) in
   let t0 := polyveck_ntt (sk_t0 k) in
   sig ← sign_loop fuel (sign_attempt mat s1 s2 t0 mu rhoprime) 0;
   Some (Ok sig), r).
Definition crypto_sign_signature (m sk : bytes) (r : rng) : option (res bytes) * rng :=
  crypto_sign_signature_ctx m [] sk r.

(** The returned integer, [*smlen] and the buffer [sm], given what the two held before: the
    signature, then the message.  A context that is too long leaves the place of the signature as it
    was, and the message's length is added to [*smlen] all the same. *)
Definition crypto_sign_ctx (sm : bytes) (smlen : Z) (m ctx sk : bytes) (r : rng) :
    option (Z * Z * bytes) * rng :=
  let sm := take CRYPTO_BYTES sm ++ m ++ drop (CRYPTO_BYTES + length m) sm in
  let '(ret, r) := crypto_sign_signature_ctx m ctx sk r in
  (ret ← ret;
   Some (match ret with
         | Ok sig => (0, u64 (zlen sig + zlen m), sig ++ drop CRYPTO_BYTES sm)
         | _ => (-1, u64 (smlen + zlen m), sm)
         end), r).
Definition crypto_sign (sm : bytes) (smlen : Z) (m sk : bytes) (r : rng) : option (Z * Z * bytes) * rng :=
  crypto_sign_ctx sm smlen m [] sk r.

(** The returned integer. *)
Definition crypto_sign_verify_ctx (sig m ctx pk : bytes) : option Z :=
  if (255 <? zlen ctx) || negb (length sig =? CRYPTO_BYTES)%nat then Some (-1) else
  let '(rho, t1) := unpack_pk pk in
  match unpack_sig sig with
  | None => Some (-1)
  | Some (c, z, h) =>
      if polyvecl_chknorm z (GAMMA1 - BETA) then Some (-1) else
      let mu := hash256 TRBYTES (take CRYPTO_PUBLICKEYBYTES pk) in
      let mu := message_hash mu m ctx in
      cp ← poly_challenge fuel c;
      mat ← polyvec_matrix_expand fuel rho;
      let z := polyvecl_ntt z in
      let w1 := polyvec_matrix_pointwise_montgomery mat z in
      let cp := poly_ntt cp in
      let t1 := polyveck_shiftl t1 in
      let t1 := polyveck_ntt t1 in
      let t1 := polyveck_pointwise_poly_montgomery cp t1 in
      let w1 := polyveck_sub w1 t1 in
      let w1 := polyveck_reduce w1 in
      let w1 := polyveck_invntt_tomont w1 in
      let w1 := polyveck_caddq w1 in
      let w1 := polyveck_use_hint w1 h in
      let buf := polyveck_pack_w1 w1 in
      let c2 := commitment_hash mu buf in
      if existsb (fun i => negb (byte c i =? byte c2 i)) (seq 0 CTILDEBYTES) then Some (-1) else Some 0
  end.
Definition crypto_sign_verify (sig m pk : bytes) : option Z := crypto_sign_verify_ctx sig m [] pk.

(** The returned integer, [*mlen], and what is written to [m]: the message of a signed message
    that verifies, or as many zeros as there were bytes. *)
Definition badsig (sm : bytes) : Z * Z * bytes := (-1, 0, replicate (length sm) 0).
Definition crypto_sign_open_ctx (sm ctx pk : bytes) : option (Z * Z * bytes) :=
  if (length sm <? CRYPTO_BYTES)%nat then Some (badsig sm) else
  let m := drop CRYPTO_BYTES sm in
  rc ← crypto_sign_verify_ctx (take CRYPTO_BYTES sm) m ctx pk;
  if negb (rc =? 0) then Some (badsig sm) else Some (0, zlen m, m).
Definition crypto_sign_open (sm pk : bytes) : option (Z * Z * bytes) := crypto_sign_open_ctx sm [] pk.
End sign.
