(* ===== verification/DsaCodecFacts.v ===== *)
(** * Encodings of ML-DSA-44

    The bit-packing functions of poly.c are inverse on the polynomials they are used for;
    keys are recovered from their encodings; the hint vector of a signature is recovered
    from its list of positions, when it has no more than OMEGA non-zero entries. *)
From stdpp Require Import base numbers list option.
From Stdlib Require Import ZArith Lia Sorted.
From S2P Require Import Prelude PolyRing Transform BlockCodec DsaNtt DsaPoly Keccak Dsa.

(** ** Bit packing *)

Definition in_range (lo hi : Z) (l : list Z) : Prop := Forall (fun c => lo <= c <= hi) l.

(** The integers of a block, as fields of [n] bits below an offset. *)
Lemma offset_field (f : nat -> Z) (w : Z -> Z) (off n : Z) (cnt j : nat) :
  (forall c, 0 <= off - c < 2 ^ n -> w (off - c) = off - c) ->
  (forall j, (j < cnt)%nat -> off - 2 ^ n < f j <= off) -> (j < cnt)%nat ->
  exists t, 0 <= t < 2 ^ n /\ w (off - f j) = t /\ f j = off - t.
Proof. intros Hw Hf Hj. specialize (Hf j Hj). exists (off - f j). rewrite Hw by lia. lia. Qed.

(** Names the fields of a block of [n] coefficients. *)
Ltac name_fields H n :=
  let rec go j := lazymatch j with
  | n => idtac
  | _ => let t := fresh "t" in let B := fresh "B" in let E := fresh "E" in let F := fresh "F" in
         destruct (H j ltac:(lia)) as (t & B & E & F); rewrite ?E, ?F; clear E F;
         let j' := eval compute in (S j) in go j'
  end in go 0%nat; clear H.

(** Reads the bytes of the encoded block. *)
Ltac read_bytes Hg n :=
  let rec go j := lazymatch j with
  | n => idtac
  | _ => rewrite (Hg j) by lia; let j' := eval compute in (S j) in go j'
  end in go 0%nat.

Lemma polyeta_block f g : (forall j, (j < 8)%nat -> - 2 <= f j <= 2) ->
  (forall j, (j < 3)%nat -> g j = at_ (polyeta_pack_block f) j) -> polyeta_unpack_block g = map f (seq 0 8).
Proof.
  intros Hf Hg. unfold polyeta_unpack_block. read_bytes Hg 3%nat. clear g Hg. unfold polyeta_pack_block.
  assert (H : forall j, (j < 8)%nat -> exists t, 0 <= t < 2 ^ 3 /\ u8 (ETA - f j) = t /\ f j = ETA - t).
  { intros j Hj. apply (offset_field f u8 ETA 3 8); [intros c Hc; apply u8_small; unfold is_byte; lia | | done].
    intros k Hk. specialize (Hf k Hk). unfold ETA. lia. }
  clear Hf. cbn [at_ nth map seq]. name_fields H 8%nat.
  repeat f_equal; field 3.
Qed.

Lemma polyt0_block f g : (forall j, (j < 8)%nat -> - 4096 < f j <= 4096) ->
  (forall j, (j < 13)%nat -> g j = at_ (polyt0_pack_block f) j) -> polyt0_unpack_block g = map f (seq 0 8).
Proof.
  intros Hf Hg. unfold polyt0_unpack_block. read_bytes Hg 13%nat. clear g Hg. unfold polyt0_pack_block.
  change (Z.shiftl 1 (D - 1)) with 4096.
  assert (H : forall j, (j < 8)%nat -> exists t, 0 <= t < 2 ^ 13 /\ u32 (4096 - f j) = t /\ f j = 4096 - t).
  { intros j Hj. apply (offset_field f u32 4096 13 8); [intros c Hc; unfold u32; apply Z.mod_small; lia | | done].
    intros k Hk. specialize (Hf k Hk). lia. }
  clear Hf. cbn [at_ nth map seq]. name_fields H 8%nat.
  repeat f_equal; field 13.
Qed.

Lemma polyz_block f g : (forall j, (j < 4)%nat -> - 131071 <= f j <= 131072) ->
  (forall j, (j < 9)%nat -> g j = at_ (polyz_pack_block f) j) -> polyz_unpack_block g = map f (seq 0 4).
Proof.
  intros Hf Hg. unfold polyz_unpack_block. read_bytes Hg 9%nat. clear g Hg. unfold polyz_pack_block.
  change GAMMA1 with 131072.
  assert (H : forall j, (j < 4)%nat -> exists t, 0 <= t < 2 ^ 18 /\ u32 (131072 - f j) = t /\ f j = 131072 - t).
  { intros j Hj. apply (offset_field f u32 131072 18 4); [intros c Hc; unfold u32; apply Z.mod_small; lia | | done].
    intros k Hk. specialize (Hf k Hk). lia. }
  clear Hf. cbn [at_ nth map seq]. name_fields H 4%nat.
  repeat f_equal; field 18.
Qed.

Lemma polyt1_block f g : (forall j, (j < 4)%nat -> 0 <= f j <= 1023) ->
  (forall j, (j < 5)%nat -> g j = at_ (polyt1_pack_block f) j) -> polyt1_unpack_block g = map f (seq 0 4).
Proof.
  intros Hf Hg. unfold polyt1_unpack_block. read_bytes Hg 5%nat. clear g Hg. unfold polyt1_pack_block.
  assert (Hs : forall x k, 0 <= x <= 1023 -> 0 <= k <= 6 -> i32 (Z.shiftl x k) = Z.shiftl x k).
  { intros x k Hx Hk. rewrite Z.shiftl_mul_pow2 by lia. pose proof (Z.pow_le_mono_r 2 k 6). pose proof (Z.pow_pos_nonneg 2 k).
    unfold i32. rewrite Z.mod_small; nia. }
  rewrite !Hs by (first [apply Hf; lia | lia]).
  assert (H : forall j, (j < 4)%nat -> exists t, 0 <= t < 2 ^ 10 /\ f j = t /\ f j = t)
    by (intros j Hj; exists (f j); specialize (Hf j Hj); lia).
  clear Hf Hs. cbn [at_ nth map seq]. name_fields H 4%nat.
  repeat f_equal; field 10.
Qed.

(** ** Polynomials and vectors *)

Definition poly_in (lo hi : Z) (p : poly) : Prop := length p = 256%nat /\ in_range lo hi p.
Definition vec_in (n : nat) (lo hi : Z) (v : list poly) : Prop := length v = n /\ Forall (poly_in lo hi) v.

Lemma poly_in_mono lo hi lo' hi' p : poly_in lo hi p -> lo' <= lo -> hi <= hi' -> poly_in lo' hi' p.
Proof. intros [Hl Hp] H H'. split; [done|]. eapply List.Forall_impl; [|exact Hp]. cbn. intros c Hc. lia. Qed.

Lemma polyeta_roundtrip p rest : poly_in (-2) 2 p -> polyeta_unpack (polyeta_pack p ++ rest) = p.
Proof.
  intros [Hl Hp]. apply (decode_encode 8 3 32 polyeta_pack_block polyeta_unpack_block (fun c => -2 <= c <= 2));
    [done.. | apply polyeta_block | lia | done | exact Hp].
Qed.
Lemma polyt1_roundtrip p rest : poly_in 0 1023 p -> polyt1_unpack (polyt1_pack p ++ rest) = p.
Proof.
  intros [Hl Hp]. apply (decode_encode 4 5 64 polyt1_pack_block polyt1_unpack_block (fun c => 0 <= c <= 1023));
    [done.. | apply polyt1_block | lia | done | exact Hp].
Qed.
Lemma polyt0_roundtrip p rest : poly_in (-4095) 4096 p -> polyt0_unpack (polyt0_pack p ++ rest) = p.
Proof.
  intros [Hl Hp]. apply (decode_encode 8 13 32 polyt0_pack_block polyt0_unpack_block (fun c => -4095 <= c <= 4096));
    [done.. | | lia | done | exact Hp].
  intros f g Hf. apply polyt0_block. intros j Hj. specialize (Hf j Hj). lia.
Qed.
Lemma polyz_roundtrip p rest : poly_in (-131071) 131072 p -> polyz_unpack (polyz_pack p ++ rest) = p.
Proof.
  intros [Hl Hp]. apply (decode_encode 4 9 64 polyz_pack_block polyz_unpack_block (fun c => -131071 <= c <= 131072));
    [done.. | apply polyz_block | lia | done | exact Hp].
Qed.

Lemma length_polyeta_pack p : length (polyeta_pack p) = POLYETA_PACKEDBYTES.
Proof. apply (length_encode 8 3 32 polyeta_pack_block). done. Qed.
Lemma length_polyt1_pack p : length (polyt1_pack p) = POLYT1_PACKEDBYTES.
Proof. apply (length_encode 4 5 64 polyt1_pack_block). done. Qed.
Lemma length_polyt0_pack p : length (polyt0_pack p) = POLYT0_PACKEDBYTES.
Proof. apply (length_encode 8 13 32 polyt0_pack_block). done. Qed.
Lemma length_polyz_pack p : length (polyz_pack p) = POLYZ_PACKEDBYTES.
Proof. apply (length_encode 4 9 64 polyz_pack_block). done. Qed.
Lemma length_pack_vec (pack : poly -> bytes) size v : (forall p : poly, length (pack p) = size) ->
  length (flat_map pack v) = (length v * size)%nat.
Proof. intros H. induction v as [|p v IH]; [done|]. cbn [flat_map length]. rewrite length_app, H, IH. lia. Qed.

Lemma vec_roundtrip (pack : poly -> bytes) (unpack : bytes -> poly) size v rest : (forall p : poly, length (pack p) = size) ->
  (forall p r, In p v -> unpack (pack p ++ r) = p) ->
  map (fun i => unpack (nth_array (flat_map pack v ++ rest) size i)) (seq 0 (length v)) = v.
Proof.
  intros Hlen. induction v as [|p v IH]; intros Hrt; [done|]. cbn [length seq map flat_map]. f_equal.
  - unfold nth_array. cbn [Nat.mul]. rewrite drop_0, <- app_assoc. apply Hrt. left. done.
  - rewrite <- seq_shift, map_map. etransitivity; [|apply IH; intros q r Hq; apply Hrt; right; done].
    apply map_ext. intros i. f_equal. unfold nth_array. rewrite <- app_assoc.
    replace (S i * size)%nat with (length (pack p) + i * size)%nat by (rewrite Hlen; lia).
    rewrite drop_app_add. done.
Qed.

Lemma vec_roundtrip_in (pack : poly -> bytes) (unpack : bytes -> poly) size lo hi n v rest : (forall p : poly, length (pack p) = size) ->
  (forall p r, poly_in lo hi p -> unpack (pack p ++ r) = p) -> vec_in n lo hi v ->
  map (fun i => unpack (nth_array (flat_map pack v ++ rest) size i)) (seq 0 n) = v.
Proof.
  intros Hlen Hrt [<- Hv]. apply vec_roundtrip; [done|]. intros p r Hp. apply Hrt.
  rewrite List.Forall_forall in Hv. apply Hv, Hp.
Qed.

(** ** Keys *)

Lemma dsa_unpack_pack_pk rho t1 : length rho = SEEDBYTES -> vec_in K 0 1023 t1 ->
  unpack_pk (pack_pk rho t1) = (rho, t1) /\ length (pack_pk rho t1) = CRYPTO_PUBLICKEYBYTES.
Proof.
  intros Hr Ht. unfold unpack_pk, pack_pk. rewrite (take_ge rho) by lia.
  rewrite take_app_length', drop_app_length' by done. split.
  - f_equal. rewrite <- (app_nil_r (flat_map _ _)).
    apply (vec_roundtrip_in polyt1_pack polyt1_unpack _ 0 1023); [apply length_polyt1_pack | apply polyt1_roundtrip | done].
  - rewrite length_app, (length_pack_vec _ _ _ length_polyt1_pack), (proj1 Ht), Hr. done.
Qed.

Lemma unpack_pack_sk rho tr key t0 s1 s2 : length rho = SEEDBYTES -> length tr = TRBYTES -> length key = SEEDBYTES ->
  vec_in K (-4095) 4096 t0 -> vec_in L (-2) 2 s1 -> vec_in K (-2) 2 s2 ->
  unpack_sk (pack_sk rho tr key t0 s1 s2) =
    {| sk_rho := rho; sk_tr := tr; sk_key := key; sk_t0 := t0; sk_s1 := s1; sk_s2 := s2 |} /\
  length (pack_sk rho tr key t0 s1 s2) = CRYPTO_SECRETKEYBYTES.
Proof.
  intros Hr Ht Hk H0 H1 H2. unfold unpack_sk, pack_sk. rewrite (take_ge rho), (take_ge key), (take_ge tr) by lia.
  assert (L1 : length (flat_map polyeta_pack s1) = (L * POLYETA_PACKEDBYTES)%nat)
    by (rewrite (length_pack_vec _ _ _ length_polyeta_pack), (proj1 H1); done).
  assert (L2 : length (flat_map polyeta_pack s2) = (K * POLYETA_PACKEDBYTES)%nat)
    by (rewrite (length_pack_vec _ _ _ length_polyeta_pack), (proj1 H2); done).
  assert (L0 : length (flat_map polyt0_pack t0) = (K * POLYT0_PACKEDBYTES)%nat)
    by (rewrite (length_pack_vec _ _ _ length_polyt0_pack), (proj1 H0); done).
  split; [|rewrite !length_app, L0, L1, L2, Hr, Ht, Hk; done].
  rewrite (take_app_length' rho), (drop_app_length' rho), (take_app_length' key), (drop_app_length' key),
    (take_app_length' tr), (drop_app_length' tr), (drop_app_length' (flat_map polyeta_pack s1)),
    (drop_app_length' (flat_map polyeta_pack s2)) by done.
  f_equal.
  - rewrite <- (app_nil_r (flat_map _ _)).
    apply (vec_roundtrip_in polyt0_pack polyt0_unpack _ (-4095) 4096); [apply length_polyt0_pack | apply polyt0_roundtrip | done].
  - apply (vec_roundtrip_in polyeta_pack polyeta_unpack _ (-2) 2); [apply length_polyeta_pack | apply polyeta_roundtrip | done].
  - apply (vec_roundtrip_in polyeta_pack polyeta_unpack _ (-2) 2); [apply length_polyeta_pack | apply polyeta_roundtrip | done].
Qed.

(** ** Hints *)

(** The positions of the non-zero coefficients, in increasing order. *)
Definition positions (h : poly) : list nat := List.filter (fun j => negb (coeff h j =? 0)) (seq 0 N).
Definition hint_poly (h : poly) : Prop := length h = 256%nat /\ Forall (fun c => c = 0 \/ c = 1) h.

Lemma filter_seq_sorted f n : forall s, StronglySorted lt (List.filter f (seq s n)) /\
  Forall (fun x => s <= x < s + n)%nat (List.filter f (seq s n)).
Proof.
  induction n as [|n IH]; intros s; [split; constructor|]. cbn [seq List.filter].
  destruct (IH (S s)) as [IHs IHb].
  assert (Hb : Forall (fun x => s <= x < s + S n)%nat (List.filter f (seq (S s) n)))
    by (eapply List.Forall_impl; [|exact IHb]; cbn; intros; lia).
  destruct (f s); [|split; done]. split; [|constructor; [lia | done]].
  constructor; [done|]. eapply List.Forall_impl; [|exact IHb]. cbn. intros; lia.
Qed.

(** The 84 bytes of the hint: positions, padding, and the four running counts. *)
Definition hint_bytes (A : list nat) (counts : bytes) : bytes :=
  map Z.of_nat A ++ replicate (OMEGA - length A) 0 ++ counts.

Lemma pack_row_loop h js : forall A counts, (length A + length (List.filter (fun j => negb (coeff h j =? 0)%Z) js) <= OMEGA)%nat ->
  Forall (fun j => j < 256)%nat js ->
  fold_left (fun st j => let '(sig, k) := st in
    if coeff h j =? 0 then (sig, k) else (<[k := u8 (Z.of_nat j)]> sig, S k)) js (hint_bytes A counts, length A) =
  (hint_bytes (A ++ List.filter (fun j => negb (coeff h j =? 0)) js) counts,
   length (A ++ List.filter (fun j => negb (coeff h j =? 0)) js)).
Proof.
  induction js as [|j js IH]; intros A counts Hl Hj; [cbn; rewrite app_nil_r; done|].
  apply Forall_cons_1 in Hj as [Hj Hjs]. cbn [fold_left List.filter] in *.
  destruct (Z.eqb_spec (coeff h j) 0); cbn [negb] in *; [apply IH; done|].
  cbn [length] in Hl. specialize (IH (A ++ [j]) counts).
  rewrite length_app, <- app_assoc in IH. cbn [length app] in IH. rewrite Nat.add_1_r in IH.
  rewrite <- IH by (done || lia). f_equal. unfold hint_bytes. rewrite length_app, map_app. cbn [length map].
  replace (OMEGA - length A)%nat with (S (OMEGA - (length A + 1))) by lia. cbn [replicate app].
  rewrite insert_app_r_alt by (rewrite length_map; lia). rewrite length_map, Nat.sub_diag, <- app_assoc.
  unfold u8. rewrite Z.mod_small by lia. done.
Qed.

Lemma pack_hint_row_spec h A counts : (length A + length (positions h) <= OMEGA)%nat ->
  pack_hint_row h (hint_bytes A counts, length A) = (hint_bytes (A ++ positions h) counts, length (A ++ positions h)).
Proof.
  assert (H : Forall (fun j => j < 256)%nat (seq 0 N))
    by (apply List.Forall_forall; intros j Hj; apply in_seq in Hj; unfold N in Hj; lia).
  unfold pack_hint_row, positions. revert H. generalize (seq 0 N). intros js H Hl. apply pack_row_loop; assumption.
Qed.

Lemma insert_count A counts i v : (length A <= OMEGA)%nat ->
  <[(OMEGA + i)%nat := v]> (hint_bytes A counts) = hint_bytes A (<[i := v]> counts).
Proof.
  intros Hl. unfold hint_bytes. rewrite insert_app_r_alt by (rewrite length_map; lia). rewrite length_map. f_equal.
  rewrite insert_app_r_alt by (rewrite length_replicate; lia). rewrite length_replicate.
  replace (OMEGA + i - length A - (OMEGA - length A))%nat with i by lia. done.
Qed.

(** Number of hints of the first [n] rows. *)
Abbreviation total_hints h := (length (flat_map positions h)).

Section rows.
Context (pos : poly -> list nat) (row : poly -> bytes * nat -> bytes * nat).
Context (row_spec : forall h A counts, (length A + length (pos h) <= OMEGA)%nat ->
  row h (hint_bytes A counts, length A) = (hint_bytes (A ++ pos h) counts, length (A ++ pos h))).

Lemma pack_row_step h A counts i : (length (A ++ pos h) <= OMEGA)%nat ->
  (let '(sig, k) := row h (hint_bytes A counts, length A) in (<[(OMEGA + i)%nat := u8 (Z.of_nat k)]> sig, k)) =
  (hint_bytes (A ++ pos h) (<[i := u8 (Z.of_nat (length (A ++ pos h)))]> counts), length (A ++ pos h)).
Proof.
  intros Hl. rewrite length_app in Hl. rewrite row_spec by done. rewrite insert_count by (rewrite length_app; done). done.
Qed.

Lemma pack_rows h0 h1 h2 h3 : (length (flat_map pos [h0; h1; h2; h3]) <= OMEGA)%nat ->
  let n l := u8 (Z.of_nat (length (flat_map pos l))) in
  fst (fold_left (fun st i => let '(sig, k) := row (vec [h0; h1; h2; h3] i) st in
         (<[(OMEGA + i)%nat := u8 (Z.of_nat k)]> sig, k)) (seq 0 K) (replicate (OMEGA + K) 0, 0%nat)) =
    hint_bytes (flat_map pos [h0; h1; h2; h3]) [n [h0]; n [h0; h1]; n [h0; h1; h2]; n [h0; h1; h2; h3]].
Proof.
  intros Hl n. unfold n. change (seq 0 K) with [0; 1; 2; 3]%nat.
  change (replicate (OMEGA + K) 0, 0%nat) with (hint_bytes [] [0; 0; 0; 0], length (@nil nat)).
  cbn [flat_map] in *. rewrite !app_nil_r in *. rewrite !app_assoc in *. rewrite !length_app in Hl.
  cbn [fold_left vec nth].
  rewrite (pack_row_step h0 []) by (rewrite ?length_app; cbn [app length]; lia).
  rewrite (pack_row_step h1) by (rewrite ?length_app; cbn [app length]; lia).
  rewrite (pack_row_step h2) by (rewrite ?length_app; cbn [app length]; lia).
  rewrite (pack_row_step h3) by (rewrite ?length_app; cbn [app length]; lia).
  done.
Qed.
End rows.

Lemma pack_hints_spec h0 h1 h2 h3 : (total_hints [h0; h1; h2; h3] <= OMEGA)%nat ->
  let n l := u8 (Z.of_nat (length (flat_map positions l))) in
  pack_hints [h0; h1; h2; h3] =
    hint_bytes (flat_map positions [h0; h1; h2; h3]) [n [h0]; n [h0; h1]; n [h0; h1; h2]; n [h0; h1; h2; h3]].
Proof.
  intros Hl.
  pose proof (pack_rows positions pack_hint_row pack_hint_row_spec h0 h1 h2 h3) as H.
  exact (H Hl).
Qed.

(** Setting the listed positions. *)
Definition set_ones (ps : list nat) (h : list Z) : list Z := fold_left (fun h p => <[p := 1]> h) ps h.

Lemma unpack_row_loop sig k ps : forall done_ h, StronglySorted lt (done_ ++ ps) ->
  (forall i, (i < length (done_ ++ ps))%nat -> byte sig (k + i) = Z.of_nat (nth i (done_ ++ ps) 0%nat)) ->
  unpack_hint_row sig (length ps) (k + length done_) k h = Some (set_ones ps h).
Proof.
  induction ps as [|p ps IH]; intros ds h Hs Hb; [done|]. cbn [length unpack_hint_row].
  assert (Hp : byte sig (k + length ds) = Z.of_nat p).
  { rewrite Hb by (rewrite length_app; cbn; lia). f_equal. apply nth_middle. }
  assert (Hc : (k <? k + length ds)%nat && (byte sig (k + length ds) <=? byte sig (k + length ds - 1)) = false).
  { destruct (Nat.ltb_spec k (k + length ds)) as [Hk|]; [|done]. cbn [andb]. apply Z.leb_gt. rewrite Hp.
    replace (k + length ds - 1)%nat with (k + (length ds - 1))%nat by lia.
    rewrite Hb by (rewrite length_app; lia). rewrite app_nth1 by lia.
    destruct ds as [|d ds _] using rev_ind; [cbn in Hk; lia|].
    rewrite length_app. cbn [length]. replace (length ds + 1 - 1)%nat with (length ds) by lia. rewrite nth_middle.
    rewrite <- app_assoc in Hs. clear -Hs. cbn [app] in Hs. induction ds as [|x ds IH]; cbn [app] in Hs.
    - apply StronglySorted_inv in Hs as [_ H]. apply Forall_cons_1 in H as [H _]. lia.
    - apply StronglySorted_inv in Hs as [H _]. apply IH, H. }
  rewrite Hc, Hp, Nat2Z.id. specialize (IH (ds ++ [p]) (<[p := 1]> h)).
  assert (Hd : (k + length (ds ++ [p]) = S (k + length ds))%nat) by (rewrite length_app; cbn [length]; lia).
  rewrite Hd, <- app_assoc in IH. apply IH; done.
Qed.

Lemma length_set_ones ps h : length (set_ones ps h) = length h.
Proof. revert h. induction ps as [|p ps IH]; intros h; [done|]. cbn [set_ones fold_left]. rewrite IH. apply length_insert. Qed.
Lemma coeff_set_ones ps i : forall h, (i < length h)%nat ->
  coeff (set_ones ps h) i = if in_dec Nat.eq_dec i ps then 1 else coeff h i.
Proof.
  induction ps as [|p ps IH]; intros h Hi; [done|]. cbn [set_ones fold_left]. change (fold_left _ ps ?x) with (set_ones ps x).
  rewrite IH by (rewrite length_insert; done). unfold coeff. rewrite !nth_lookup.
  destruct (in_dec Nat.eq_dec i ps), (in_dec Nat.eq_dec i (p :: ps)) as [H|H]; try done.
  - exfalso. apply H. right. done.
  - destruct H as [->|H]; [|done]. rewrite list_lookup_insert_eq by done. done.
  - rewrite list_lookup_insert_ne; [done|]. intros ->. apply H. left. done.
Qed.

Lemma set_ones_eq ps h n : length h = n ->
  (forall i, (i < n)%nat -> coeff h i = if in_dec Nat.eq_dec i ps then 1 else 0) ->
  set_ones ps (replicate n 0) = h.
Proof.
  intros Hl Hh. apply eq_at; [rewrite length_set_ones, length_replicate; done|]. intros i Hi.
  rewrite length_set_ones, length_replicate in Hi. change (coeff (set_ones ps (replicate n 0)) i = coeff h i).
  rewrite coeff_set_ones by (rewrite length_replicate; done). rewrite (Hh i Hi).
  destruct (in_dec _ _ _); [done|]. apply at_replicate.
Qed.

Lemma in_positions h i : In i (positions h) <-> (i < N)%nat /\ coeff h i <> 0.
Proof.
  unfold positions. rewrite filter_In, in_seq, negb_true_iff, Z.eqb_neq. generalize N. intros n. lia.
Qed.

Lemma set_positions h : hint_poly h -> set_ones (positions h) (replicate N 0) = h.
Proof.
  intros [Hl Hh]. apply set_ones_eq; [done|]. intros i Hi. pose proof (in_positions h i) as Hp.
  revert Hp. generalize (positions h). intros ps Hp.
  assert (Hc : coeff h i = 0 \/ coeff h i = 1) by (apply (Forall_nth (fun c => c = 0 \/ c = 1)); [done | unfold N in Hi; lia]).
  destruct (in_dec _ _ _) as [H|H]; rewrite Hp in H; destruct Hc as [E|E]; rewrite E in *; try done.
  - destruct H as [_ H]. done.
  - destruct H. split; [done | discriminate].
Qed.

Section unpack_rows.
Context (pos : poly -> list nat) (pos_sorted : forall h, StronglySorted lt (pos h)).
Context (set_pos : forall h, hint_poly h -> set_ones (pos h) (replicate N 0) = h).

Lemma unpack_row sig h k : hint_poly h ->
  (forall i, (i < length (pos h))%nat -> byte sig (k + i) = Z.of_nat (nth i (pos h) 0%nat)) ->
  unpack_hint_row sig (length (pos h)) k k (replicate N 0) = Some h.
Proof.
  intros Hh Hb. pose proof (unpack_row_loop sig k (pos h) [] (replicate N 0) (pos_sorted h) Hb) as H.
  cbn [length] in H. rewrite Nat.add_0_r in H. rewrite H, set_pos by done. done.
Qed.

(** What the hint bytes say: the positions of all rows in order, zeros behind them, and
    the number of positions of each initial part. *)
Definition hints_of (sig : bytes) (hs : polyveck) : Prop :=
  (length (flat_map pos hs) <= OMEGA)%nat /\
  (forall j, (j < length (flat_map pos hs))%nat -> byte sig j = Z.of_nat (nth j (flat_map pos hs) 0%nat)) /\
  (forall j, (length (flat_map pos hs) <= j < OMEGA)%nat -> byte sig j = 0) /\
  (forall d h r, hs = d ++ h :: r -> byte sig (OMEGA + length d) = Z.of_nat (length (flat_map pos (d ++ [h])))).

Lemma unpack_rows_ok sig hs : forall ds, Forall hint_poly hs -> hints_of sig (ds ++ hs) ->
  unpack_hint_rows sig (length hs) (length ds) (length (flat_map pos ds)) = Some hs.
Proof.
  induction hs as [|h hs IH]; intros ds Hh (Hl & Hb & Hz & Hc); cbn [length unpack_hint_rows].
  - rewrite app_nil_r in *. destruct (existsb _ _) eqn:E; [|done]. exfalso.
    apply existsb_exists in E as (j & Hj & E). apply in_seq in Hj. rewrite Hz in E by lia. done.
  - apply Forall_cons_1 in Hh as [Hh Hhs]. rewrite (Hc ds h hs) by done.
    specialize (IH (ds ++ [h]) Hhs). rewrite <- app_assoc in IH. specialize (IH (conj Hl (conj Hb (conj Hz Hc)))).
    rewrite flat_map_app in *. cbn [flat_map] in *. rewrite ?app_nil_r in *. rewrite !length_app in *.
    cbn [length] in IH. rewrite Nat.add_1_r in IH.
    rewrite (proj2 (Z.ltb_ge _ _)) by lia. rewrite (proj2 (Z.ltb_ge _ _)) by lia. cbn [orb].
    rewrite Nat2Z.id, Nat.add_comm, Nat.add_sub, Nat.add_comm. rewrite unpack_row; [|done|].
    2:{ intros i Hi. rewrite Hb by lia. rewrite app_nth2_plus, app_nth1 by lia. done. }
    cbn [mbind option_bind]. rewrite IH. done.
Qed.
End unpack_rows.

Lemma hint_bytes_at A counts j : (length A <= OMEGA)%nat ->
  ((j < length A)%nat -> byte (hint_bytes A counts) j = Z.of_nat (nth j A 0%nat)) /\
  ((length A <= j < OMEGA)%nat -> byte (hint_bytes A counts) j = 0) /\
  byte (hint_bytes A counts) (OMEGA + j) = nth j counts 0.
Proof.
  intros Hl. unfold byte, hint_bytes. repeat split; intros.
  - rewrite app_nth1 by (rewrite length_map; lia). change 0 with (Z.of_nat 0). apply map_nth.
  - rewrite app_nth2 by (rewrite length_map; lia). rewrite app_nth1 by (rewrite length_map, length_replicate; lia).
    apply at_replicate.
  - rewrite app_nth2 by (rewrite length_map; lia). rewrite length_map.
    rewrite app_nth2 by (rewrite length_replicate; lia). rewrite length_replicate. f_equal. lia.
Qed.

Lemma length_hint_bytes A counts : (length A <= OMEGA)%nat -> length counts = K ->
  length (hint_bytes A counts) = (OMEGA + K)%nat.
Proof. intros Hl Hc. unfold hint_bytes. rewrite !length_app, length_map, length_replicate, Hc. lia. Qed.

Lemma hints_of_bytes pos h0 h1 h2 h3 : (length (flat_map pos [h0; h1; h2; h3]) <= OMEGA)%nat ->
  let n l := u8 (Z.of_nat (length (flat_map pos l))) in
  hints_of pos (hint_bytes (flat_map pos [h0; h1; h2; h3]) [n [h0]; n [h0; h1]; n [h0; h1; h2]; n [h0; h1; h2; h3]])
    [h0; h1; h2; h3].
Proof.
  intros Hl n. pose proof (fun j => hint_bytes_at _ [n [h0]; n [h0; h1]; n [h0; h1; h2]; n [h0; h1; h2; h3]] j Hl) as H.
  split; [done|]. split; [intros; apply H; done|]. split; [intros; apply H; done|].
  intros d h r E. rewrite (proj2 (proj2 (H _))). clear H.
  assert (Hn : forall l l', [h0; h1; h2; h3] = l ++ l' -> n l = Z.of_nat (length (flat_map pos l))).
  { intros l l' E'. rewrite E', flat_map_app, length_app in Hl. unfold n, u8. apply Z.mod_small. unfold OMEGA in Hl. lia. }
  assert (E' : [h0; h1; h2; h3] = (d ++ [h]) ++ r) by (rewrite <- app_assoc; done).
  rewrite <- (Hn _ _ E'). clear Hn E' Hl.
  destruct d as [|? [|? [|? [|? d]]]]; cbn in E; simplify_eq; try done.
  destruct d; done.
Qed.

Definition hint_vec (h : polyveck) : Prop := length h = K /\ Forall hint_poly h.

Lemma positions_sorted h : StronglySorted lt (positions h).
Proof. exact (proj1 (filter_seq_sorted (fun j => negb (coeff h j =? 0)) N 0)). Qed.

Lemma unpack_hint_bytes pos sig h0 h1 h2 h3 : (forall h, StronglySorted lt (pos h)) ->
  (forall h, hint_poly h -> set_ones (pos h) (replicate N 0) = h) -> Forall hint_poly [h0; h1; h2; h3] ->
  (length (flat_map pos [h0; h1; h2; h3]) <= OMEGA)%nat ->
  (let n l := u8 (Z.of_nat (length (flat_map pos l))) in
   sig = hint_bytes (flat_map pos [h0; h1; h2; h3]) [n [h0]; n [h0; h1]; n [h0; h1; h2]; n [h0; h1; h2; h3]]) ->
  unpack_hint_rows sig K 0 0 = Some [h0; h1; h2; h3] /\ length sig = (OMEGA + K)%nat.
Proof.
  intros Hs Hp Hh Hl E. cbv zeta in E. split; [|rewrite E; apply length_hint_bytes; done].
  pose proof (unpack_rows_ok pos Hs Hp sig [h0; h1; h2; h3] [] Hh) as H. cbn [length flat_map app] in H.
  apply H. rewrite E. exact (hints_of_bytes pos h0 h1 h2 h3 Hl).
Qed.

Lemma unpack_pack_hints h : hint_vec h -> (total_hints h <= OMEGA)%nat ->
  unpack_hint_rows (pack_hints h) K 0 0 = Some h /\ length (pack_hints h) = (OMEGA + K)%nat.
Proof.
  intros [Hk Hh] Hl. destruct h as [|h0 [|h1 [|h2 [|h3 [|]]]]]; try discriminate Hk.
  pose proof (pack_hints_spec h0 h1 h2 h3 Hl) as E.
  revert E. generalize (pack_hints [h0; h1; h2; h3]). intros sig E.
  exact (unpack_hint_bytes positions sig h0 h1 h2 h3 positions_sorted set_positions Hh Hl E).
Qed.

(** ** Signatures *)

Lemma unpack_pack_sig c z h : length c = CTILDEBYTES -> vec_in L (-131071) 131072 z -> hint_vec h ->
  (total_hints h <= OMEGA)%nat ->
  unpack_sig (pack_sig c z h) = Some (c, z, h) /\ length (pack_sig c z h) = CRYPTO_BYTES.
Proof.
  intros Hc Hz Hh Hl. destruct (unpack_pack_hints h Hh Hl) as [Hu Hn]. unfold unpack_sig, pack_sig.
  assert (Lz : length (flat_map polyz_pack z) = (L * POLYZ_PACKEDBYTES)%nat)
    by (rewrite (length_pack_vec _ _ _ length_polyz_pack), (proj1 Hz); reflexivity).
  rewrite (take_ge c) by lia. rewrite take_app_length', drop_app_length' by done.
  rewrite (drop_app_length' (flat_map polyz_pack z)) by done. split.
  - rewrite Hu. cbn [mbind option_bind]. do 3 f_equal.
    apply (vec_roundtrip_in polyz_pack polyz_unpack _ (-131071) 131072); [apply length_polyz_pack | apply polyz_roundtrip | done].
  - rewrite !length_app, Lz, Hc, Hn. reflexivity.
Qed.
