(* ===== verification/DsaPolyFacts.v ===== *)
(** * Arithmetic of polynomials in ML-DSA-44

    The functions of poly.c and polyvec.c that sign.c composes, as operations modulo q on
    coefficient lists, with a bound of the coefficients that keeps them in [int32_t]; what
    [polyveck_make_hint] counts; and the step on which verification rests: row by row, the
    coefficients that the verifier computes are the signer's high bits times 2 * GAMMA2 plus
    what the hints were made from, modulo q. *)
From stdpp Require Import base numbers list option.
From Stdlib Require Import ZArith Lia Setoid Morphisms.
From S2P Require Import Prelude PolyRing Transform BlockCodec Keccak DsaNtt DsaNttFacts DsaRoundFacts DsaPoly Dsa DsaCodecFacts.

(** ** Polynomials with bounded coefficients *)

Definition sized (B : Z) (p : poly) : Prop := length p = 256%nat /\ bounded B p.

Lemma sized_mono B C p : sized B p -> B <= C -> sized C p.
Proof. intros [Hl Hb] HB. split; [done | eapply bounded_mono; eauto]. Qed.
Lemma sized_in lo hi B p : poly_in lo hi p -> - B <= lo -> hi <= B -> sized B p.
Proof. intros [Hl Hp] H H'. split; [done|]. eapply List.Forall_impl; [|exact Hp]. cbn. intros; lia. Qed.

(** A function on coefficients that is [g] modulo q. *)
Lemma sized_map B C (f g : Z -> Z) p : sized B p ->
  (forall x, - B <= x <= B -> f x ≡q g x /\ - C <= f x <= C) -> sized C (map f p) /\ map f p ≡v map g p.
Proof.
  intros [Hl Hb] Hf. split; [split; [rewrite length_map; done|]|].
  - eapply bounded_map; [exact Hb|]. intros x Hx. apply Hf, Hx.
  - eapply map_eqv_bounded; [exact Hb|]. intros x Hx. apply Hf, Hx.
Qed.
Lemma sized_zip A B C (f g : Z -> Z -> Z) a b : sized A a -> sized B b ->
  (forall x y, - A <= x <= A -> - B <= y <= B -> f x y ≡q g x y /\ - C <= f x y <= C) ->
  sized C (zip_with f a b) /\ zip_with f a b ≡v zip_with g a b.
Proof.
  intros [Ha Hab] [Hb Hbb] Hf. split; [split; [rewrite length_zip_with; lia|]|].
  - eapply bounded_zip_with; [exact Hab | exact Hbb |]. intros x y Hx Hy. apply Hf; done.
  - eapply zip_with_eqv_bounded; [exact Hab | exact Hbb |]. intros x y Hx Hy. apply Hf; done.
Qed.

Lemma vscale_zip_with c (f : Z -> Z -> Z) l k : vscale c (zip_with f l k) = zip_with (fun x y => c * f x y) l k.
Proof. revert k. induction l as [|x l IH]; intros [|y k]; [done..|]. cbn. f_equal. apply IH. Qed.

Lemma map_id_list (l : list Z) : map (fun x => x) l = l.
Proof. apply map_id. Qed.

Lemma dsa_poly_reduce_ok B p : sized B p -> B <= 2143289343 -> sized 6283009 (poly_reduce p) /\ poly_reduce p ≡v p.
Proof.
  intros Hp HB. rewrite <- (map_id_list p) at 3. eapply sized_map; [exact Hp|]. intros x Hx.
  destruct (reduce32_spec x) as [E ?]; [lia|]. split; [exact E | lia].
Qed.
Lemma poly_caddq_ok B p : sized B p -> B < Q -> poly_in 0 (Q - 1) (poly_caddq p) /\ poly_caddq p ≡v p.
Proof.
  intros Hp HB. assert (H : forall x, - B <= x <= B -> caddq x ≡q x /\ 0 <= caddq x < Q) by (intros; apply caddq_spec; lia).
  destruct Hp as [Hl Hb]. unfold poly_caddq. split; [split; [rewrite length_map; done|]|].
  - apply List.Forall_map. eapply List.Forall_impl; [|exact Hb]. cbn. intros x Hx. specialize (H x Hx). lia.
  - rewrite <- (map_id_list p) at 2. eapply map_eqv_bounded; [exact Hb|]. intros x Hx. apply H, Hx.
Qed.
Lemma poly_add_ok A B a b : sized A a -> sized B b -> A + B <= 2147483647 ->
  sized (A + B) (poly_add a b) /\ poly_add a b ≡v vadd a b.
Proof.
  intros Ha Hb H. eapply sized_zip; [exact Ha | exact Hb |]. intros x y Hx Hy.
  rewrite i32_in by (unfold in32; lia). split; [reflexivity | lia].
Qed.
Lemma poly_sub_ok A B a b : sized A a -> sized B b -> A + B <= 2147483647 ->
  sized (A + B) (poly_sub a b) /\ poly_sub a b ≡v vsub a b.
Proof.
  intros Ha Hb H. eapply sized_zip; [exact Ha | exact Hb |]. intros x y Hx Hy.
  rewrite i32_in by (unfold in32; lia). split; [reflexivity | lia].
Qed.
(** [t1 * 2^D]. *)
Lemma poly_shiftl_ok p : poly_in 0 1023 p -> sized 8380416 (poly_shiftl p) /\ poly_shiftl p ≡v vscale 8192 p.
Proof.
  intros [Hl Hp]. assert (H : forall x, 0 <= x <= 1023 -> i32 (Z.shiftl x D) = 8192 * x).
  { intros x Hx. rewrite Z.shiftl_mul_pow2 by done. change (2 ^ D) with 8192. rewrite i32_in by (unfold in32; lia). lia. }
  assert (E : poly_shiftl p = vscale 8192 p).
  { unfold poly_shiftl, vscale. apply map_ext_Forall. eapply List.Forall_impl; [|exact Hp]. cbn. exact H. }
  rewrite E. split; [|reflexivity]. split; [vlen|]. apply List.Forall_map.
  eapply List.Forall_impl; [|exact Hp]. cbn. intros; lia.
Qed.
Lemma poly_ntt_ok B p : sized B p -> B <= 2000000000 -> sized (B + 67043328) (poly_ntt p) /\ poly_ntt p ≡v nt p.
Proof. intros [Hl Hb] HB. destruct (ntt_spec p B Hl HB Hb) as (E & H & H'). split; [split; done | done]. Qed.

Lemma poly_pointwise_ok A B C a b : sized A a -> sized B b -> 0 <= A -> 0 <= B ->
  A * B <= 2147483647 * Q -> A * B + 2147483648 * Q <= 4294967296 * C ->
  sized C (poly_pointwise_montgomery a b) /\ poly_pointwise_montgomery a b ≡v vscale RINV (vmul a b).
Proof.
  intros Ha Hb HA HB H HC. unfold vmul. rewrite vscale_zip_with.
  eapply sized_zip; [exact Ha | exact Hb |]. intros x y Hx Hy.
  assert (Hxy : - (A * B) <= x * y <= A * B) by nia. split.
  - rewrite (montgomery_mod _ (A * B)) by nia. apply eqq_eq. ring.
  - destruct (dsa_montgomery_spec (x * y) (A * B)) as [_ ?]; [nia | done | lia].
Qed.

(** Transforming a product back: the transform of the result is the product. *)
Lemma poly_invntt_ok p y : sized 8380416 p -> p ≡v vscale RINV y ->
  sized 4211197 (poly_invntt_tomont p) /\ nt (poly_invntt_tomont p) ≡v y.
Proof.
  intros [Hl Hb] E. assert (Hy : length y = 256%nat) by (apply eqv_length in E; vlen).
  destruct (invntt_spec p Hl Hb) as (_ & H & H'). split; [split; done | apply nt_invntt_dsa; done].
Qed.

(** ** Rows of the matrix *)

Definition sized_vec (B : Z) (v : list poly) : Prop := length v = 4%nat /\ Forall (sized B) v.

Lemma sized_vec_at B v j : sized_vec B v -> (j < 4)%nat -> sized B (vec v j).
Proof. intros [Hl Hv] Hj. unfold vec. apply List.Forall_nth; [done | lia]. Qed.
Lemma sized_vec_map B C (f : poly -> poly) v : sized_vec B v -> (forall p, sized B p -> sized C (f p)) -> sized_vec C (map f v).
Proof.
  intros [Hl Hv] Hf. split; [rewrite length_map; done|]. apply List.Forall_map.
  eapply List.Forall_impl; [|exact Hv]. exact Hf.
Qed.
Lemma dsa_vec_map (f : poly -> poly) v j : length v = 4%nat -> (j < 4)%nat -> vec (map f v) j = f (vec v j).
Proof. intros Hl Hj. unfold vec. rewrite (nth_indep _ [] (f [])) by (rewrite length_map; lia). apply map_nth. Qed.

(** The inner product of a row with a vector, coefficient by coefficient. *)
Definition dot (u v : list poly) : list Z :=
  vadd (vadd (vadd (vmul (vec u 0) (vec v 0)) (vmul (vec u 1) (vec v 1))) (vmul (vec u 2) (vec v 2))) (vmul (vec u 3) (vec v 3)).

Lemma dot_eqv u v v' : (forall j, (j < 4)%nat -> vec v j ≡v vec v' j) -> dot u v ≡v dot u v'.
Proof. intros H. unfold dot. rewrite (H 0%nat), (H 1%nat), (H 2%nat), (H 3%nat) by lia. reflexivity. Qed.
Lemma length_vmul a b : length (vmul a b) = Nat.min (length a) (length b).
Proof. apply length_zip_with. Qed.
#[export] Hint Rewrite length_vmul : vlen.

Lemma acc_ok A B C u v : sized_vec A u -> sized_vec B v -> 0 <= A -> 0 <= B -> C <= 500000000 ->
  A * B <= 2147483647 * Q -> A * B + 2147483648 * Q <= 4294967296 * C ->
  sized (C + C + C + C) (polyvecl_pointwise_acc_montgomery u v) /\
  polyvecl_pointwise_acc_montgomery u v ≡v vscale RINV (dot u v).
Proof.
  intros Hu Hv HA HB HC H H'.
  assert (Hp : forall j, (j < 4)%nat -> sized C (poly_pointwise_montgomery (vec u j) (vec v j)) /\
      poly_pointwise_montgomery (vec u j) (vec v j) ≡v vscale RINV (vmul (vec u j) (vec v j)))
    by (intros j Hj; apply (poly_pointwise_ok A B); try done; eapply sized_vec_at; eauto).
  destruct (Hp 0%nat ltac:(lia)) as [S0 E0]. destruct (Hp 1%nat ltac:(lia)) as [S1 E1].
  destruct (Hp 2%nat ltac:(lia)) as [S2 E2]. destruct (Hp 3%nat ltac:(lia)) as [S3 E3]. clear Hp.
  unfold polyvecl_pointwise_acc_montgomery. change (seq 1 (L - 1)) with [1; 2; 3]%nat. cbn [fold_left].
  destruct (poly_add_ok C C _ _ S0 S1) as [T1 F1]; [lia|].
  destruct (poly_add_ok (C + C) C _ _ T1 S2) as [T2 F2]; [lia|].
  destruct (poly_add_ok (C + C + C) C _ _ T2 S3) as [T3 F3]; [lia|].
  split; [exact T3|]. rewrite F3, F2, F1, E0, E1, E2, E3. unfold dot. rewrite !vscale_vadd. reflexivity.
Qed.

(** [w = A v], as the functions of polyvec.c compute it. *)
Definition row_times (row v : list poly) : poly :=
  poly_invntt_tomont (poly_reduce (polyvecl_pointwise_acc_montgomery row (polyvecl_ntt v))).

Lemma acc_ntt_ok row v : sized_vec 8380416 row -> sized_vec 131072 v ->
  sized 17600000 (polyvecl_pointwise_acc_montgomery row (polyvecl_ntt v)) /\
  polyvecl_pointwise_acc_montgomery row (polyvecl_ntt v) ≡v vscale RINV (dot row (map nt v)).
Proof.
  intros Hr Hv. assert (Hn : sized_vec (131072 + 67043328) (polyvecl_ntt v))
    by (eapply sized_vec_map; [exact Hv|]; intros p Hp; apply (poly_ntt_ok 131072); [done | lia]).
  destruct (acc_ok _ _ 4400000 row (polyvecl_ntt v) Hr Hn) as [S E]; try (unfold Q; lia).
  split; [exact S|]. rewrite E, (dot_eqv row (polyvecl_ntt v) (map nt v)); [reflexivity|].
  intros j Hj. unfold polyvecl_ntt. rewrite !dsa_vec_map by (try apply Hv; done).
  apply (poly_ntt_ok 131072); [eapply sized_vec_at; eauto | lia].
Qed.

Lemma row_times_ok row v : sized_vec 8380416 row -> sized_vec 131072 v ->
  sized 4211197 (row_times row v) /\ nt (row_times row v) ≡v dot row (map nt v).
Proof.
  intros Hr Hv. destruct (acc_ntt_ok row v Hr Hv) as [S E].
  destruct (dsa_poly_reduce_ok _ _ S) as [S' E']; [lia|].
  apply poly_invntt_ok; [eapply sized_mono; [exact S' | lia] | rewrite E'; exact E].
Qed.

(** [c s] for the challenge and a small polynomial. *)
Definition times (cp s : poly) : poly := poly_invntt_tomont (poly_pointwise_montgomery cp (poly_ntt s)).

Lemma times_ok c s : sized 1 c -> sized 4096 s ->
  sized 4211197 (times (poly_ntt c) s) /\ nt (times (poly_ntt c) s) ≡v vmul (nt c) (nt s).
Proof.
  intros Hc Hs. destruct (poly_ntt_ok 1 c Hc) as [Sc Ec]; [lia|]. destruct (poly_ntt_ok 4096 s Hs) as [Ss Es]; [lia|].
  destruct (poly_pointwise_ok _ _ 5300000 _ _ Sc Ss) as [S E]; try (unfold Q; lia).
  apply poly_invntt_ok; [eapply sized_mono; [exact S | lia] | rewrite E, Ec, Es; reflexivity].
Qed.

(** [A z - c t1 2^D], reduced. *)
Definition verifier_row (row z : list poly) (cp t1 : poly) : poly :=
  poly_caddq (poly_invntt_tomont (poly_reduce (poly_sub (polyvecl_pointwise_acc_montgomery row (polyvecl_ntt z))
    (poly_pointwise_montgomery cp (poly_ntt (poly_shiftl t1)))))).

Lemma verifier_row_ok row z c t1 : sized_vec 8380416 row -> sized_vec 131072 z -> sized 1 c -> poly_in 0 1023 t1 ->
  poly_in 0 (Q - 1) (verifier_row row z (poly_ntt c) t1) /\
  nt (verifier_row row z (poly_ntt c) t1) ≡v vsub (dot row (map nt z)) (vmul (nt c) (vscale 8192 (nt t1))).
Proof.
  intros Hr Hz Hc Ht. destruct (acc_ntt_ok row z Hr Hz) as [Sa Ea].
  destruct (poly_ntt_ok 1 c Hc) as [Sc Ec]; [lia|]. destruct (poly_shiftl_ok t1 Ht) as [St Et].
  destruct (poly_ntt_ok _ _ St) as [Sn En]; [lia|].
  destruct (poly_pointwise_ok _ _ 5400000 _ _ Sc Sn) as [Sp Ep]; try (unfold Q; lia).
  destruct (poly_sub_ok _ _ _ _ Sa Sp) as [Ss Es]; [lia|]. destruct (dsa_poly_reduce_ok _ _ Ss) as [Sr Er]; [lia|].
  destruct (poly_invntt_ok _ (vsub (dot row (map nt z)) (vmul (nt c) (vscale 8192 (nt t1)))) (sized_mono _ 8380416 _ Sr ltac:(lia)))
    as [Si Ei].
  { rewrite Er, Es, Ea, Ep, Ec, En, Et, nt_vscale_dsa, vscale_vsub. reflexivity. }
  destruct (poly_caddq_ok _ _ Si) as [Sq Eq]; [unfold Q; lia|]. split; [exact Sq|].
  unfold verifier_row. rewrite Eq. exact Ei.
Qed.

(** ** Rounding *)

Lemma poly_power2round_ok t : poly_in 0 (Q - 1) t -> let '(t1, t0) := poly_power2round t in
  poly_in 0 1023 t1 /\ poly_in (-4095) 4096 t0 /\ vadd (vscale 8192 t1) t0 = t.
Proof.
  intros [Hl Ht]. unfold poly_power2round.
  assert (H : Forall (fun x => let '(a1, a0) := power2round x in x = a1 * 8192 + a0 /\ 0 <= a1 < 1024 /\ -4096 < a0 <= 4096) t)
    by (eapply List.Forall_impl; [|exact Ht]; cbn; intros x Hx; apply power2round_spec; lia).
  split; [split; [rewrite length_map; done|] | split; [split; [rewrite length_map; done|]|]].
  - apply List.Forall_map. eapply List.Forall_impl; [|exact H]. cbn. intros x Hx. destruct (power2round x). cbn. lia.
  - apply List.Forall_map. eapply List.Forall_impl; [|exact H]. cbn. intros x Hx. destruct (power2round x). cbn. lia.
  - clear Hl Ht. induction H as [|x t Hx H IH]; [done|]. unfold vadd, vscale in *. cbn [map zip_with]. f_equal; [|exact IH].
    destruct (power2round x). cbn [fst snd]. lia.
Qed.

Lemma poly_decompose_ok w : poly_in 0 (Q - 1) w -> let '(w1, w0) := poly_decompose w in
  poly_in 0 43 w1 /\ sized 95232 w0 /\ vadd (vscale 190464 w1) w0 ≡v w.
Proof.
  intros [Hl Hw]. unfold poly_decompose.
  assert (H : Forall (fun x => let '(a1, a0) := decompose x in decomposed x a1 a0) w)
    by (eapply List.Forall_impl; [|exact Hw]; cbn; intros x Hx; apply decompose_spec; lia).
  split; [split; [rewrite length_map; done|] | split; [split; [rewrite length_map; done|]|]].
  - apply List.Forall_map. eapply List.Forall_impl; [|exact H]. cbn. intros x Hx. destruct (decompose x) as [a1 a0].
    destruct Hx. cbn. lia.
  - apply List.Forall_map. eapply List.Forall_impl; [|exact H]. cbn. intros x Hx. destruct (decompose x) as [a1 a0].
    destruct Hx as [_ [[_ ?]|(_ & _ & ?)]]; cbn; lia.
  - clear Hl Hw. induction H as [|x w Hx H IH]; constructor; [|exact IH].
    destruct (decompose x) as [a1 a0]. cbn [fst snd]. apply modq_iff. destruct Hx as [_ [[-> _]|(-> & -> & _)]].
    + exists 0. lia.
    + exists (-1). lia.
Qed.

(** ** The norm check *)

Lemma chk_abs_spec x : - 1073741823 <= x <= 1073741823 -> chk_abs x = Z.abs x.
Proof.
  intros Hx. unfold chk_abs. rewrite shiftr_div by lia. change (2 ^ 31) with 2147483648.
  rewrite (i32_in (2 * x)) by (unfold in32; lia). destruct (Z.ltb_spec x 0).
  - assert (E : x / 2147483648 = -1) by dlia. rewrite E, Z.land_m1_l, i32_in by (unfold in32; lia). lia.
  - rewrite Z.div_small, Z.land_0_l, i32_in by (unfold in32; lia). lia.
Qed.

(** An accepted polynomial is below the bound, and only those are accepted. *)
Lemma poly_chknorm_spec B C p : sized C p -> C <= 1073741823 -> 0 <= B <= (Q - 1) / 8 ->
  poly_chknorm p B = false <-> sized (B - 1) p.
Proof.
  intros [Hl Hp] HC HB. unfold poly_chknorm. rewrite (proj2 (Z.ltb_ge _ _)) by lia.
  rewrite <- not_true_iff_false, existsb_exists. unfold bounded in Hp. rewrite List.Forall_forall in Hp. split.
  - intros H. split; [done|]. apply List.Forall_forall. intros x Hx. specialize (Hp x Hx).
    destruct (Z.leb_spec B (chk_abs x)) as [Hc|Hc]; [exfalso; apply H; exists x; split; [done | apply Z.leb_le, Hc]|].
    rewrite chk_abs_spec in Hc by lia. lia.
  - intros [_ H] (x & Hx & Hc). unfold bounded in H. rewrite List.Forall_forall in H. specialize (H x Hx). specialize (Hp x Hx).
    apply Z.leb_le in Hc. rewrite chk_abs_spec in Hc by lia. lia.
Qed.

(** ** Hints *)

Lemma make_hint_bit x y : make_hint x y = 0 \/ make_hint x y = 1.
Proof. unfold make_hint. destruct (_ || _); [right | left]; done. Qed.
Lemma make_hints_poly a b : length a = 256%nat -> length b = 256%nat -> hint_poly (fst (poly_make_hint a b)).
Proof.
  intros Ha Hb. split; [cbn; rewrite length_zip_with; lia|]. cbn [fst poly_make_hint]. clear Ha Hb. revert b.
  induction a as [|x a IH]; intros [|y b]; constructor; [apply make_hint_bit | apply IH].
Qed.

(** The sum of a row is the number of its positions. *)
Lemma length_filter_shift f s n : length (List.filter f (seq (S s) n)) = length (List.filter (fun j => f (S j)) (seq s n)).
Proof.
  rewrite <- seq_shift. generalize (seq s n). intros l. induction l as [|x l IH]; [done|]. cbn [map List.filter].
  destruct (f (S x)); cbn [length]; rewrite IH; done.
Qed.
Lemma sum_count h : Forall (fun c => c = 0 \/ c = 1) h -> forall s, 0 <= s -> s + zlen h < 4294967296 ->
  fold_left (fun s x => u32 (s + x)) h s =
  s + Z.of_nat (length (List.filter (fun j => negb (nth j h 0 =? 0)) (seq 0 (length h)))).
Proof.
  induction 1 as [|x h Hx H IH]; intros s Hs Hn; [cbn; lia|]. unfold zlen in *. cbn [length] in Hn. cbn [fold_left].
  unfold u32 at 2. rewrite (Z.mod_small (s + x)) by lia. rewrite IH by lia. cbn [length seq List.filter].
  cbn [nth]. destruct Hx as [->| ->]; cbn [Z.eqb negb length]; rewrite length_filter_shift; cbn [nth]; lia.
Qed.
Lemma make_hint_sum h : hint_poly h -> fold_left (fun s x => u32 (s + x)) h 0 = Z.of_nat (length (positions h)).
Proof.
  intros [Hl Hh]. unfold positions, coeff, N. rewrite <- Hl. apply (sum_count h Hh 0); unfold zlen; lia.
Qed.

Lemma use_make_hints v w1 x : poly_in 0 (Q - 1) v -> poly_in 0 43 w1 -> sized 190463 x ->
  v ≡v vadd (vscale 190464 w1) x -> poly_use_hint v (fst (poly_make_hint x w1)) = w1.
Proof.
  intros [Hlv Hv] [Hlw Hw] [Hlx Hx] E. cbn [fst poly_make_hint]. unfold poly_use_hint.
  assert (H : length w1 = length x) by lia. clear Hlv Hlw Hlx. revert v w1 Hv Hw E H.
  induction Hx as [|a x Ha Hx IH]; intros v [|b w1] Hv Hw E H; try done; inversion E; subst; [done|].
  apply Forall_cons_1 in Hv as [Hv0 Hv]. apply Forall_cons_1 in Hw as [Hw0 Hw]. cbn [zip_with]. f_equal.
  - apply use_make_hint; [lia | lia | lia |]. etransitivity; [eassumption|]. apply eqq_eq. lia.
  - apply IH; [done | done | done | cbn in H; lia].
Qed.

(** ** One row of a signature *)

Section row.
Context (row : list poly) (Hrow : sized_vec 8380416 row) (c : poly) (Hc : sized 1 c).

(** A component of [z]. *)
Definition response (cp s y : poly) : poly := poly_reduce (poly_add (times cp s) y).

Lemma response_ok s y : sized 4096 s -> sized 131072 y ->
  sized 6283009 (response (poly_ntt c) s y) /\ nt (response (poly_ntt c) s y) ≡v vadd (vmul (nt c) (nt s)) (nt y).
Proof.
  intros Hs Hy. destruct (times_ok c s Hc Hs) as [St Et]. destruct (poly_add_ok _ _ _ _ St Hy) as [Sa Ea]; [lia|].
  destruct (dsa_poly_reduce_ok _ _ Sa) as [Sr Er]; [lia|]. split; [exact Sr|].
  unfold response. rewrite Er, Ea, nt_vadd_dsa, Et by (apply St || apply Hy). reflexivity.
Qed.

(** The public row: [A s1 + s2], with its two parts. *)
Definition public_row (s1 : list poly) (s2 : poly) : poly := poly_caddq (poly_add (row_times row s1) s2).

Lemma public_row_ok s1 s2 : sized_vec 2 s1 -> sized 2 s2 -> poly_in 0 (Q - 1) (public_row s1 s2) /\
  nt (public_row s1 s2) ≡v vadd (dot row (map nt s1)) (nt s2).
Proof.
  intros H1 H2. assert (H1' : sized_vec 131072 s1).
  { split; [apply H1|]. eapply List.Forall_impl; [|apply H1]. intros p Hp. eapply sized_mono; [exact Hp | lia]. }
  destruct (row_times_ok row s1 Hrow H1') as [Sw Ew].
  destruct (poly_add_ok _ _ _ _ Sw H2) as [Sa Ea]; [lia|]. destruct (poly_caddq_ok _ _ Sa) as [Sq Eq]; [unfold Q; lia|].
  split; [exact Sq|]. unfold public_row. rewrite Eq, Ea, nt_vadd_dsa, Ew by (apply Sw || apply H2). reflexivity.
Qed.

(** The low bits less [c s2], and [c t0]. *)
Definition low_row (cp s2 w0 : poly) : poly := poly_reduce (poly_sub w0 (times cp s2)).
Definition carry_row (cp t0 : poly) : poly := poly_reduce (times cp t0).

Lemma low_row_ok s2 w0 : sized 4096 s2 -> sized 95232 w0 -> sized 6283009 (low_row (poly_ntt c) s2 w0) /\
  nt (low_row (poly_ntt c) s2 w0) ≡v vsub (nt w0) (vmul (nt c) (nt s2)).
Proof.
  intros Hs Hw. destruct (times_ok c s2 Hc Hs) as [St Et]. destruct (poly_sub_ok _ _ _ _ Hw St) as [Sa Ea]; [lia|].
  destruct (dsa_poly_reduce_ok _ _ Sa) as [Sr Er]; [lia|]. split; [exact Sr|].
  unfold low_row. rewrite Er, Ea, vsub_vadd, nt_vadd_dsa, nt_vscale_dsa, Et, vsub_vadd by (rewrite ?length_vscale; apply St || apply Hw).
  reflexivity.
Qed.
Lemma carry_row_ok t0 : sized 4096 t0 -> sized 6283009 (carry_row (poly_ntt c) t0) /\
  nt (carry_row (poly_ntt c) t0) ≡v vmul (nt c) (nt t0).
Proof.
  intros Ht. destruct (times_ok c t0 Hc Ht) as [St Et]. destruct (dsa_poly_reduce_ok _ _ St) as [Sr Er]; [lia|].
  split; [exact Sr|]. unfold carry_row. rewrite Er. exact Et.
Qed.
End row.

Lemma at_vmul l k i : length l = length k -> at_ (vmul l k) i = at_ l i * at_ k i.
Proof.
  revert k i. induction l as [|x l IH]; intros [|y k] [|i] H; try done. apply (IH k i). cbn in H. lia.
Qed.

(** The vectors of a row, coefficient by coefficient. *)
Definition lengths (v : list poly) : Prop := forall j, (j < 4)%nat -> length (vec v j) = 256%nat.

Lemma dsa_length_dot u v : lengths u -> lengths v -> length (dot u v) = 256%nat.
Proof.
  intros Hu Hv. unfold dot. rewrite !length_vadd, !length_vmul, !Hu, !Hv by lia. done.
Qed.
Lemma at_dot u v i : lengths u -> lengths v -> at_ (dot u v) i =
  at_ (vec u 0) i * at_ (vec v 0) i + at_ (vec u 1) i * at_ (vec v 1) i +
  at_ (vec u 2) i * at_ (vec v 2) i + at_ (vec u 3) i * at_ (vec v 3) i.
Proof.
  intros Hu Hv. pose proof (fun j H => conj (Hu j H) (Hv j H)) as H. unfold dot.
  destruct (H 0%nat ltac:(lia)), (H 1%nat ltac:(lia)), (H 2%nat ltac:(lia)), (H 3%nat ltac:(lia)).
  rewrite !at_vadd, !at_vmul by (rewrite ?length_vadd, ?length_vmul; congruence || lia). ring.
Qed.

(** [A z - c t1 2^D = A y - c s2 + c t0] when [z = c s1 + y] and [t1 2^D + t0 = A s1 + s2]. *)
Lemma row_algebra r y z s c n2 n1 n0 w1 w0 : lengths r -> lengths y -> lengths z -> lengths s ->
  length c = 256%nat -> length n2 = 256%nat -> length n1 = 256%nat -> length n0 = 256%nat ->
  length w1 = 256%nat -> length w0 = 256%nat ->
  (forall j, (j < 4)%nat -> vec z j ≡v vadd (vmul c (vec s j)) (vec y j)) ->
  vadd (vscale 8192 n1) n0 ≡v vadd (dot r s) n2 -> vadd (vscale 190464 w1) w0 ≡v dot r y ->
  vsub (dot r z) (vmul c (vscale 8192 n1)) ≡v vadd (vscale 190464 w1) (vadd (vsub w0 (vmul c n2)) (vmul c n0)).
Proof.
  intros Hr Hy Hz Hs Hc H2 H1 H0 Hw1 Hw0 Ez Ek Ew.
  pose proof (dsa_length_dot r s Hr Hs) as Ls. pose proof (dsa_length_dot r y Hr Hy) as Ly. pose proof (dsa_length_dot r z Hr Hz) as Lz.
  apply eqv_at; [vlen|]. intros i _. apply (at_eqv _ _ i) in Ek, Ew.
  rewrite at_vadd, at_vadd, at_vscale, at_dot in Ek by (vlen || done).
  rewrite at_vadd, at_vscale, at_dot in Ew by (vlen || done).
  assert (Ez' : forall j, (j < 4)%nat -> at_ (vec z j) i ≡q at_ c i * at_ (vec s j) i + at_ (vec y j) i).
  { intros j Hj. rewrite (at_eqv _ _ i (Ez j Hj)). rewrite at_vadd, at_vmul by (rewrite ?length_vmul, ?Hs, ?Hy; lia). reflexivity. }
  clear Ez. rewrite at_vsub, at_vmul, at_vscale, at_dot by (vlen || done).
  rewrite at_vadd, at_vadd, at_vsub, !at_vmul, at_vscale by vlen.
  pose proof (Ez' 0%nat ltac:(lia)) as Z0. pose proof (Ez' 1%nat ltac:(lia)) as Z1.
  pose proof (Ez' 2%nat ltac:(lia)) as Z2. pose proof (Ez' 3%nat ltac:(lia)) as Z3. clear Ez'.
  rewrite Z0, Z1, Z2, Z3. clear Z0 Z1 Z2 Z3. set (sum := at_ (vec r 0) i * at_ (vec s 0) i + _ + _ + _) in Ek.
  assert (Ek' : 8192 * at_ n1 i ≡q sum + at_ n2 i - at_ n0 i) by (rewrite <- Ek; apply eqq_eq; ring).
  assert (Ew' : 190464 * at_ w1 i ≡q at_ (vec r 0) i * at_ (vec y 0) i + at_ (vec r 1) i * at_ (vec y 1) i +
    at_ (vec r 2) i * at_ (vec y 2) i + at_ (vec r 3) i * at_ (vec y 3) i - at_ w0 i) by (rewrite <- Ew; apply eqq_eq; ring).
  rewrite Ek', Ew'. apply eqq_eq. unfold sum. ring.
Qed.

Lemma sized_lengths B v : sized_vec B v -> lengths v.
Proof. intros Hv j Hj. apply (sized_vec_at B v j Hv Hj). Qed.
Lemma nt_lengths B v : sized_vec B v -> lengths (map nt v).
Proof.
  intros Hv j Hj. rewrite dsa_vec_map by (apply Hv || done). apply length_nt_dsa, (sized_vec_at B v j Hv Hj).
Qed.

(** The signer's [w1], from what the verifier computes. *)
Lemma row_recovers row c y z s1 s2 t1 t0 w1 w0 :
  sized_vec 8380416 row -> sized 1 c -> sized_vec 131072 y -> sized_vec 131072 z -> sized_vec 2 s1 -> sized 2 s2 ->
  poly_power2round (public_row row s1 s2) = (t1, t0) ->
  (forall j, (j < 4)%nat -> vec z j = response (poly_ntt c) (vec s1 j) (vec y j)) ->
  poly_decompose (poly_caddq (row_times row y)) = (w1, w0) ->
  poly_chknorm (low_row (poly_ntt c) s2 w0) (GAMMA2 - BETA) = false ->
  poly_chknorm (carry_row (poly_ntt c) t0) GAMMA2 = false ->
  let h := fst (poly_make_hint (poly_add (low_row (poly_ntt c) s2 w0) (carry_row (poly_ntt c) t0)) w1) in
  poly_use_hint (verifier_row row z (poly_ntt c) t1) h = w1 /\ hint_poly h.
Proof.
  intros Hr Hc Hy Hz H1 H2 Ht Ez Hw Hn Hn' h.
  destruct (public_row_ok row Hr s1 s2 H1 H2) as [St Et]. pose proof (poly_power2round_ok _ St) as Hp. rewrite Ht in Hp.
  destruct Hp as (P1 & P0 & Ep). destruct (row_times_ok row y Hr Hy) as [Sy Ey].
  destruct (poly_caddq_ok _ _ Sy) as [Sq Eq]; [unfold Q; lia|]. pose proof (poly_decompose_ok _ Sq) as Hd. rewrite Hw in Hd.
  destruct Hd as (W1 & W0 & Ed).
  destruct (low_row_ok c Hc s2 w0) as [Sl El]; [eapply sized_mono; [exact H2 | lia] | done|].
  assert (S0 : sized 4096 t0) by (eapply sized_in; [exact P0 | lia | lia]).
  destruct (carry_row_ok c Hc t0 S0) as [Sk Ek].
  apply (poly_chknorm_spec _ _ _ Sl) in Hn; [|lia | vm_compute; split; congruence].
  apply (poly_chknorm_spec _ _ _ Sk) in Hn'; [|lia | vm_compute; split; congruence].
  change (GAMMA2 - BETA - 1) with 95153 in Hn. change (GAMMA2 - 1) with 95231 in Hn'.
  destruct (poly_add_ok _ _ _ _ Hn Hn') as [Sx Ex]; [lia|].
  destruct (verifier_row_ok row z c t1 Hr Hz Hc P1) as [Sv Ev].
  assert (Lw1 : length w1 = 256%nat) by apply W1. assert (Lw0 : length w0 = 256%nat) by apply W0.
  split; [|apply make_hints_poly; [apply Sx | done]].
  apply use_make_hints; [exact Sv | exact W1 | eapply sized_mono; [exact Sx | lia] |].
  apply nt_inj_dsa; [apply Sv | rewrite length_vadd, length_vscale, Lw1, (proj1 Sx); done |].
  rewrite Ev, nt_vadd_dsa, nt_vscale_dsa by (rewrite ?length_vscale; congruence || apply Sx).
  rewrite Ex, nt_vadd_dsa, El, Ek by (apply Hn || apply Hn').
  apply (row_algebra row (map nt y) (map nt z) (map nt s1) (nt c) (nt s2) (nt t1) (nt t0) (nt w1) (nt w0));
    lazymatch goal with
    | |- lengths (map nt _) => eapply nt_lengths; eassumption
    | |- lengths _ => eapply sized_lengths; eassumption
    | |- length (nt _) = _ => apply length_nt_dsa; first [assumption | apply Hc | apply H2 | apply P1 | apply P0]
    | |- _ => idtac
    end.
  - intros j Hj. rewrite !dsa_vec_map by (apply Hz || apply H1 || apply Hy || done). rewrite (Ez j Hj).
    apply response_ok; [done | eapply sized_mono; [eapply sized_vec_at; eauto | lia] | eapply sized_vec_at; eauto].
  - rewrite <- Et, <- Ep, nt_vadd_dsa, nt_vscale_dsa by (rewrite ?length_vscale; apply P1 || apply P0). reflexivity.
  - rewrite <- nt_vscale_dsa, <- nt_vadd_dsa by (rewrite ?length_vscale; done). rewrite Ed, Eq. exact Ey.
Qed.

(** ** Products *)

(** C19: products by transform.  For polynomials with coefficients between -(q-1) and
    q-1, transforming with [poly_ntt], multiplying coefficient by coefficient with
    [poly_pointwise_montgomery] and transforming back with [poly_invntt_tomont] gives the
    product modulo X^256 + 1 and q, with coefficients of at most 4211197 in absolute value; and
    [poly_ntt] alone leaves at most 75423744, within [int32_t]. *)
Theorem dsa_poly_product (a b : poly) : sized (Q - 1) a -> sized (Q - 1) b ->
  let p := poly_invntt_tomont (poly_pointwise_montgomery (poly_ntt a) (poly_ntt b)) in
  p ≡v negacyclic a b /\ sized 4211197 p /\ sized 75423744 (poly_ntt a).
Proof.
  intros Ha Hb. change (Q - 1) with 8380416 in *.
  destruct (poly_ntt_ok _ a Ha) as [Sa Ea]; [lia|]. destruct (poly_ntt_ok _ b Hb) as [Sb Eb]; [lia|].
  destruct (poly_pointwise_ok _ _ 8380416 _ _ Sa Sb) as [Sp Ep]; try (unfold Q; lia).
  destruct (poly_invntt_ok _ (vmul (nt a) (nt b)) Sp) as [Si Ei]; [rewrite Ep, Ea, Eb; reflexivity|].
  split; [|split; [exact Si | exact Sa]]. rewrite <- mulmod_negacyclic by (apply Ha || apply Hb).
  apply nt_inj_dsa; [apply Si | rewrite length_mulmod; apply Hb |].
  rewrite nt_vmul by (apply Ha || apply Hb). exact Ei.
Qed.

Lemma dsa_poly_product_witness : let a := replicate 255 0 ++ [Q - 1] in let b := 0 :: 2 :: replicate 254 (1 - Q) in
  poly_invntt_tomont (poly_pointwise_montgomery (poly_ntt a) (poly_ntt b)) ≡v negacyclic a b.
Proof.
  intros a b. apply (dsa_poly_product a b); (split; [reflexivity|]).
  - apply Forall_app_2; [apply Forall_replicate; unfold Q; lia | repeat constructor; unfold Q; lia].
  - do 2 (apply List.Forall_cons; [unfold Q; lia|]). apply Forall_replicate. unfold Q. lia.
Defined.
