(* ===== verification/DsaSampling.v ===== *)
(** * Sampling in ML-DSA-44

    The laws that sign.c relies on of the calls of fips202.h, as a class that the Keccak
    functions satisfy; and what the sampling functions of poly.c and polyvec.c return:
    256 coefficients in the range FIPS 204 asks for, whatever the stream. *)
From stdpp Require Import base numbers list option.
From Stdlib Require Import ZArith Lia.
From S2P Require Import Prelude Keccak KeccakFacts SpongeFacts KemSymmetric PolyRing Transform BlockCodec DsaNtt DsaNttFacts DsaPoly Dsa DsaCodecFacts DsaPolyFacts.

Class ShakeLaws (H : Shake) : Prop := {
  squeeze256_ok n s : bytes_n n (fst (inc256_squeeze n s));
  hash256_ok n m : bytes_n n (hash256 n m)
}.

(** ** The Keccak functions *)

#[local] Opaque KeccakF1600_StatePermute keccak_absorb.

Lemma squeeze_loop_ok r fuel : (0 < r)%nat -> forall n c, (n <= fuel)%nat ->
  bytes_n n (fst (keccak_inc_squeeze_loop fuel n c r)).
Proof.
  intros Hr. induction fuel as [|fuel IH]; intros n c Hn; cbn [keccak_inc_squeeze_loop].
  - replace n with 0%nat by lia. split; [done | constructor].
  - destruct (Nat.ltb_spec 0 n) as [H|H]; [|replace n with 0%nat by lia; split; [done | constructor]].
    match goal with |- context [keccak_inc_squeeze_loop fuel ?m ?c r] => destruct (IH m c ltac:(lia)) as [Hl Hb];
      destruct (keccak_inc_squeeze_loop fuel m c r) as [rest c'] end.
    cbn [fst] in *. split; [rewrite length_app, length_map, length_seq, Hl; lia|].
    apply Forall_app_2; [|exact Hb]. apply List.Forall_map, List.Forall_forall. intros i _. apply u8_byte.
Qed.
Lemma inc_squeeze_ok r n c : (0 < r)%nat -> bytes_n n (fst (keccak_inc_squeeze n c r)).
Proof.
  intros Hr. unfold keccak_inc_squeeze.
  match goal with |- context [keccak_inc_squeeze_loop n ?m ?c r] => destruct (squeeze_loop_ok r n Hr m c ltac:(lia)) as [Hl Hb];
    destruct (keccak_inc_squeeze_loop n m c r) as [rest c'] end.
  cbn [fst] in *. split; [rewrite length_app, length_map, length_seq, Hl; lia|].
  apply Forall_app_2; [|exact Hb]. apply List.Forall_map, List.Forall_forall. intros i _. apply u8_byte.
Qed.

#[export] Instance fips202_laws : ShakeLaws fips202_shake.
Proof.
  split.
  - intros n s. apply (inc_squeeze_ok SHAKE256_RATE). unfold SHAKE256_RATE. lia.
  - intros n m. apply shake256_bytes.
Qed.

(** ** Rejection *)

Lemma rej_uniform_ok len buf : (length (rej_uniform len buf) <= len)%nat /\ in_range 0 (Q - 1) (rej_uniform len buf).
Proof.
  revert len. remember (length buf) as n eqn:Hn. revert buf Hn.
  induction (lt_wf n) as [n _ IH]. intros [|b0 [|b1 [|b2 buf]]] Hn len; try (split; [cbn; lia | constructor]).
  cbn [rej_uniform]. destruct (Nat.ltb_spec 0 len); [|split; [cbn; lia | constructor]].
  set (t := Z.land _ 0x7FFFFF). assert (Ht : 0 <= t) by (unfold t; rewrite (land_mod _ 23) by lia; apply Z.mod_pos_bound; done).
  cbn [length] in Hn. destruct (Z.ltb_spec t Q).
  - destruct (IH (length buf) ltac:(lia) buf eq_refl (len - 1)%nat) as [Hl Hb].
    split; [cbn [length]; lia | constructor; [lia | done]].
  - apply (IH (length buf)); [lia | done].
Qed.

Lemma eta_mod5_spec t : 0 <= t < 15 -> i32 (u32 (2 - eta_mod5 t)) = 2 - t mod 5.
Proof.
  intros Ht. assert (H : forallb (fun t => i32 (u32 (2 - eta_mod5 (Z.of_nat t))) =? 2 - Z.of_nat t mod 5) (seq 0 15) = true)
    by (vm_compute; reflexivity).
  rewrite forallb_forall in H. specialize (H (Z.to_nat t)). rewrite in_seq, Z2Nat.id in H by lia.
  apply Z.eqb_eq, H. lia.
Qed.

Lemma rej_eta_ok buf : bytes_ok buf -> forall len,
  (length (rej_eta len buf) <= len)%nat /\ in_range (-2) 2 (rej_eta len buf).
Proof.
  induction 1 as [|b buf Hb Hbuf IH]; intros len; [split; [cbn; lia | constructor]|]. cbn [rej_eta].
  destruct (Nat.ltb_spec 0 len); [|split; [cbn; lia | constructor]].
  assert (H0 : 0 <= Z.land b 15) by (rewrite land_15; dlia).
  assert (H1 : 0 <= Z.shiftr b 4) by (rewrite shiftr_div by lia; unfold is_byte in Hb; dlia).
  assert (Hm : forall t, 0 <= t -> t < 15 -> -2 <= i32 (u32 (2 - eta_mod5 t)) <= 2)
    by (intros t Ht Ht'; rewrite eta_mod5_spec by lia; dlia).
  destruct (Z.ltb_spec (Z.land b 15) 15) as [E0|E0], (Z.ltb_spec (Z.shiftr b 4) 15) as [E1|E1]; cbn [length andb];
    try match goal with |- context [(0 <? ?n)%nat] => destruct (Nat.ltb_spec 0 n) end; cbn [length app];
    match goal with |- context [rej_eta ?n buf] => destruct (IH n) as [Hl Hr] end;
    (split; [cbn [length]; lia | repeat (apply List.Forall_cons; [apply Hm; assumption|]); exact Hr]).
Qed.

(** ** Polynomials *)

Section sampling.
Context {H : Shake} {HL : ShakeLaws H} (fuel : nat).

(** The refill loops stop with exactly 256 coefficients. *)
Lemma uniform_refill_ok f : forall cs buf st p, (length cs <= 256)%nat -> in_range 0 (Q - 1) cs ->
  uniform_refill f cs buf st = Some p -> poly_in 0 (Q - 1) p.
Proof.
  unfold poly_in. induction f as [|f IH]; intros cs buf st p Hl Hc; cbn [uniform_refill]; unfold N;
    destruct (Nat.ltb_spec (length cs) 256); try discriminate; try (intros [= <-]; split; [lia | done]).
  destruct (stream128_squeezeblocks 1 st) as [block st'].
  match goal with |- context [rej_uniform ?n ?b] => destruct (rej_uniform_ok n b) as [Hl' Hr'] end.
  apply IH; [rewrite length_app; unfold N in Hl'; lia | apply Forall_app_2; done].
Qed.
Lemma poly_uniform_ok seed nonce p : poly_uniform fuel seed nonce = Some p -> poly_in 0 (Q - 1) p.
Proof.
  unfold poly_uniform. destruct (stream128_squeezeblocks _ _) as [buf st].
  destruct (rej_uniform_ok N buf). apply uniform_refill_ok; done.
Qed.

Lemma stream256_bytes n st : bytes_ok (fst (stream256_squeezeblocks n st)).
Proof. apply squeeze256_ok. Qed.

Lemma eta_refill_ok f : forall cs st p, (length cs <= 256)%nat -> in_range (-2) 2 cs ->
  eta_refill f cs st = Some p -> poly_in (-2) 2 p.
Proof.
  unfold poly_in. induction f as [|f IH]; intros cs st p Hl Hc; cbn [eta_refill]; unfold N;
    destruct (Nat.ltb_spec (length cs) 256); try discriminate; try (intros [= <-]; split; [lia | done]).
  pose proof (stream256_bytes 1 st) as Hb. destruct (stream256_squeezeblocks 1 st) as [buf st'].
  destruct (rej_eta_ok buf Hb (256 - length cs)) as [Hl' Hr'].
  apply IH; [rewrite length_app; lia | apply Forall_app_2; done].
Qed.
Lemma poly_uniform_eta_ok seed nonce p : poly_uniform_eta fuel seed nonce = Some p -> poly_in (-2) 2 p.
Proof.
  unfold poly_uniform_eta. pose proof (stream256_bytes POLY_UNIFORM_ETA_NBLOCKS (stream256_init seed nonce)) as Hb.
  destruct (stream256_squeezeblocks _ _) as [buf st]. destruct (rej_eta_ok buf Hb N). apply eta_refill_ok; done.
Qed.

(** Every 18-bit field is a coefficient of -2^17+1 .. 2^17. *)
Lemma polyz_unpack_ok b : poly_in (-131071) 131072 (polyz_unpack b).
Proof.
  assert (HF : forall f, length (polyz_unpack_block f) = 4%nat) by done. split.
  - unfold polyz_unpack. apply (length_flat_map_seq (fun i => polyz_unpack_block (fun j => byte b (9 * i + j))) 4 64). intros. apply HF.
  - unfold polyz_unpack. apply List.Forall_flat_map, List.Forall_forall. intros i _. unfold polyz_unpack_block.
    assert (Hf : forall x, -131071 <= GAMMA1 - Z.land x 0x3FFFF <= 131072).
    { intros x. change 0x3FFFF with (Z.ones 18). rewrite (land_mod x 18) by lia. change GAMMA1 with 131072. change (2 ^ 18) with 262144. dlia. }
    cbn [map]. repeat (apply List.Forall_cons; [apply Hf|]). constructor.
Qed.

(** And every 10-bit field is one of 0 .. 1023. *)
Lemma polyt1_unpack_ok b : poly_in 0 1023 (polyt1_unpack b).
Proof.
  assert (HF : forall f, length (polyt1_unpack_block f) = 4%nat) by done. split.
  - unfold polyt1_unpack. apply (length_flat_map_seq (fun i => polyt1_unpack_block (fun j => byte b (5 * i + j))) 4 64). intros. apply HF.
  - unfold polyt1_unpack. apply List.Forall_flat_map, List.Forall_forall. intros i _. unfold polyt1_unpack_block.
    assert (Hf : forall x, 0 <= Z.land x 0x3FF <= 1023) by (intros x; rewrite land_3FF; dlia).
    repeat (apply List.Forall_cons; [apply Hf|]). constructor.
Qed.

(** ** Vectors *)

Lemma mapM_ok {A B} (f : A -> option B) (P : B -> Prop) l v : (forall x y, f x = Some y -> P y) ->
  mapM f l = Some v -> length v = length l /\ Forall P v.
Proof.
  intros Hf Hv. apply mapM_Some_1 in Hv. split; [symmetry; eapply Forall2_length; exact Hv|].
  induction Hv; constructor; eauto.
Qed.

Lemma poly_in_sized lo hi B v n : vec_in n lo hi v -> n = 4%nat -> - B <= lo -> hi <= B -> sized_vec B v.
Proof.
  intros [Hl Hv] -> Hlo Hhi. split; [done|]. eapply List.Forall_impl; [|exact Hv]. intros p Hp. eapply sized_in; eauto.
Qed.

Lemma matrix_expand_ok rho mat : polyvec_matrix_expand fuel rho = Some mat ->
  length mat = 4%nat /\ Forall (sized_vec 8380416) mat.
Proof.
  intros E. apply (mapM_ok _ (sized_vec 8380416)) in E; [exact E|]. intros i row Er.
  apply (mapM_ok _ (poly_in 0 (Q - 1))) in Er; [|intros j p; apply poly_uniform_ok].
  apply (poly_in_sized 0 (Q - 1) 8380416 row 4); [exact Er | done | lia | unfold Q; lia].
Qed.
Lemma uniform_eta_ok seed nonce v : polyvecl_uniform_eta fuel seed nonce = Some v -> vec_in L (-2) 2 v.
Proof. intros E. apply (mapM_ok _ (poly_in (-2) 2)) in E; [exact E|]. intros j p. apply poly_uniform_eta_ok. Qed.
Lemma uniform_etak_ok seed nonce v : polyveck_uniform_eta fuel seed nonce = Some v -> vec_in K (-2) 2 v.
Proof. intros E. apply (mapM_ok _ (poly_in (-2) 2)) in E; [exact E|]. intros j p. apply poly_uniform_eta_ok. Qed.
Lemma uniform_gamma1_ok seed nonce : sized_vec 131072 (polyvecl_uniform_gamma1 seed nonce).
Proof.
  apply (poly_in_sized (-131071) 131072 _ _ 4); [|done | lia | lia]. split; [done|].
  apply List.Forall_map, List.Forall_forall. intros i _. unfold poly_uniform_gamma1.
  destruct (stream256_squeezeblocks _ _) as [buf st]. apply polyz_unpack_ok.
Qed.

(** ** The challenge *)

Lemma challenge_loop_ok n : forall i c signs s p, sized 1 c ->
  challenge_loop fuel n i c signs s = Some p -> sized 1 p.
Proof.
  induction n as [|n IH]; intros i c signs s p Hc; cbn [challenge_loop]; [intros [= <-]; done|].
  destruct (challenge_index fuel (Z.of_nat i) s) as [[b s']|]; [|discriminate]. cbn [mbind option_bind].
  apply IH. destruct Hc as [Hl Hb].
  assert (Hs : -1 <= i32 (u64 (1 - 2 * Z.land signs 1)) <= 1).
  { rewrite land_1. pose proof (Z.mod_pos_bound signs 2 ltac:(lia)). destruct (Z.eq_dec (signs mod 2) 0) as [->|]; [done|].
    replace (signs mod 2) with 1 by lia. done. }
  assert (Hcb : -1 <= coeff c (Z.to_nat b) <= 1).
  { unfold coeff. destruct (decide (Z.to_nat b < length c)%nat); [|rewrite nth_overflow by lia; lia].
    apply (proj1 (List.Forall_nth _ _) Hb). done. }
  unfold poly. split; [rewrite !length_insert; done|]. apply Forall_insert; [apply Forall_insert; [exact Hb | lia] | lia].
Qed.

Lemma poly_challenge_ok seed c : poly_challenge fuel seed = Some c -> sized 1 c.
Proof.
  unfold poly_challenge. destruct (inc256_squeeze _ _) as [buf st]. apply challenge_loop_ok.
  split; [done|]. apply Forall_replicate. lia.
Qed.
End sampling.
