(* ===== verification/DsaFacts.v ===== *)
(** * ML-DSA-44: the scheme

    What [crypto_sign_keypair] and an accepted attempt of [crypto_sign_signature] have
    computed, row by row, and the theorem that [crypto_sign_verify] accepts every signature
    that signing returns under a generated key. *)
From stdpp Require Import base numbers list option.
From Stdlib Require Import ZArith Lia.
From S2P Require Import Prelude Keccak KeccakFacts KemSymmetric PolyRing Transform BlockCodec DsaNtt DsaNttFacts DsaRoundFacts DsaPoly Dsa DsaCodecFacts DsaPolyFacts DsaSampling.

(** ** Vectors by index *)

Lemma vec_zip (f : poly -> poly -> poly) u v i : length u = 4%nat -> length v = 4%nat -> (i < 4)%nat ->
  vec (zip_with f u v) i = f (vec u i) (vec v i).
Proof.
  intros Hu Hv Hi. destruct u as [|? [|? [|? [|? [|]]]]], v as [|? [|? [|? [|? [|]]]]]; try discriminate.
  destruct i as [|[|[|[|]]]]; try lia; reflexivity.
Qed.
Lemma vec_rows mat v i : length mat = 4%nat -> (i < 4)%nat ->
  vec (polyvec_matrix_pointwise_montgomery mat v) i = polyvecl_pointwise_acc_montgomery (nth i mat []) v.
Proof.
  intros Hm Hi. unfold vec, polyvec_matrix_pointwise_montgomery.
  rewrite (nth_indep _ [] (polyvecl_pointwise_acc_montgomery [] v)) by (rewrite length_map; lia).
  apply (map_nth (fun row => polyvecl_pointwise_acc_montgomery row v)).
Qed.
Lemma vec_ext u v : length u = 4%nat -> length v = 4%nat -> (forall i, (i < 4)%nat -> vec u i = vec v i) -> u = v.
Proof.
  intros Hu Hv H. destruct u as [|? [|? [|? [|? [|]]]]], v as [|? [|? [|? [|? [|]]]]]; try discriminate.
  repeat f_equal; [apply (H 0%nat) | apply (H 1%nat) | apply (H 2%nat) | apply (H 3%nat)]; lia.
Qed.
Lemma Forall_vec (P : poly -> Prop) v : length v = 4%nat -> (forall i, (i < 4)%nat -> P (vec v i)) -> Forall P v.
Proof. intros Hl H. apply List.Forall_nth. intros i d Hi. rewrite (nth_indep _ d []) by done. apply H. lia. Qed.
Lemma vec_in_at n lo hi v i : vec_in n lo hi v -> (i < n)%nat -> poly_in lo hi (vec v i).
Proof. intros [Hl Hv] Hi. unfold vec. apply List.Forall_nth; [done | lia]. Qed.
Lemma existsb_vec f (v : list poly) i : existsb f v = false -> length v = 4%nat -> (i < 4)%nat -> f (vec v i) = false.
Proof.
  intros H Hl Hi. rewrite <- not_true_iff_false, existsb_exists in H. apply not_true_is_false. intros E. apply H.
  exists (vec v i). split; [apply nth_In; lia | done].
Qed.
Lemma row_at mat i : length mat = 4%nat -> Forall (sized_vec 8380416) mat -> (i < 4)%nat -> sized_vec 8380416 (nth i mat []).
Proof. intros Hl Hm Hi. apply List.Forall_nth; [done | lia]. Qed.

(** Lengths of the vectors that the functions of polyvec.c return. *)
Lemma some_triple {A B C} (a a' : A) (b b' : B) (c c' : C) : Some (a, b, c) = Some (a', b', c') -> a = a' /\ b = b' /\ c = c'.
Proof. intros [= -> -> ->]. done. Qed.

Ltac len4 := unfold polyvec_matrix_pointwise_montgomery; repeat first [rewrite length_map | rewrite length_zip_with]; lia.
(** The component of a composition of those functions. *)
Ltac vec_at := unfold polyveck_caddq, polyveck_add, polyveck_sub, polyveck_invntt_tomont, polyveck_reduce, polyveck_ntt,
    polyveck_shiftl, polyveck_pointwise_poly_montgomery, polyveck_use_hint, polyvecl_reduce, polyvecl_add,
    polyvecl_invntt_tomont, polyvecl_pointwise_poly_montgomery;
  repeat first [rewrite vec_zip by len4 | rewrite dsa_vec_map by len4 | rewrite vec_rows by len4].

(** ** Key pairs *)

Section scheme.
Context {H : Shake} {HL : ShakeLaws H} (fuel : nat).

(** What a generated key pair is. *)
Record generated (pk sk : bytes) (rho : bytes) (mat : list polyvecl) (s1 : polyvecl) (s2 t1 t0 : polyveck) : Prop := {
  gen_rho : length rho = SEEDBYTES;
  gen_mat : polyvec_matrix_expand fuel rho = Some mat;
  gen_s1 : vec_in L (-2) 2 s1;
  gen_s2 : vec_in K (-2) 2 s2;
  gen_t1 : vec_in K 0 1023 t1;
  gen_t0 : vec_in K (-4095) 4096 t0;
  gen_rows i : (i < 4)%nat -> poly_power2round (public_row (nth i mat []) s1 (vec s2 i)) = (vec t1 i, vec t0 i);
  gen_pk : pk = pack_pk rho t1;
  gen_sk : exists key, length key = SEEDBYTES /\ sk = pack_sk rho (hash256 TRBYTES pk) key t0 s1 s2
}.

Lemma seeds_length rnd : let '(rho, rhoprime, key) := keypair_seeds rnd in
  length rho = SEEDBYTES /\ length rhoprime = CRHBYTES /\ length key = SEEDBYTES.
Proof.
  unfold keypair_seeds. set (seed := hash256 _ _). assert (Hl : length seed = 128%nat) by apply hash256_ok.
  rewrite !length_drop, !length_take, !length_drop, Hl. done.
Qed.

Lemma vec_in_rows (v : polyveck) lo hi : length v = 4%nat ->
  (forall i, (i < 4)%nat -> poly_in lo hi (vec v i)) -> vec_in K lo hi v.
Proof. intros Hl Hv. split; [done | apply Forall_vec; done]. Qed.

Lemma keypair_generated rnd pk sk : keypair_from fuel rnd = Some (pk, sk) ->
  exists rho mat s1 s2 t1 t0, generated pk sk rho mat s1 s2 t1 t0.
Proof.
  unfold keypair_from. pose proof (seeds_length rnd) as Hs. destruct (keypair_seeds rnd) as [[rho rhoprime] key].
  destruct Hs as (Hr & _ & Hk).
  destruct (polyvec_matrix_expand fuel rho) as [mat|] eqn:Em; [|discriminate].
  destruct (polyvecl_uniform_eta fuel rhoprime 0) as [s1|] eqn:E1; [|discriminate].
  destruct (polyveck_uniform_eta fuel rhoprime L) as [s2|] eqn:E2; [|discriminate]. cbn [mbind option_bind].
  destruct (matrix_expand_ok fuel rho mat Em) as [Lm Hm].
  pose proof (uniform_eta_ok fuel _ _ _ E1) as H1. pose proof (uniform_etak_ok fuel _ _ _ E2) as H2.
  pose proof (poly_in_sized (-2) 2 2 s1 4 H1 eq_refl ltac:(lia) ltac:(lia)) as S1.
  pose proof (proj1 H2 : length s2 = 4%nat) as L2.
  set (t := polyveck_caddq _). assert (Lt : length t = 4%nat) by (unfold t, polyveck_caddq, polyveck_add, polyveck_invntt_tomont,
    polyveck_reduce, polyvec_matrix_pointwise_montgomery; len4).
  assert (Et : forall i, (i < 4)%nat -> vec t i = public_row (nth i mat []) s1 (vec s2 i)).
  { intros i Hi. unfold t. vec_at. unfold public_row, row_times. reflexivity. }
  assert (Pt : forall i, (i < 4)%nat -> poly_in 0 1023 (fst (poly_power2round (vec t i))) /\
      poly_in (-4095) 4096 (snd (poly_power2round (vec t i)))).
  { intros i Hi. destruct (public_row_ok _ (row_at mat i Lm Hm Hi) s1 (vec s2 i) S1) as [Hp _].
    { eapply sized_in; [apply (vec_in_at K); [exact H2 | done] | lia | lia]. }
    rewrite Et by done. pose proof (poly_power2round_ok _ Hp) as H'. destruct (poly_power2round _) as [a b].
    split; apply H'. }
  unfold polyveck_power2round. intros [= <- <-]. exists rho, mat, s1, s2, (map (fun p => fst (poly_power2round p)) t), (map (fun p => snd (poly_power2round p)) t).
  assert (V1 : forall i, (i < 4)%nat -> vec (map (fun p => fst (poly_power2round p)) t) i = fst (poly_power2round (vec t i)))
    by (intros i Hi; apply (dsa_vec_map (fun p => fst (poly_power2round p))); done).
  assert (V0 : forall i, (i < 4)%nat -> vec (map (fun p => snd (poly_power2round p)) t) i = snd (poly_power2round (vec t i)))
    by (intros i Hi; apply (dsa_vec_map (fun p => snd (poly_power2round p))); done).
  assert (T1 : vec_in K 0 1023 (map (fun p => fst (poly_power2round p)) t)).
  { apply vec_in_rows; [len4|]. intros i Hi. rewrite V1 by done. apply Pt, Hi. }
  split; [exact Hr | exact Em | exact H1 | exact H2 | exact T1 | | | reflexivity |].
  - apply vec_in_rows; [len4|]. intros i Hi. rewrite V0 by done. apply Pt, Hi.
  - intros i Hi. rewrite V1, V0, Et by done. apply surjective_pairing.
  - exists key. split; [done|]. rewrite take_ge; [reflexivity|]. apply Nat.eq_le_incl. exact (proj2 (dsa_unpack_pack_pk rho _ Hr T1)).
Qed.

(** ** An accepted attempt *)

(** The commitment, the challenge and the response of an attempt, and the tests it passed. *)
Record accepted (mat : list polyvecl) (s1 : polyvecl) (s2 t0 : polyveck) (mu sig : bytes)
    (cp : poly) (y z : polyvecl) (w1 w0 h : polyveck) : Prop := {
  acc_y : sized_vec 131072 y;
  acc_challenge : poly_challenge fuel (commitment_hash mu (polyveck_pack_w1 w1)) = Some cp;
  acc_z : length z = 4%nat;
  acc_response j : (j < 4)%nat -> vec z j = response (poly_ntt cp) (vec s1 j) (vec y j);
  acc_norm : polyvecl_chknorm z (GAMMA1 - BETA) = false;
  acc_w1 : length w1 = 4%nat;
  acc_commitment i : (i < 4)%nat -> poly_decompose (poly_caddq (row_times (nth i mat []) y)) = (vec w1 i, vec w0 i);
  acc_low i : (i < 4)%nat -> poly_chknorm (low_row (poly_ntt cp) (vec s2 i) (vec w0 i)) (GAMMA2 - BETA) = false;
  acc_carry i : (i < 4)%nat -> poly_chknorm (carry_row (poly_ntt cp) (vec t0 i)) GAMMA2 = false;
  acc_hint i : (i < 4)%nat -> vec h i = fst (poly_make_hint
    (poly_add (low_row (poly_ntt cp) (vec s2 i) (vec w0 i)) (carry_row (poly_ntt cp) (vec t0 i))) (vec w1 i));
  acc_h : length h = 4%nat;
  acc_count : Forall hint_poly h -> (total_hints h <= OMEGA)%nat;
  acc_sig : sig = pack_sig (commitment_hash mu (polyveck_pack_w1 w1)) z h
}.

(** The sum of the sums of the rows is the number of hints. *)
Lemma hint_rows_sum (hh : list (poly * Z)) : Forall (fun x => hint_poly (fst x) /\ snd x = Z.of_nat (length (positions (fst x)))) hh ->
  forall s, 0 <= s -> s + 256 * Z.of_nat (length hh) < 4294967296 ->
  fold_left (fun s x => u32 (s + snd x)) hh s = s + Z.of_nat (total_hints (map fst hh)).
Proof.
  induction 1 as [|x hh [Hx Ex] Hh IH]; intros s Hs Hn; [cbn; lia|]. cbn [fold_left length map flat_map] in *.
  assert (Hp : (length (positions (fst x)) <= 256)%nat).
  { unfold positions. rewrite List.filter_length_le. unfold N. rewrite length_seq. lia. }
  rewrite Ex. revert Hp. generalize (positions (fst x)). intros ps Hp.
  unfold u32 at 2. rewrite (Z.mod_small (s + _)) by lia. rewrite IH by lia. rewrite length_app. lia.
Qed.

Lemma make_hint_count v0 v1 : length v0 = 4%nat -> length v1 = 4%nat ->
  Forall hint_poly (fst (polyveck_make_hint v0 v1)) ->
  snd (polyveck_make_hint v0 v1) = Z.of_nat (total_hints (fst (polyveck_make_hint v0 v1))).
Proof.
  intros H0 H1 Hh. unfold polyveck_make_hint in *. cbn [fst snd] in *.
  rewrite (hint_rows_sum (zip_with poly_make_hint v0 v1)); [apply Z.add_0_l | | lia | rewrite length_zip_with; lia].
  clear H0 H1. revert v1 Hh. induction v0 as [|a v0 IH]; intros [|b v1] Hh; constructor.
  - apply Forall_cons_1 in Hh as [Hh _]. split; [exact Hh|]. exact (make_hint_sum _ Hh).
  - apply Forall_cons_1 in Hh as [_ Hh]. apply IH, Hh.
Qed.

Lemma make_hints_at v0 v1 i : length v0 = 4%nat -> length v1 = 4%nat -> (i < 4)%nat ->
  vec (fst (polyveck_make_hint v0 v1)) i = fst (poly_make_hint (vec v0 i) (vec v1 i)).
Proof.
  intros Hu Hv Hi. destruct v0 as [|? [|? [|? [|? [|]]]]], v1 as [|? [|? [|? [|? [|]]]]]; try discriminate.
  destruct i as [|[|[|[|]]]]; try lia; reflexivity.
Qed.

Lemma attempt_accepted mat s1 s2 t0 mu rhoprime nonce sig :
  length mat = 4%nat -> length s1 = 4%nat -> length s2 = 4%nat -> length t0 = 4%nat ->
  sign_attempt fuel mat (polyvecl_ntt s1) (polyveck_ntt s2) (polyveck_ntt t0) mu rhoprime nonce = Some (Some sig) ->
  exists cp y z w1 w0 h, accepted mat s1 s2 t0 mu sig cp y z w1 w0 h.
Proof.
  intros Lm L1 L2 L0. unfold sign_attempt. cbv zeta. pose proof (uniform_gamma1_ok rhoprime nonce) as Hy.
  set (y := polyvecl_uniform_gamma1 rhoprime nonce) in *. set (w := polyveck_caddq _).
  pose proof (proj1 Hy) as Ly.
  assert (Lw : length w = 4%nat) by (unfold w, polyveck_caddq, polyveck_invntt_tomont, polyveck_reduce; len4).
  assert (Ew : forall i, (i < 4)%nat -> vec w i = poly_caddq (row_times (nth i mat []) y))
    by (intros i Hi; unfold w; vec_at; unfold row_times; reflexivity).
  unfold polyveck_decompose. cbv beta iota zeta. set (w1 := map (fun p => fst (poly_decompose p)) w).
  set (w0 := map (fun p => snd (poly_decompose p)) w).
  set (c := commitment_hash mu (polyveck_pack_w1 w1)).
  destruct (poly_challenge fuel c) as [cp|] eqn:Ec; [|discriminate]. cbn [mbind option_bind].
  set (z := polyvecl_reduce _). destruct (polyvecl_chknorm z (GAMMA1 - BETA)) eqn:Nz; [discriminate|].
  set (lo := polyveck_reduce (polyveck_sub _ _)). destruct (polyveck_chknorm lo (GAMMA2 - BETA)) eqn:Nl; [discriminate|].
  set (ca := polyveck_reduce (polyveck_invntt_tomont _)). destruct (polyveck_chknorm ca GAMMA2) eqn:Nc; [discriminate|].
  rewrite (surjective_pairing (polyveck_make_hint _ _)).
  destruct (Z.ltb_spec (Z.of_nat OMEGA) (snd (polyveck_make_hint (polyveck_add lo ca) w1))) as [|Hn]; [discriminate|].
  intros [= <-].
  assert (Lw1 : length w1 = 4%nat) by (unfold w1; len4). assert (Lw0 : length w0 = 4%nat) by (unfold w0; len4).
  assert (Llo : length lo = 4%nat) by (unfold lo, polyveck_reduce, polyveck_sub, polyveck_invntt_tomont, polyveck_pointwise_poly_montgomery, polyveck_ntt; len4).
  assert (Lca : length ca = 4%nat) by (unfold ca, polyveck_reduce, polyveck_invntt_tomont, polyveck_pointwise_poly_montgomery, polyveck_ntt; len4).
  assert (Lz : length z = 4%nat) by (unfold z, polyvecl_reduce, polyvecl_add, polyvecl_invntt_tomont, polyvecl_pointwise_poly_montgomery, polyvecl_ntt; len4).
  assert (Elo : forall i, (i < 4)%nat -> vec lo i = low_row (poly_ntt cp) (vec s2 i) (vec w0 i))
    by (intros i Hi; unfold lo; vec_at; unfold low_row, times; reflexivity).
  assert (Eca : forall i, (i < 4)%nat -> vec ca i = carry_row (poly_ntt cp) (vec t0 i))
    by (intros i Hi; unfold ca; vec_at; unfold carry_row, times; reflexivity).
  assert (Ls : length (polyveck_add lo ca) = 4%nat) by (unfold polyveck_add; len4).
  exists cp, y, z, w1, w0, (fst (polyveck_make_hint (polyveck_add lo ca) w1)).
  split; [exact Hy | exact Ec | exact Lz | | exact Nz | exact Lw1 | | | | | | | reflexivity].
  - intros j Hj. unfold z. unfold polyvecl_ntt. vec_at. unfold response, times. reflexivity.
  - intros i Hi. unfold w1, w0. rewrite !dsa_vec_map by done. rewrite Ew by done. apply surjective_pairing.
  - intros i Hi. rewrite <- Elo by done. apply (existsb_vec (fun p => poly_chknorm p (GAMMA2 - BETA))); done.
  - intros i Hi. rewrite <- Eca by done. apply (existsb_vec (fun p => poly_chknorm p GAMMA2)); done.
  - intros i Hi. rewrite make_hints_at by done. rewrite <- Elo, <- Eca by done. unfold polyveck_add. rewrite vec_zip by done. reflexivity.
  - unfold polyveck_make_hint. cbn [fst]. len4.
  - intros Hh. pose proof (make_hint_count _ _ Ls Lw1 Hh) as E. lia.
Qed.

(** ** Verification *)

(** The row of the verifier gives back the signer's, and its hint is well formed. *)
Lemma accepted_row pk sk rho mat s1 s2 t1 t0 mu sig cp y z w1 w0 h i :
  generated pk sk rho mat s1 s2 t1 t0 -> accepted mat s1 s2 t0 mu sig cp y z w1 w0 h -> sized_vec 131072 z -> (i < 4)%nat ->
  poly_use_hint (verifier_row (nth i mat []) z (poly_ntt cp) (vec t1 i)) (vec h i) = vec w1 i /\ hint_poly (vec h i).
Proof.
  intros G A Hz Hi. destruct (matrix_expand_ok fuel rho mat (gen_mat _ _ _ _ _ _ _ _ G)) as [Lm Hm].
  rewrite (acc_hint _ _ _ _ _ _ _ _ _ _ _ _ A i Hi).
  apply (row_recovers (nth i mat []) cp y z s1 (vec s2 i) (vec t1 i) (vec t0 i) (vec w1 i) (vec w0 i)).
  - apply row_at; done.
  - eapply poly_challenge_ok, A.
  - apply A.
  - exact Hz.
  - apply (poly_in_sized (-2) 2 2 s1 4); [apply G | done | lia | lia].
  - apply (sized_in (-2) 2); [apply (vec_in_at K); [apply G | done] | lia | lia].
  - apply G, Hi.
  - apply A.
  - apply A, Hi.
  - apply (acc_low _ _ _ _ _ _ _ _ _ _ _ _ A i Hi).
  - apply (acc_carry _ _ _ _ _ _ _ _ _ _ _ _ A i Hi).
Qed.

(** The response passes the norm test, so its encoding is exact. *)
Lemma accepted_response mat s1 s2 t0 mu sig cp y z w1 w0 h : vec_in L (-2) 2 s1 ->
  accepted mat s1 s2 t0 mu sig cp y z w1 w0 h -> sized_vec 131072 z /\ vec_in L (-131071) 131072 z.
Proof.
  intros H1 A. assert (Hz : forall j, (j < 4)%nat -> sized 130993 (vec z j)).
  { intros j Hj. pose proof (existsb_vec _ _ j (acc_norm _ _ _ _ _ _ _ _ _ _ _ _ A) (acc_z _ _ _ _ _ _ _ _ _ _ _ _ A) Hj) as Hn.
    apply (poly_chknorm_spec _ 6283009) in Hn; [exact Hn | | lia | vm_compute; split; congruence].
    rewrite (acc_response _ _ _ _ _ _ _ _ _ _ _ _ A j Hj). apply response_ok; [eapply poly_challenge_ok, A | |].
    - apply (sized_in (-2) 2); [apply (vec_in_at L); [done | done] | lia | lia].
    - apply sized_vec_at; [apply A | done]. }
  pose proof (acc_z _ _ _ _ _ _ _ _ _ _ _ _ A) as Lz. split; (split; [done|]); apply Forall_vec; try done; intros j Hj.
  - eapply sized_mono; [apply Hz, Hj | lia].
  - destruct (Hz j Hj) as [Hl Hb]. split; [exact Hl|]. eapply List.Forall_impl; [|exact Hb]. cbn. intros; lia.
Qed.

Lemma commitment_length mu b : length (commitment_hash mu b) = CTILDEBYTES.
Proof. apply squeeze256_ok. Qed.

Lemma accepted_verifies pk sk rho mat s1 s2 t1 t0 m ctx sig cp y z w1 w0 h : zlen ctx <= 255 ->
  generated pk sk rho mat s1 s2 t1 t0 ->
  accepted mat s1 s2 t0 (message_hash (hash256 TRBYTES pk) m ctx) sig cp y z w1 w0 h ->
  length sig = CRYPTO_BYTES /\ crypto_sign_verify_ctx fuel sig m ctx pk = Some 0.
Proof.
  intros Hctx G A. pose proof (gen_s1 _ _ _ _ _ _ _ _ G) as H1.
  destruct (accepted_response _ _ _ _ _ _ _ _ _ _ _ _ H1 A) as [Sz Vz].
  pose proof (fun i => accepted_row _ _ _ _ _ _ _ _ _ _ _ _ _ _ _ _ i G A Sz) as Hrow.
  pose proof (acc_h _ _ _ _ _ _ _ _ _ _ _ _ A) as Lh.
  assert (Hh : hint_vec h) by (split; [exact Lh | apply Forall_vec; [done | intros i Hi; apply Hrow, Hi]]).
  destruct (unpack_pack_sig _ z h (commitment_length (message_hash (hash256 TRBYTES pk) m ctx) (polyveck_pack_w1 w1)) Vz Hh
    (acc_count _ _ _ _ _ _ _ _ _ _ _ _ A (proj2 Hh))) as [Us Ls].
  rewrite <- (acc_sig _ _ _ _ _ _ _ _ _ _ _ _ A) in Us, Ls. split; [exact Ls|].
  destruct (dsa_unpack_pack_pk rho t1 (gen_rho _ _ _ _ _ _ _ _ G) (gen_t1 _ _ _ _ _ _ _ _ G)) as [Up Lp].
  rewrite <- (gen_pk _ _ _ _ _ _ _ _ G) in Up, Lp.
  unfold crypto_sign_verify_ctx. rewrite (proj2 (Z.ltb_ge _ _)), Ls, Nat.eqb_refl, Up, Us by done. cbn [negb orb].
  rewrite (acc_norm _ _ _ _ _ _ _ _ _ _ _ _ A), (acc_challenge _ _ _ _ _ _ _ _ _ _ _ _ A), (gen_mat _ _ _ _ _ _ _ _ G).
  cbn [mbind option_bind]. rewrite take_ge by lia. set (v := polyveck_use_hint _ h).
  assert (Ev : v = w1).
  { destruct (matrix_expand_ok fuel rho mat (gen_mat _ _ _ _ _ _ _ _ G)) as [Lm _].
    pose proof (proj1 (gen_t1 _ _ _ _ _ _ _ _ G) : length t1 = 4%nat) as L1.
    apply vec_ext; [| apply A |].
    - unfold v, polyveck_use_hint, polyveck_caddq, polyveck_invntt_tomont, polyveck_reduce, polyveck_sub,
        polyveck_pointwise_poly_montgomery, polyveck_ntt, polyveck_shiftl. len4.
    - intros i Hi. rewrite <- (proj1 (Hrow i Hi)). unfold v. vec_at. unfold verifier_row. reflexivity. }
  rewrite Ev. replace (existsb _ _) with false; [reflexivity|]. symmetry. apply not_true_iff_false.
  rewrite existsb_exists. intros (i & _ & Hi). rewrite Z.eqb_refl in Hi. discriminate.
Qed.

(** What verification accepts, in the ring: the response is small, and the challenge is the
    hash of the message and of the high bits, corrected by the hints, of the
    representatives [w] of [A z - c t1 2^D]. *)
Definition verifies (sig m ctx pk : bytes) : Prop :=
  zlen ctx <= 255 /\ length sig = CRYPTO_BYTES /\
  exists c z h cp mat w, unpack_sig sig = Some (c, z, h) /\ sized_vec 130993 z /\
    poly_challenge fuel c = Some cp /\ polyvec_matrix_expand fuel (take SEEDBYTES pk) = Some mat /\
    length w = 4%nat /\
    (forall i, (i < 4)%nat -> poly_in 0 (Q - 1) (vec w i) /\
       nt (vec w i) ≡v vsub (dot (nth i mat []) (map nt z)) (vmul (nt cp) (vscale 8192 (nt (vec (snd (unpack_pk pk)) i))))) /\
    c = commitment_hash (message_hash (hash256 TRBYTES (take CRYPTO_PUBLICKEYBYTES pk)) m ctx)
          (polyveck_pack_w1 (polyveck_use_hint w h)).

Lemma unpack_sig_parts sig c z h : (CTILDEBYTES <= length sig)%nat -> unpack_sig sig = Some (c, z, h) ->
  length c = CTILDEBYTES /\ vec_in L (-131071) 131072 z.
Proof.
  intros Hl. unfold unpack_sig. destruct (unpack_hint_rows _ K 0 0) as [h'|]; [|discriminate]. cbn [mbind option_bind].
  intros E. apply some_triple in E as (<- & <- & _). split; [rewrite length_take; lia|].
  split; [done|]. apply List.Forall_map, List.Forall_forall. intros i _. apply polyz_unpack_ok.
Qed.
Lemma chknorm_vec z : vec_in L (-131071) 131072 z -> polyvecl_chknorm z (GAMMA1 - BETA) = false <-> sized_vec 130993 z.
Proof.
  intros Hz. assert (Hs : forall j, (j < 4)%nat -> sized 131072 (vec z j))
    by (intros j Hj; apply (sized_in (-131071) 131072); [apply (vec_in_at L); done | lia | lia]).
  assert (Hn : forall j, (j < 4)%nat -> poly_chknorm (vec z j) (GAMMA1 - BETA) = false <-> sized 130993 (vec z j))
    by (intros j Hj; apply (poly_chknorm_spec (GAMMA1 - BETA) 131072); [apply Hs, Hj | lia | vm_compute; split; congruence]).
  pose proof (proj1 Hz : length z = 4%nat) as Lz. split.
  - intros E. split; [done|]. apply Forall_vec; [done|]. intros j Hj. apply Hn; [done|]. apply (existsb_vec _ _ j E Lz Hj).
  - intros Hv. unfold polyvecl_chknorm. apply not_true_iff_false. rewrite existsb_exists. intros (p & Hp & E).
    apply (In_nth _ _ []) in Hp as (j & Hj' & <-). assert (Hj : (j < 4)%nat) by (rewrite <- Lz; exact Hj').
    change (nth j z []) with (vec z j) in E.
    rewrite (proj2 (Hn j Hj)) in E; [discriminate|]. apply sized_vec_at; done.
Qed.
Lemma unpack_pk_t1 pk i : (i < 4)%nat -> poly_in 0 1023 (vec (snd (unpack_pk pk)) i).
Proof.
  intros Hi. unfold unpack_pk. cbn [snd]. apply (vec_in_at K); [|exact Hi]. split; [done|].
  apply List.Forall_map, List.Forall_forall. intros j _. apply polyt1_unpack_ok.
Qed.
Lemma bytes_differ (a b : bytes) n : length a = n -> length b = n ->
  existsb (fun i => negb (byte a i =? byte b i)) (seq 0 n) = false <-> a = b.
Proof.
  intros Ha Hb. rewrite <- not_true_iff_false, existsb_exists. split.
  - intros E. apply eq_at; [lia|]. intros i Hi. destruct (Z.eqb_spec (byte a i) (byte b i)) as [|Hn]; [done|].
    exfalso. apply E. exists i. split; [apply in_seq; lia|]. rewrite (proj2 (Z.eqb_neq _ _) Hn). done.
  - intros -> (i & _ & E). rewrite Z.eqb_refl in E. discriminate.
Qed.

(** The vector that verification decomposes. *)
Definition verifier_rows (mat : list polyvecl) (z : polyvecl) (cp : poly) (t1 : polyveck) : polyveck :=
  polyveck_caddq (polyveck_invntt_tomont (polyveck_reduce (polyveck_sub (polyvec_matrix_pointwise_montgomery mat (polyvecl_ntt z))
    (polyveck_pointwise_poly_montgomery cp (polyveck_ntt (polyveck_shiftl t1)))))).

Lemma verifier_rows_ok (mat : list polyvecl) (z : polyvecl) cp (t1 : polyveck) i : length mat = 4%nat -> Forall (sized_vec 8380416) mat -> sized_vec 130993 z -> sized 1 cp ->
  length t1 = 4%nat -> (forall i, (i < 4)%nat -> poly_in 0 1023 (vec t1 i)) -> (i < 4)%nat ->
  poly_in 0 (Q - 1) (vec (verifier_rows mat z (poly_ntt cp) t1) i) /\
  nt (vec (verifier_rows mat z (poly_ntt cp) t1) i) ≡v vsub (dot (nth i mat []) (map nt z)) (vmul (nt cp) (vscale 8192 (nt (vec t1 i)))).
Proof.
  intros Lm Hm Hz Hc Lt Ht Hi. assert (E : vec (verifier_rows mat z (poly_ntt cp) t1) i = verifier_row (nth i mat []) z (poly_ntt cp) (vec t1 i))
    by (unfold verifier_rows; vec_at; unfold verifier_row; reflexivity).
  rewrite E. apply verifier_row_ok; [apply row_at; done | | done | apply Ht, Hi].
  split; [apply Hz|]. eapply List.Forall_impl; [|apply Hz]. intros p Hp. eapply sized_mono; [exact Hp | lia].
Qed.

(** Representatives are determined by their transform. *)
Lemma representative_unique p p' : poly_in 0 (Q - 1) p -> poly_in 0 (Q - 1) p' -> nt p ≡v nt p' -> p = p'.
Proof.
  intros [Hl Hp] [Hl' Hp'] E. apply nt_inj_dsa in E; [|done..]. apply eq_at; [lia|]. intros i Hi.
  apply (at_eqv _ _ i) in E. unfold eqq, modulus, dsa_modulus in E. unfold in_range in *.
  assert (Hr : forall l, length l = 256%nat -> Forall (fun c => 0 <= c <= Q - 1) l -> 0 <= at_ l i < Q).
  { intros l H1 H2. assert (0 <= at_ l i <= Q - 1) by (apply (proj1 (List.Forall_nth _ _) H2); lia). lia. }
  rewrite !Z.mod_small in E by (apply Hr; done). exact E.
Qed.

Lemma verify_accepts_iff sig m ctx pk : crypto_sign_verify_ctx fuel sig m ctx pk = Some 0 <-> verifies sig m ctx pk.
Proof.
  unfold crypto_sign_verify_ctx, verifies. destruct (Z.ltb_spec 255 (zlen ctx)); [cbn [orb]; split; [discriminate | lia]|].
  destruct (Nat.eqb_spec (length sig) CRYPTO_BYTES) as [Hl|]; [|cbn [orb negb]; split; [discriminate | intros (_ & ? & _); done]].
  cbn [orb negb]. rewrite (surjective_pairing (unpack_pk pk)). change (fst (unpack_pk pk)) with (take SEEDBYTES pk).
  destruct (unpack_sig sig) as [[[c z] h]|] eqn:Es; [|split; [discriminate | intros (_ & _ & c & z & h & ? & ? & ? & ? & _); done]].
  destruct (unpack_sig_parts sig c z h) as [Lc Hz]; [rewrite Hl; vm_compute; lia | done|].
  pose proof (chknorm_vec z Hz) as Hn. destruct (polyvecl_chknorm z (GAMMA1 - BETA)).
  { split; [discriminate|]. intros (_ & _ & c' & z' & h' & cp & mat & w & E & Hz' & _). injection E as <- <- <-.
    apply Hn in Hz'. discriminate. }
  pose proof (proj1 Hn eq_refl) as Sz. clear Hn.
  destruct (poly_challenge fuel c) as [cp|] eqn:Ec; cbn [mbind option_bind];
    [|split; [discriminate | intros (_ & _ & c' & z' & h' & cp & mat & w & E & _ & E' & _); injection E as <- <- <-; congruence]].
  destruct (polyvec_matrix_expand fuel (take SEEDBYTES pk)) as [mat|] eqn:Em; cbn [mbind option_bind];
    [|split; [discriminate | intros (_ & _ & c' & z' & h' & cp' & mat & w & _ & _ & _ & E' & _); congruence]].
  destruct (matrix_expand_ok fuel _ mat Em) as [Lm Hm]. set (t1 := snd (unpack_pk pk)).
  assert (Lt : length t1 = 4%nat) by reflexivity.
  change (polyveck_caddq _) with (verifier_rows mat z (poly_ntt cp) t1). set (v := verifier_rows mat z (poly_ntt cp) t1).
  assert (Lv : length v = 4%nat) by (unfold v, verifier_rows, polyveck_caddq, polyveck_invntt_tomont, polyveck_reduce, polyveck_sub,
    polyveck_pointwise_poly_montgomery, polyveck_ntt, polyveck_shiftl; len4).
  pose proof (fun i => verifier_rows_ok mat z cp t1 i Lm Hm Sz (poly_challenge_ok fuel c cp Ec) Lt (unpack_pk_t1 pk)) as Hv.
  fold v in Hv. rewrite <- (commitment_length (message_hash (hash256 TRBYTES (take CRYPTO_PUBLICKEYBYTES pk)) m ctx)
    (polyveck_pack_w1 (polyveck_use_hint v h))) at 1.
  set (c2 := commitment_hash _ (polyveck_pack_w1 (polyveck_use_hint v h))).
  pose proof (bytes_differ c c2 (length c2) ltac:(rewrite Lc; symmetry; apply commitment_length) eq_refl) as Hd.
  destruct (existsb _ _).
  - split; [discriminate|]. intros (_ & _ & c' & z' & h' & cp' & mat' & w & E & _ & E' & E'' & Lw & Hw & Hc).
    injection E as <- <- <-. rewrite Ec in E'. injection E' as <-. injection E'' as <-.
    assert (w = v) as ->; [|apply Hd in Hc; discriminate].
    apply vec_ext; [done..|]. intros i Hi. apply representative_unique; [apply Hw, Hi | apply Hv, Hi |].
    rewrite (proj2 (Hw i Hi)), (proj2 (Hv i Hi)). reflexivity.
  - split; [intros _ | done]. split; [done|]. split; [done|]. exists c, z, h, cp, mat, v.
    split_and!; try done. apply Hd. done.
Qed.

(** ** Signing *)

Lemma sign_loop_accepts attempt f : forall nonce sig, sign_loop f attempt nonce = Some sig -> exists n, attempt n = Some (Some sig).
Proof.
  induction f as [|f IH]; intros nonce sig; [discriminate|]. cbn [sign_loop].
  destruct (attempt nonce) as [[s|]|] eqn:E; cbn [mbind option_bind]; [intros [= <-]; eauto | apply IH | discriminate].
Qed.

Context {rng : Type} (randombytes : nat -> rng -> Z * bytes * rng).

(** Every signature under a generated key is that of an accepted attempt. *)
Lemma signature_accepted pk sk rho mat s1 s2 t1 t0 m ctx r sig r' : generated pk sk rho mat s1 s2 t1 t0 ->
  crypto_sign_signature_ctx fuel randombytes m ctx sk r = (Some (Ok sig), r') ->
  zlen ctx <= 255 /\ exists cp y z w1 w0 h,
    accepted mat s1 s2 t0 (message_hash (hash256 TRBYTES pk) m ctx) sig cp y z w1 w0 h.
Proof.
  intros G. unfold crypto_sign_signature_ctx. destruct (Z.ltb_spec 255 (zlen ctx)); [discriminate|].
  destruct (gen_sk _ _ _ _ _ _ _ _ G) as (key & Lk & ->).
  rewrite (proj1 (unpack_pack_sk rho (hash256 TRBYTES pk) key t0 s1 s2 (gen_rho _ _ _ _ _ _ _ _ G) (proj1 (hash256_ok _ _)) Lk
    (gen_t0 _ _ _ _ _ _ _ _ G) (gen_s1 _ _ _ _ _ _ _ _ G) (gen_s2 _ _ _ _ _ _ _ _ G))).
  destruct (randombytes RNDBYTES r) as [[rc rnd] r1]. cbn [sk_rho sk_tr sk_key sk_t0 sk_s1 sk_s2].
  rewrite (gen_mat _ _ _ _ _ _ _ _ G). cbn [mbind option_bind].
  destruct (sign_loop fuel _ 0) as [s|] eqn:E; [|discriminate]. cbn [mbind option_bind]. intros [= <- _].
  split; [lia|]. apply sign_loop_accepts in E as [n E]. eapply attempt_accepted; [| | | | exact E].
  - apply (matrix_expand_ok fuel rho), G.
  - apply (gen_s1 _ _ _ _ _ _ _ _ G).
  - apply (gen_s2 _ _ _ _ _ _ _ _ G).
  - apply (gen_t0 _ _ _ _ _ _ _ _ G).
Qed.
End scheme.

Lemma keypair_lengths {H : Shake} {HL : ShakeLaws H} fuel rnd pk sk : keypair_from fuel rnd = Some (pk, sk) ->
  length pk = CRYPTO_PUBLICKEYBYTES /\ length sk = CRYPTO_SECRETKEYBYTES.
Proof.
  intros E. destruct (keypair_generated fuel rnd pk sk E) as (rho & mat & s1 & s2 & t1 & t0 & G).
  destruct (gen_sk _ _ _ _ _ _ _ _ _ G) as (key & Lk & Es). split.
  - rewrite (gen_pk _ _ _ _ _ _ _ _ _ G).
    exact (proj2 (dsa_unpack_pack_pk rho t1 (gen_rho _ _ _ _ _ _ _ _ _ G) (gen_t1 _ _ _ _ _ _ _ _ _ G))).
  - rewrite Es. exact (proj2 (unpack_pack_sk rho (hash256 TRBYTES pk) key t0 s1 s2 (gen_rho _ _ _ _ _ _ _ _ _ G)
      (proj1 (hash256_ok _ _)) Lk (gen_t0 _ _ _ _ _ _ _ _ _ G) (gen_s1 _ _ _ _ _ _ _ _ _ G) (gen_s2 _ _ _ _ _ _ _ _ _ G))).
Qed.

(** A signature under a generated key verifies, for any context and message. *)
Lemma signed_then_verified {H : Shake} {HL : ShakeLaws H} fuel {rng} (randombytes : nat -> rng -> Z * bytes * rng)
    rnd pk sk m ctx r2 sig r3 : keypair_from fuel rnd = Some (pk, sk) ->
  crypto_sign_signature_ctx fuel randombytes m ctx sk r2 = (Some (Ok sig), r3) ->
  length sig = CRYPTO_BYTES /\ crypto_sign_verify_ctx fuel sig m ctx pk = Some 0.
Proof.
  intros E Hs. destruct (keypair_generated fuel rnd pk sk E) as (rho & mat & s1 & s2 & t1 & t0 & G).
  destruct (signature_accepted fuel randombytes pk sk rho mat s1 s2 t1 t0 m ctx r2 sig r3 G Hs)
    as (Hc & cp & y & z & w1 & w0 & h & A).
  exact (accepted_verifies fuel pk sk rho mat s1 s2 t1 t0 m ctx sig cp y z w1 w0 h Hc G A).
Qed.

(** A signed message that was written is opened again. *)
Theorem signed_message_opens {H : Shake} {HL : ShakeLaws H} (fuel : nat) {rng : Type} (randombytes : nat -> rng -> Z * bytes * rng)
    (pk sk m ctx sm0 sm : bytes) (n0 n : Z) (r r1 r2 r3 : rng) :
  length sm0 = (2420 + length m)%nat -> 2420 + zlen m < 2 ^ 64 ->
  crypto_sign_keypair fuel randombytes r = (Some (pk, sk), r1) ->
  crypto_sign_ctx fuel randombytes sm0 n0 m ctx sk r2 = (Some (0, n, sm), r3) ->
  n = 2420 + zlen m /\ zlen sm = n /\ crypto_sign_open_ctx fuel sm ctx pk = Some (0, zlen m, m).
Proof.
  unfold crypto_sign_keypair. destruct (randombytes SEEDBYTES r) as [[rc rnd] r'].
  intros Hl Hm [= Hk _]. unfold crypto_sign_ctx. set (sm1 := take _ _ ++ _).
  change CRYPTO_BYTES with 2420%nat in sm1.
  assert (Hd : drop 2420 sm1 = m).
  { unfold sm1. rewrite drop_app_length' by (rewrite length_take; lia). rewrite (drop_ge sm0) by lia. apply app_nil_r. }
  clearbody sm1. change CRYPTO_BYTES with 2420%nat. rewrite Hd.
  destruct (crypto_sign_signature_ctx fuel randombytes m ctx sk r2) as [[[sig|rc'|]|] r4] eqn:Es; cbn [mbind option_bind];
    intros [= <- <- <-].
  destruct (signed_then_verified fuel randombytes rnd pk sk m ctx r2 sig r4 Hk Es) as [Lg Hv]. change CRYPTO_BYTES with 2420%nat in Lg.
  pose proof (zlen_nonneg m). rewrite zlen_app. assert (Lz : zlen sig = 2420) by (unfold zlen; lia). rewrite Lz.
  assert (Hu : u64 (2420 + zlen m) = 2420 + zlen m) by (apply Z.mod_small; lia). split_and!; [exact Hu | by rewrite Hu |].
  unfold crypto_sign_open_ctx. change CRYPTO_BYTES with 2420%nat. rewrite length_app, Lg, (proj2 (Nat.ltb_ge _ _)) by lia.
  rewrite take_app_length', drop_app_length', Hv by done. reflexivity.
Qed.

(** C12: the signature scheme.  Over any functions for SHAKE with the lengths of their outputs, any
    generator and any fuel: when [crypto_sign_keypair] returns a key pair and
    [crypto_sign_signature_ctx] a signature of a message under the secret key, the keys have 1312
    and 2560 bytes and the signature 2420, [crypto_sign_verify_ctx] returns 0 for the signature, the
    message and the context under the public key, and [crypto_sign_open_ctx] returns 0 and the
    message for the signed message. *)
Theorem mldsa_signature_verifies {H : Shake} {HL : ShakeLaws H} (fuel : nat) {rng : Type} (randombytes : nat -> rng -> Z * bytes * rng)
    (pk sk m ctx : bytes) (r r1 r2 r3 : rng) (sig : bytes) :
  crypto_sign_keypair fuel randombytes r = (Some (pk, sk), r1) ->
  crypto_sign_signature_ctx fuel randombytes m ctx sk r2 = (Some (Ok sig), r3) ->
  length pk = 1312%nat /\ length sk = 2560%nat /\ length sig = 2420%nat /\
  crypto_sign_verify_ctx fuel sig m ctx pk = Some 0 /\
  crypto_sign_open_ctx fuel (sig ++ m) ctx pk = Some (0, zlen m, m).
Proof.
  unfold crypto_sign_keypair. destruct (randombytes SEEDBYTES r) as [[rc rnd] r']. intros [= Hk _] Hs.
  destruct (keypair_lengths fuel rnd pk sk Hk) as [Lp Ls].
  destruct (signed_then_verified fuel randombytes rnd pk sk m ctx r2 sig r3 Hk Hs) as [Lg Hv].
  split_and!; [exact Lp | exact Ls | exact Lg | exact Hv |].
  unfold crypto_sign_open_ctx. rewrite length_app, Lg, (proj2 (Nat.ltb_ge _ _)) by lia.
  rewrite take_app_length', drop_app_length', Hv by done. reflexivity.
Qed.

(** ** A concrete instance

    Streams that make every sampled polynomial zero except the challenge. *)
Definition zero_block : bytes := [0; 0; 2; 0; 8; 0; 32; 0; 128].
Definition zero_stream (n : nat) : bytes :=
  if (n =? 680)%nat then concat (replicate 64 zero_block) ++ replicate 104 0 else replicate n 34.
Definition zero_shake : Shake := {|
  inc128 := unit; inc128_init := tt; inc128_absorb s _ := s; inc128_finalize s := s; inc128_squeeze n s := (replicate n 0, s);
  inc256 := unit; inc256_init := tt; inc256_absorb s _ := s; inc256_finalize s := s; inc256_squeeze n s := (zero_stream n, s);
  hash256 n _ := replicate n 0
|}.

Lemma zero_laws : ShakeLaws zero_shake.
Proof.
  assert (Hr : forall n b, is_byte b -> bytes_n n (replicate n b))
    by (intros n b Hb; split; [apply length_replicate | apply Forall_replicate, Hb]).
  split; intros n s; [|apply Hr; unfold is_byte; lia]. cbn [fst inc256_squeeze zero_shake]. unfold zero_stream.
  destruct (Nat.eqb_spec n 680) as [->|]; [|apply Hr; unfold is_byte; lia]. split; [reflexivity|].
  apply Forall_app_2; [|apply Hr; unfold is_byte; lia]. apply List.Forall_concat, Forall_replicate.
  unfold zero_block. repeat constructor; lia.
Qed.

Definition zeros : poly := replicate 256 0.
Abbreviation zvec := [zeros; zeros; zeros; zeros].
Abbreviation zmat := [zvec; zvec; zvec; zvec].

Lemma zero_uniform seed nonce : poly_uniform (H := zero_shake) 1 seed nonce = Some zeros.
Proof. vm_compute. reflexivity. Qed.
Lemma zero_eta seed nonce : poly_uniform_eta (H := zero_shake) 1 seed nonce = Some zeros.
Proof. vm_compute. reflexivity. Qed.
Lemma zero_gamma1 seed nonce : poly_uniform_gamma1 (H := zero_shake) seed nonce = zeros.
Proof. vm_compute. reflexivity. Qed.
Lemma zero_ntt : poly_ntt zeros = zeros.
Proof. vm_compute. reflexivity. Qed.
Lemma zero_invntt : poly_invntt_tomont zeros = zeros.
Proof. vm_compute. reflexivity. Qed.
Lemma zero_reduce : poly_reduce zeros = zeros.
Proof. vm_compute. reflexivity. Qed.
Lemma zero_caddq : poly_caddq zeros = zeros.
Proof. vm_compute. reflexivity. Qed.
Lemma zero_add : poly_add zeros zeros = zeros.
Proof. vm_compute. reflexivity. Qed.
Lemma zero_sub : poly_sub zeros zeros = zeros.
Proof. vm_compute. reflexivity. Qed.
Lemma zero_power2round : poly_power2round zeros = (zeros, zeros).
Proof. vm_compute. reflexivity. Qed.
Lemma zero_decompose : poly_decompose zeros = (zeros, zeros).
Proof. vm_compute. reflexivity. Qed.
Lemma zero_make_hint : poly_make_hint zeros zeros = (zeros, 0).
Proof. vm_compute. reflexivity. Qed.
Lemma zero_norm : poly_chknorm zeros (GAMMA1 - BETA) = false /\ poly_chknorm zeros (GAMMA2 - BETA) = false /\ poly_chknorm zeros GAMMA2 = false.
Proof. vm_compute. auto. Qed.
Lemma zero_pointwise a : length a = 256%nat -> poly_pointwise_montgomery a zeros = zeros.
Proof.
  unfold zeros. intros <-. induction a as [|x a IH]; [done|]. cbn [length replicate]. unfold poly_pointwise_montgomery in *.
  cbn [zip_with]. rewrite IH, Z.mul_0_r. done.
Qed.

(** The functions on vectors, applied to vectors of zeros. *)
Ltac zero_steps :=
  unfold polyvec_matrix_pointwise_montgomery, polyvecl_ntt, polyvecl_reduce, polyvecl_add, polyvecl_invntt_tomont,
    polyvecl_pointwise_poly_montgomery, polyveck_reduce, polyveck_caddq, polyveck_add, polyveck_sub, polyveck_ntt,
    polyveck_invntt_tomont, polyveck_pointwise_poly_montgomery, polyveck_power2round, polyveck_decompose, polyveck_make_hint;
  repeat (cbn [map zip_with fst snd]; first
    [rewrite zero_ntt | rewrite zero_invntt | rewrite zero_reduce | rewrite zero_caddq |
     rewrite zero_add | rewrite zero_sub | rewrite zero_power2round | rewrite zero_decompose | rewrite zero_make_hint]).

Lemma zero_acc : polyvecl_pointwise_acc_montgomery zvec zvec = zeros.
Proof.
  unfold polyvecl_pointwise_acc_montgomery. change (seq 1 (L - 1)) with [1; 2; 3]%nat.
  cbn [fold_left vec nth]. rewrite zero_pointwise, !zero_add by done. done.
Qed.
Lemma zero_matrix rho : polyvec_matrix_expand (H := zero_shake) 1 rho = Some zmat.
Proof.
  unfold polyvec_matrix_expand. change (seq 0 K) with [0; 1; 2; 3]%nat. change (seq 0 L) with [0; 1; 2; 3]%nat.
  cbn [mapM]. rewrite !zero_uniform. reflexivity.
Qed.
Lemma zero_etas seed : polyvecl_uniform_eta (H := zero_shake) 1 seed 0 = Some zvec /\
  polyveck_uniform_eta (H := zero_shake) 1 seed L = Some zvec.
Proof.
  unfold polyvecl_uniform_eta, polyveck_uniform_eta. change (seq 0 L) with [0; 1; 2; 3]%nat. change (seq L K) with [4; 5; 6; 7]%nat.
  cbn [mapM]. rewrite !zero_eta. split; reflexivity.
Qed.

Lemma zero_keypair rnd : exists rho key, length rho = SEEDBYTES /\ length key = SEEDBYTES /\
  let pk := pack_pk rho zvec in
  keypair_from (H := zero_shake) 1 rnd =
    Some (pk, pack_sk rho (hash256 (Shake := zero_shake) TRBYTES (take CRYPTO_PUBLICKEYBYTES pk)) key zvec zvec zvec).
Proof.
  pose proof (seeds_length (HL := zero_laws) rnd) as Hs. unfold keypair_from.
  destruct (keypair_seeds rnd) as [[rho rhoprime] key]. destruct Hs as (Hr & _ & Hk). exists rho, key.
  split; [exact Hr | split; [exact Hk|]]. destruct (zero_etas rhoprime) as [E1 E2].
  rewrite zero_matrix, E1, E2. cbn [mbind option_bind]. zero_steps. rewrite !zero_acc. zero_steps. reflexivity.
Qed.

Lemma zero_attempt mu rhoprime nonce : exists sig,
  sign_attempt (H := zero_shake) 1 zmat (polyvecl_ntt zvec) (polyveck_ntt zvec) (polyveck_ntt zvec) mu rhoprime nonce = Some (Some sig).
Proof.
  unfold sign_attempt. assert (Ey : polyvecl_uniform_gamma1 (H := zero_shake) rhoprime nonce = zvec)
    by (unfold polyvecl_uniform_gamma1; change (seq 0 L) with [0; 1; 2; 3]%nat; cbn [map]; rewrite !zero_gamma1; done).
  rewrite Ey. zero_steps. rewrite !zero_acc. zero_steps.
  set (c := commitment_hash mu _). destruct (poly_challenge (H := zero_shake) 1 c) as [cp|] eqn:Ec;
    [|vm_compute in Ec; discriminate Ec].
  apply (poly_challenge_ok (H := zero_shake)) in Ec. destruct (poly_ntt_ok 1 cp Ec) as [[Lc _] _]; [lia|].
  cbn [mbind option_bind]. rewrite (zero_pointwise (poly_ntt cp)) by exact Lc. zero_steps.
  destruct zero_norm as (N1 & N2 & N3). unfold polyvecl_chknorm, polyveck_chknorm. cbn [existsb]. rewrite !N1, !N2, !N3.
  cbn [orb]. zero_steps. eexists. reflexivity.
Qed.

(** Signing when the first attempt is accepted. *)
Lemma signature_first {H : Shake} {rng} (randombytes : nat -> rng -> Z * bytes * rng) m ctx sk mat r : zlen ctx <= 255 ->
  polyvec_matrix_expand 1 (sk_rho (unpack_sk sk)) = Some mat ->
  (forall mu rhoprime, exists sig, sign_attempt 1 mat (polyvecl_ntt (sk_s1 (unpack_sk sk))) (polyveck_ntt (sk_s2 (unpack_sk sk)))
    (polyveck_ntt (sk_t0 (unpack_sk sk))) mu rhoprime 0 = Some (Some sig)) ->
  exists sig r', crypto_sign_signature_ctx 1 randombytes m ctx sk r = (Some (Ok sig), r').
Proof.
  intros Hc Em Hs. unfold crypto_sign_signature_ctx. rewrite (proj2 (Z.ltb_ge _ _)) by lia.
  destruct (randombytes RNDBYTES r) as [[rc rnd] r']. rewrite Em. cbn [mbind option_bind].
  match goal with |- context [sign_attempt 1 _ _ _ _ ?mu ?rp] => destruct (Hs mu rp) as [sig Es] end.
  exists sig, r'. cbn [sign_loop]. rewrite Es. reflexivity.
Qed.

Lemma zero_vec_in n lo hi : n = 4%nat -> lo <= 0 <= hi -> vec_in n lo hi zvec.
Proof.
  intros -> Hlo. split; [reflexivity|]. assert (poly_in lo hi zeros) by (split; [reflexivity | apply Forall_replicate; lia]).
  repeat (apply List.Forall_cons; [assumption|]). constructor.
Qed.

(** Signing under a key whose polynomials are zero. *)
Lemma zero_sign_key {rng} (randombytes : nat -> rng -> Z * bytes * rng) m ctx rho tr key sk r : zlen ctx <= 255 ->
  length rho = SEEDBYTES -> length tr = TRBYTES -> length key = SEEDBYTES -> sk = pack_sk rho tr key zvec zvec zvec ->
  exists sig r', crypto_sign_signature_ctx (H := zero_shake) 1 randombytes m ctx sk r = (Some (Ok sig), r').
Proof.
  intros Hc Lr Lt Lk Es.
  destruct (unpack_pack_sk rho tr key zvec zvec zvec Lr Lt Lk (zero_vec_in K (-4095) 4096 eq_refl ltac:(lia))
    (zero_vec_in L (-2) 2 eq_refl ltac:(lia)) (zero_vec_in K (-2) 2 eq_refl ltac:(lia))) as [Eu _].
  rewrite <- Es in Eu. clear Es. apply (signature_first (H := zero_shake) randombytes m ctx sk zmat r Hc).
  - apply zero_matrix.
  - intros mu rhoprime. rewrite Eu. cbn [sk_s1 sk_s2 sk_t0]. apply zero_attempt.
Qed.

Lemma zero_signed {rng} (randombytes : nat -> rng -> Z * bytes * rng) m ctx rnd : zlen ctx <= 255 -> exists pk sk,
  keypair_from (H := zero_shake) 1 rnd = Some (pk, sk) /\
  forall r, exists sig r', crypto_sign_signature_ctx (H := zero_shake) 1 randombytes m ctx sk r = (Some (Ok sig), r').
Proof.
  intros Hc. destruct (zero_keypair rnd) as (rho & key & Lr & Lk & E). cbv zeta in E.
  pose proof (proj1 (hash256_ok (ShakeLaws := zero_laws) TRBYTES (take CRYPTO_PUBLICKEYBYTES (pack_pk rho zvec)))) as Lt.
  revert E Lt. generalize (hash256 (Shake := zero_shake) TRBYTES (take CRYPTO_PUBLICKEYBYTES (pack_pk rho zvec))).
  generalize (pack_pk rho zvec). intros pk tr E Lt.
  exists pk, (pack_sk rho tr key zvec zvec zvec). split; [exact E|].
  intros r. exact (zero_sign_key randombytes m ctx rho tr key _ r Hc Lr Lt Lk eq_refl).
Qed.

(** A generator that needs no state. *)
Definition sevens (n : nat) (r : unit) : Z * bytes * unit := (0, replicate n 7, r).

Lemma keypair_sevens {H : Shake} fuel pk sk : keypair_from fuel (replicate SEEDBYTES 7) = Some (pk, sk) ->
  crypto_sign_keypair fuel sevens tt = (Some (pk, sk), tt).
Proof. intros E. unfold crypto_sign_keypair, sevens. rewrite E. reflexivity. Qed.

Lemma mldsa_signature_verifies_witness : exists pk sk sig r',
  crypto_sign_keypair (H := zero_shake) 1 sevens tt = (Some (pk, sk), tt) /\
  crypto_sign_signature_ctx (H := zero_shake) 1 sevens [1; 2] [3] sk tt = (Some (Ok sig), r') /\
  crypto_sign_open_ctx (H := zero_shake) 1 (sig ++ [1; 2]) [3] pk = Some (0, 2, [1; 2]).
Proof.
  destruct (zero_signed sevens [1; 2] [3] (replicate SEEDBYTES 7) ltac:(vm_compute; congruence)) as (pk & sk & Ek & Hs).
  apply keypair_sevens in Ek. destruct (Hs tt) as (sig & r' & Es). exists pk, sk, sig, r'.
  destruct (mldsa_signature_verifies (HL := zero_laws) 1 sevens pk sk [1; 2] [3] tt tt tt r' sig Ek Es) as (_ & _ & _ & _ & Ho).
  split_and!; assumption.
Defined.

(** C13: verification.  [crypto_sign_verify_ctx] returns 0 exactly for signatures that verify by
    FIPS 204: the context has at most 255 bytes and the signature 2420, it decodes, every coefficient of
    the response z is below GAMMA1 - BETA, and the challenge is the hash of the message and of the
    high bits, corrected by the hints, of the representatives of A z - c t1 2^D modulo X^256 + 1 and
    q (stated on the transforms, which are injective); what else it returns is -1. *)
Theorem mldsa_verify_iff {H : Shake} {HL : ShakeLaws H} (fuel : nat) (sig m ctx pk : bytes) :
  (crypto_sign_verify_ctx fuel sig m ctx pk = Some 0 <-> verifies fuel sig m ctx pk) /\
  (forall rc, crypto_sign_verify_ctx fuel sig m ctx pk = Some rc -> rc = 0 \/ rc = -1).
Proof.
  split; [apply verify_accepts_iff|]. intros rc. unfold crypto_sign_verify_ctx.
  destruct (_ || _); [intros [= <-]; auto|]. destruct (unpack_pk pk) as [rho t1].
  destruct (unpack_sig sig) as [[[c z] h]|]; [|intros [= <-]; auto]. destruct (polyvecl_chknorm _ _); [intros [= <-]; auto|].
  destruct (poly_challenge fuel c) as [cp|]; [|discriminate]. cbn [mbind option_bind].
  destruct (polyvec_matrix_expand fuel rho) as [mat|]; [|discriminate]. cbn [mbind option_bind].
  destruct (existsb _ _); intros [= <-]; auto.
Qed.

Lemma mldsa_verify_iff_witness : exists pk sig, verifies (H := zero_shake) 1 sig [1; 2] [3] pk /\
  ~ verifies (H := zero_shake) 1 (0 :: sig) [1; 2] [3] pk.
Proof.
  destruct (zero_signed sevens [1; 2] [3] (replicate SEEDBYTES 7) ltac:(vm_compute; congruence)) as (pk & sk & Ek & Hs).
  destruct (Hs tt) as (sig & r' & Es). destruct (signed_then_verified (HL := zero_laws) 1 sevens _ pk sk [1; 2] [3] tt sig r' Ek Es)
    as [Hl Hv]. exists pk, sig. split; [exact (proj1 (proj1 (mldsa_verify_iff (HL := zero_laws) 1 sig [1; 2] [3] pk)) Hv)|].
  intros (_ & Hl' & _). cbn [length] in Hl'. lia.
Defined.
