(* ===== verification/DsaCanonical.v ===== *)
(** * Signature encodings of ML-DSA-44 are unique

    [unpack_sig] recovers what [pack_sig] has encoded, and a byte string that it accepts is
    the encoding of what it returns: the positions of the hints must increase strictly
    within a row, their counts must not decrease, and the positions that are not used must be
    zero.  So no second byte string stands for the same signature. *)
From stdpp Require Import base numbers list option.
From Stdlib Require Import ZArith Lia Sorted.
From S2P Require Import Prelude KeccakFacts PolyRing Transform BlockCodec Keccak DsaNtt DsaPoly Dsa DsaCodecFacts DsaPolyFacts DsaSampling DsaFacts.

(** ** The response *)

Lemma byte_field e b : is_byte e -> is_byte b -> (forall i, 0 <= i < 8 -> Z.testbit e i = Z.testbit b i) -> e = b.
Proof.
  unfold is_byte. intros He Hb H. apply Z.bits_inj'. intros i Hi. destruct (Z.ltb_spec i 8); [apply H; lia|].
  rewrite !(small_bit _ 8) by (cbn; lia). done.
Qed.
Lemma lor_byte a b : is_byte a -> is_byte b -> is_byte (Z.lor a b).
Proof.
  unfold is_byte. intros Ha Hb. pose proof (proj2 (Z.lor_nonneg a b)) as Hn. split; [lia|].
  destruct (decide (Z.lor a b = 0)) as [->|Hz]; [lia|]. apply (Z.log2_lt_cancel _ 256). rewrite Z.log2_lor by lia.
  change (Z.log2 256) with 8. assert (Hl : forall x, 0 <= x < 256 -> Z.log2 x < 8).
  { intros x Hx. destruct (decide (x = 0)) as [->|]; [done|]. apply Z.log2_lt_pow2; lia. }
  apply Z.max_lub_lt; apply Hl; lia.
Qed.

Ltac const_bit :=
  repeat match goal with
  | |- context [Z.testbit (Zpos ?p) ?i] => let b := eval compute in (Z.testbit (Zpos p) i) in change (Z.testbit (Zpos p) i) with b
  end.
(** Proves that a byte put together from fields of unpacked bytes is the byte it came from. *)
Ltac byte_bits :=
  apply byte_field; [repeat apply lor_byte; apply u8_byte | assumption |];
  let i := fresh "i" in let H := fresh "H" in intros i H; each_bit i H;
  repeat (first [rewrite Z.land_spec | rewrite Z.lor_spec | rewrite Z.shiftr_spec by lia | rewrite Z.shiftl_spec by lia
                | rewrite u8_bit by lia | rewrite Z.testbit_neg_r by lia]; bit_const; const_bit; cbn [andb orb]);
  repeat match goal with
  | H : is_byte ?t |- context [Z.testbit ?t ?i] => rewrite (small_bit t 8 i H) by lia
  end; rewrite ?orb_false_r, ?orb_false_l, ?andb_true_r, ?andb_false_r; done.

Lemma polyz_block_inv f g : (forall j, (j < 9)%nat -> is_byte (f j)) ->
  (forall j, (j < 4)%nat -> g j = at_ (polyz_unpack_block f) j) -> polyz_pack_block g = map f (seq 0 9).
Proof.
  intros Hf Hg. unfold polyz_pack_block. read_bytes Hg 4%nat. clear g Hg. unfold polyz_unpack_block. cbn [at_ nth map seq].
  assert (Hu : forall e, u32 (GAMMA1 - (GAMMA1 - Z.land e 0x3FFFF)) = Z.land e 0x3FFFF).
  { intros e. change 0x3FFFF with (Z.ones 18). rewrite land_mod by lia. change (2 ^ 18) with 262144.
    unfold u32. rewrite Z.mod_small; [lia|]. pose proof (Z.mod_pos_bound e 262144). lia. }
  rewrite !Hu. clear Hu.
  pose proof (Hf 0%nat ltac:(lia)). pose proof (Hf 1%nat ltac:(lia)). pose proof (Hf 2%nat ltac:(lia)).
  pose proof (Hf 3%nat ltac:(lia)). pose proof (Hf 4%nat ltac:(lia)). pose proof (Hf 5%nat ltac:(lia)).
  pose proof (Hf 6%nat ltac:(lia)). pose proof (Hf 7%nat ltac:(lia)). pose proof (Hf 8%nat ltac:(lia)). clear Hf.
  generalize dependent (f 0%nat). generalize dependent (f 1%nat). generalize dependent (f 2%nat). generalize dependent (f 3%nat).
  generalize dependent (f 4%nat). generalize dependent (f 5%nat). generalize dependent (f 6%nat). generalize dependent (f 7%nat).
  generalize dependent (f 8%nat). intros.
  repeat f_equal; byte_bits.
Qed.

Lemma polyz_pack_unpack b : length b = POLYZ_PACKEDBYTES -> bytes_ok b -> polyz_pack (polyz_unpack b) = b.
Proof.
  intros Hl Hb. rewrite <- (app_nil_r (polyz_unpack b)).
  apply (decode_encode 9 4 64 polyz_unpack_block polyz_pack_block is_byte);
    [done.. | apply polyz_block_inv | lia | done | exact Hb].
Qed.

(** Only the first 576 bytes are read. *)
Lemma polyz_unpack_take b : (POLYZ_PACKEDBYTES <= length b)%nat -> polyz_unpack b = polyz_unpack (take POLYZ_PACKEDBYTES b).
Proof.
  intros Hl. unfold polyz_unpack.
  assert (H : forall i j, (i < N / 4)%nat -> (j < 9)%nat -> byte b (9 * i + j) = byte (take POLYZ_PACKEDBYTES b) (9 * i + j)).
  { intros i j Hi Hj. symmetry. change (at_ (take POLYZ_PACKEDBYTES b) (9 * i + j) = at_ b (9 * i + j)). apply at_take.
    change (N / 4)%nat with 64%nat in Hi. unfold POLYZ_PACKEDBYTES. lia. }
  rewrite !flat_map_concat_map. f_equal. apply map_ext_in. intros i Hi. apply in_seq in Hi.
  unfold polyz_unpack_block. rewrite !(H i) by lia. done.
Qed.

(** The arrays of a buffer, one after the other. *)
Lemma arrays_concat size n : forall a, length a = (n * size)%nat ->
  flat_map (fun i => take size (nth_array a size i)) (seq 0 n) = a.
Proof.
  induction n as [|n IH]; intros a Hl; [destruct a; done|]. cbn [seq flat_map].
  unfold nth_array at 1. cbn [Nat.mul]. rewrite drop_0. transitivity (take size a ++ drop size a); [|apply take_drop]. f_equal.
  rewrite <- seq_shift, flat_map_concat_map, map_map, <- flat_map_concat_map.
  etransitivity; [|apply (IH (drop size a)); rewrite length_drop, Hl; lia].
  rewrite !flat_map_concat_map. f_equal. apply map_ext. intros i. unfold nth_array. rewrite drop_drop. f_equal.
Qed.

Lemma response_pack_unpack a : length a = (L * POLYZ_PACKEDBYTES)%nat -> bytes_ok a -> forall rest,
  flat_map polyz_pack (map (fun i => polyz_unpack (nth_array (a ++ rest) POLYZ_PACKEDBYTES i)) (seq 0 L)) = a.
Proof.
  intros Hl Hb rest. rewrite flat_map_concat_map, map_map, <- flat_map_concat_map.
  etransitivity; [|exact (arrays_concat POLYZ_PACKEDBYTES L a Hl)]. rewrite !flat_map_concat_map. f_equal.
  apply map_ext_in. intros i Hi. apply in_seq in Hi. change L with 4%nat in Hi, Hl. unfold POLYZ_PACKEDBYTES in *.
  assert (E : take 576 (nth_array (a ++ rest) 576 i) = take 576 (nth_array a 576 i)).
  { unfold nth_array. rewrite drop_app_le by lia. rewrite take_app_le by (rewrite length_drop; lia). done. }
  rewrite polyz_unpack_take by (unfold nth_array, POLYZ_PACKEDBYTES; rewrite length_drop, length_app; lia).
  unfold POLYZ_PACKEDBYTES. rewrite E. apply polyz_pack_unpack.
  - unfold nth_array, POLYZ_PACKEDBYTES. rewrite length_take, length_drop. lia.
  - unfold nth_array. apply Forall_take, Forall_drop, Hb.
Qed.

(** ** Sorted lists of positions *)

Lemma sorted_unique (l k : list nat) : StronglySorted lt l -> StronglySorted lt k -> (forall x, In x l <-> In x k) -> l = k.
Proof.
  intros Hl. revert k. induction Hl as [|x l Hl IH Hx]; intros [|y k] Hk H; [done | | |].
  - exfalso. apply (proj2 (H y)). left. done.
  - exfalso. apply (proj1 (H x)). left. done.
  - apply StronglySorted_inv in Hk as [Hk Hy]. rewrite List.Forall_forall in Hx, Hy.
    assert (x = y) as ->.
    { destruct (proj1 (H x) (or_introl eq_refl)) as [|Hxk]; [done|]. destruct (proj2 (H y) (or_introl eq_refl)) as [|Hyl]; [done|].
      specialize (Hy x Hxk). specialize (Hx y Hyl). lia. }
    f_equal. apply IH; [done|]. intros z. specialize (H z). cbn [In] in H. split; intros Hz.
    + destruct (proj1 H (or_intror Hz)) as [<-|]; [|done]. specialize (Hx y Hz). lia.
    + destruct (proj2 H (or_intror Hz)) as [<-|]; [|done]. specialize (Hy y Hz). lia.
Qed.

Lemma set_ones_hint ps : forall h : list Z, hint_poly h -> hint_poly (set_ones ps h).
Proof.
  induction ps as [|p ps IH]; intros h [Hl Hh]; [split; done|]. apply (IH (<[p := 1]> h)). split; [rewrite length_insert; done|].
  apply Forall_insert; [done | right; done].
Qed.
Lemma zero_hint : hint_poly (replicate N 0).
Proof. split; [done | apply Forall_replicate; left; done]. Qed.

Lemma positions_set_ones ps : StronglySorted lt ps -> Forall (fun p => p < N)%nat ps ->
  positions (set_ones ps (replicate N 0)) = ps.
Proof.
  intros Hs Hb. apply sorted_unique; [apply positions_sorted | exact Hs |]. intros x. rewrite in_positions.
  rewrite List.Forall_forall in Hb. specialize (Hb x). split.
  - intros [Hx Hc]. rewrite coeff_set_ones in Hc by (rewrite length_replicate; exact Hx).
    destruct (in_dec _ x ps); [done|]. destruct Hc. apply at_replicate.
  - intros Hx. specialize (Hb Hx). split; [exact Hb|]. rewrite coeff_set_ones by (rewrite length_replicate; exact Hb).
    destruct (in_dec _ x ps); [discriminate | done].
Qed.

(** ** What an accepted hint says *)

(** The positions of one row, from byte [j] on. *)
Definition row_positions (sig : bytes) (j n : nat) : list nat := map (fun i => Z.to_nat (byte sig i)) (seq j n).

Lemma unpack_hint_row_inv sig n : forall j k h h', (k <= j)%nat -> unpack_hint_row sig n j k h = Some h' ->
  h' = set_ones (row_positions sig j n) h /\
  forall i, (j <= i < j + n)%nat -> (k < i)%nat -> byte sig (i - 1) < byte sig i.
Proof.
  induction n as [|n IH]; intros j k h h' Hj; cbn [unpack_hint_row]; [intros [= <-]; split; [done | lia]|].
  destruct (_ && _) eqn:E; [discriminate|]. intros Hu. destruct (IH (S j) k _ _ ltac:(lia) Hu) as [-> Hi]. split; [done|].
  intros i Hi' Hk. destruct (decide (i = j)) as [->|]; [|apply Hi; lia].
  apply andb_false_iff in E as [E|E]; [apply Nat.ltb_ge in E; lia | apply Z.leb_gt in E; exact E].
Qed.

Lemma byte_range sig : bytes_ok sig -> forall i, 0 <= byte sig i < 256.
Proof.
  intros Hb i. unfold byte. destruct (decide (i < length sig)%nat); [|rewrite nth_overflow by lia; lia].
  apply (proj1 (List.Forall_nth _ _) Hb). done.
Qed.

Lemma row_sorted sig n : bytes_ok sig -> forall k,
  (forall i, (k <= i < k + n)%nat -> (k < i)%nat -> byte sig (i - 1) < byte sig i) ->
  StronglySorted lt (row_positions sig k n) /\ Forall (fun p => p < N)%nat (row_positions sig k n).
Proof.
  intros Hb. pose proof (byte_range sig Hb) as Hbyte.
  induction n as [|n IH]; intros k Hk; [split; constructor|]. unfold row_positions in *. cbn [seq map].
  destruct (IH (S k)) as [Hs Hn]; [intros i Hi Hi'; apply Hk; lia|]. split; [constructor; [done|] | constructor; [|done]].
  - destruct n as [|n]; [constructor|]. cbn [seq map] in *. apply StronglySorted_inv in Hs as [_ Hs].
    assert (H1 : byte sig k < byte sig (S k)) by (specialize (Hk (S k)); rewrite Nat.sub_succ, Nat.sub_0_r in Hk; apply Hk; lia).
    pose proof (Hbyte k). constructor; [lia|]. eapply List.Forall_impl; [|exact Hs]. cbn. intros. lia.
  - pose proof (Hbyte k). unfold N. lia.
Qed.

Lemma row_positions_nth sig j n i : bytes_ok sig -> (i < n)%nat -> Z.of_nat (nth i (row_positions sig j n) 0%nat) = byte sig (j + i).
Proof.
  intros Hb Hi. unfold row_positions. pose proof (byte_range sig Hb (j + i)) as Hr.
  rewrite (nth_indep _ 0%nat (Z.to_nat (byte sig 0))) by (rewrite length_map, length_seq; done).
  rewrite (map_nth (fun i => Z.to_nat (byte sig i))), seq_nth by done. lia.
Qed.

Lemma last_split {A} (d l r : list A) (x y : A) : l ++ [x] = d ++ y :: r ->
  (d = l /\ y = x) \/ exists r', l = d ++ y :: r'.
Proof.
  destruct r as [|z r _] using rev_ind; intros E.
  - apply app_inj_tail in E as [-> ->]. left. done.
  - rewrite app_comm_cons, app_assoc in E. apply app_inj_tail in E as [-> _]. right. eauto.
Qed.

Section rows_inv.
Context (pos : poly -> list nat).
Context (pos_set : forall ps, StronglySorted lt ps -> Forall (fun p => p < N)%nat ps -> pos (set_ones ps (replicate N 0)) = ps).

Lemma unpack_row_inv sig e k h : bytes_ok sig -> unpack_hint_row sig (e - k) k k (replicate N 0) = Some h ->
  hint_poly h /\ pos h = row_positions sig k (e - k).
Proof.
  intros Hb E. apply unpack_hint_row_inv in E as [-> Hi]; [|lia].
  destruct (row_sorted sig (e - k) Hb k Hi) as [Hs Hn]. split; [apply set_ones_hint, zero_hint | apply pos_set; done].
Qed.

Lemma unpack_rows_inv sig n : bytes_ok sig -> forall ds hs,
  unpack_hint_rows sig n (length ds) (length (flat_map pos ds)) = Some hs -> (length (flat_map pos ds) <= OMEGA)%nat ->
  (forall j, (j < length (flat_map pos ds))%nat -> byte sig j = Z.of_nat (nth j (flat_map pos ds) 0%nat)) ->
  (forall d h r, ds = d ++ h :: r -> byte sig (OMEGA + length d) = Z.of_nat (length (flat_map pos (d ++ [h])))) ->
  length hs = n /\ Forall hint_poly hs /\ hints_of pos sig (ds ++ hs).
Proof.
  intros Hb. induction n as [|n IH]; intros ds hs; cbn [unpack_hint_rows]; intros E Hl Hj Hc.
  - destruct (existsb _ _) eqn:Ez; [discriminate|]. injection E as <-. split; [done|]. split; [constructor|].
    rewrite app_nil_r. split; [exact Hl|]. split; [exact Hj|]. split; [|exact Hc]. intros j Hr.
    destruct (Z.eqb_spec (byte sig j) 0) as [|Hn]; [done|]. exfalso. rewrite <- not_true_iff_false, existsb_exists in Ez.
    apply Ez. exists j. split; [apply in_seq; lia | rewrite (proj2 (Z.eqb_neq _ _) Hn); done].
  - set (e := byte sig (OMEGA + length ds)) in *.
    destruct (Z.ltb_spec e (Z.of_nat (length (flat_map pos ds)))); [discriminate|].
    destruct (Z.ltb_spec (Z.of_nat OMEGA) e); [discriminate|]. cbn [orb] in E.
    destruct (unpack_hint_row sig _ _ _ _) as [h|] eqn:Eh; [|discriminate]. cbn [mbind option_bind] in E.
    destruct (unpack_hint_rows sig n _ _) as [hs'|] eqn:Er; [|discriminate]. cbn [mbind option_bind] in E. injection E as <-.
    destruct (unpack_row_inv sig _ _ h Hb Eh) as [Hh Hp].
    assert (Ef : flat_map pos (ds ++ [h]) = flat_map pos ds ++ pos h) by (rewrite flat_map_app; cbn [flat_map]; rewrite app_nil_r; done).
    assert (Lf : length (flat_map pos (ds ++ [h])) = Z.to_nat e)
      by (rewrite Ef, length_app, Hp; unfold row_positions; rewrite length_map, length_seq; lia).
    destruct (IH (ds ++ [h]) hs') as (Ln & Hhs & Ho).
    + rewrite Lf, length_app. cbn [length]. rewrite Nat.add_1_r. exact Er.
    + lia.
    + intros j Hj'. rewrite Ef. destruct (Nat.ltb_spec j (length (flat_map pos ds))) as [Hlt|Hge].
      * rewrite app_nth1 by done. apply Hj, Hlt.
      * rewrite app_nth2, Hp by done. rewrite row_positions_nth by (done || lia). f_equal. lia.
    + intros d y r Es. apply last_split in Es as [[-> ->]|[r' ->]]; [rewrite Lf; fold e; lia | apply (Hc d y r'); done].
    + split; [cbn [length]; lia|]. split; [constructor; done|]. rewrite <- app_assoc in Ho. exact Ho.
Qed.
End rows_inv.

(** Bytes that say [hs] are the encoding of [hs]. *)
Lemma hints_of_pack pos sig h0 h1 h2 h3 : length sig = (OMEGA + K)%nat -> hints_of pos sig [h0; h1; h2; h3] ->
  let n l := u8 (Z.of_nat (length (flat_map pos l))) in
  sig = hint_bytes (flat_map pos [h0; h1; h2; h3]) [n [h0]; n [h0; h1]; n [h0; h1; h2]; n [h0; h1; h2; h3]].
Proof.
  intros Ls H n. pose proof (hints_of_bytes pos h0 h1 h2 h3 (proj1 H)) as H'. cbv zeta in H'. fold n in H'.
  set (b := hint_bytes _ _) in *. destruct H as (Hl & Hb & Hz & Hc). destruct H' as (_ & Hb' & Hz' & Hc').
  apply eq_at; [rewrite Ls; symmetry; apply length_hint_bytes; done|]. intros i Hi. rewrite Ls in Hi.
  change (byte sig i = byte b i). destruct (Nat.ltb_spec i (length (flat_map pos [h0; h1; h2; h3]))) as [Hlt|Hge].
  - rewrite Hb, Hb' by done. done.
  - destruct (Nat.ltb_spec i OMEGA) as [Ho|Ho]; [rewrite Hz, Hz' by lia; done|].
    assert (Hi' : exists d h r, [h0; h1; h2; h3] = d ++ h :: r /\ i = (OMEGA + length d)%nat).
    { unfold K in Hi. destruct (decide (i = OMEGA + 0)%nat); [exists [], h0, [h1; h2; h3]; done|].
      destruct (decide (i = OMEGA + 1)%nat); [exists [h0], h1, [h2; h3]; done|].
      destruct (decide (i = OMEGA + 2)%nat); [exists [h0; h1], h2, [h3]; done|].
      exists [h0; h1; h2], h3, []. split; [done|]. cbn [length]. lia. }
    destruct Hi' as (d & h & r & E & ->). rewrite (Hc d h r E), (Hc' d h r E). done.
Qed.

Lemma unpack_hints_canonical sig h : length sig = (OMEGA + K)%nat -> bytes_ok sig -> unpack_hint_rows sig K 0 0 = Some h ->
  hint_vec h /\ (total_hints h <= OMEGA)%nat /\ pack_hints h = sig.
Proof.
  intros Hl Hb E. destruct (unpack_rows_inv positions positions_set_ones sig K Hb [] h E) as (Lh & Hh & Ho).
  - apply Nat.le_0_l.
  - intros j Hj. cbn in Hj. lia.
  - intros [|] ? ? Hd; discriminate Hd.
  - split; [split; done|]. split; [exact (proj1 Ho)|].
    destruct h as [|h0 [|h1 [|h2 [|h3 [|]]]]]; try discriminate Lh.
    rewrite (pack_hints_spec h0 h1 h2 h3 (proj1 Ho)). symmetry. exact (hints_of_pack positions sig h0 h1 h2 h3 Hl Ho).
Qed.

(** ** Signatures *)

Lemma pack_unpack_sig sig c z h : length sig = CRYPTO_BYTES -> bytes_ok sig -> unpack_sig sig = Some (c, z, h) ->
  pack_sig c z h = sig /\ length c = CTILDEBYTES /\ vec_in L (-131071) 131072 z /\ hint_vec h /\ (total_hints h <= OMEGA)%nat.
Proof.
  intros Hl Hb. unfold unpack_sig.
  set (b := drop CTILDEBYTES sig). assert (Lb : length b = (L * POLYZ_PACKEDBYTES + (OMEGA + K))%nat)
    by (unfold b; rewrite length_drop, Hl; done).
  set (hb := drop (L * POLYZ_PACKEDBYTES) b). destruct (unpack_hint_rows hb K 0 0) as [h'|] eqn:Eh; [|discriminate].
  cbn [mbind option_bind]. intros E. apply some_triple in E as (<- & <- & <-). rename h' into h.
  destruct (unpack_hints_canonical hb h) as (Hh & Ht & Ep);
    [unfold hb; rewrite length_drop, Lb; done | unfold hb, b; apply Forall_drop, Forall_drop, Hb | exact Eh |].
  assert (Lc : length (take CTILDEBYTES sig) = CTILDEBYTES) by (rewrite length_take, Hl; done).
  split; [|split; [exact Lc | split; [|split; [exact Hh | exact Ht]]]].
  - unfold pack_sig. rewrite take_ge by lia. rewrite Ep.
    assert (Ez : flat_map polyz_pack (map (fun i => polyz_unpack (nth_array b POLYZ_PACKEDBYTES i)) (seq 0 L)) =
        take (L * POLYZ_PACKEDBYTES) b).
    { assert (L1 : length (take (L * POLYZ_PACKEDBYTES) b) = (L * POLYZ_PACKEDBYTES)%nat) by (rewrite length_take, Lb; lia).
      assert (B1 : bytes_ok (take (L * POLYZ_PACKEDBYTES) b)) by (unfold b; apply Forall_take, Forall_drop, Hb).
      pose proof (response_pack_unpack _ L1 B1 (drop (L * POLYZ_PACKEDBYTES) b)) as R. rewrite take_drop in R. exact R. }
    rewrite Ez. unfold hb. rewrite (take_drop (L * POLYZ_PACKEDBYTES) b). unfold b. apply take_drop.
  - split; [done|]. apply List.Forall_map, List.Forall_forall. intros i _. apply polyz_unpack_ok.
Qed.

(** C15: signature encodings.  [unpack_sig] returns what [pack_sig] has encoded: 32 bytes, a response
    with coefficients of -2^17+1 .. 2^17, and hints with at most OMEGA ones; and every
    string of 2420 bytes that it accepts is the encoding of what it returns, so two
    strings that stand for the same signature are equal. *)
Theorem mldsa_signature_encoding :
  (forall c z h, length c = CTILDEBYTES -> vec_in L (-131071) 131072 z -> hint_vec h -> (total_hints h <= OMEGA)%nat ->
     unpack_sig (pack_sig c z h) = Some (c, z, h) /\ length (pack_sig c z h) = 2420%nat) /\
  (forall sig c z h, length sig = 2420%nat -> bytes_ok sig -> unpack_sig sig = Some (c, z, h) ->
     pack_sig c z h = sig /\ length c = CTILDEBYTES /\ vec_in L (-131071) 131072 z /\ hint_vec h /\ (total_hints h <= OMEGA)%nat).
Proof. split; [exact unpack_pack_sig | exact pack_unpack_sig]. Qed.

(** The second row repeats its position: a string that is not accepted; and one that is. *)
Definition sample_sig (p q : Z) : bytes :=
  replicate 32 9 ++ replicate 2304 77 ++ [5; p; q] ++ replicate 77 0 ++ [1; 3; 3; 3].
Lemma mldsa_signature_encoding_witness : unpack_sig (sample_sig 6 6) = None /\
  exists c z h, unpack_sig (sample_sig 6 8) = Some (c, z, h) /\ pack_sig c z h = sample_sig 6 8.
Proof.
  split; [vm_compute; reflexivity|]. destruct (unpack_sig (sample_sig 6 8)) as [[[c z] h]|] eqn:E; [|vm_compute in E; discriminate E].
  exists c, z, h. split; [reflexivity|].
  apply (proj2 mldsa_signature_encoding (sample_sig 6 8) c z h); [reflexivity | | exact E].
  assert (Hr : forall n b, is_byte b -> bytes_ok (replicate n b)) by (intros; apply Forall_replicate; done).
  unfold sample_sig, is_byte in *. repeat first [apply Forall_app_2 | apply Hr | apply List.Forall_cons | constructor]; lia.
Defined.
