(* ===== verification/KemCrypto.v ===== *)
(** * EDHOC method 4 over ML-KEM-768

    The class [Crypto] states what the EDHOC core expects of its key encapsulation
    mechanism.  Here the three calls are those of kem.c, on any implementation of
    symmetric.h and any generator: the laws of the class are discharged by the theorems
    on kem.c when the matrices can be sampled and no pair of coins gives more noise than
    decryption removes, and the handshake theorem holds over the C implementation. *)
From stdpp Require Import base numbers list option.
From Stdlib Require Import ZArith Lia.
From S2P Require Import Prelude Crypto Edhoc4 Edhoc4Facts Transform KemNtt KemNttFacts KemPoly KemPolyFacts KemCodecFacts Kem KemSymmetric KemScheme KemFacts.

Section over_mlkem.
Context {C : Crypto} {CL : CryptoLaws C} {S : Symmetric} {SL : SymmetricLaws S}.
Context (fuel : nat) (randombytes : nat -> rng -> Z * bytes * rng).

(** The calls of [C], with the key encapsulation of kem.c. *)
Definition mlkem_crypto : Crypto := {|
  rng := @rng C;
  randombytes_buf := randombytes_buf;
  crypto_hash_sha256 := crypto_hash_sha256;
  crypto_auth_hmacsha256 := crypto_auth_hmacsha256;
  aead_encrypt := aead_encrypt;
  aead_decrypt := aead_decrypt;
  crypto_scalarmult_base := crypto_scalarmult_base;
  crypto_scalarmult := crypto_scalarmult;
  mlkem_keypair := crypto_kem_keypair fuel randombytes;
  mlkem_enc := crypto_kem_enc fuel randombytes;
  mlkem_dec := crypto_kem_dec fuel;
  mldsa_keypair := mldsa_keypair;
  mldsa_sign := mldsa_sign;
  mldsa_verify := mldsa_verify;
  ed25519_keypair := ed25519_keypair;
  ed25519_sign := ed25519_sign;
  ed25519_verify := ed25519_verify
|}.

(** The generator fills its buffer. *)
Definition fills : Prop := forall n r, bytes_n n (snd (fst (randombytes n r))).
(** No coins that the generator gives, one for a key pair and one for an
    encapsulation, add up to more noise than decryption removes. *)
Definition small_noise : Prop := forall r r1 pk sk w,
  let kcoins := snd (fst (randombytes (2 * KYBER_SYMBYTES)%nat r)) in
  let coins := snd (fst (randombytes KYBER_SYMBYTES r1)) in
  crypto_kem_keypair_derand fuel kcoins = Some (pk, sk) ->
  decryption_noise fuel kcoins coins pk (drop 32 (hash_g (coins ++ hash_h pk))) = Some w ->
  bounded 831 (map cmod w).

Hypotheses (Hrb : fills) (Hen : forall seed, enough fuel seed) (Hnoise : small_noise).

Lemma enc_any m pk coins : exists c, indcpa_enc fuel m pk coins = Some c /\ bytes_n KYBER_CIPHERTEXTBYTES c.
Proof.
  destruct (gen_both fuel _ (Hen (snd (unpack_pk pk)))) as [_ [a Ea]].
  destruct (indcpa_enc fuel m pk coins) as [c|] eqn:E; [exists c; split; [done | apply (indcpa_enc_bytes _ _ _ _ _ E)]|].
  exfalso. unfold indcpa_enc, indcpa_enc_polys in E. rewrite (surjective_pairing (unpack_pk pk)) in E.
  rewrite Ea in E. cbn [mbind option_bind] in E. discriminate E.
Qed.

Lemma zlen_bytes_n n b : bytes_n n b -> zlen b = Z.of_nat n.
Proof. intros [Hl _]. unfold zlen. rewrite Hl. done. Qed.

Lemma mlkem_keypair_law r : exists pk sk r', crypto_kem_keypair fuel randombytes r = (Some (pk, sk), r') /\
  zlen pk = 1184 /\ zlen sk = 2400.
Proof.
  pose proof (Hrb (2 * KYBER_SYMBYTES)%nat r) as Hb. unfold crypto_kem_keypair.
  destruct (randombytes (2 * KYBER_SYMBYTES)%nat r) as [[rc coins] r']. cbn [fst snd] in Hb.
  destruct (indcpa_keypair_total fuel coins (Hen _)) as (t & dk & Ek & _).
  pose proof (kem_keypair_of fuel _ _ _ Ek) as Hk. destruct (kem_keypair_parts fuel _ _ _ Hb Hk) as (dk' & _ & Es & Hp & Hd & Hz).
  eexists _, _, r'. rewrite Hk. split; [reflexivity|]. split; [exact (zlen_bytes_n _ _ Hp)|].
  rewrite Es, !zlen_app, (zlen_bytes_n _ _ Hp), (zlen_bytes_n _ _ Hd), (zlen_bytes_n _ _ Hz), (zlen_bytes_n _ _ (hash_h_ok _)).
  reflexivity.
Qed.

Lemma mlkem_enc_law pk r : exists ct ss r', crypto_kem_enc fuel randombytes pk r = (Some (ct, ss), r') /\
  zlen ct = 1088 /\ zlen ss = 32.
Proof.
  pose proof (Hrb KYBER_SYMBYTES r) as Hb. unfold crypto_kem_enc.
  destruct (randombytes KYBER_SYMBYTES r) as [[rc coins] r']. cbn [fst snd] in Hb.
  destruct (enc_any coins pk (drop 32 (hash_g (coins ++ hash_h pk)))) as (ct & Ec & Hc).
  rewrite (kem_enc_of fuel _ _ _ Hb Ec). eexists _, _, r'. split; [reflexivity|]. split; [exact (zlen_bytes_n _ _ Hc)|].
  destruct (hash_g_ok (coins ++ hash_h pk)) as [Lg _]. unfold zlen. rewrite length_take, Lg. reflexivity.
Qed.

Lemma mlkem_dec_law r pk sk r' r1 ct ss r2 :
  crypto_kem_keypair fuel randombytes r = (Some (pk, sk), r') ->
  crypto_kem_enc fuel randombytes pk r1 = (Some (ct, ss), r2) ->
  crypto_kem_dec fuel ct sk = Some ss.
Proof.
  pose proof (Hrb (2 * KYBER_SYMBYTES)%nat r) as Hk. pose proof (Hrb KYBER_SYMBYTES r1) as Hc.
  pose proof (Hnoise r r1 pk sk) as Hn. unfold crypto_kem_keypair, crypto_kem_enc.
  destruct (randombytes (2 * KYBER_SYMBYTES)%nat r) as [[rc kcoins] r0].
  destruct (randombytes KYBER_SYMBYTES r1) as [[rc1 coins] r3]. cbn [fst snd] in Hk, Hc, Hn.
  intros [= Ek _] [= Ee _].
  destruct (kem_keypair_parts fuel _ _ _ Hk Ek) as (dk & Ei & _).
  destruct (enc_any coins pk (drop 32 (hash_g (coins ++ hash_h pk)))) as (c & Ec & _).
  destruct (decryption_noise_some fuel kcoins _ _ _ _ Ec) as [w Ew].
  exact (kem_agrees fuel kcoins coins pk sk ct ss w Hk Hc Ek Ee Ew (Hn w Ek Ew)).
Qed.

#[local] Instance mlkem_crypto_laws : CryptoLaws mlkem_crypto.
Proof.
  destruct CL. constructor; try assumption.
  - exact mlkem_keypair_law.
  - exact mlkem_enc_law.
  - exact mlkem_dec_law.
Qed.

(** The handshake over kem.c.  When the generator fills its buffer, the matrices can be
    sampled, and no coins the generator gives add up to more noise than decryption
    removes, two peers whose credentials were made with the key encapsulation of kem.c
    complete the EDHOC method 4 handshake without an error, with messages of 2354, 6000,
    4975 and 1232 bytes, equal MSK, EMSK and TH4, and each other's next static key. *)
Theorem edhoc4_over_mlkem (idu ida : bytes) (ga gb : @rng C) (sa sb : st (C := mlkem_crypto) unit)
  (ue aaa : edhoc4_creds) (g : @rng C) :
  zlen idu = E4_ID_CRED -> zlen ida = E4_ID_CRED ->
  edhoc4_gen_creds (C := mlkem_crypto) 0 (Some idu) (tt, ga) = (Ok ue, sa) ->
  edhoc4_gen_creds (C := mlkem_crypto) 0 (Some ida) (tt, gb) = (Ok aaa, sb) ->
  exists ms i r g',
    edhoc4_handshake (C := mlkem_crypto) ((edhoc4_init_initiator ue (kem_pk aaa),
      edhoc4_init_responder aaa (kem_pk ue)), g) = (Ok ms, ((i, r), g')) /\
    map zlen ms = [2354; 6000; 4975; 1232] /\
    msk i = msk r /\ zlen (msk i) = 64 /\ emsk i = emsk r /\ th4 i = th4 r /\
    new_pk i = peer_new_pk r /\ new_pk r = peer_new_pk i /\ done i <> 0 /\ done r <> 0.
Proof. apply (handshake_agreed (C := mlkem_crypto) (CL := mlkem_crypto_laws)). Qed.
End over_mlkem.

(** ** A concrete instance *)

(** A generator that repeats one byte. *)
Definition repeat_byte (n : nat) (r : Z) : Z * bytes * Z := (0, replicate n (u8 r), r + 1).

Lemma repeat_fills : fills (C := toy_crypto) repeat_byte.
Proof. intros n r. cbn. split; [apply length_replicate | apply Forall_replicate, u8_byte]. Qed.

Lemma repeat_small_noise : small_noise (C := toy_crypto) (S := toy_symmetric) 0 repeat_byte.
Proof.
  intros r r1 pk sk w kcoins coins Hk Hw.
  destruct (kem_keypair_parts (SL := toy_symmetric_laws) 0 kcoins pk sk (repeat_fills _ _) Hk) as (dk & Ek & _).
  destruct (keypair_spec (SL := toy_symmetric_laws) 0 kcoins pk dk Ek) as (a & t & _ & Ep & _ & Ht & _).
  destruct (seeds_bytes (SL := toy_symmetric_laws) kcoins) as [[Lr _] _].
  exact (sparse_decryption_noise 0 kcoins coins pk _ w t _ Lr Ht Ep Hw).
Qed.

#[local] Definition sample_crypto : Crypto := mlkem_crypto (C := toy_crypto) (S := toy_symmetric) 0 repeat_byte.
Lemma sample_laws : CryptoLaws sample_crypto.
Proof.
  exact (mlkem_crypto_laws (CL := toy_laws) (SL := toy_symmetric_laws) 0 repeat_byte repeat_fills (toy_enough 0)
    repeat_small_noise).
Qed.
Lemma sample_creds (i g : Z) : exists k s, edhoc4_gen_creds (C := sample_crypto) 0 (Some [0; 0; i]) (tt, g) = (Ok k, s).
Proof.
  destruct (wp_run _ _ _ (gen_creds_wp (C := sample_crypto) (CL := sample_laws) tt g [0; 0; i] eq_refl)) as (k & s & E & _).
  exists k, s. exact E.
Qed.

Lemma edhoc4_over_mlkem_witness : exists ue aaa sa sb ms i r g',
  edhoc4_gen_creds (C := sample_crypto) 0 (Some [0; 0; 1]) (tt, 1) = (Ok ue, sa) /\
  edhoc4_gen_creds (C := sample_crypto) 0 (Some [0; 0; 2]) (tt, 2) = (Ok aaa, sb) /\
  edhoc4_handshake (C := sample_crypto) ((edhoc4_init_initiator ue (kem_pk aaa),
    edhoc4_init_responder aaa (kem_pk ue)), 40) = (Ok ms, ((i, r), g')) /\
  map zlen ms = [2354; 6000; 4975; 1232] /\ msk i = msk r.
Proof.
  destruct (sample_creds 1 1) as (ue & sa & Eu). destruct (sample_creds 2 2) as (aaa & sb & Ea).
  destruct (edhoc4_over_mlkem (CL := toy_laws) (SL := toy_symmetric_laws) 0 repeat_byte repeat_fills (toy_enough 0)
    repeat_small_noise [0; 0; 1] [0; 0; 2] 1 2 sa sb ue aaa 40 eq_refl eq_refl Eu Ea)
    as (ms & i & r & g' & E & Hl & Hm & _).
  exists ue, aaa, sa, sb, ms, i, r, g'. split_and!; assumption.
Defined.
