(* ===== verification/DsaCrypto.v ===== *)
(** * EDHOC method 4 over ML-KEM-768 and ML-DSA-44

    The signature calls of [Crypto] are those of sign.c, on any implementation of
    fips202.h and any generator: the laws of the class are discharged by the theorem on sign.c
    when key generation and signing under generated keys return.  With KemCrypto, the
    handshake theorem holds over the two C implementations the EDHOC core is linked to. *)
From stdpp Require Import base numbers list option.
From Stdlib Require Import ZArith Lia.
From S2P Require Import Prelude Crypto Edhoc4 Edhoc4Facts Kem KemSymmetric KemScheme KemFacts KemCrypto.
From S2P Require Import Keccak KeccakFacts DsaNtt DsaPoly Dsa DsaCodecFacts DsaPolyFacts DsaSampling DsaFacts.

(** ** The length of a signature under any key *)

Lemma length_pack_hint_row js h : forall st : bytes * nat,
  length (fst (fold_left (fun st j => let '(sig, k) := st in
    if coeff h j =? 0 then (sig, k) else (<[k := u8 (Z.of_nat j)]> sig, S k)) js st)) = length (fst st).
Proof.
  induction js as [|j js IH]; intros [sig k]; [done|]. cbn [fold_left]. rewrite IH.
  destruct (coeff h j =? 0); [done|]. cbn [fst]. apply length_insert.
Qed.
Lemma length_pack_rows (row : nat -> bytes * nat -> bytes * nat) idx : (forall i st, length (fst (row i st)) = length (fst st)) ->
  forall st, length (fst (fold_left (fun st i => let '(sig, k) := row i st in
    (<[(OMEGA + i)%nat := u8 (Z.of_nat k)]> sig, k)) idx st)) = length (fst st).
Proof.
  intros Hr. induction idx as [|i idx IH]; intros st; [done|]. cbn [fold_left]. rewrite IH. specialize (Hr i st).
  destruct (row i st) as [sig k]. cbn [fst] in *. rewrite length_insert. exact Hr.
Qed.
Lemma length_pack_hints h : length (pack_hints h) = (OMEGA + K)%nat.
Proof.
  exact (length_pack_rows (fun i => pack_hint_row (vec h i)) (seq 0 K) (fun i => length_pack_hint_row (seq 0 N) (vec h i))
    (replicate (OMEGA + K) 0, 0%nat)).
Qed.

Section over_mldsa.
Context {C : Crypto} {CL : CryptoLaws C} {H : Shake} {HL : ShakeLaws H}.
Context (fuel : nat) (randombytes : nat -> @rng C -> Z * bytes * @rng C).

Lemma signature_length m sk r sig r' : crypto_sign_signature fuel randombytes m sk r = (Some (Ok sig), r') ->
  length sig = CRYPTO_BYTES.
Proof.
  unfold crypto_sign_signature, crypto_sign_signature_ctx. change (255 <? zlen []) with false. cbn iota.
  destruct (randombytes RNDBYTES r) as [[rc rnd] r1].
  destruct (polyvec_matrix_expand fuel (sk_rho (unpack_sk sk))) as [mat|] eqn:Em; [|discriminate]. cbn [mbind option_bind].
  destruct (sign_loop fuel _ 0) as [s|] eqn:E; [|discriminate]. cbn [mbind option_bind]. intros [= <- _].
  apply sign_loop_accepts in E as [n E].
  apply attempt_accepted in E as (cp & y & z & w1 & w0 & h & A); [|apply (matrix_expand_ok fuel _ _ Em) | reflexivity..].
  rewrite (acc_sig _ _ _ _ _ _ _ _ _ _ _ _ _ A). unfold pack_sig.
  rewrite !length_app, length_take, commitment_length, (length_pack_vec _ _ _ length_polyz_pack), length_pack_hints,
    (acc_z _ _ _ _ _ _ _ _ _ _ _ _ _ A). reflexivity.
Qed.

(** The calls of [C], with the signatures of sign.c. *)
Definition mldsa_crypto : Crypto := {|
  rng := @rng C;
  randombytes_buf := randombytes_buf;
  crypto_hash_sha256 := crypto_hash_sha256;
  crypto_auth_hmacsha256 := crypto_auth_hmacsha256;
  aead_encrypt := aead_encrypt;
  aead_decrypt := aead_decrypt;
  crypto_scalarmult_base := crypto_scalarmult_base;
  crypto_scalarmult := crypto_scalarmult;
  mlkem_keypair := mlkem_keypair;
  mlkem_enc := mlkem_enc;
  mlkem_dec := mlkem_dec;
  mldsa_keypair := crypto_sign_keypair fuel randombytes;
  mldsa_sign m sk r := let '(ret, r') := crypto_sign_signature fuel randombytes m sk r in
    (match ret with Some (Ok sig) => Some sig | _ => None end, r');
  mldsa_verify sig m vk := bool_decide (crypto_sign_verify fuel sig m vk = Some 0);
  ed25519_keypair := ed25519_keypair;
  ed25519_sign := ed25519_sign;
  ed25519_verify := ed25519_verify
|}.

(** Key generation returns, and signing under the keys it returns. *)
Definition key_sampling : Prop := forall rnd, exists p, keypair_from fuel rnd = Some p.
Definition signing_returns : Prop := forall rnd pk sk m r, keypair_from fuel rnd = Some (pk, sk) ->
  exists sig r', crypto_sign_signature fuel randombytes m sk r = (Some (Ok sig), r').

Hypotheses (Hkey : key_sampling) (Hsign : signing_returns).

Lemma mldsa_keypair_law r : exists vk sk r', crypto_sign_keypair fuel randombytes r = (Some (vk, sk), r') /\
  zlen vk = 1312 /\ zlen sk = 2560.
Proof.
  unfold crypto_sign_keypair. destruct (randombytes SEEDBYTES r) as [[rc rnd] r'].
  destruct (Hkey rnd) as [[pk sk] E]. destruct (keypair_lengths fuel rnd pk sk E) as [Lp Ls].
  exists pk, sk, r'. rewrite E. split; [reflexivity|]. unfold zlen. rewrite Lp, Ls. done.
Qed.

(** Keys that [crypto_sign_keypair] returns come from a seed. *)
Lemma keypair_seed r pk sk r' : crypto_sign_keypair fuel randombytes r = (Some (pk, sk), r') ->
  exists rnd, keypair_from fuel rnd = Some (pk, sk).
Proof.
  unfold crypto_sign_keypair. destruct (randombytes SEEDBYTES r) as [[rc rnd] r0]. intros [= E _]. eauto.
Qed.

Lemma mldsa_sign_result m sk r sig r' : mldsa_sign (Crypto := mldsa_crypto) m sk r = (Some sig, r') ->
  exists r0, crypto_sign_signature fuel randombytes m sk r = (Some (Ok sig), r0).
Proof.
  cbn [mldsa_sign mldsa_crypto]. destruct (crypto_sign_signature fuel randombytes m sk r) as [[[s| |]|] r0]; intros [= <- _].
  eauto.
Qed.

#[local] Instance mldsa_crypto_laws : CryptoLaws mldsa_crypto.
Proof.
  destruct CL. constructor; try assumption.
  - exact mldsa_keypair_law.
  - intros m sk r sig r' E. apply mldsa_sign_result in E as [r0 E]. apply signature_length in E. unfold zlen. rewrite E. done.
  - intros r vk sk r' m r1 E. apply keypair_seed in E as [rnd E]. destruct (Hsign rnd vk sk m r1 E) as (sig & r2 & Es).
    exists sig, r2. cbn [mldsa_sign mldsa_crypto]. rewrite Es. done.
  - intros r vk sk r' m r1 sig r2 E Es. apply keypair_seed in E as [rnd E]. apply mldsa_sign_result in Es as [r0 Es].
    cbn [mldsa_verify mldsa_crypto]. apply bool_decide_eq_true_2.
    exact (proj2 (signed_then_verified fuel randombytes rnd vk sk m [] r1 sig r0 E Es)).
Qed.
End over_mldsa.

(** C14: the handshake over the two PQClean libraries.  When the generator fills its buffer, the
    loops of kem.c and sign.c that reject samples return within the fuel, signing included, and no
    coins the generator gives add up to more noise than decryption removes, two peers whose
    credentials were made with the key encapsulation of kem.c and the signatures of sign.c
    complete the EDHOC method 4 handshake without an error, with messages of 2354, 6000,
    4975 and 1232 bytes, equal MSK, EMSK and TH4, and each other's next static key. *)
Theorem edhoc4_over_pqclean {C : Crypto} {CL : CryptoLaws C} {S : Symmetric} {SL : SymmetricLaws S} {H : Shake} {HL : ShakeLaws H}
  (kem_fuel dsa_fuel : nat) (randombytes : nat -> @rng C -> Z * bytes * @rng C)
  (Hrb : fills randombytes) (Hen : forall seed, enough kem_fuel seed) (Hnoise : small_noise kem_fuel randombytes)
  (Hkey : key_sampling dsa_fuel) (Hsign : signing_returns dsa_fuel randombytes)
  (D := mldsa_crypto dsa_fuel randombytes) (P := mlkem_crypto (C := D) kem_fuel randombytes)
  (idu ida : bytes) (ga gb g : @rng C) (sa sb : st (C := P) unit) (ue aaa : edhoc4_creds) :
  zlen idu = E4_ID_CRED -> zlen ida = E4_ID_CRED ->
  edhoc4_gen_creds (C := P) 0 (Some idu) (tt, ga) = (Ok ue, sa) ->
  edhoc4_gen_creds (C := P) 0 (Some ida) (tt, gb) = (Ok aaa, sb) ->
  exists ms i r g',
    edhoc4_handshake (C := P) ((edhoc4_init_initiator ue (kem_pk aaa),
      edhoc4_init_responder aaa (kem_pk ue)), g) = (Ok ms, ((i, r), g')) /\
    map zlen ms = [2354; 6000; 4975; 1232] /\
    msk i = msk r /\ zlen (msk i) = 64 /\ emsk i = emsk r /\ th4 i = th4 r /\
    new_pk i = peer_new_pk r /\ new_pk r = peer_new_pk i /\ done i <> 0 /\ done r <> 0.
Proof.
  apply (handshake_agreed (C := P) (CL := mlkem_crypto_laws (C := D)
    (CL := mldsa_crypto_laws dsa_fuel randombytes Hkey Hsign) kem_fuel randombytes Hrb Hen Hnoise)).
Qed.

(** ** A concrete instance *)

Lemma zero_key_sampling : key_sampling (H := zero_shake) 1.
Proof.
  intros rnd. destruct (zero_signed sevens [] [] rnd ltac:(vm_compute; congruence)) as (pk & sk & E & _). eauto.
Qed.
Lemma zero_signing_returns : signing_returns (C := toy_crypto) (H := zero_shake) 1 repeat_byte.
Proof.
  intros rnd pk sk m r E. destruct (zero_signed repeat_byte m [] rnd ltac:(vm_compute; congruence)) as (pk' & sk' & E' & Hs).
  rewrite E in E'. injection E' as <- <-. apply Hs.
Qed.

#[local] Definition pqclean_crypto : Crypto :=
  mlkem_crypto (C := mldsa_crypto (C := toy_crypto) (H := zero_shake) 1 repeat_byte) (S := toy_symmetric) 0 repeat_byte.
Lemma pqclean_laws : CryptoLaws pqclean_crypto.
Proof.
  exact (mlkem_crypto_laws (C := mldsa_crypto (C := toy_crypto) (H := zero_shake) 1 repeat_byte)
    (CL := mldsa_crypto_laws (CL := toy_laws) (HL := zero_laws) 1 repeat_byte zero_key_sampling zero_signing_returns)
    (SL := toy_symmetric_laws) 0 repeat_byte repeat_fills (toy_enough 0) repeat_small_noise).
Qed.
Lemma pqclean_creds (i g : Z) : exists k s, edhoc4_gen_creds (C := pqclean_crypto) 0 (Some [0; 0; i]) (tt, g) = (Ok k, s).
Proof.
  destruct (wp_run _ _ _ (gen_creds_wp (C := pqclean_crypto) (CL := pqclean_laws) tt g [0; 0; i] eq_refl)) as (k & s & E & _).
  exists k, s. exact E.
Qed.

Lemma edhoc4_over_pqclean_witness : exists ue aaa sa sb ms i r g',
  edhoc4_gen_creds (C := pqclean_crypto) 0 (Some [0; 0; 1]) (tt, 1) = (Ok ue, sa) /\
  edhoc4_gen_creds (C := pqclean_crypto) 0 (Some [0; 0; 2]) (tt, 2) = (Ok aaa, sb) /\
  edhoc4_handshake (C := pqclean_crypto) ((edhoc4_init_initiator ue (kem_pk aaa),
    edhoc4_init_responder aaa (kem_pk ue)), 40) = (Ok ms, ((i, r), g')) /\
  map zlen ms = [2354; 6000; 4975; 1232] /\ msk i = msk r.
Proof.
  destruct (pqclean_creds 1 1) as (ue & sa & Eu). destruct (pqclean_creds 2 2) as (aaa & sb & Ea).
  destruct (edhoc4_over_pqclean (CL := toy_laws) (SL := toy_symmetric_laws) (HL := zero_laws) 0 1 repeat_byte repeat_fills
    (toy_enough 0) repeat_small_noise zero_key_sampling zero_signing_returns [0; 0; 1] [0; 0; 2] 1 2 40 sa sb ue aaa
    eq_refl eq_refl Eu Ea) as (ms & i & r & g' & E & Hl & Hm & _).
  exists ue, aaa, sa, sb, ms, i, r, g'. split_and!; assumption.
Defined.
